(* ===== verification/_CoqProject ===== *)
-Q . S2P
Prelude.v
Text.v
Json.v
JsonStream.v
JsonReader.v
JsonParser.v
JsonRoundtrip.v
JsonCanonical.v
JsonExamples.v
Graph.v
Sha256.v
StdJson.v
PyJson.v
ReceiptTruth.v
ReceiptReuse.v
Tables.v
Ledger.v
LedgerInv.v
LedgerProps.v
Checkpoints.v
Scheduler.v
SchedulerProps.v
History.v
LedgerExamples.v
Kahn.v
Paths.v
ScalePolicy.v
Backend.v
WorkPlan.v
Topological.v
ShardProps.v
PlanNodes.v
PlanProps.v
PlanLedger.v
WorkPlanExamples.v
RWLock.v
RWLockProps.v
CapacityGate.v
RLocks.v
ProjectLock.v
ExecutionBudget.v
ConcurrencyExamples.v
Tarjan.v
TarjanProps.v
ArtifactGraph.v
ArtifactClosures.v
ArtifactExamples.v
ModOutputScope.v
Replace.v
ResidualContract.v
TypedResources.v
ProjectMutation.v
SourcePatch.v
SourcePatchProps.v
PatchTransactions.v
PatchExamples.v
TinyMappings.v
GenericSignature.v
SignatureExamples.v
DependencyResolver.v
DeadlineExecutor.v
ModelMap.v
LlamaSse.v
ExecutorExamples.v
TargetContract.v
TargetExamples.v
ArtifactPorts.v
ArtifactJob.v
JobGraph.v
GraphExecutor.v
GraphPipeline.v
GraphExecutorProps.v
GraphExamples.v
SpecIdentity.v
Specification.v
Knowledge.v
CompleteProposal.v
Approval.v
ProposalExamples.v
