(* ===== verification/Prelude.v ===== *)
(** * M.M.M (Make Mincraft Mode): verification of the production core

    M.M.M turns an approved proposal (a mod's modules, their configuration and
    acceptance tests) into a Minecraft mod.  Between the proposal and the packaged
    release lie the parts verified here, all under [src/minecraft_mod_ai/]: the
    proposal is validated, hashed over its canonical JSON text and approved by that
    hash; its modules are ordered, sharded
    and compiled into a graph of work nodes; the graph is stored in an SQLite ledger
    from which workers claim nodes under leases; a finished node is recorded with a
    receipt that carries the verifier's evidence and is checked again whenever it is
    read.

    ** Files

    Proposals, [spec.py], [spec_identity.py], [knowledge.py] and [complete_spec.py], with the
    checks of two kinds of module in [local_ai_sidecar_generator.py] and
    [research_ledger.py]: [SpecIdentity] has the identifier that any text is given, and proves
    its form; [Specification] the mod with the platform it is locked to, the catalogue of
    trusted evidence, and the base proposal with its hash; [Knowledge] the choice of evidence,
    and proves that validation trusts what is chosen; [CompleteProposal] the modules, the
    complete proposal, its validation, hash and approval.  [Approval] proves that a shown
    proposal is approved with its own hash only, that the hash determines all that is built,
    and that what validation accepts is ordered by [WorkPlan] and routed by [Backend].

    Foundations: this file ([res] for calls that raise, [let*], tactics, sorting),
    [Text] (strings as code points, order, [strip], decimal numbers), [Json] (values,
    numbers, [json_canonical], the reference definition of the canonical text),
    [PyJson] (truth, [str], [int] and lookups on dynamic values), [Tables] (SQL
    statements on a keyed table, transactions), [Graph] (reachability as a closure),
    [Sha256], [Paths] (the parts of a path), [Replace] ([str.count] and [str.replace],
    with the text between the matches as their specification).

    Canonical JSON, [json_stream.py]: [JsonStream] has the generator over a heap of
    Python objects (sharing and cycles are possible), the chunk reader with its
    incremental UTF-8 decoder and the recursive-descent parser; [JsonReader],
    [JsonParser], [JsonRoundtrip] and [JsonCanonical] prove that chunk boundaries do
    not matter, that parsing terminates and inverts the generator, and that the
    generator yields the reference text or one of two errors.  [StdJson] is
    [spec.canonical_json] ([json.dumps]) with [json.loads], and their round trip.

    Receipts, [verifier_receipt_truth_contract.py]: [ReceiptTruth] has the evidence a
    verifier attaches and the test of a stored receipt; [ReceiptReuse] proves that the
    second accepts what the first made, and only with evidence that would be given
    again.

    Durable ledger, [work_graph.py] ([DurableWorkLedger]) and
    [work_graph_receipt_read.py]: [Ledger] has the database and one definition per
    method; an operation that reads before it takes the write lock, such as a read that
    finds a damaged receipt, is given what other connections do in between ([env],
    [gaps]).  [LedgerInv] and [LedgerProps] prove the
    invariant and what claims, successes, replanning and invalidation do,
    [Checkpoints] the named checkpoints and cancellation.

    Scheduling, [scheduler_parallel_safety_contract.py] and
    [scheduler_claim_fencing_contract.py]: [Scheduler] has the admission by lane, the
    leases and the fenced publication; [SchedulerProps] proves admission and priority;
    [History] is the transition system of all operations, interleaved in any order and
    in the gaps of those that read before they write, with the invariant on every
    reachable database and the fencing of lost claims.  It leaves out two races (a retry
    with a success of its task, and a change of the edges while a read resets a damaged
    receipt) and plans that change the dependencies of a node but not its input hash;
    [LedgerExamples] shows what the races do.  Fencing holds while no plan drops the task.

    Plan construction, [work_graph.py], [complete_spec.py],
    [platform_backend_contract.py], [production_routing_contract.py] and
    [scale_policy.py]: [Kahn] is the counting both orderings share, [ScalePolicy] the
    limits, [Backend] the capabilities and routes of module kinds, [WorkPlan] the
    topological order and the shards, [PlanNodes] the nodes and the plan.
    [Topological] proves the order least-first among the available modules and
    independent of the proposal's order, [ShardProps] that shards keep every module,
    their limits and the dependencies, [PlanProps] that the plan is ordered, has
    distinct nodes and carries dependencies and exclusive anchors, and [PlanLedger]
    that the ledger stores it and that work on it cannot get stuck.

    Concurrency, [model_concurrency.py], [project_write_lock.py] and
    [project_lock_state.py]: [RWLock] has the readers-writer lock with the threads that
    wait on its condition, [RWLockProps] its exclusion, progress and the accounting of
    reads, and what an abandoned call breaks; [CapacityGate] is the gate and its
    theorem; [RLocks] are dictionaries of re-entrant locks, shared by [ProjectLock], the
    coarse lock and the transactions on paths of a project, and by [ExecutionBudget],
    the tree of deadlines and cancellations with the threads that publish under it.
    [ProjectLock] proves exclusion and that paths taken in order do not deadlock,
    [ExecutionBudget] that nothing is published under a cancelled budget.  Each of
    these is a transition system: an event is what one thread does while it holds the
    internal lock of the object, and a schedule is any sequence of events.

    Artifact graph, [artifact_dependency_graph.py]: [Tarjan] is the search of
    [compute_scc], on any graph; [TarjanProps] proves with its invariant (the stack, the
    calls under way, the components found) that it ends with the strongly connected
    components in reverse topological order.  [ArtifactGraph] has the nodes, the linking
    of references, completeness, the condensation and the closures, and proves that
    building never fails; [ArtifactClosures] that the closures are the reachable sets.

    Source patches, [source_patch.py], [project_mutation.py], [mod_output_scope.py],
    [residual_generation_contract.py] and [typed_resources.py]: [SourcePatch] has the
    transaction from the JSON operations to the receipt, on a file system that maps
    paths to entries: normalisation, staging, the commit by one thread or by the pool,
    which finishes in any order, and the rollback.  It calls [ModOutputScope] (the paths
    a mod may not write), [ResidualContract] (the gate of a generation's contracts),
    [TypedResources] (the check of a JSON file, and of a Gradle script), [ProjectLock]
    (the keys of the paths) and [ProjectMutation] (the revisions of the owner).
    [SourcePatchProps] proves that normalisation returns the well-formed operations and
    what an edit does, [PatchTransactions] that a transaction applies every operation that
    names its file alone, or none; the theorems of [ResidualContract] say which writes pass the gate, those of
    [TypedResources] what a parsed resource is and that an accepted script can be extended.

    Mappings and signatures, [tiny_mappings.py] and [java_generic_signature.py]:
    [TinyMappings] reads a Tiny v2 file and translates names and descriptors between
    namespaces, with the round trips of reversible names; [GenericSignature] is the parser of generic
    signatures, which accepts its grammar and ends.

    Parallel model calls, [deadline_executor.py] and [parallel_model_tasks.py]:
    [DeadlineExecutor] has the window of submitted items, the wait during which workers
    renew their leases (the budgets of [ExecutionBudget]), the delivery of what is done and
    the shutdown; its theorems account for every submitted item and say that what is
    abandoned cannot publish.  [ModelMap] is the map of model calls over it, which returns
    what the serial map returns.

    Targets and dependencies, [target_contract.py] and [dependency_resolver.py]:
    [TargetContract] has the coordinates of a target and the validation of a complete one,
    whose result is canonical; [DependencyResolver] has the registry, the resolution of a
    name for a loader and a version of the game, and the injection of the resolved
    dependencies into a Gradle script, and proves that what was resolved can be injected,
    once.

    Model server, [llama_sse_protocol.py]: [LlamaSse] reads the errors of an event stream and
    searches the exceptions that wrap each other; its theorems give the shape of what is
    read, and say that the search ends and misses nothing.

    Artifact jobs, [artifact_ports.py], [artifact_job.py] and [artifact_graph_executor.py]:
    [ArtifactPorts] has the typed ports and their registry, [ArtifactJob] the jobs, their
    serialised form, their entrypoints and the validation of a graph of jobs (the counting of
    [Kahn] again), [GraphExecutor] the pipeline: the jobs that are ready wait in a heap for a
    generation worker, what they return is validated, and what a validated job releases
    becomes ready; its leases are the budgets of [ExecutionBudget].  Workers act in between
    ([worker_event]), in any order.  A published port never changes, and a job is read back
    as it was written; [JobGraph] proves what graphs are accepted,
    [GraphPipeline] the invariant of the pipeline and its progress, and [GraphExecutorProps]
    the order of the work, the result, that an accepted graph finishes, and that nothing is
    published after the end.

    [JsonExamples], [LedgerExamples], [WorkPlanExamples], [ConcurrencyExamples],
    [ArtifactExamples], [PatchExamples], [SignatureExamples], [TargetExamples],
    [ExecutorExamples], [GraphExamples] and [ProposalExamples] apply the theorems to concrete
    inputs.

    ** Parameters

    [PyFloat] stands for IEEE numbers and their [repr], [PyUnicode], [PyCasefold] and
    [PyIsDigit] for the case and digit tables of Unicode, [PyRepr] for [str] of a container,
    [PyUrl] for the host that [urlparse] finds in a network location with brackets or
    characters outside ASCII,
    [VerifierCode] for the digest of a verifier function's bytecode; the examples
    instantiate each.  The environment variables, the clock, the fingerprint of the
    implementation files, the actions of checkpoints, the calls of the operating system
    that fail during a patch and the order in which its pool finishes are arguments; so
    are [str.lower] and [str.casefold] of the artifact graph, and the function that
    renames the classes of a signature.  The executor is given what each future comes to,
    the time of each submission, the futures that are done and the time when each wait
    returns, and what its workers do to their leases meanwhile; the text of an exception is
    an argument too.  The pipeline of artifact jobs is likewise given what its workers return
    and publish, its waits, the clock and the files that exist; further the catalogue of
    templates, the version context that is read from a dictionary, the validator of the
    caller and the result of wiring the Java entrypoints.  The validation of a complete
    proposal is given the version context of its platform and of a dictionary and the check
    of the production contract ([authorities]), the hash of a proposal that of the manifest
    of capabilities, and the choice of evidence [str.lower].

    ** Fuel

    Definitions whose recursion is not structural take fuel, and a theorem says that
    it suffices: the parser gets more than the characters of its input
    ([JsonParser.parse_chunks_terminates]), the generator one more than the objects of
    the heap ([JsonCanonical.iter_canonical_json_errors]), the orderings the number of
    modules or shards ([Topological.selected_modules_spec],
    [ShardProps.module_shards_spec]), the walk to the owners of a budget the number of
    budgets ([ExecutionBudget.owners_of_closed]), Tarjan's recursion and the search
    of the condensation the number of nodes and of components
    ([ArtifactGraph.compute_scc_spec], [ArtifactClosures.directional_closures_spec]), the
    scanner of resources, the check of Gradle scripts and the parser of signatures the
    characters of their text ([TypedResources.strict_loads_terminates],
    [TypedResources.gradle_loop_enough], [GenericSignature.generic_contract_ends]).  The executor
    fills its window with one step more than the items that are left, and runs over the
    list of its waits: [ModelMap.model_map_serial] says how many are enough.  So does the
    pipeline of artifact jobs, where two for each job suffice
    ([GraphExecutorProps.validated_graph_finishes]); it fills its slots with as many steps as
    its heap has entries.  The search
    of a chain of errors pops at most one entry more than three for each error
    ([LlamaSse.recoverable_iff]).

    ** Not modelled

    The interpreter's recursion limit; the connection cache and the addition of
    missing columns to an old database; [export_receipts], which writes a file; the
    installers that patch methods at import time; the readers that make a proposal of a
    dictionary ([from_dict]), the compilation of a production contract and of a version
    context, the platform adapters; the
    assets of a proposal, which validation refuses.  The project locks leave the
    notifications out (a waiting thread may look at its condition at any time), and
    the budgets the clock: a time is an integer that an event is given.  A patch has the
    files to itself: what other processes write while it runs is left out, and so are its
    temporary files and the errors of reading.  The indented serialisation of resources and
    the dependency declarations of [typed_resources.py] are left out, as are the requirements
    that a residual contract carries for other readers.  Not modelled either are the lock
    around a callback of [parallel_model_tasks.py]; the regular
    expressions that find the references in a file and the namespace in its path, whose
    results are the input of [ArtifactGraph.build_from_files]; those that find the
    dependencies a donor declares; the record a target receipt is read into; the checkpoints of single artifact jobs; and the
    wiring of the Java classes that start a mod, which reads and writes files.  The generators of Java code
    and resources, the model adapters and the user interface are templates, network and
    process glue around this core. *)

From stdpp Require Import prelude gmap strings list sorting.

(** ** Results and exceptions

    A Python call returns a value or raises.  [res] is that sum; [exn] lists
    the exception classes the modelled code raises or catches.  The string of
    [WorkGraphError] and the like is the constant part of the message: the
    rendered identifiers are dropped. *)

(** [workspace_impact] of a [SourcePatchError]. *)
Inductive workspace_impact : Type := unchanged | rolled_back | drift | uncertain.

#[export] Instance workspace_impact_eq_dec : EqDecision workspace_impact.
Proof. solve_decision. Defined.

Inductive exn : Type :=
  | WorkGraphError (why : string)
  | VerifierReceiptTruthError (why : string)
  | ScalePolicyError (why : string)
  | SpecValidationError (why : string)
  | ProductionRoutingError (why : string)
  | MappingError (why : string)
  | ModOutputScopeError (why : string)
  | TargetContractError (why : string)
  | ArtifactGraphError (why : string)
  | PortConnectionError (why : string)
  | VersionContextError (why : string)
  | SourcePatchError (impact : workspace_impact) (why : string)
  | ParallelTaskError
  | ParallelExecutionTimeout
  | IndexError
  | OSError
  | ModelExecutionCancelled
  | ModelExecutionDeadlineExceeded
  | TimeoutError
  | CanonicalJsonError
  | StreamingJsonDecodeError
  | UnicodeDecodeError
  | JSONDecodeError
  | IntegrityError
  | ValueError
  | TypeError
  | KeyError
  | KeyboardInterrupt
  | RuntimeError (why : string)
  | OtherException (why : string)
  | OutOfFuel.

Inductive res (A : Type) : Type :=
  | Ok (a : A)
  | Err (e : exn).
Arguments Ok {A} a.
Arguments Err {A} e.

#[export] Instance exn_eq_dec : EqDecision exn.
Proof. solve_decision. Defined.

#[export] Instance res_eq_dec {A} `{!EqDecision A} : EqDecision (res A).
Proof. solve_decision. Defined.

#[export] Instance Ok_inj {A} : Inj (=) (=) (@Ok A).
Proof. by intros ?? [=]. Qed.

Definition res_bind {A B} (m : res A) (k : A -> res B) : res B :=
  match m with Ok a => k a | Err e => Err e end.

Declare Scope py_scope.
Delimit Scope py_scope with py.

Notation "'let*' x := m 'in' k" := (res_bind m (fun x => k))
  (at level 10, x pattern, m at level 100, k at level 200) : py_scope.

Fixpoint res_map_list {A B} (f : A -> res B) (l : list A) : res (list B) :=
  match l with
  | [] => Ok []
  | a :: l => res_bind (f a) (fun b => res_bind (res_map_list f l) (fun bs => Ok (b :: bs)))
  end.

Definition is_ok {A} (r : res A) : bool :=
  match r with Ok _ => true | Err _ => false end.

(** ** Tactics *)

(** Splits the innermost match of the goal or of a hypothesis, keeping the
    equation. *)
Ltac case_goal :=
  match goal with
  | |- context [match ?x with _ => _ end] =>
      lazymatch x with context [match _ with _ => _ end] => fail | _ => destruct x eqn:? end
  end.

Ltac case_hyp H :=
  match type of H with
  | context [match ?x with _ => _ end] =>
      lazymatch x with context [match _ with _ => _ end] => fail | _ => destruct x eqn:? end
  end.

(** Closes a hypothesis [Ok _ = Err _] or unpacks [Ok _ = Ok _]. *)
Ltac res_inv :=
  repeat match goal with
  | H : Ok _ = Ok _ |- _ => injection H as H
  | H : Err _ = Err _ |- _ => injection H as H
  | H : Ok _ = Err _ |- _ => discriminate H
  | H : Err _ = Ok _ |- _ => discriminate H
  | H : Some _ = Some _ |- _ => injection H as H
  | H : Some _ = None |- _ => discriminate H
  | H : None = Some _ |- _ => discriminate H
  | H : (_, _) = (_, _) |- _ => injection H as H
  end; subst.

(** ** The result monad *)

Lemma res_bind_ok {A B} (m : res A) (k : A -> res B) (b : B) :
  res_bind m k = Ok b <-> exists a, m = Ok a /\ k a = Ok b.
Proof. destruct m; simpl; naive_solver. Qed.

Lemma res_bind_assoc {A B C} (m : res A) (f : A -> res B) (g : B -> res C) :
  res_bind (res_bind m f) g = res_bind m (fun a => res_bind (f a) g).
Proof. by destruct m. Qed.

Lemma res_map_list_ok {A B} (f : A -> res B) (l : list A) (bs : list B) :
  res_map_list f l = Ok bs <-> Forall2 (fun a b => f a = Ok b) l bs.
Proof.
  revert bs; induction l as [|a l IH]; intros bs; simpl.
  - split; [intros [= <-]; constructor | by inversion 1].
  - rewrite res_bind_ok. setoid_rewrite res_bind_ok. setoid_rewrite IH. split.
    + intros (b & Hb & bs' & Hbs & [= <-]). by constructor.
    + inversion 1; subst. naive_solver.
Qed.

Lemma res_map_list_app {A B} (f : A -> res B) (l1 l2 : list A) :
  res_map_list f (l1 ++ l2) =
  res_bind (res_map_list f l1) (fun b1 => res_bind (res_map_list f l2) (fun b2 => Ok (b1 ++ b2))).
Proof.
  induction l1 as [|a l1 IH]; simpl; [by destruct (res_map_list f l2)|].
  destruct (f a); simpl; [|done]. rewrite IH.
  destruct (res_map_list f l1); simpl; [|done]. by destruct (res_map_list f l2).
Qed.

(** ** Sorting: [sorted] and [ORDER BY] over a total order *)

Lemma sorted_perm_unique {A} (R : relation A)
    `{!RelDecision R, !Transitive R, !Total R, !AntiSymm (=) R} (l1 l2 : list A) :
  l1 ≡ₚ l2 -> merge_sort R l1 = merge_sort R l2.
Proof.
  intros Hp. apply (Sorted_unique R); [apply Sorted_merge_sort, _..|].
  by rewrite !merge_sort_Permutation.
Qed.

Lemma merge_sort_id {A} (R : relation A)
    `{!RelDecision R, !Transitive R, !Total R, !AntiSymm (=) R} (l : list A) :
  Sorted R l -> merge_sort R l = l.
Proof.
  intros Hs. apply (Sorted_unique R); [apply Sorted_merge_sort, _|done|].
  apply merge_sort_Permutation.
Qed.

(** ** Lists of lists *)

Lemma elem_of_concat {A} (ls : list (list A)) x : x ∈ concat ls <-> exists l, l ∈ ls /\ x ∈ l.
Proof. rewrite list_elem_of_In, in_concat. by setoid_rewrite list_elem_of_In. Qed.

Lemma concat_map_perm {A B} (f : A -> list B) l l' : l ≡ₚ l' -> concat (map f l) ≡ₚ concat (map f l').
Proof.
  induction 1 as [|x l l' _ IH|x y l|]; simpl; [done|by rewrite IH| |by etransitivity].
  by rewrite !(assoc_L (++)), (Permutation_app_comm (f y)).
Qed.

(** [tuple(dict.fromkeys(keys))]: the first occurrence of each. *)
Fixpoint from_keys {A} `{EqDecision A} (l : list A) : list A :=
  match l with
  | [] => []
  | k :: l => k :: filter (fun k' => k' <> k) (from_keys l)
  end.

Lemma elem_of_from_keys {A} `{EqDecision A} (l : list A) a : a ∈ from_keys l <-> a ∈ l.
Proof.
  induction l as [|b l IH]; cbn [from_keys]; [done|]. rewrite !elem_of_cons, list_elem_of_filter, IH.
  destruct (decide (a = b)); tauto.
Qed.

(** Preservation lemmas of the ledger's operations. *)
Create HintDb ledger discriminated.

Create Rewrite HintDb py_rw.
#[export] Hint Rewrite @res_bind_ok @res_map_list_ok : py_rw.
