(* ===== verification/Text.v ===== *)
(** * Text: Python strings

    A Python [str] is the list of its code points.  [u] writes an ASCII
    literal.  The order is the lexicographic order of code points: it is the
    order of Python's [sorted] on strings, and of SQLite's BINARY collation on
    their UTF-8 encodings. *)

From stdpp Require Import prelude gmap strings list sorting.
From S2P Require Import Prelude.

Open Scope Z_scope.

Abbreviation pystr := (list Z).

Definition u (s : string) : pystr :=
  map (fun a => Z.of_N (Ascii.N_of_ascii a)) (String.list_ascii_of_string s).

(** ** Order *)

Fixpoint str_leb (a b : pystr) : bool :=
  match a, b with
  | [], _ => true
  | _ :: _, [] => false
  | x :: a, y :: b => (x <? y) || ((x =? y) && str_leb a b)
  end.

Definition str_le (a b : pystr) : Prop := str_leb a b = true.

#[export] Instance str_le_dec : RelDecision str_le.
Proof. intros a b. unfold str_le. apply _. Defined.

Definition str_ltb (a b : pystr) : bool := negb (str_leb b a).

(** [sorted(set)] and [SELECT ... ORDER BY]: the distinct strings in order. *)
Definition sort_strs (l : list pystr) : list pystr := merge_sort str_le l.
Definition sorted_set (s : gset pystr) : list pystr := sort_strs (elements s).

(** ** Prefixes and white space *)

Fixpoint starts_with (p s : pystr) : bool :=
  match p, s with
  | [], _ => true
  | x :: p, y :: s => (x =? y) && starts_with p s
  | _ :: _, [] => false
  end.

(** [s.split(c, 1)[0]], and [s.split(c)[-1]], which is [s.rsplit(c, 1)[-1]]. *)
Fixpoint before_first (c : Z) (s : pystr) : pystr :=
  match s with [] => [] | x :: s => if x =? c then [] else x :: before_first c s end.

Definition after_last (c : Z) (s : pystr) : pystr := reverse (before_first c (reverse s)).

Definition contains (c : Z) (s : pystr) : bool := bool_decide (c ∈ s).

Definition starts_with_any (ps : list pystr) (s : pystr) : bool := existsb (fun p => starts_with p s) ps.

Definition ends_with (p s : pystr) : bool := starts_with (reverse p) (reverse s).

Fixpoint occurs (p s : pystr) : bool :=
  starts_with p s || match s with [] => false | _ :: s => occurs p s end.

(** [s.split(sep)] of a one-character separator. *)
Fixpoint split_on (sep : Z) (s : pystr) : list pystr :=
  match s with
  | [] => [[]]
  | c :: s =>
      if c =? sep then [] :: split_on sep s
      else match split_on sep s with p :: ps => (c :: p) :: ps | [] => [[c]] end
  end.

(** [str.isspace] of a character, and [str.strip()]. *)
Definition is_space (c : Z) : bool :=
  ((9 <=? c) && (c <=? 13)) || ((28 <=? c) && (c <=? 32)) ||
  bool_decide (c ∈ [0x85; 0xA0; 0x1680; 0x2028; 0x2029; 0x202F; 0x205F; 0x3000]) ||
  ((0x2000 <=? c) && (c <=? 0x200A)).

Fixpoint lstrip (s : pystr) : pystr :=
  match s with c :: s' => if is_space c then lstrip s' else s | [] => [] end.

Definition strip (s : pystr) : pystr := reverse (lstrip (reverse (lstrip s))).

(** [str.upper]: the ASCII letters are written out; the case mapping of the
    other characters is that of the Unicode database, a parameter. *)
Class PyUnicode := {
  upper_other : Z -> pystr;
  decimal_other : Z -> option Z
}.

Definition upper `{PyUnicode} (s : pystr) : pystr :=
  concat (map (fun c => if (97 <=? c) && (c <=? 122) then [c - 32]
                        else if c <? 128 then [c] else upper_other c) s).

(** [str.casefold], in the same way. *)
Class PyCasefold := { fold_other : Z -> pystr }.

Definition casefold `{PyCasefold} (s : pystr) : pystr :=
  concat (map (fun c => if (65 <=? c) && (c <=? 90) then [c + 32]
                        else if c <? 128 then [c] else fold_other c) s).

(** The case folding of SQLite's [LIKE], on ASCII letters only. *)
Definition ascii_lower (s : pystr) : pystr :=
  map (fun c => if (65 <=? c) && (c <=? 90) then c + 32 else c) s.

(** ** Decimal numerals: [str(n)] and [int(digits)] *)

Definition is_digit (c : Z) : bool := (48 <=? c) && (c <=? 57).

Fixpoint dec_digits (fuel : nat) (n : Z) : pystr :=
  match fuel with
  | O => []
  | S f => if n <? 10 then [48 + n] else dec_digits f (n / 10) ++ [48 + n mod 10]
  end.

(** [n] has at most [log2 n + 1] decimal digits: the fuel is enough. *)
Definition dec_nat (n : Z) : pystr := dec_digits (S (Z.to_nat (Z.log2 n))) n.

Definition dec_int (z : Z) : pystr :=
  if z <? 0 then 45 :: dec_nat (- z) else dec_nat z.

Definition dec_value (s : pystr) : Z := fold_left (fun a c => a * 10 + (c - 48)) s 0.

(** ** Lemmas *)

Lemma str_leb_refl a : str_leb a a = true.
Proof. induction a as [|x a IH]; simpl; [done|]. rewrite Z.eqb_refl, IH. by rewrite orb_true_r. Qed.

Lemma str_leb_trans a b c : str_leb a b = true -> str_leb b c = true -> str_leb a c = true.
Proof.
  revert b c; induction a as [|x a IH]; intros [|y b] [|z c]; simpl; try done.
  rewrite !orb_true_iff, !andb_true_iff, !Z.ltb_lt, !Z.eqb_eq.
  intros [?|[? ?]] [?|[? ?]]; subst; [left; lia..|]. right; eauto.
Qed.

Lemma str_leb_antisym a b : str_leb a b = true -> str_leb b a = true -> a = b.
Proof.
  revert b; induction a as [|x a IH]; intros [|y b]; simpl; try done.
  rewrite !orb_true_iff, !andb_true_iff, !Z.ltb_lt, !Z.eqb_eq.
  intros [?|[? ?]] [?|[? ?]]; subst; try lia. f_equal; auto.
Qed.

Lemma str_leb_total a b : str_leb a b = true \/ str_leb b a = true.
Proof.
  revert b; induction a as [|x a IH]; intros [|y b]; simpl; auto.
  rewrite !orb_true_iff, !andb_true_iff, !Z.ltb_lt, !Z.eqb_eq.
  destruct (Z.lt_trichotomy x y) as [?|[->|?]]; [auto| |auto].
  destruct (IH b); auto.
Qed.

#[export] Instance str_le_trans : Transitive str_le.
Proof. intros a b c. apply str_leb_trans. Qed.
#[export] Instance str_le_refl : Reflexive str_le.
Proof. intros a. apply str_leb_refl. Qed.
#[export] Instance str_le_antisymm : AntiSymm (=) str_le.
Proof. intros a b. apply str_leb_antisym. Qed.
#[export] Instance str_le_total : Total str_le.
Proof. intros a b. apply str_leb_total. Qed.

Lemma sorted_set_elem (s : gset pystr) x : x ∈ sorted_set s <-> x ∈ s.
Proof. unfold sorted_set, sort_strs. by rewrite merge_sort_Permutation, elem_of_elements. Qed.

Lemma sorted_set_NoDup (s : gset pystr) : NoDup (sorted_set s).
Proof. unfold sorted_set, sort_strs. rewrite merge_sort_Permutation. apply NoDup_elements. Qed.

Lemma lstrip_spec s : (forall c t, lstrip s = c :: t -> is_space c = false) /\ exists p, s = p ++ lstrip s.
Proof.
  induction s as [|x s [IH1 [p IH2]]]; [split; [done|by exists []]|]. simpl. destruct (is_space x) eqn:E.
  - split; [done|]. exists (x :: p). simpl. by f_equal.
  - split; [by intros c t [= <- <-]|by exists []].
Qed.

Lemma lstrip_fix s : (forall c t, s = c :: t -> is_space c = false) -> lstrip s = s.
Proof. destruct s as [|c t]; [done|]. intros Hs. simpl. by rewrite (Hs c t). Qed.

Lemma strip_idem s : strip (strip s) = strip s.
Proof.
  unfold strip. set (a := lstrip s). set (b := lstrip (reverse a)).
  assert (Hb : lstrip (reverse b) = reverse b).
  { apply lstrip_fix. intros c t E. destruct (proj2 (lstrip_spec (reverse a))) as [p Hp]. fold b in Hp.
    apply (f_equal reverse) in Hp. rewrite reverse_involutive, reverse_app, E in Hp.
    by apply (proj1 (lstrip_spec s) c (t ++ reverse p)). }
  rewrite Hb, reverse_involutive. f_equal. apply lstrip_fix. intros c t. apply (proj1 (lstrip_spec (reverse a))).
Qed.

Lemma starts_with_app p s : starts_with p (p ++ s) = true.
Proof. induction p; simpl; [done|]. by rewrite Z.eqb_refl. Qed.

Lemma starts_with_iff p s : starts_with p s = true <-> exists t, s = p ++ t.
Proof.
  split; [|intros [t ->]; apply starts_with_app].
  revert s; induction p as [|x p IH]; intros s; simpl; [by exists s|].
  destruct s as [|y s]; [done|]. rewrite andb_true_iff, Z.eqb_eq.
  intros [-> H]. destruct (IH _ H) as [t ->]. by exists t.
Qed.

Lemma starts_with_stop c p t s : c ∉ p -> starts_with p (t ++ c :: s) = starts_with p t.
Proof.
  revert t. induction p as [|x p IH]; intros t Hp; [done|]. rewrite elem_of_cons in Hp.
  destruct t as [|d t]; cbn [app starts_with]; [|by rewrite IH by tauto].
  rewrite (proj2 (Z.eqb_neq x c)); [done|]. intros ->. tauto.
Qed.

Lemma dec_value_snoc s c : dec_value (s ++ [c]) = dec_value s * 10 + (c - 48).
Proof. unfold dec_value. by rewrite fold_left_app. Qed.

Lemma dec_digits_spec fuel n :
  0 <= n < 2 ^ Z.of_nat fuel ->
  dec_value (dec_digits fuel n) = n /\
  Forall (fun c => is_digit c = true) (dec_digits fuel n) /\
  (n = 0 \/ exists c s, dec_digits fuel n = c :: s /\ c <> 48) /\
  (fuel <> O -> dec_digits fuel n <> []).
Proof.
  revert n; induction fuel as [|f IH]; intros n Hn.
  { simpl in *. assert (n = 0) as -> by lia. repeat split; [constructor|by left|done]. }
  cbn [dec_digits]. destruct (n <? 10) eqn:E.
  - apply Z.ltb_lt in E. repeat split; [..|done].
    + unfold dec_value; simpl. lia.
    + constructor; [|constructor]. unfold is_digit.
      by rewrite andb_true_iff, !Z.leb_le; lia.
    + destruct (decide (n = 0)); [by left|right; exists (48 + n), []]. split; [done|lia].
  - apply Z.ltb_ge in E.
    assert (Hq : 0 <= n / 10 < 2 ^ Z.of_nat f).
    { split; [apply Z.div_pos; lia|]. apply Z.div_lt_upper_bound; [lia|].
      rewrite Nat2Z.inj_succ, Z.pow_succ_r in Hn by lia. lia. }
    pose proof (Z.mod_pos_bound n 10 ltac:(lia)).
    pose proof (Z.div_le_lower_bound n 10 1 ltac:(lia) ltac:(lia)).
    destruct (IH _ Hq) as (Hv & Hd & Hh & _). repeat split.
    + rewrite dec_value_snoc, Hv. pose proof (Z.div_mod n 10). lia.
    + apply Forall_app. split; [done|]. constructor; [|constructor].
      unfold is_digit. by rewrite andb_true_iff, !Z.leb_le; lia.
    + right. destruct Hh as [?|(c & s & -> & Hc)]; [lia|]. exists c, (s ++ [48 + n mod 10]). done.
    + intros _. by destruct (dec_digits f (n / 10)).
Qed.

Lemma dec_nat_spec n :
  0 <= n ->
  dec_value (dec_nat n) = n /\
  Forall (fun c => is_digit c = true) (dec_nat n) /\
  (n = 0 \/ exists c s, dec_nat n = c :: s /\ c <> 48) /\ dec_nat n <> [].
Proof.
  intros Hn. unfold dec_nat.
  destruct (dec_digits_spec (S (Z.to_nat (Z.log2 n))) n) as (? & ? & ? & ?).
  - split; [done|]. rewrite Nat2Z.inj_succ, Z2Nat.id by apply Z.log2_nonneg.
    destruct (decide (n = 0)) as [->|]; [done|]. apply Z.log2_spec. lia.
  - auto.
Qed.

Lemma dec_nat_0 : dec_nat 0 = [48].
Proof. reflexivity. Qed.
