(* ===== verification/Json.v ===== *)
(** * Json: JSON values, Python floats and the canonical text

    The value type the modelled code exchanges as JSON, dictionaries as
    insertion-ordered association lists, and the reference printer
    [json_canonical]: compact separators, keys in code-point order, non-ASCII
    text verbatim.  It is the tree-level specification of
    [json_stream.iter_canonical_json] and of [spec.canonical_json]. *)

From stdpp Require Import prelude gmap strings list sorting.
From S2P Require Import Prelude Text.

Open Scope Z_scope.

(** ** Python floats

    Conversion between binary64 numbers and decimal text is CPython's.  The
    model takes it as an interface: [PyFloatLaws] states what CPython documents
    of [repr] ("the shortest string that rounds to the same float"). *)

Definition take_digits (s : pystr) : pystr * pystr :=
  (fix go (s : pystr) : pystr * pystr :=
     match s with
     | c :: s' => if is_digit c then let p := go s' in (c :: p.1, p.2) else ([], s)
     | [] => ([], [])
     end) s.

(** The integer part of a JSON number, after the sign: [0] or a digit string
    that does not start with [0]. *)
Definition int_part (s : pystr) : option (pystr * pystr) :=
  match s with
  | c :: s' => if c =? 48 then Some ([48], s')
               else if is_digit c then Some (take_digits s) else None
  | [] => None
  end.

Definition frac_part (s : pystr) : pystr * pystr :=
  match s with
  | 46 :: s' => match take_digits s' with ([], _) => ([], s) | (d, r) => (46 :: d, r) end
  | _ => ([], s)
  end.

Definition exp_sign (s : pystr) : pystr * pystr :=
  match s with
  | 43 :: s' => ([43], s')
  | 45 :: s' => ([45], s')
  | _ => ([], s)
  end.

Definition exp_part (s : pystr) : pystr * pystr :=
  match s with
  | c :: s' =>
      if (c =? 101) || (c =? 69) then
        match exp_sign s' with
        | (sg, s'') => match take_digits s'' with
                       | ([], _) => ([], s)
                       | (d, r) => (c :: sg ++ d, r)
                       end
        end
      else ([], s)
  | [] => ([], [])
  end.

(** The number grammar of the standard [json] scanner (optional minus, integer
    part, optional fraction, optional exponent): sign, digits, fraction and
    exponent of a token it matches entirely. *)
Record number_parts : Type := NumberParts {
  np_negative : bool; np_int : pystr; np_frac : pystr; np_exp : pystr
}.

Definition number_sign (s : pystr) : bool * pystr :=
  match s with
  | c :: s' => if c =? 45 then (true, s') else (false, s)
  | [] => (false, s)
  end.

Definition split_number (s : pystr) : option number_parts :=
  let '(neg, s0) := number_sign s in
  match int_part s0 with
  | Some (i, s1) =>
      let '(f, s2) := frac_part s1 in
      let '(e, s3) := exp_part s2 in
      match s3 with [] => Some (NumberParts neg i f e) | _ => None end
  | None => None
  end.

Definition is_float_token (s : pystr) : bool :=
  match split_number s with
  | Some p => match np_frac p, np_exp p with [], [] => false | _, _ => true end
  | None => false
  end.

(** The characters a JSON number token is made of. *)
Definition is_number_char (c : Z) : bool :=
  is_digit c || bool_decide (c ∈ [45; 43; 46; 101; 69]).

(** CPython's [float]: [repr], [float(token)] and [int(f)] are those of the C
    implementation, a parameter; the laws are the documented grammar and round
    trip of [repr]. *)
Class PyFloat := {
  pyfloat : Type;
  pyfloat_eq_dec :: EqDecision pyfloat;
  float_finite : pyfloat -> bool;
  float_repr : pyfloat -> pystr;
  float_of_token : pystr -> pyfloat;
  float_trunc : pyfloat -> res Z
}.

Class PyFloatLaws `{PyFloat} : Prop := {
  float_repr_token f : float_finite f = true -> is_float_token (float_repr f) = true;
  float_repr_roundtrip f : float_finite f = true -> float_of_token (float_repr f) = f
}.

(** ** JSON values *)

Section values.
Context `{PyFloat}.

#[local] Unset Elimination Schemes.

Inductive json : Type :=
  | JNull
  | JBool (b : bool)
  | JInt (z : Z)
  | JFloat (f : pyfloat)
  | JStr (s : pystr)
  | JArr (l : list json)
  | JObj (l : list (pystr * json)).

#[local] Set Elimination Schemes.

Fixpoint json_ind (P : json -> Prop)
    (Hnull : P JNull) (Hbool : forall b, P (JBool b)) (Hint : forall z, P (JInt z))
    (Hfloat : forall f, P (JFloat f)) (Hstr : forall s, P (JStr s))
    (Harr : forall l, Forall P l -> P (JArr l))
    (Hobj : forall l, Forall (fun kv => P kv.2) l -> P (JObj l))
    (j : json) : P j :=
  match j with
  | JNull => Hnull
  | JBool b => Hbool b
  | JInt z => Hint z
  | JFloat f => Hfloat f
  | JStr s => Hstr s
  | JArr l =>
      Harr l ((fix go l : Forall P l :=
        match l with
        | [] => Forall_nil_2 _
        | x :: l => Forall_cons_2 _ x l (json_ind P Hnull Hbool Hint Hfloat Hstr Harr Hobj x) (go l)
        end) l)
  | JObj l =>
      Hobj l ((fix go l : Forall (fun kv => P kv.2) l :=
        match l with
        | [] => Forall_nil_2 _
        | x :: l => Forall_cons_2 _ x l (json_ind P Hnull Hbool Hint Hfloat Hstr Harr Hobj x.2) (go l)
        end) l)
  end.

(** [dict.get], [dict[key] = value] (an existing key keeps its position). *)
Fixpoint dict_get {V} (k : pystr) (l : list (pystr * V)) : option V :=
  match l with
  | [] => None
  | (k', v) :: l => if decide (k = k') then Some v else dict_get k l
  end.

Fixpoint dict_set {V} (k : pystr) (v : V) (l : list (pystr * V)) : list (pystr * V) :=
  match l with
  | [] => [(k, v)]
  | (k', v') :: l => if decide (k = k') then (k', v) :: l else (k', v') :: dict_set k v l
  end.

(** ** The reference printer *)

Definition max_str_digits : Z := 4300.

(** [str(int)]: CPython refuses more than [sys.get_int_max_str_digits()] digits. *)
Definition str_int (z : Z) : res pystr :=
  if max_str_digits <? Z.of_nat (length (dec_nat (Z.abs z))) then Err ValueError
  else Ok (dec_int z).

Definition hex_digit (d : Z) : Z := if d <? 10 then 48 + d else 87 + d.

Definition high_surrogate (c : Z) : bool := (0xD800 <=? c) && (c <=? 0xDBFF).
Definition low_surrogate (c : Z) : bool := (0xDC00 <=? c) && (c <=? 0xDFFF).
Definition combine_surrogates (hi lo : Z) : Z :=
  0x10000 + Z.shiftl (hi - 0xD800) 10 + (lo - 0xDC00).

Definition short_escape (c : Z) : option pystr :=
  if c =? 34 then Some (u "\" ++ [34])
  else if c =? 92 then Some (u "\\")
  else if c =? 8 then Some (u "\b")
  else if c =? 12 then Some (u "\f")
  else if c =? 10 then Some (u "\n")
  else if c =? 13 then Some (u "\r")
  else if c =? 9 then Some (u "\t")
  else None.

(** One character of a JSON string that is not half of a surrogate pair. *)
Definition escape_char (c : Z) : pystr :=
  match short_escape c with
  | Some e => e
  | None => if c <? 0x20 then u "\u00" ++ [hex_digit (c / 16); hex_digit (c mod 16)] else [c]
  end.

(** The characters between the quotes; a surrogate pair is written as the
    character it encodes and a lone surrogate is refused. *)
Fixpoint escape_string (s : pystr) : res pystr :=
  match s with
  | [] => Ok []
  | c :: s =>
      if high_surrogate c then
        match s with
        | lo :: s' =>
            if low_surrogate lo then
              res_bind (escape_string s') (fun t => Ok (combine_surrogates c lo :: t))
            else Err CanonicalJsonError
        | [] => Err CanonicalJsonError
        end
      else if low_surrogate c then Err CanonicalJsonError
      else res_bind (escape_string s) (fun t => Ok (escape_char c ++ t))
  end.

Definition json_string (s : pystr) : res pystr :=
  res_bind (escape_string s) (fun t => Ok (34 :: t ++ [34])).

Fixpoint join (sep : pystr) (l : list pystr) : pystr :=
  match l with
  | [] => []
  | [x] => x
  | x :: l => x ++ sep ++ join sep l
  end.

Definition by_key {V} (p q : pystr * V) : Prop := str_le p.1 q.1.
#[export] Instance by_key_dec {V} : RelDecision (@by_key V).
Proof. intros p q. unfold by_key. apply _. Defined.

Definition sort_items {V} (l : list (pystr * V)) : list (pystr * V) := merge_sort by_key l.

Definition member_text (kt : pystr * res pystr) : res pystr :=
  res_bind (json_string kt.1) (fun k => res_bind kt.2 (fun t => Ok (k ++ [58] ++ t))).

Fixpoint json_canonical (j : json) : res pystr :=
  match j with
  | JNull => Ok (u "null")
  | JBool b => Ok (if b then u "true" else u "false")
  | JInt z => str_int z
  | JFloat f => if float_finite f then Ok (float_repr f) else Err CanonicalJsonError
  | JStr s => json_string s
  | JArr l => res_bind (res_map_list json_canonical l) (fun ts => Ok ([91] ++ join [44] ts ++ [93]))
  | JObj l =>
      res_bind
        (res_map_list member_text (sort_items (map (fun kv => (kv.1, json_canonical kv.2)) l)))
        (fun ts => Ok ([123] ++ join [44] ts ++ [125]))
  end.

(** The value with the keys of every object in order: what a canonical text
    denotes.  Python's [==] on dictionaries does not see the difference. *)
Fixpoint json_sorted (j : json) : json :=
  match j with
  | JArr l => JArr (map json_sorted l)
  | JObj l => JObj (sort_items (map (fun kv => (kv.1, json_sorted kv.2)) l))
  | _ => j
  end.

(** A Python [str] whose code points are Unicode scalar values. *)
Definition scalar_value (c : Z) : bool :=
  (0 <=? c) && (c <? 0x110000) && negb (high_surrogate c) && negb (low_surrogate c).

Definition scalar_string (s : pystr) : bool := forallb scalar_value s.

(** The values the canonical text represents faithfully: integers CPython
    agrees to print, finite floats, strings without surrogates, distinct keys. *)
Fixpoint wf_json (j : json) : bool :=
  match j with
  | JNull | JBool _ => true
  | JInt z => Z.of_nat (length (dec_nat (Z.abs z))) <=? max_str_digits
  | JFloat f => float_finite f
  | JStr s => scalar_string s
  | JArr l => forallb wf_json l
  | JObj l =>
      bool_decide (NoDup (l.*1)) &&
      forallb (fun kv => scalar_string kv.1 && wf_json kv.2) l
  end.
End values.

Arguments dict_get {V} k l.
Arguments dict_set {V} k v l.
