(* ===== verification/JsonStream.v ===== *)
(** * JsonStream: [json_stream.py]

    The canonical JSON generator over Python objects, and the streaming parser
    over chunks of UTF-8 bytes. *)

From stdpp Require Import prelude gmap strings list sorting.
From S2P Require Import Prelude Text Json.

Open Scope Z_scope.

(** ** The generator: [iter_canonical_json]

    Python objects live in a heap so that sharing and cycles are visible: a
    container is a reference, [id] is the reference, and [active] is the set of
    the containers the generator is inside of. *)

Section generator.
Context `{PyFloat}.

Inductive pyval : Type :=
  | PNone
  | PBool (b : bool)
  | PInt (z : Z)
  | PFloat (f : pyfloat)
  | PStr (s : pystr)
  | PEnum (value : pyval)
  | PRef (id : positive)
  | PUnsupported.

Inductive pyobj : Type :=
  | ODataclass (fields : list (pystr * pyval))
  | OSequence (items : list pyval)
  | ODict (items : list (pyval * pyval)).

Abbreviation heap := (gmap positive pyobj).

(** [_iter_json_string]: fragments of at least [16 * 1024] characters, the
    last one shorter, between two quotes. *)
Definition string_chunk : Z := 16 * 1024.

Definition flush (buffer : pystr) : list pystr :=
  match buffer with [] => [] | _ => [buffer] end.

Fixpoint iter_json_string_loop (value buffer : pystr) : res (list pystr) :=
  let emit (escaped rest : pystr) (next : pystr -> res (list pystr)) :=
    let buffer := buffer ++ escaped in
    if string_chunk <=? Z.of_nat (length buffer)
    then res_bind (next []) (fun fs => Ok (buffer :: fs))
    else next buffer in
  match value with
  | [] => Ok (flush buffer ++ [[34]])
  | c :: value =>
      match short_escape c with
      | Some e => emit e value (iter_json_string_loop value)
      | None =>
          if high_surrogate c then
            match value with
            | [] => Err CanonicalJsonError
            | lo :: value =>
                if low_surrogate lo
                then emit [combine_surrogates c lo] value (iter_json_string_loop value)
                else Err CanonicalJsonError
            end
          else if low_surrogate c then Err CanonicalJsonError
          else if c <? 0x20
          then emit (u "\u00" ++ [hex_digit (c / 16); hex_digit (c mod 16)]) value
                    (iter_json_string_loop value)
          else emit [c] value (iter_json_string_loop value)
      end
  end.

Definition iter_json_string (value : pystr) : res (list pystr) :=
  res_bind (iter_json_string_loop value []) (fun fs => Ok ([34] :: fs)).

(** [isinstance(value, Enum)] comes first and recurses on [value.value]. *)
Fixpoint enum_value (v : pyval) : pyval :=
  match v with PEnum v => enum_value v | _ => v end.

Definition str_key (k : pyval) : option pystr :=
  match k with PStr s => Some s | _ => None end.

(** [","] between the members of a container: [if index: yield ","]. *)
Fixpoint comma_separated (members : list (list pystr)) : list pystr :=
  match members with
  | [] => []
  | [m] => m
  | m :: ms => m ++ [[44]] ++ comma_separated ms
  end.

(** [_iter_value], with its recursion through references bounded by [fuel]:
    each level enters one more container of the heap, so [S (size h)] is
    enough. *)
Fixpoint iter_value (fuel : nat) (h : heap) (v : pyval) (active : gset positive)
    : res (list pystr) :=
  match fuel with
  | O => Err OutOfFuel
  | S fuel =>
      let member active (kv : pystr * pyval) :=
        res_bind (iter_json_string kv.1) (fun k =>
        res_bind (iter_value fuel h kv.2 active) (fun t => Ok (k ++ [[58]] ++ t))) in
      match enum_value v with
      | PNone => Ok [u "null"]
      | PBool true => Ok [u "true"]
      | PBool false => Ok [u "false"]
      | PStr s => iter_json_string s
      | PInt z => res_bind (str_int z) (fun t => Ok [t])
      | PFloat f => if float_finite f then Ok [float_repr f] else Err CanonicalJsonError
      | PRef id =>
          match h !! id with
          | Some (ODataclass fields) =>
              if decide (id ∈ active) then Err CanonicalJsonError
              else res_bind (res_map_list (member ({[id]} ∪ active)) (sort_items fields))
                     (fun ms => Ok ([[123]] ++ comma_separated ms ++ [[125]]))
          | Some (OSequence items) =>
              if decide (id ∈ active) then Err CanonicalJsonError
              else res_bind (res_map_list (fun v => iter_value fuel h v ({[id]} ∪ active)) items)
                     (fun ms => Ok ([[91]] ++ comma_separated ms ++ [[93]]))
          | Some (ODict items) =>
              match mapM (fun kv => k ← str_key kv.1; Some (k, kv.2)) items with
              | None => Err CanonicalJsonError
              | Some items =>
                  if decide (id ∈ active) then Err CanonicalJsonError
                  else res_bind (res_map_list (member ({[id]} ∪ active)) (sort_items items))
                         (fun ms => Ok ([[123]] ++ comma_separated ms ++ [[125]]))
              end
          | None => Err CanonicalJsonError
          end
      | PEnum _ | PUnsupported => Err CanonicalJsonError
      end
  end.

Definition iter_canonical_json (h : heap) (v : pyval) : res (list pystr) :=
  iter_value (S (size h)) h v ∅.

Definition validate_canonical_json (h : heap) (v : pyval) : res unit :=
  res_bind (iter_canonical_json h v) (fun _ => Ok tt).

(** [canonical_json_sha256] feeds the digest in coalesced pieces. *)
Fixpoint coalesce (texts : list pystr) (buffer : list pystr) (buffered : Z) : list pystr :=
  match texts with
  | [] => match buffer with [] => [] | _ => [concat buffer] end
  | t :: texts =>
      let buffer := buffer ++ [t] in
      let buffered := buffered + Z.of_nat (length t) in
      if string_chunk <=? buffered then concat buffer :: coalesce texts [] 0
      else coalesce texts buffer buffered
  end.
End generator.

(** ** UTF-8: [codecs.getincrementaldecoder("utf-8")("strict")] and [str.encode]

    One step of the decoder on the bytes it holds: a character and the rest, the
    start of a sequence that more bytes may complete, or an error. *)

Inductive utf8_step : Type :=
  | Decoded (c : Z) (rest : list Z)
  | Incomplete
  | Malformed.

Definition continuation (b : Z) : bool := (0x80 <=? b) && (b <=? 0xBF).

(** The bytes that may follow a lead byte: no overlong form, no surrogate,
    nothing above U+10FFFF. *)
Definition second_byte (lead b : Z) : bool :=
  if lead =? 0xE0 then (0xA0 <=? b) && (b <=? 0xBF)
  else if lead =? 0xED then (0x80 <=? b) && (b <=? 0x9F)
  else if lead =? 0xF0 then (0x90 <=? b) && (b <=? 0xBF)
  else if lead =? 0xF4 then (0x80 <=? b) && (b <=? 0x8F)
  else continuation b.

Definition utf8_decode_step (bytes : list Z) : utf8_step :=
  match bytes with
  | [] => Incomplete
  | b0 :: r =>
      if (0 <=? b0) && (b0 <? 0x80) then Decoded b0 r
      else if (0xC2 <=? b0) && (b0 <=? 0xDF) then
        match r with
        | [] => Incomplete
        | b1 :: r => if continuation b1 then Decoded ((b0 - 0xC0) * 64 + (b1 - 0x80)) r else Malformed
        end
      else if (0xE0 <=? b0) && (b0 <=? 0xEF) then
        match r with
        | [] => Incomplete
        | b1 :: r =>
            if second_byte b0 b1 then
              match r with
              | [] => Incomplete
              | b2 :: r =>
                  if continuation b2
                  then Decoded ((b0 - 0xE0) * 4096 + (b1 - 0x80) * 64 + (b2 - 0x80)) r
                  else Malformed
              end
            else Malformed
        end
      else if (0xF0 <=? b0) && (b0 <=? 0xF4) then
        match r with
        | [] => Incomplete
        | b1 :: r =>
            if second_byte b0 b1 then
              match r with
              | [] => Incomplete
              | b2 :: r =>
                  if continuation b2 then
                    match r with
                    | [] => Incomplete
                    | b3 :: r =>
                        if continuation b3
                        then Decoded ((b0 - 0xF0) * 262144 + (b1 - 0x80) * 4096 +
                                      (b2 - 0x80) * 64 + (b3 - 0x80)) r
                        else Malformed
                    end
                  else Malformed
              end
            else Malformed
        end
      else Malformed
  end.

(** Decodes as much as possible: the characters and the undecoded tail.  Each
    step consumes a byte, so the length of the input is enough fuel. *)
Fixpoint utf8_run (fuel : nat) (bytes : list Z) : res (pystr * list Z) :=
  match fuel with
  | O => Ok ([], bytes)
  | S fuel =>
      match utf8_decode_step bytes with
      | Decoded c rest => res_bind (utf8_run fuel rest) (fun p => Ok (c :: p.1, p.2))
      | Incomplete => Ok ([], bytes)
      | Malformed => Err UnicodeDecodeError
      end
  end.

Definition utf8_partial (bytes : list Z) : res (pystr * list Z) :=
  utf8_run (length bytes) bytes.

(** [decode(bytes, final=True)]: an unfinished sequence is an error. *)
Definition utf8_decode (bytes : list Z) : res pystr :=
  res_bind (utf8_partial bytes)
    (fun p => match p.2 with [] => Ok p.1 | _ => Err UnicodeDecodeError end).

Definition utf8_encode_char (c : Z) : list Z :=
  if c <? 0x80 then [c]
  else if c <? 0x800 then [0xC0 + c / 64; 0x80 + c mod 64]
  else if c <? 0x10000 then [0xE0 + c / 4096; 0x80 + c / 64 mod 64; 0x80 + c mod 64]
  else [0xF0 + c / 262144; 0x80 + c / 4096 mod 64; 0x80 + c / 64 mod 64; 0x80 + c mod 64].

(** [str.encode("utf-8")]: a surrogate is an error. *)
Definition utf8_encode (s : pystr) : res (list Z) :=
  if forallb scalar_value s then Ok (concat (map utf8_encode_char s)) else Err ValueError.

(** ** The reader: [_Utf8ChunkReader] *)

(** What the chunk iterator yields: bytes, or something that is not bytes. *)
Inductive chunk : Type :=
  | Bytes (b : list Z)
  | NotBytes.

Record utf8_chunk_reader : Type := Reader {
  rd_chunks : list chunk;
  rd_pending : list Z;     (* the bytes the decoder holds *)
  rd_buffer : pystr;
  rd_position : nat;
  rd_finished : bool
}.

Definition new_reader (chunks : list chunk) : utf8_chunk_reader := Reader chunks [] [] 0 false.

(** The loop of [_fill], entered with an empty buffer. *)
Fixpoint fill_loop (chunks : list chunk) (pending : list Z) : res utf8_chunk_reader :=
  match chunks with
  | [] =>
      match pending with
      | [] => Ok (Reader [] [] [] 0 true)
      | _ => Err UnicodeDecodeError
      end
  | NotBytes :: _ => Err StreamingJsonDecodeError
  | Bytes b :: chunks =>
      res_bind (utf8_partial (pending ++ b))
        (fun p => match p.1 with
                  | [] => fill_loop chunks p.2
                  | _ => Ok (Reader chunks p.2 p.1 0 false)
                  end)
  end.

Definition reader_fill (r : utf8_chunk_reader) : res utf8_chunk_reader :=
  if (rd_position r <? length (rd_buffer r))%nat || rd_finished r then Ok r
  else fill_loop (rd_chunks r) (rd_pending r).

Definition reader_peek (r : utf8_chunk_reader) : res (option Z * utf8_chunk_reader) :=
  res_bind (reader_fill r)
    (fun r => if (length (rd_buffer r) <=? rd_position r)%nat then Ok (None, r)
              else Ok (rd_buffer r !! rd_position r, r)).

Definition reader_take (r : utf8_chunk_reader) : res (option Z * utf8_chunk_reader) :=
  res_bind (reader_peek r)
    (fun p => match p.1 with
              | None => Ok (None, p.2)
              | Some c =>
                  let r := p.2 in
                  Ok (Some c, Reader (rd_chunks r) (rd_pending r) (rd_buffer r)
                                     (S (rd_position r)) (rd_finished r))
              end).

(** What the parser needs of a reader. *)
Class CharReader (R : Type) := {
  peek : R -> res (option Z * R);
  take_char : R -> res (option Z * R)
}.

#[export] Instance utf8_chunk_reader_chars : CharReader utf8_chunk_reader :=
  {| peek := reader_peek; take_char := reader_take |}.

(** A reader at its simplest: the characters still to come, and the exception
    met after them if there is one. *)
Record stream : Type := Stream { st_chars : pystr; st_end : option exn }.

Definition stream_peek (s : stream) : res (option Z * stream) :=
  match st_chars s, st_end s with
  | c :: _, _ => Ok (Some c, s)
  | [], None => Ok (None, s)
  | [], Some e => Err e
  end.

Definition stream_take (s : stream) : res (option Z * stream) :=
  match st_chars s, st_end s with
  | c :: r, e => Ok (Some c, Stream r e)
  | [], None => Ok (None, s)
  | [], Some e => Err e
  end.

#[export] Instance stream_chars : CharReader stream :=
  {| peek := stream_peek; take_char := stream_take |}.

(** ** The parser: [_StreamingJsonParser] *)

Section parser.
Context `{PyFloat} {R : Type} `{!CharReader R}.

Definition P (A : Type) : Type := R -> res (A * R).

Definition p_ret {A} (a : A) : P A := fun r => Ok (a, r).
Definition p_raise {A} (e : exn) : P A := fun _ => Err e.
Definition p_bind {A B} (m : P A) (k : A -> P B) : P B :=
  fun r => res_bind (m r) (fun p => k p.1 p.2).

#[local] Notation "'let!' x := m 'in' k" := (p_bind m (fun x => k))
  (at level 10, x pattern, m at level 100, k at level 200).

Definition is_json_space (c : option Z) : bool :=
  bool_decide (c ∈ [Some 32; Some 9; Some 13; Some 10]).

Fixpoint skip_whitespace (fuel : nat) : P unit :=
  match fuel with
  | O => p_raise OutOfFuel
  | S fuel =>
      let! c := peek in
      if is_json_space c then let! _ := take_char in skip_whitespace fuel else p_ret tt
  end.

Definition expect (expected : Z) : P unit :=
  let! actual := take_char in
  if decide (actual = Some expected) then p_ret tt else p_raise StreamingJsonDecodeError.

(** [take() or ""], [n] times, joined. *)
Fixpoint take_joined (n : nat) : P pystr :=
  match n with
  | O => p_ret []
  | S n =>
      let! c := take_char in
      let! rest := take_joined n in
      p_ret (match c with Some c => c :: rest | None => rest end)
  end.

Definition literal (expected : pystr) : P unit :=
  let! actual := take_joined (length expected) in
  if decide (actual = expected) then p_ret tt else p_raise StreamingJsonDecodeError.

Fixpoint number_loop (fuel : nat) : P pystr :=
  match fuel with
  | O => p_raise OutOfFuel
  | S fuel =>
      let! c := peek in
      match c with
      | Some c =>
          if is_number_char c then
            let! _ := take_char in
            let! rest := number_loop fuel in
            p_ret (c :: rest)
          else p_ret []
      | None => p_ret []
      end
  end.

(** [json.loads(token)] on a token of number characters. *)
Definition loads_number (token : pystr) : res json :=
  match split_number token with
  | None => Err JSONDecodeError
  | Some p =>
      match np_frac p, np_exp p with
      | [], [] =>
          if max_str_digits <? Z.of_nat (length (np_int p)) then Err ValueError
          else Ok (JInt (if np_negative p then - dec_value (np_int p) else dec_value (np_int p)))
      | _, _ => Ok (JFloat (float_of_token token))
      end
  end.

Definition number (fuel : nat) : P json :=
  let! token := number_loop fuel in
  match loads_number token with
  | Ok v => p_ret v
  | Err JSONDecodeError => p_raise StreamingJsonDecodeError
  | Err e => p_raise e
  end.

Definition hex_value (c : Z) : option Z :=
  if is_digit c then Some (c - 48)
  else if (97 <=? c) && (c <=? 102) then Some (c - 87)
  else if (65 <=? c) && (c <=? 70) then Some (c - 55)
  else None.

(** Four hexadecimal digits, or the error the parser raises. *)
Definition hex4 (digits : pystr) : res Z :=
  match mapM hex_value digits with
  | Some [a; b; c; d] => Ok (((a * 16 + b) * 16 + c) * 16 + d)
  | _ => Err StreamingJsonDecodeError
  end.

Definition p_of_res {A} (m : res A) : P A := fun r => res_bind m (fun a => Ok (a, r)).

Definition simple_escape (c : Z) : option Z :=
  if c =? 34 then Some 34
  else if c =? 92 then Some 92
  else if c =? 47 then Some 47
  else if c =? 98 then Some 8
  else if c =? 102 then Some 12
  else if c =? 110 then Some 10
  else if c =? 114 then Some 13
  else if c =? 116 then Some 9
  else None.

(** The character a [\u] escape denotes; a high surrogate takes its pair. *)
Definition unicode_escape : P Z :=
  let! digits := take_joined 4 in
  let! codepoint := p_of_res (hex4 digits) in
  if high_surrogate codepoint then
    let! b := take_char in
    if decide (b = Some 92) then
      let! v := take_char in
      if decide (v = Some 117) then
        let! low_digits := take_joined 4 in
        let! low := p_of_res (hex4 low_digits) in
        if low_surrogate low then p_ret (combine_surrogates codepoint low)
        else p_raise StreamingJsonDecodeError
      else p_raise StreamingJsonDecodeError
    else p_raise StreamingJsonDecodeError
  else if low_surrogate codepoint then p_raise StreamingJsonDecodeError
  else p_ret codepoint.

Fixpoint string_loop (fuel : nat) : P pystr :=
  match fuel with
  | O => p_raise OutOfFuel
  | S fuel =>
      let write c := let! rest := string_loop fuel in p_ret (c :: rest) in
      let! c := take_char in
      match c with
      | None => p_raise StreamingJsonDecodeError
      | Some c =>
          if c =? 34 then p_ret []
          else if c =? 92 then
            let! e := take_char in
            match e with
            | None => p_raise StreamingJsonDecodeError
            | Some e =>
                match simple_escape e with
                | Some mapped => write mapped
                | None =>
                    if e =? 117 then let! c := unicode_escape in write c
                    else p_raise StreamingJsonDecodeError
                end
            end
          else if c <? 0x20 then p_raise StreamingJsonDecodeError
          else write c
      end
  end.

Definition string_ (fuel : nat) : P pystr :=
  let! _ := expect 34 in string_loop fuel.

(** [_value], [_object] and [_array]: [2 * length + 1] is enough fuel for a
    text of that length ([parse_fuel]). *)
Fixpoint value (fuel : nat) : P json :=
  match fuel with
  | O => p_raise OutOfFuel
  | S fuel =>
      let! c := peek in
      match c with
      | None => p_raise StreamingJsonDecodeError
      | Some c =>
          if c =? 34 then let! s := string_ fuel in p_ret (JStr s)
          else if c =? 123 then
            let! _ := expect 123 in
            let! _ := skip_whitespace fuel in
            let! c := peek in
            if decide (c = Some 125) then let! _ := take_char in p_ret (JObj [])
            else let! l := object_loop fuel [] in p_ret (JObj l)
          else if c =? 91 then
            let! _ := expect 91 in
            let! _ := skip_whitespace fuel in
            let! c := peek in
            if decide (c = Some 93) then let! _ := take_char in p_ret (JArr [])
            else let! l := array_loop fuel in p_ret (JArr l)
          else if c =? 116 then let! _ := literal (u "true") in p_ret (JBool true)
          else if c =? 102 then let! _ := literal (u "false") in p_ret (JBool false)
          else if c =? 110 then let! _ := literal (u "null") in p_ret JNull
          else if (c =? 45) || is_digit c then number fuel
          else p_raise StreamingJsonDecodeError
      end
  end
with object_loop (fuel : nat) (result : list (pystr * json)) : P (list (pystr * json)) :=
  match fuel with
  | O => p_raise OutOfFuel
  | S fuel =>
      let! c := peek in
      if decide (c = Some 34) then
        let! key := string_ fuel in
        let! _ := skip_whitespace fuel in
        let! _ := expect 58 in
        let! _ := skip_whitespace fuel in
        let! v := value fuel in
        let result := dict_set key v result in
        let! _ := skip_whitespace fuel in
        let! delimiter := take_char in
        if decide (delimiter = Some 125) then p_ret result
        else if decide (delimiter = Some 44) then
          let! _ := skip_whitespace fuel in object_loop fuel result
        else p_raise StreamingJsonDecodeError
      else p_raise StreamingJsonDecodeError
  end
with array_loop (fuel : nat) : P (list json) :=
  match fuel with
  | O => p_raise OutOfFuel
  | S fuel =>
      let! v := value fuel in
      let! _ := skip_whitespace fuel in
      let! delimiter := take_char in
      if decide (delimiter = Some 93) then p_ret [v]
      else if decide (delimiter = Some 44) then
        let! _ := skip_whitespace fuel in
        let! rest := array_loop fuel in
        p_ret (v :: rest)
      else p_raise StreamingJsonDecodeError
  end.

Definition parse (fuel : nat) : P json :=
  let! _ := skip_whitespace fuel in
  let! v := value fuel in
  let! _ := skip_whitespace fuel in
  let! c := peek in
  match c with None => p_ret v | Some _ => p_raise StreamingJsonDecodeError end.
End parser.
Arguments P : clear implicits.

Section entry.
Context `{PyFloat}.

Definition chunk_length (c : chunk) : nat :=
  match c with Bytes b => length b | NotBytes => 0 end.

Definition parse_fuel (n : nat) : nat := 2 * n + 2.

Definition parse_json_byte_chunks (chunks : list chunk) : res json :=
  match parse (parse_fuel (sum_list (map chunk_length chunks))) (new_reader chunks) with
  | Ok (v, _) => Ok v
  | Err UnicodeDecodeError => Err StreamingJsonDecodeError
  | Err e => Err e
  end.

(** The same grammar on a text that is already decoded. *)
Definition parse_json_text (s : pystr) : res json :=
  match parse (parse_fuel (length s)) (Stream s None) with
  | Ok (v, _) => Ok v
  | Err e => Err e
  end.
End entry.
