(* ===== verification/JsonReader.v ===== *)
(** * JsonReader: the streaming parser does not depend on the chunking

    The incremental decoder commutes with concatenation, the chunk reader
    refines the one-shot stream of characters it stands for, and the parser,
    which only uses [peek] and [take], is carried along. *)

From stdpp Require Import prelude gmap strings list sorting.
From S2P Require Import Prelude Text Json JsonStream.

Open Scope Z_scope.

(** The stream of characters a list of chunks denotes, given the bytes the
    decoder holds. *)
Fixpoint chunk_stream (chunks : list chunk) (pending : list Z) : stream :=
  match chunks with
  | [] => Stream [] (match pending with [] => None | _ => Some UnicodeDecodeError end)
  | NotBytes :: _ => Stream [] (Some StreamingJsonDecodeError)
  | Bytes b :: chunks =>
      match utf8_partial (pending ++ b) with
      | Ok (s, p) => let rest := chunk_stream chunks p in Stream (s ++ st_chars rest) (st_end rest)
      | Err e => Stream [] (Some e)
      end
  end.

Definition reader_stream (r : utf8_chunk_reader) : stream :=
  let rest := chunk_stream (rd_chunks r) (rd_pending r) in
  Stream (drop (rd_position r) (rd_buffer r) ++ st_chars rest) (st_end rest).

(** The abstraction relation between the chunk reader and its stream. *)
Record represents (r : utf8_chunk_reader) (s : stream) : Prop := {
  rep_stream : reader_stream r = s;
  rep_finished : rd_finished r = true -> rd_chunks r = [] /\ rd_pending r = []
}.

(** Two parsers related on related readers: same value or same exception. *)
Definition p_refines {A} (p1 : P utf8_chunk_reader A) (p2 : P stream A) : Prop :=
  forall r s, represents r s ->
    match p1 r, p2 s with
    | Ok (a, r'), Ok (b, s') => a = b /\ represents r' s'
    | Err e1, Err e2 => e1 = e2
    | _, _ => False
    end.

(** [p] terminates on [s] within its fuel, and its outcome satisfies [Q]. *)
Definition p_spec {A} (p : P stream A) (s : stream) (Q : A -> stream -> Prop) : Prop :=
  match p s with Ok (a, s') => Q a s' | Err e => e <> OutOfFuel end.

(** [s'] is what is left of [s] after at least [n] characters. *)
Definition advanced (n : nat) (s s' : stream) : Prop :=
  st_end s' = st_end s /\ (n + length (st_chars s') <= length (st_chars s))%nat.

(** More fuel does not change an outcome that did not run out of it. *)
Definition p_mono {A} (p1 p2 : P stream A) : Prop :=
  forall s, p1 s = Err OutOfFuel \/ p1 s = p2 s.

(** ** UTF-8 *)

Ltac step_cases H :=
  unfold utf8_decode_step in H; repeat (case_hyp H; try discriminate);
  res_inv; try (injection H as <- <-).

Lemma decode_step_app l x :
  match utf8_decode_step l with
  | Decoded c r => utf8_decode_step (l ++ x) = Decoded c (r ++ x)
  | Malformed => utf8_decode_step (l ++ x) = Malformed
  | Incomplete => True
  end.
Proof.
  unfold utf8_decode_step.
  destruct l as [|b0 r]; [done|]; simpl. case_goal; [done|].
  case_goal; [destruct r; simpl; [done|]; by case_goal|].
  case_goal.
  { destruct r as [|b1 r]; simpl; [done|]. case_goal; [|done].
    destruct r as [|b2 r]; simpl; [done|]. by case_goal. }
  case_goal; [|done].
  destruct r as [|b1 r]; simpl; [done|]. case_goal; [|done].
  destruct r as [|b2 r]; simpl; [done|]. case_goal; [|done].
  destruct r as [|b3 r]; simpl; [done|]. by case_goal.
Qed.

Lemma decode_step_length l c r :
  utf8_decode_step l = Decoded c r -> (length r < length l)%nat.
Proof.
  intros Hs. unfold utf8_decode_step in Hs.
  repeat (case_hyp Hs; try discriminate); injection Hs as <- <-; simpl; lia.
Qed.

Lemma utf8_run_enough f1 f2 l :
  (length l <= f1)%nat -> (length l <= f2)%nat -> utf8_run f1 l = utf8_run f2 l.
Proof.
  revert f2 l; induction f1 as [|f1 IH]; intros [|f2] l H1 H2; simpl; try done.
  - destruct l; [done|simpl in *; lia].
  - destruct l; [done|simpl in *; lia].
  - destruct (utf8_decode_step l) as [c r| |] eqn:E; [|done..].
    apply decode_step_length in E. rewrite (IH f2); [done|lia..].
Qed.

Lemma utf8_partial_unfold l :
  utf8_partial l =
  match utf8_decode_step l with
  | Decoded c rest => res_bind (utf8_partial rest) (fun p => Ok (c :: p.1, p.2))
  | Incomplete => Ok ([], l)
  | Malformed => Err UnicodeDecodeError
  end.
Proof.
  unfold utf8_partial at 1. destruct l as [|b l]; [done|]. simpl length. cbn [utf8_run].
  destruct (utf8_decode_step (b :: l)) as [c r| |] eqn:E; [|done..].
  apply decode_step_length in E. simpl in E.
  unfold utf8_partial. rewrite (utf8_run_enough (length l) (length r)); [done|lia..].
Qed.

Lemma utf8_partial_app a b :
  utf8_partial (a ++ b) =
  res_bind (utf8_partial a) (fun p =>
  res_bind (utf8_partial (p.2 ++ b)) (fun q => Ok (p.1 ++ q.1, q.2))).
Proof.
  induction a as [a IH] using (induction_ltof1 _ length). unfold ltof in IH.
  rewrite (utf8_partial_unfold a). pose proof (decode_step_app a b) as Ha.
  destruct (utf8_decode_step a) as [c r| |] eqn:E; simpl.
  - rewrite utf8_partial_unfold, Ha, IH by (by eapply decode_step_length).
    rewrite !res_bind_assoc. simpl. destruct (utf8_partial r) as [[s p]|]; simpl; [|done].
    by destruct (utf8_partial (p ++ b)).
  - destruct (utf8_partial (a ++ b)) as [[s p]|]; done.
  - by rewrite utf8_partial_unfold, Ha.
Qed.

Lemma utf8_partial_tail a s p : utf8_partial a = Ok (s, p) -> utf8_partial p = Ok ([], p).
Proof.
  revert s p. induction a as [a IH] using (induction_ltof1 _ length). unfold ltof in IH.
  intros s p. rewrite utf8_partial_unfold.
  destruct (utf8_decode_step a) as [c r| |] eqn:E; [|intros; res_inv|done].
  - rewrite res_bind_ok. intros ([s' p'] & Hr & Heq). simpl in Heq. res_inv.
    eapply IH; [by eapply decode_step_length|done].
  - rewrite utf8_partial_unfold. by rewrite E.
Qed.

Lemma utf8_partial_length a s p :
  utf8_partial a = Ok (s, p) -> (length s + length p <= length a)%nat.
Proof.
  revert s p. induction a as [a IH] using (induction_ltof1 _ length). unfold ltof in IH.
  intros s p. rewrite utf8_partial_unfold.
  destruct (utf8_decode_step a) as [c r| |] eqn:E; [|intros; res_inv; simpl; lia|done].
  rewrite res_bind_ok. intros ([s' p'] & Hr & Heq). simpl in Heq. res_inv.
  pose proof (decode_step_length _ _ _ E). specialize (IH r ltac:(lia) _ _ Hr). simpl; lia.
Qed.

Lemma utf8_decode_encode_char c r :
  scalar_value c = true -> utf8_decode_step (utf8_encode_char c ++ r) = Decoded c r.
Proof.
  unfold scalar_value, high_surrogate, low_surrogate.
  rewrite !andb_true_iff, !negb_true_iff, !andb_false_iff, Z.leb_le, Z.ltb_lt, !Z.leb_gt.
  intros [[[H0 H1] H2] H3]. unfold utf8_encode_char.
  pose proof (Z.mod_pos_bound c 64). pose proof (Z.mod_pos_bound (c / 64) 64).
  pose proof (Z.mod_pos_bound (c / 4096) 64).
  pose proof (Z.div_mod c 64). pose proof (Z.div_mod (c / 64) 64).
  pose proof (Z.div_mod (c / 4096) 64).
  assert (c / 4096 = c / 64 / 64) by (rewrite Z.div_div by lia; done).
  assert (c / 262144 = c / 4096 / 64) by (rewrite Z.div_div by lia; done).
  set (q1 := c / 64) in *. set (q2 := c / 4096) in *. set (q3 := c / 262144) in *.
  set (m0 := c mod 64) in *. set (m1 := q1 mod 64) in *. set (m2 := q2 mod 64) in *.
  clearbody q1 q2 q3 m0 m1 m2.
  destruct (c <? 0x80) eqn:E1; [|destruct (c <? 0x800) eqn:E2; [|destruct (c <? 0x10000) eqn:E3]];
    rewrite ?Z.ltb_lt, ?Z.ltb_ge in *; simpl;
    unfold continuation, second_byte;
    repeat (match goal with
      | |- context [if ?b then _ else _] =>
          lazymatch b with
          | context [if _ then _ else _] => fail
          | _ => let E := fresh in destruct b eqn:E;
                 rewrite ?andb_true_iff, ?andb_false_iff, ?Z.leb_le, ?Z.ltb_lt, ?Z.leb_gt, ?Z.ltb_ge,
                         ?Z.eqb_eq, ?Z.eqb_neq in E
          end
      end; try lia); try (f_equal; lia); try (unfold continuation in *;
        rewrite ?andb_true_iff, ?andb_false_iff, ?Z.leb_le, ?Z.leb_gt in *; lia).
Qed.

Lemma utf8_partial_encode s r :
  scalar_string s = true ->
  utf8_partial (concat (map utf8_encode_char s) ++ r) =
  res_bind (utf8_partial r) (fun p => Ok (s ++ p.1, p.2)).
Proof.
  unfold scalar_string. induction s as [|c s IH]; simpl.
  - intros _. by destruct (utf8_partial r) as [[]|].
  - rewrite andb_true_iff. intros [Hc Hs].
    rewrite <- (assoc_L (++)), utf8_partial_unfold, utf8_decode_encode_char, IH by done.
    rewrite res_bind_assoc. done.
Qed.

Lemma utf8_decode_encode s b : utf8_encode s = Ok b -> utf8_decode b = Ok s.
Proof.
  unfold utf8_encode. case_goal; [|done]. intros [= <-]. unfold utf8_decode.
  rewrite <- (app_nil_r (concat _)), utf8_partial_encode by done. simpl. by rewrite app_nil_r.
Qed.

(** ** The chunk reader refines its stream *)

Lemma chunk_stream_pending chunks p :
  utf8_partial p = Ok ([], p) ->
  match chunks with
  | Bytes b :: chunks => forall s q, utf8_partial (p ++ b) = Ok (s, q) ->
      chunk_stream (Bytes b :: chunks) p =
      Stream (s ++ st_chars (chunk_stream chunks q)) (st_end (chunk_stream chunks q))
  | _ => True
  end.
Proof. intros Hp. destruct chunks as [|[b|] chunks]; [done| |done]. intros s q E. simpl. by rewrite E. Qed.

Lemma fill_loop_spec chunks pending :
  match fill_loop chunks pending with
  | Ok r => represents r (chunk_stream chunks pending) /\
            rd_position r = O /\ (rd_finished r = true <-> rd_buffer r = [])
  | Err e => chunk_stream chunks pending = Stream [] (Some e)
  end.
Proof.
  revert pending; induction chunks as [|[b|] chunks IH]; intros pending; simpl.
  - destruct pending; [|done]. repeat split; done.
  - destruct (utf8_partial (pending ++ b)) as [[s p]|e]; simpl; [|done].
    destruct s as [|c s]; simpl.
    + specialize (IH p). destruct (chunk_stream chunks p) as [cs e]. done.
    + repeat split; done.
  - done.
Qed.

Lemma reader_fill_spec r s :
  represents r s ->
  match reader_fill r with
  | Ok r' => represents r' s /\
             ((length (rd_buffer r') <= rd_position r')%nat -> rd_finished r' = true)
  | Err e => s = Stream [] (Some e)
  end.
Proof.
  intros Hr. pose proof Hr as [Hs Hf]. unfold reader_fill.
  destruct (rd_position r <? length (rd_buffer r))%nat eqn:E; simpl.
  { apply Nat.ltb_lt in E. split; [done|lia]. }
  destruct (rd_finished r) eqn:Ef; [done|]. apply Nat.ltb_ge in E.
  pose proof (fill_loop_spec (rd_chunks r) (rd_pending r)) as Hl.
  unfold reader_stream in Hs. rewrite drop_ge in Hs by lia. simpl in Hs.
  destruct (chunk_stream (rd_chunks r) (rd_pending r)) as [cs e] eqn:Ec. simpl in Hs. subst s.
  destruct (fill_loop (rd_chunks r) (rd_pending r)) as [r'|e'].
  - destruct Hl as (? & Hp & Hfin). split; [done|]. rewrite Hp. intros Hlen.
    apply Hfin. destruct (rd_buffer r'); [done|simpl in Hlen; lia].
  - done.
Qed.

Lemma reader_peek_refines : p_refines reader_peek stream_peek.
Proof.
  intros r s Hr. apply reader_fill_spec in Hr. unfold reader_peek, stream_peek.
  destruct (reader_fill r) as [r'|e]; simpl; [|by subst].
  destruct Hr as [Hr Hfin]. destruct Hr as [Hs Hf].
  destruct (length (rd_buffer r') <=? rd_position r')%nat eqn:E.
  - apply Nat.leb_le in E. specialize (Hfin E). destruct (Hf Hfin) as [Hc Hp].
    assert (s = Stream [] None) as -> by
      (rewrite <- Hs; unfold reader_stream; rewrite drop_ge, Hc, Hp by done; done).
    simpl. done.
  - apply Nat.leb_gt in E.
    destruct (lookup_lt_is_Some_2 (rd_buffer r') (rd_position r') E) as [c Hc].
    rewrite Hc. pose proof (drop_S _ _ _ Hc) as Hd.
    rewrite <- Hs. unfold reader_stream at 1 2 3. rewrite Hd. simpl.
    by split.
Qed.

Lemma reader_take_refines : p_refines reader_take stream_take.
Proof.
  intros r s Hr. pose proof (reader_peek_refines r s Hr) as Hp.
  assert (Hlt : forall c r', reader_peek r = Ok (Some c, r') ->
            rd_buffer r' !! rd_position r' = Some c).
  { unfold reader_peek. intros c r'. rewrite res_bind_ok. intros (r2 & _ & H2).
    destruct (length (rd_buffer r2) <=? rd_position r2)%nat; [done|].
    injection H2 as H2 <-. done. }
  unfold reader_take, stream_take. unfold stream_peek in Hp.
  destruct (reader_peek r) as [[c r']|e]; simpl.
  - destruct (st_chars s) as [|c' cs] eqn:Es.
    + destruct (st_end s); [done|]. destruct Hp as [-> Hr']. done.
    + destruct Hp as [-> [Hs Hf]]. specialize (Hlt _ _ eq_refl).
      destruct s as [cs0 e]; simpl in *; subst cs0.
      split; [done|]. split; [|done].
      unfold reader_stream in *. rewrite (drop_S _ _ _ Hlt) in Hs. simpl in *.
      by injection Hs as -> ->.
  - destruct (st_chars s), (st_end s); simplify_eq; done.
Qed.

(** ** Refinement goes through the parser *)

Lemma refines_ret {A} (a : A) : p_refines (p_ret a) (p_ret a).
Proof. by intros r s Hr. Qed.

Lemma refines_raise {A} e : p_refines (A:=A) (p_raise e) (p_raise e).
Proof. by intros r s Hr. Qed.

Lemma refines_of_res {A} (m : res A) : p_refines (p_of_res m) (p_of_res m).
Proof. intros r s Hr. unfold p_of_res. by destruct m. Qed.

Lemma refines_bind {A B} (m1 : P _ A) m2 (k1 : A -> P _ B) k2 :
  p_refines m1 m2 -> (forall a, p_refines (k1 a) (k2 a)) ->
  p_refines (p_bind m1 k1) (p_bind m2 k2).
Proof.
  intros Hm Hk r s Hr. specialize (Hm r s Hr). unfold p_bind.
  destruct (m1 r) as [[a r']|], (m2 s) as [[b s']|]; simpl; try done.
  destruct Hm as [-> Hr']. by apply Hk.
Qed.

Create HintDb refine discriminated.
#[export] Hint Resolve refines_ret refines_raise refines_of_res refines_bind
  reader_peek_refines reader_take_refines : refine.

(** Walks through a parser, splitting its tests. *)
Ltac walk tac :=
  repeat first
    [ progress tac
    | match goal with |- forall _, _ => intros ? end
    | case_goal ].

Ltac refine_parser := walk ltac:(first [assumption | progress (unfold peek, take_char; cbn -[p_refines p_bind])
  | apply refines_ret | apply refines_raise | apply refines_of_res
  | apply reader_peek_refines | apply reader_take_refines
  | apply refines_bind | solve [eauto with refine]]).

Section refinement.
Context `{PyFloat}.

Lemma skip_whitespace_refines n : p_refines (skip_whitespace n) (skip_whitespace n).
Proof. induction n; simpl; refine_parser. Qed.

Lemma expect_refines c : p_refines (expect c) (expect c).
Proof. unfold expect. refine_parser. Qed.

Lemma take_joined_refines n : p_refines (take_joined n) (take_joined n).
Proof. induction n; simpl; refine_parser. Qed.
#[local] Hint Resolve skip_whitespace_refines expect_refines take_joined_refines : refine.

Lemma literal_refines s : p_refines (literal s) (literal s).
Proof. unfold literal. refine_parser. Qed.

Lemma number_loop_refines n : p_refines (number_loop n) (number_loop n).
Proof. induction n; simpl; refine_parser. Qed.
#[local] Hint Resolve number_loop_refines : refine.

Lemma number_refines n : p_refines (number n) (number n).
Proof. unfold number. refine_parser. Qed.

Lemma unicode_escape_refines : p_refines unicode_escape unicode_escape.
Proof. unfold unicode_escape. refine_parser. Qed.
#[local] Hint Resolve unicode_escape_refines : refine.

Lemma string_loop_refines n : p_refines (string_loop n) (string_loop n).
Proof. induction n; simpl; refine_parser. Qed.
#[local] Hint Resolve string_loop_refines : refine.

Lemma string_refines n : p_refines (string_ n) (string_ n).
Proof. unfold string_. refine_parser. Qed.
#[local] Hint Resolve literal_refines number_refines string_refines : refine.

Lemma value_refines n :
  p_refines (value n) (value n) /\
  (forall l, p_refines (object_loop n l) (object_loop n l)) /\
  p_refines (array_loop n) (array_loop n).
Proof. induction n as [|n (IHv & IHo & IHa)]; simpl; (split; [|split]); refine_parser. Qed.

Lemma parse_refines n : p_refines (parse n) (parse n).
Proof. destruct (value_refines n) as (Hv & _). unfold parse. refine_parser. Qed.
End refinement.
