(* ===== verification/JsonParser.v ===== *)
(** * JsonParser: the streaming parser terminates, whatever the chunks

    Fuel accounting for the loops of [_StreamingJsonParser] (each consumes a
    character per turn), and the chunking theorem. *)

From stdpp Require Import prelude gmap strings list sorting.
From S2P Require Import Prelude Text Json JsonStream JsonReader.

Open Scope Z_scope.

(** ** More fuel changes nothing *)

Lemma mono_refl {A} (p : P stream A) : p_mono p p.
Proof. intros s. by right. Qed.

Lemma mono_out_of_fuel {A} (p : P stream A) : p_mono (p_raise OutOfFuel) p.
Proof. intros s. by left. Qed.

Lemma mono_bind {A B} (m1 m2 : P stream A) (k1 k2 : A -> P stream B) :
  p_mono m1 m2 -> (forall a, p_mono (k1 a) (k2 a)) -> p_mono (p_bind m1 k1) (p_bind m2 k2).
Proof.
  intros Hm Hk s. unfold p_bind. destruct (Hm s) as [->| ->]; [by left|].
  destruct (m2 s) as [[a s']|]; simpl; [apply Hk|by right].
Qed.

Create HintDb mono discriminated.
#[export] Hint Resolve mono_refl mono_out_of_fuel mono_bind : mono.

Ltac mono_parser := walk ltac:(first [assumption
  | apply mono_out_of_fuel | solve [eauto with mono] | apply mono_bind]).

Section monotone.
Context `{PyFloat}.

Lemma skip_whitespace_mono n : p_mono (skip_whitespace n) (skip_whitespace (S n)).
Proof. induction n; [apply mono_out_of_fuel|]. cbn [skip_whitespace] in *. mono_parser. Qed.

Lemma number_loop_mono n : p_mono (number_loop n) (number_loop (S n)).
Proof. induction n; [apply mono_out_of_fuel|]. cbn [number_loop] in *. mono_parser. Qed.

Lemma string_loop_mono n : p_mono (string_loop n) (string_loop (S n)).
Proof. induction n; [apply mono_out_of_fuel|]. cbn [string_loop] in *. mono_parser. Qed.
#[local] Hint Resolve skip_whitespace_mono number_loop_mono string_loop_mono : mono.

Lemma number_mono n : p_mono (number n) (number (S n)).
Proof. unfold number. mono_parser. Qed.

Lemma string_mono n : p_mono (string_ n) (string_ (S n)).
Proof. unfold string_. mono_parser. Qed.
#[local] Hint Resolve number_mono string_mono : mono.

Lemma value_mono n :
  p_mono (value n) (value (S n)) /\
  (forall l, p_mono (object_loop n l) (object_loop (S n) l)) /\
  p_mono (array_loop n) (array_loop (S n)).
Proof.
  induction n as [|n (IHv & IHo & IHa)]; [repeat split; intros; apply mono_out_of_fuel|].
  split; [|split]; intros; cbn [value object_loop array_loop] in *; mono_parser.
Qed.

Lemma parse_mono n : p_mono (parse n) (parse (S n)).
Proof. destruct (value_mono n) as (Hv & _). unfold parse. mono_parser. Qed.
End monotone.

(** ** Every loop has enough fuel, and consumes what it reads *)

Definition live (s : stream) : Prop := st_end s <> Some OutOfFuel.

Lemma advanced_refl s : advanced 0 s s.
Proof. by split. Qed.

Lemma advanced_trans n m s1 s2 s3 : advanced n s1 s2 -> advanced m s2 s3 -> advanced (n + m) s1 s3.
Proof. intros [? ?] [? ?]. split; [congruence|lia]. Qed.

Lemma advanced_live n s1 s2 : advanced n s1 s2 -> live s1 -> live s2.
Proof. unfold live. by intros [-> _]. Qed.

Lemma advanced_weaken n m s1 s2 : advanced n s1 s2 -> (m <= n)%nat -> advanced m s1 s2.
Proof. intros [? ?] ?. split; [done|lia]. Qed.

Lemma spec_ret {A} (a : A) s (Q : A -> stream -> Prop) : Q a s -> p_spec (p_ret a) s Q.
Proof. done. Qed.

Lemma spec_raise {A} e s (Q : A -> stream -> Prop) : e <> OutOfFuel -> p_spec (p_raise e) s Q.
Proof. done. Qed.

Lemma spec_bind {A B} (m : P stream A) (k : A -> P stream B) s Q :
  p_spec m s (fun a s' => p_spec (k a) s' Q) -> p_spec (p_bind m k) s Q.
Proof. unfold p_spec, p_bind. by destruct (m s) as [[]|]. Qed.

Lemma spec_weaken {A} (m : P stream A) s (Q1 Q2 : A -> stream -> Prop) :
  p_spec m s Q1 -> (forall a s', Q1 a s' -> Q2 a s') -> p_spec m s Q2.
Proof. unfold p_spec. destruct (m s) as [[]|]; eauto. Qed.

Lemma spec_peek s :
  live s -> p_spec peek s (fun c s' => s' = s /\ c = head (st_chars s)).
Proof.
  destruct s as [[|c cs] [e|]]; unfold live, p_spec; simpl; [congruence|done..].
Qed.

Lemma spec_peek_end s :
  live s ->
  p_spec peek s (fun c s' => s' = s /\ c = head (st_chars s) /\ (c = None -> st_end s = None)).
Proof.
  destruct s as [[|c cs] [e|]]; unfold live, p_spec; simpl; [congruence|done..].
Qed.

Lemma spec_take s :
  live s ->
  p_spec take_char s (fun c s' => c = head (st_chars s) /\
    advanced (match c with Some _ => 1 | None => 0 end) s s').
Proof.
  destruct s as [[|c cs] [e|]]; unfold live, p_spec, advanced; simpl; [congruence|..];
    intros _; (split; [done|split; [done|lia]]).
Qed.

(** Steps through a parser on a live stream with the lemma at hand. *)
Ltac spec_step lem :=
  apply spec_bind; eapply spec_weaken; [apply lem; eauto 12 using advanced_live|cbn beta].

(** Closes the accounting of a chain of steps. *)
Ltac adv := repeat match goal with H : advanced _ _ _ |- _ => destruct H end;
  first [lia | split; [congruence|lia]].

Section fuel.
Context `{PyFloat}.

Lemma skip_whitespace_spec n s :
  live s -> (length (st_chars s) < n)%nat ->
  p_spec (skip_whitespace n) s (fun _ s' => advanced 0 s s').
Proof.
  revert s; induction n as [|n IH]; intros s Hl Hn; [lia|]. cbn [skip_whitespace].
  spec_step spec_peek. intros c ? [-> ->]. case_goal; [|by split].
  spec_step spec_take. intros c s' [-> Ha].
  destruct (st_chars s) as [|c cs] eqn:E; simpl in *; [done|].
  assert (live s') by eauto using advanced_live. pose proof Ha as [_ Hlen]. rewrite E in Hlen.
  simpl in Hlen. eapply spec_weaken; [apply IH; [done|lia]|].
  intros ? s'' H2. by eapply (advanced_weaken 1), Nat.le_0_l; eapply (advanced_trans 1 0).
Qed.

Lemma expect_spec c s : live s -> p_spec (expect c) s (fun _ s' => advanced 1 s s').
Proof.
  intros Hl. unfold expect. spec_step spec_take. intros d s' [-> Ha].
  case_goal; [|done]. apply spec_ret. by rewrite e in Ha.
Qed.

Lemma take_joined_spec n s : live s -> p_spec (take_joined n) s (fun _ s' => advanced 0 s s').
Proof.
  revert s; induction n as [|n IH]; intros s Hl; simpl; [by apply spec_ret, advanced_refl|].
  spec_step spec_take. intros c s1 [_ H1]. spec_step IH. intros r s2 H2.
  apply spec_ret. eapply advanced_weaken; [by eapply advanced_trans|lia].
Qed.

Lemma literal_spec t s :
  live s -> st_chars s <> [] -> t <> [] ->
  p_spec (literal t) s (fun _ s' => advanced 1 s s').
Proof.
  intros Hl Hs Ht. destruct t as [|c t]; [done|]. unfold literal. simpl.
  apply spec_bind, spec_bind. eapply spec_weaken; [by apply spec_take|]. intros d s1 [-> H1].
  destruct (st_chars s) as [|c' cs] eqn:E; [done|]. simpl in H1.
  spec_step take_joined_spec. intros r s2 H2. apply spec_ret. simpl.
  case_goal; [|done]. by eapply (advanced_trans 1 0).
Qed.

Lemma number_loop_spec n s :
  live s -> (length (st_chars s) < n)%nat ->
  p_spec (number_loop n) s (fun _ s' =>
    advanced (match st_chars s with c :: _ => if is_number_char c then 1 else 0 | [] => 0 end) s s').
Proof.
  revert s; induction n as [|n IH]; intros s Hl Hn; [lia|]. cbn [number_loop].
  spec_step spec_peek. intros d ? [-> ->].
  destruct (st_chars s) as [|c cs] eqn:E; simpl; [apply advanced_refl|].
  case_goal; [|apply advanced_refl].
  spec_step spec_take. rewrite E. intros d s1 [-> H1].
  assert (live s1) by eauto using advanced_live. pose proof H1 as [_ Hlen]. rewrite E in Hlen.
  simpl in Hn, Hlen. spec_step IH; [lia|]. intros r s2 H2. apply spec_ret.
  eapply (advanced_weaken (1 + _)); [by eapply advanced_trans|lia].
Qed.

Lemma loads_number_live t e : loads_number t = Err e -> e <> OutOfFuel.
Proof.
  unfold loads_number. intros Ht ->. repeat (case_hyp Ht; try discriminate).
Qed.

Lemma number_spec n s c :
  live s -> (length (st_chars s) < n)%nat -> head (st_chars s) = Some c -> is_number_char c = true ->
  p_spec (number n) s (fun _ s' => advanced 1 s s').
Proof.
  intros Hl Hn Hc Hd. unfold number. spec_step number_loop_spec. intros t s1 H1.
  destruct (st_chars s); [done|]. injection Hc as ->. rewrite Hd in H1.
  destruct (loads_number t) eqn:E; [done|]. apply loads_number_live in E. destruct e; done.
Qed.

Lemma hex4_spec t s :
  p_spec (p_of_res (hex4 t)) s (fun _ s' => s' = s).
Proof.
  unfold p_spec, p_of_res, hex4. destruct (mapM hex_value t) as [[|? [|? [|? [|? [|? ?]]]]]|]; done.
Qed.

Lemma unicode_escape_spec s :
  live s -> p_spec unicode_escape s (fun _ s' => advanced 0 s s').
Proof.
  intros Hl. unfold unicode_escape. spec_step take_joined_spec. intros ds s1 H1.
  assert (live s1) by eauto using advanced_live.
  spec_step hex4_spec. intros cp ? ->. case_goal; [|case_goal; [done|apply H1]].
  spec_step spec_take. intros b s2 [_ H2]. case_goal; [|done].
  spec_step spec_take. intros v s3 [_ H3]. case_goal; [|done].
  spec_step take_joined_spec. intros lds s4 H4.
  spec_step hex4_spec. intros lo ? ->. case_goal; [|done]. apply spec_ret.
  eapply advanced_weaken; [eapply (advanced_trans 0 _ s s1), advanced_trans,
    advanced_trans; eassumption|lia].
Qed.

Lemma string_loop_spec n s :
  live s -> (length (st_chars s) < n)%nat ->
  p_spec (string_loop n) s (fun _ s' => advanced 1 s s').
Proof.
  revert s; induction n as [|n IH]; intros s Hl Hn; [lia|]. cbn [string_loop].
  assert (Hw : forall c s1, advanced 1 s s1 -> p_spec
     (p_bind (string_loop n) (fun rest => p_ret (c :: rest))) s1 (fun _ s' => advanced 1 s s')).
  { intros c s1 H1. pose proof H1 as [_ ?]. spec_step IH; [lia|]. intros r s2 H2.
    eapply (advanced_weaken 2), le_S, le_n. by eapply (advanced_trans 1 1). }
  spec_step spec_take. intros d s1 [-> H1].
  destruct (st_chars s) as [|c cs] eqn:E; [done|]. simpl. case_goal; [apply H1|].
  case_goal; [|case_goal; [done|by apply Hw]].
  spec_step spec_take. intros e s2 [-> H2].
  destruct (head (st_chars s1)); [|done].
  assert (H12 : advanced 1 s s2) by (eapply advanced_weaken; [by eapply advanced_trans|lia]).
  case_goal; [by apply Hw|]. case_goal; [|done].
  spec_step unicode_escape_spec. intros c' s3 H3. apply Hw.
  by eapply (advanced_trans 1 0).
Qed.

Lemma string_spec n s :
  live s -> (length (st_chars s) <= n)%nat -> p_spec (string_ n) s (fun _ s' => advanced 1 s s').
Proof.
  intros Hl Hn. unfold string_. spec_step expect_spec. intros ? s1 H1. pose proof H1 as [_ ?].
  eapply spec_weaken; [apply string_loop_spec; eauto using advanced_live; lia|].
  intros r s2 H2. eapply (advanced_weaken 2), le_S, le_n. by eapply (advanced_trans 1 1).
Qed.

Lemma value_spec n :
  (forall s, live s -> (2 * length (st_chars s) + 1 <= n)%nat ->
     p_spec (value n) s (fun _ s' => advanced 1 s s')) /\
  (forall l s, live s -> (2 * length (st_chars s) + 1 <= n)%nat ->
     p_spec (object_loop n l) s (fun _ s' => advanced 1 s s')) /\
  (forall s, live s -> (2 * length (st_chars s) + 2 <= n)%nat ->
     p_spec (array_loop n) s (fun _ s' => advanced 1 s s')).
Proof.
  induction n as [|n (IHv & IHo & IHa)]; [split; [|split]; intros; lia|].
  split; [|split].
  - intros s Hl Hn. cbn [value]. spec_step spec_peek. intros d ? [-> ->].
    destruct (st_chars s) as [|c cs] eqn:E; [done|]. simpl in Hn. simpl.
    assert (Hlen : length (st_chars s) = S (length cs)) by (by rewrite E).
    case_goal; [spec_step string_spec; [simpl in *; lia|]; intros ? s1 H1; exact H1|].
    case_goal; [|case_goal; [|case_goal; [|case_goal; [|case_goal; [|case_goal; [|done]]]]]].
    + spec_step expect_spec. intros ? s1 H1.
      spec_step skip_whitespace_spec; [adv|]. intros ? s2 H2.
      spec_step spec_peek. intros d ? [-> ->]. case_goal.
      * spec_step spec_take. intros ? s3 [_ H3]. apply spec_ret. adv.
      * spec_step IHo; [adv|]. intros ? s3 H3. apply spec_ret. adv.
    + spec_step expect_spec. intros ? s1 H1.
      spec_step skip_whitespace_spec; [adv|]. intros ? s2 H2.
      spec_step spec_peek. intros d ? [-> ->]. case_goal.
      * spec_step spec_take. intros ? s3 [_ H3]. apply spec_ret. adv.
      * spec_step IHa; [adv|]. intros ? s3 H3. apply spec_ret. adv.
    + spec_step literal_spec; [by rewrite E|]. intros ? s1 H1. exact H1.
    + spec_step literal_spec; [by rewrite E|]. intros ? s1 H1. exact H1.
    + spec_step literal_spec; [by rewrite E|]. intros ? s1 H1. exact H1.
    + eapply number_spec; [done|lia|by rewrite E|].
      unfold is_number_char. destruct (is_digit c); [done|].
      destruct (c =? 45) eqn:E2; [|done]. by apply Z.eqb_eq in E2 as ->.
  - intros l s Hl Hn. cbn [object_loop]. spec_step spec_peek. intros d ? [-> ->].
    case_goal; [|done].
    assert (Hlen : (1 <= length (st_chars s))%nat) by (destruct (st_chars s); simpl in *; [done|lia]).
    spec_step string_spec; [lia|]. intros ? s1 H1.
    spec_step skip_whitespace_spec; [adv|]. intros ? s2 H2.
    spec_step expect_spec. intros ? s3 H3.
    spec_step skip_whitespace_spec; [adv|]. intros ? s4 H4.
    spec_step IHv; [adv|]. intros ? s5 H5.
    spec_step skip_whitespace_spec; [adv|]. intros ? s6 H6.
    spec_step spec_take. intros d s7 [_ H7].
    case_goal; [apply spec_ret; adv|]. case_goal; [|done]. subst d.
    spec_step skip_whitespace_spec; [adv|]. intros ? s8 H8.
    eapply spec_weaken; [apply IHo; [by eauto 15 using advanced_live|adv]|]. intros ? s9 [H9 H9']. adv.
  - intros s Hl Hn. cbn [array_loop].
    spec_step IHv; [lia|]. intros ? s5 H5.
    spec_step skip_whitespace_spec; [adv|]. intros ? s6 H6.
    spec_step spec_take. intros d s7 [_ H7].
    case_goal; [apply spec_ret; adv|]. case_goal; [|done]. subst d.
    spec_step skip_whitespace_spec; [adv|]. intros ? s8 H8.
    spec_step IHa; [adv|]. intros ? s9 H9. apply spec_ret. adv.
Qed.

Lemma parse_spec n s :
  live s -> (2 * length (st_chars s) + 1 <= n)%nat ->
  p_spec (parse n) s (fun _ s' => st_chars s' = [] /\ st_end s = None).
Proof.
  intros Hl Hn. unfold parse. spec_step skip_whitespace_spec; [lia|]. intros ? s1 H1.
  spec_step (proj1 (value_spec n)); [adv|]. intros ? s2 H2.
  spec_step skip_whitespace_spec; [adv|]. intros ? s3 H3.
  spec_step spec_peek_end. intros c ? (-> & -> & He).
  destruct H1 as [He1 _], H2 as [He2 _], H3 as [He3 _].
  destruct (st_chars s3) eqn:E3; simpl in *; [|done].
  split; [done|]. rewrite <- He1, <- He2, <- He3. by apply He.
Qed.
End fuel.

(** ** The chunking theorem *)

Lemma chunk_stream_live chunks p : live (chunk_stream chunks p).
Proof.
  revert p; induction chunks as [|[b|] chunks IH]; intros p; unfold live in *; simpl.
  - by destruct p.
  - destruct (utf8_partial (p ++ b)) as [[s q]|e] eqn:E; simpl; [apply IH|].
    enough (forall l e, utf8_partial l = Err e -> e = UnicodeDecodeError) as Hu
      by (apply Hu in E; congruence).
    clear. intros l. induction l as [l IH] using (induction_ltof1 _ length). unfold ltof in IH.
    intros e. rewrite utf8_partial_unfold.
    destruct (utf8_decode_step l) as [c r| |] eqn:E; [|done|congruence].
    apply decode_step_length in E. specialize (IH r E).
    destruct (utf8_partial r) as [[]|]; simpl; [done|]. intros [= <-]. eauto.
  - done.
Qed.

Definition chunk_bytes (c : chunk) : option (list Z) :=
  match c with Bytes b => Some b | NotBytes => None end.

(** The chunks are bytes that together encode the text [s]. *)
Definition chunks_encode (chunks : list chunk) (s : pystr) : Prop :=
  exists bs, mapM chunk_bytes chunks = Some bs /\ utf8_decode (concat bs) = Ok s.

Lemma chunk_stream_end chunks p s :
  utf8_partial p = Ok ([], p) ->
  chunk_stream chunks p = Stream s None <->
  exists bs, mapM chunk_bytes chunks = Some bs /\ utf8_decode (p ++ concat bs) = Ok s.
Proof.
  revert p s; induction chunks as [|[b|] chunks IH]; intros p s Hp; simpl.
  - split.
    + destruct p; [|done]. intros [= <-]. by exists [].
    + intros (bs & [= <-] & Hd). unfold utf8_decode in Hd. simpl in Hd.
      rewrite app_nil_r, Hp in Hd. simpl in Hd. destruct p; [|done]. by injection Hd as <-.
  - assert (Hd : forall bs, utf8_decode (p ++ concat (b :: bs)) =
      res_bind (utf8_partial (p ++ b)) (fun q =>
      res_bind (utf8_decode (q.2 ++ concat bs)) (fun s => Ok (q.1 ++ s)))).
    { intros bs. unfold utf8_decode. simpl. rewrite (assoc_L (++)), utf8_partial_app.
      destruct (utf8_partial (p ++ b)) as [[s1 q]|]; simpl; [|done].
      destruct (utf8_partial (q ++ concat bs)) as [[s2 [|]]|]; done. }
    destruct (utf8_partial (p ++ b)) as [[s1 q]|e] eqn:E.
    + specialize (IH q). pose proof (utf8_partial_tail _ _ _ E) as Hq.
      destruct (chunk_stream chunks q) as [s2 e2]. simpl. split.
      * intros [= <- ->]. destruct (proj1 (IH s2 Hq) eq_refl) as (bs & Hb & Hs2).
        exists (b :: bs). split; [by rewrite Hb|]. rewrite Hd. simpl. by rewrite Hs2.
      * intros (bs & Hb & Hs). destruct (mapM chunk_bytes chunks) as [bs'|]; [|done].
        injection Hb as <-. rewrite Hd in Hs. simpl in Hs.
        rewrite res_bind_ok in Hs. destruct Hs as (s3 & Hs3 & [= <-]).
        assert (Stream s2 e2 = Stream s3 None) as [= -> ->] by (apply IH; eauto). done.
    + split; [done|]. intros (bs & Hb & Hs). destruct (mapM chunk_bytes chunks); [|done].
      injection Hb as <-. by rewrite Hd in Hs.
  - split; [done|]. by intros (? & ? & ?).
Qed.

Lemma chunk_stream_length chunks p :
  (length (st_chars (chunk_stream chunks p)) <= length p + sum_list (map chunk_length chunks))%nat.
Proof.
  revert p; induction chunks as [|[b|] chunks IH]; intros p; simpl; [lia| |lia].
  destruct (utf8_partial (p ++ b)) as [[s q]|] eqn:E; simpl; [|lia].
  apply utf8_partial_length in E. rewrite length_app in E. specialize (IH q).
  rewrite length_app. lia.
Qed.

Section chunking.
Context `{PyFloat}.

Lemma parse_fuel_irrelevant n m s :
  live s -> (2 * length (st_chars s) + 1 <= n)%nat -> (n <= m)%nat -> parse m s = parse n s.
Proof.
  intros Hl Hn Hm. induction Hm as [|m Hm IH]; [done|]. rewrite <- IH.
  destruct (parse_mono m s) as [Ho|Ho]; [|done].
  pose proof (parse_spec m s Hl ltac:(lia)) as Hs. unfold p_spec in Hs. by rewrite Ho in Hs.
Qed.

Lemma parse_chunks_stream chunks :
  parse_json_byte_chunks chunks =
  match parse (parse_fuel (sum_list (map chunk_length chunks))) (chunk_stream chunks []) with
  | Ok (v, _) => Ok v
  | Err UnicodeDecodeError => Err StreamingJsonDecodeError
  | Err e => Err e
  end.
Proof.
  unfold parse_json_byte_chunks.
  assert (Hr : represents (new_reader chunks) (chunk_stream chunks [])).
  { split; [|done]. unfold reader_stream; simpl. by destruct (chunk_stream chunks []). }
  specialize (parse_refines (parse_fuel (sum_list (map chunk_length chunks))) _ _ Hr).
  destruct (parse _ (new_reader chunks)) as [[v r]|e],
           (parse _ (chunk_stream chunks [])) as [[v' r']|e']; naive_solver.
Qed.

Lemma chunk_fuel chunks :
  (2 * length (st_chars (chunk_stream chunks [])) + 1 <=
   parse_fuel (sum_list (map chunk_length chunks)))%nat.
Proof. pose proof (chunk_stream_length chunks []). unfold parse_fuel. simpl in *. lia. Qed.

Lemma parse_text_ok s v :
  parse_json_text s = Ok v <-> exists s', parse (parse_fuel (length s)) (Stream s None) = Ok (v, s').
Proof.
  unfold parse_json_text. destruct (parse _ _) as [[w s']|e]; split; intros; naive_solver.
Qed.

(** The chunks only matter through the text they encode. *)
Lemma parse_chunks_iff_text' chunks v :
  parse_json_byte_chunks chunks = Ok v <->
  exists s, chunks_encode chunks s /\ parse_json_text s = Ok v.
Proof.
  rewrite parse_chunks_stream.
  pose proof (chunk_stream_live chunks []) as Hl. pose proof (chunk_fuel chunks) as Hf.
  pose proof (parse_spec _ _ Hl Hf) as Hs. unfold p_spec in Hs.
  setoid_rewrite parse_text_ok. unfold chunks_encode.
  split.
  - destruct (parse _ _) as [[w s']|[]] eqn:E; try done. intros [= ->].
    destruct Hs as [_ He]. destruct (chunk_stream chunks []) as [s e] eqn:Ec. simpl in *. subst e.
    apply chunk_stream_end in Ec; [|done]. exists s. split; [done|]. exists s'.
    rewrite <- E. symmetry. apply parse_fuel_irrelevant; [done|unfold parse_fuel; simpl; lia|].
    unfold parse_fuel in *. lia.
  - intros (s & Hc & s' & Hp). apply (chunk_stream_end chunks [] s) in Hc; [|done].
    rewrite Hc in *. simpl in *.
    rewrite (parse_fuel_irrelevant (parse_fuel (length s))); [by rewrite Hp|done|..];
      unfold parse_fuel in *; simpl; lia.
Qed.

(** The parser always terminates: no chunk sequence exhausts the fuel. *)
Theorem parse_chunks_terminates chunks : parse_json_byte_chunks chunks <> Err OutOfFuel.
Proof.
  rewrite parse_chunks_stream.
  pose proof (parse_spec _ _ (chunk_stream_live chunks []) (chunk_fuel chunks)) as Hs.
  unfold p_spec in Hs. destruct (parse _ _) as [[]|e]; [done|]. destruct e; congruence.
Qed.

(** Chunk boundaries do not matter.  Wherever the bytes are cut, in the middle
    of a character or of a number too, the parser accepts exactly when the bytes
    decode to a text that parses, and gives the value of that text. *)
Theorem parse_chunks_iff_text chunks v :
  parse_json_byte_chunks chunks = Ok v <->
  exists s, chunks_encode chunks s /\ parse_json_text s = Ok v.
Proof. apply parse_chunks_iff_text'. Qed.
End chunking.
