(* ===== verification/JsonRoundtrip.v ===== *)
(** * JsonRoundtrip: parsing a canonical text gives the value back *)

From stdpp Require Import prelude gmap strings list sorting.
From S2P Require Import Prelude Text Json JsonStream JsonReader JsonParser.

Open Scope Z_scope.

(** [p] reads exactly [t] and returns [a], whatever acceptable text follows. *)
Definition reads {A} `{PyFloat} (p : nat -> P stream A) (t : pystr) (a : A)
    (next : pystr -> Prop) : Prop :=
  exists n0, forall n rest, (n0 <= n)%nat -> next rest ->
    p n (Stream (t ++ rest) None) = Ok (a, Stream rest None).

Definition anything (rest : pystr) : Prop := True.

(** What may follow a number: the end, or a character no number contains. *)
Definition after_number (rest : pystr) : Prop :=
  match rest with [] => True | c :: _ => is_number_char c = false end.

Definition is_head (c : Z) : bool :=
  bool_decide (c ∈ [34; 123; 91; 116; 102; 110; 45]) || is_digit c.

(** ** Sorting members by key commutes with rewriting their values *)

Section sort_map.
Context {V W : Type} (f : V -> W).

Definition on_value (kv : pystr * V) : pystr * W := (kv.1, f kv.2).

Lemma list_merge_map (l1 l2 : list (pystr * V)) :
  list_merge by_key (map on_value l1) (map on_value l2) = map on_value (list_merge by_key l1 l2).
Proof.
  revert l2; induction l1 as [|x l1 IH1]; intros l2; [by destruct l2|].
  induction l2 as [|y l2 IH2]; [done|].
  cbn [map]. rewrite !list_merge_cons.
  assert (by_key (on_value x) (on_value y) <-> by_key x y) as Hxy by done.
  destruct (decide (by_key (on_value x) (on_value y))) as [H1|H1],
           (decide (by_key x y)) as [H2|H2]; [|tauto|tauto|]; cbn [map]; f_equal; [|done].
  apply (IH1 (y :: l2)).
Qed.

Lemma merge_list_to_stack_map (st : list (option (list (pystr * V)))) l :
  merge_list_to_stack by_key (map (option_map (map on_value)) st) (map on_value l) =
  map (option_map (map on_value)) (merge_list_to_stack by_key st l).
Proof.
  revert l; induction st as [|[l'|] st IH]; intros l; simpl; [done| |done].
  by rewrite list_merge_map, IH.
Qed.

Lemma merge_sort_aux_map (st : list (option (list (pystr * V)))) l :
  merge_sort_aux by_key (map (option_map (map on_value)) st) (map on_value l) =
  map on_value (merge_sort_aux by_key st l).
Proof.
  revert st; induction l as [|x l IH]; intros st; simpl.
  - induction st as [|[l|] st IHst]; simpl; [done| |done]. by rewrite IHst, list_merge_map.
  - rewrite <- IH. f_equal. apply (merge_list_to_stack_map st [x]).
Qed.
End sort_map.

Lemma sort_items_map {V W} (f : V -> W) (l : list (pystr * V)) :
  sort_items (map (fun kv => (kv.1, f kv.2)) l) = map (fun kv => (kv.1, f kv.2)) (sort_items l).
Proof. exact (merge_sort_aux_map f [] l). Qed.

Lemma sort_items_perm {V} (l : list (pystr * V)) : sort_items l ≡ₚ l.
Proof. apply merge_sort_Permutation. Qed.

#[export] Instance by_key_total {V} : Total (@by_key V).
Proof. intros p q. apply str_leb_total. Qed.
#[export] Instance by_key_trans {V} : Transitive (@by_key V).
Proof. intros p q r. apply str_leb_trans. Qed.

Lemma sort_items_unique {V} (l1 l2 : list (pystr * V)) :
  NoDup l1.*1 -> l1 ≡ₚ l2 -> sort_items l1 = sort_items l2.
Proof.
  intros Hnd Hp. apply (Sorted_unique_strong by_key); [|apply (Sorted_merge_sort _)..|].
  - intros [k1 v1] [k2 v2] H1 H2 Hle Hge. unfold by_key in *. simpl in *.
    rewrite sort_items_perm in H1. rewrite sort_items_perm, <- Hp in H2.
    assert (k1 = k2) as -> by (by apply str_leb_antisym). f_equal.
    apply list_elem_of_lookup in H1 as [i1 H1], H2 as [i2 H2].
    assert (i1 = i2) as ->; [|congruence].
    eapply NoDup_lookup; [exact Hnd|by rewrite list_lookup_fmap, H1|by rewrite list_lookup_fmap, H2].
  - by rewrite !sort_items_perm.
Qed.

(** ** Strings *)

Lemma hex_value_digit d : 0 <= d < 16 -> hex_value (hex_digit d) = Some d.
Proof.
  intros Hd. assert (d ∈ [0;1;2;3;4;5;6;7;8;9;10;11;12;13;14;15]) as Hin
    by (rewrite !elem_of_cons; lia).
  rewrite !elem_of_cons in Hin.
  by repeat (destruct Hin as [->|Hin]; [vm_compute; done|]); apply elem_of_nil in Hin.
Qed.

Section roundtrip.
Context `{PyFloat}.

Lemma escape_string_scalar s :
  scalar_string s = true -> escape_string s = Ok (concat (map escape_char s)).
Proof.
  unfold scalar_string. induction s as [|c s IH]; simpl; [done|].
  rewrite andb_true_iff. intros [Hc Hs]. unfold scalar_value in Hc.
  rewrite !andb_true_iff, !negb_true_iff in Hc. destruct Hc as [[_ ->] ->].
  by rewrite (IH Hs).
Qed.

Lemma unicode_escape_control c t :
  0 <= c < 32 ->
  unicode_escape
    (Stream ([48; 48; hex_digit (c / 16); hex_digit (c mod 16)] ++ t) None) = Ok (c, Stream t None).
Proof.
  intros Hc. pose proof (Z.div_mod c 16). pose proof (Z.mod_pos_bound c 16).
  assert (0 <= c / 16 < 2) by (split; [apply Z.div_pos|apply Z.div_lt_upper_bound]; lia).
  assert (Hhex : hex4 [48; 48; hex_digit (c / 16); hex_digit (c mod 16)] = Ok c).
  { unfold hex4. simpl. rewrite !hex_value_digit by lia. simpl. f_equal. lia. }
  unfold unicode_escape, p_bind, p_of_res. cbn -[hex4 hex_digit high_surrogate low_surrogate].
  rewrite Hhex. simpl. unfold high_surrogate, low_surrogate.
  replace (0xD800 <=? c) with false by (symmetry; apply Z.leb_gt; lia).
  by replace (0xDC00 <=? c) with false by (symmetry; apply Z.leb_gt; lia).
Qed.

Lemma string_loop_escape n e c t :
  simple_escape e = Some c ->
  string_loop (S n) (Stream (92 :: e :: t) None) =
  res_bind (string_loop n (Stream t None)) (fun p => Ok (c :: p.1, p.2)).
Proof.
  intros He. cbn [string_loop]. unfold p_bind. simpl. rewrite He.
  by destruct (string_loop n _) as [[]|].
Qed.

Lemma string_loop_unicode n c t s' :
  unicode_escape (Stream t None) = Ok (c, s') ->
  string_loop (S n) (Stream (92 :: 117 :: t) None) =
  res_bind (string_loop n s') (fun p => Ok (c :: p.1, p.2)).
Proof.
  intros Hu. cbn [string_loop]. unfold p_bind. simpl. rewrite Hu. simpl.
  by destruct (string_loop n s') as [[]|].
Qed.

Lemma string_loop_char n c t :
  scalar_value c = true ->
  string_loop (S n) (Stream (escape_char c ++ t) None) =
  res_bind (string_loop n (Stream t None)) (fun p => Ok (c :: p.1, p.2)).
Proof.
  intros Hc. unfold escape_char, short_escape.
  repeat match goal with
  | |- context [if c =? ?k then _ else _] =>
      let E := fresh "E" in destruct (c =? k) eqn:E;
      [apply Z.eqb_eq in E as ->; by apply string_loop_escape|]
  end.
  unfold scalar_value in Hc. rewrite !andb_true_iff, Z.leb_le, Z.ltb_lt in Hc.
  destruct (c <? 32) eqn:E7.
  - apply Z.ltb_lt in E7.
    pose proof (unicode_escape_control c t ltac:(lia)) as Hu.
    by apply (string_loop_unicode n _ _ _ Hu).
  - cbn [string_loop]. unfold p_bind at 1. simpl. rewrite E, E0, E7.
    unfold p_bind. simpl. by destruct (string_loop n _) as [[]|].
Qed.

Lemma string_loop_escaped s rest n :
  scalar_string s = true -> (length s < n)%nat ->
  string_loop n (Stream (concat (map escape_char s) ++ 34 :: rest) None) = Ok (s, Stream rest None).
Proof.
  unfold scalar_string. revert n; induction s as [|c s IH]; intros [|n] Hs Hn; simpl in *; try lia.
  - done.
  - rewrite andb_true_iff in Hs. destruct Hs as [Hc Hs].
    change (string_loop (S n) (Stream ((escape_char c ++ concat (map escape_char s)) ++ 34 :: rest) None)
      = Ok (c :: s, Stream rest None)).
    rewrite <- (assoc_L (++)), string_loop_char by done. by rewrite IH by (done || lia).
Qed.

Lemma string_reads s t :
  scalar_string s = true -> json_string s = Ok t -> reads string_ t s anything.
Proof.
  intros Hs. unfold json_string. rewrite escape_string_scalar by done. simpl. intros [= <-].
  exists (S (length s)). intros n rest Hn _. unfold string_. simpl.
  rewrite <- (assoc_L (++)). unfold p_bind. simpl.
  apply string_loop_escaped; [done|lia].
Qed.

(** ** Numbers *)

Definition number_text (t : pystr) : Prop := Forall (fun c => is_number_char c = true) t.

Lemma digit_number_char c : is_digit c = true -> is_number_char c = true.
Proof. unfold is_number_char. by intros ->. Qed.

Lemma take_digits_cons c s :
  take_digits (c :: s) =
  if is_digit c then (c :: (take_digits s).1, (take_digits s).2) else ([], c :: s).
Proof. reflexivity. Qed.

Lemma take_digits_spec s :
  s = (take_digits s).1 ++ (take_digits s).2 /\
  Forall (fun c => is_digit c = true) (take_digits s).1.
Proof.
  induction s as [|c s [IH1 IH2]]; [by split; [|constructor]|].
  rewrite take_digits_cons. destruct (is_digit c) eqn:E; simpl; [|by split; [|constructor]].
  split; [by f_equal|]. by constructor.
Qed.

Lemma digits_number_text s : Forall (fun c => is_digit c = true) s -> number_text s.
Proof. intros Hs. eapply Forall_impl; [exact Hs|]. exact digit_number_char. Qed.

Lemma take_digits_all s : Forall (fun c => is_digit c = true) s -> take_digits s = (s, []).
Proof. induction 1 as [|c s Hc _ IH]; [done|]. by rewrite take_digits_cons, Hc, IH. Qed.

Lemma int_part_spec s i r :
  int_part s = Some (i, r) -> s = i ++ r /\ Forall (fun c => is_digit c = true) i /\ i <> [].
Proof.
  destruct s as [|c s]; simpl; [done|]. destruct (c =? 48) eqn:E.
  - intros [= <- <-]. apply Z.eqb_eq in E as ->. split; [done|]. split; [|done]. by repeat constructor.
  - destruct (is_digit c) eqn:Ed; [|done]. intros [= <- <-].
    destruct (take_digits_spec s) as [Hs Hn]. simpl. split; [by f_equal|].
    split; [|done]. by constructor.
Qed.

Lemma frac_part_spec s : s = (frac_part s).1 ++ (frac_part s).2 /\ number_text (frac_part s).1.
Proof.
  unfold frac_part. repeat case_goal; try (by split; [|constructor]).
  match goal with E : take_digits ?l = _ |- _ => destruct (take_digits_spec l) as [Hs Hn]; rewrite E in * end.
  simpl in *. split; [by rewrite Hs|]. constructor; [done|]. by apply digits_number_text.
Qed.

Lemma exp_part_spec s : s = (exp_part s).1 ++ (exp_part s).2 /\ number_text (exp_part s).1.
Proof.
  unfold exp_part. destruct s as [|c s]; [by split; [|constructor]|].
  destruct ((c =? 101) || (c =? 69)) eqn:Ec; [|by split; [|constructor]].
  assert (Hc : is_number_char c = true).
  { rewrite orb_true_iff, !Z.eqb_eq in Ec. by destruct Ec as [-> | ->]. }
  assert (Hsg : exists sg r, exp_sign s = (sg, r) /\ s = sg ++ r /\ number_text sg).
  { unfold exp_sign. repeat case_goal; (eexists _, _; split; [reflexivity|]; split; [done|]);
      by repeat constructor. }
  destruct Hsg as (sg & r & -> & -> & Hsg). destruct (take_digits_spec r) as [Hs Hn].
  destruct (take_digits r) as [[|d ds] r']; simpl in *; [by split; [|constructor]|].
  split; [by rewrite Hs, <- (assoc_L (++))|].
  constructor; [done|]. apply Forall_app; split; [done|]. by apply digits_number_text.
Qed.

Lemma split_number_text s p :
  split_number s = Some p ->
  number_text s /\ exists c s', s = c :: s' /\ ((c =? 45) || is_digit c) = true.
Proof.
  unfold split_number. intros Hs.
  assert (Hneg : s = (if (number_sign s).1 then [45] else []) ++ (number_sign s).2).
  { destruct s as [|c s]; [done|]. simpl. destruct (c =? 45) eqn:E; [|done]. by apply Z.eqb_eq in E as ->. }
  destruct (number_sign s) as [neg s0]. simpl in Hneg. subst s.
  destruct (int_part s0) as [[i s1]|] eqn:Ei; [|done]. apply int_part_spec in Ei.
  destruct Ei as (-> & Hi & Hne).
  destruct (frac_part_spec s1) as [H1 H2]. destruct (frac_part s1) as [f s2]. simpl in *.
  destruct (exp_part_spec s2) as [H3 H4]. destruct (exp_part s2) as [e s3]. simpl in *.
  destruct s3; [|done]. rewrite app_nil_r in H3. subst. split.
  - apply Forall_app; split; [destruct neg; by repeat constructor|].
    apply Forall_app; split; [by apply digits_number_text|]. by apply Forall_app.
  - destruct neg; [by eexists _, _|]. destruct i as [|c i]; [done|].
    exists c, (i ++ f ++ e). split; [done|]. inversion Hi as [|? ? Hc _]; subst.
    by rewrite Hc, orb_true_r.
Qed.

Lemma number_loop_reads t rest n :
  number_text t -> after_number rest -> (length t < n)%nat ->
  number_loop n (Stream (t ++ rest) None) = Ok (t, Stream rest None).
Proof.
  revert n; induction t as [|c t IH]; intros [|n] Ht Hr Hn; simpl in *; try lia.
  - destruct rest as [|c rest]; [done|]. unfold p_bind. simpl in *. by rewrite Hr.
  - inversion Ht as [|? ? Hc Ht']; subst. unfold p_bind. simpl. rewrite Hc. simpl.
    by rewrite (IH n) by (done || lia).
Qed.

Lemma number_reads t j :
  number_text t -> loads_number t = Ok j -> reads number t j after_number.
Proof.
  intros Ht Hj. exists (S (length t)). intros n rest Hn Hr. unfold number, p_bind.
  rewrite number_loop_reads by (done || lia). simpl. by rewrite Hj.
Qed.

Lemma split_dec_nat n :
  0 <= n -> int_part (dec_nat n) = Some (dec_nat n, []).
Proof.
  intros Hn. destruct (dec_nat_spec n Hn) as (_ & Hd & [->|(c & s & E & Hc)] & _); [done|].
  rewrite E in *. cbn [int_part]. destruct (c =? 48) eqn:Ec; [by apply Z.eqb_eq in Ec|].
  inversion Hd as [|? ? H1 H2]; subst. rewrite H1. by rewrite take_digits_all.
Qed.

Lemma dec_nat_head n : 0 <= n -> exists c s, dec_nat n = c :: s /\ is_digit c = true.
Proof.
  intros Hn. destruct (dec_nat_spec n Hn) as (_ & Hd & _ & Hne).
  destruct (dec_nat n) as [|c s]; [done|]. inversion Hd; subst. by exists c, s.
Qed.

Lemma split_dec_int z :
  split_number (dec_int z) = Some (NumberParts (z <? 0) (dec_nat (Z.abs z)) [] []).
Proof.
  unfold split_number, dec_int. destruct (z <? 0) eqn:E.
  - apply Z.ltb_lt in E. change (number_sign (45 :: dec_nat (- z))) with (true, dec_nat (- z)).
    cbn iota beta. rewrite split_dec_nat by lia. simpl.
    by replace (Z.abs z) with (- z) by lia.
  - apply Z.ltb_ge in E. destruct (dec_nat_head z E) as (c & s & Ez & Hc).
    replace (Z.abs z) with z by lia.
    assert (Hm : number_sign (dec_nat z) = (false, dec_nat z)).
    { rewrite Ez. simpl. destruct (c =? 45) eqn:E2; [|done]. by apply Z.eqb_eq in E2 as ->. }
    rewrite Hm, split_dec_nat by done. done.
Qed.

Lemma int_loads z t : str_int z = Ok t -> loads_number t = Ok (JInt z).
Proof.
  unfold str_int. case_goal; [done|]. intros [= <-].
  unfold loads_number. rewrite split_dec_int. simpl.
  destruct (dec_nat_spec (Z.abs z)) as (Hv & _); [lia|].
  destruct (max_str_digits <? _) eqn:E; [done|]. rewrite Hv.
  do 2 f_equal. destruct (z <? 0) eqn:Ez; [apply Z.ltb_lt in Ez|apply Z.ltb_ge in Ez]; lia.
Qed.

Lemma int_token z t : str_int z = Ok t -> split_number t <> None.
Proof.
  unfold str_int. case_goal; [done|]. intros [= <-]. by rewrite split_dec_int.
Qed.

Lemma float_loads `{!PyFloatLaws} f :
  float_finite f = true -> loads_number (float_repr f) = Ok (JFloat f).
Proof.
  intros Hf. pose proof (float_repr_token f Hf) as Ht. pose proof (float_repr_roundtrip f Hf) as Hr.
  unfold is_float_token, loads_number in *. destruct (split_number (float_repr f)) as [p|]; [|done].
  rewrite Hr. by destruct (np_frac p), (np_exp p).
Qed.

(** A longer text does not change how a number that ends before it is split. *)
Definition no_digit (t : pystr) : Prop :=
  match t with c :: _ => is_digit c = false | [] => True end.

Lemma take_digits_app s t d r :
  take_digits s = (d, r) -> (r = [] -> no_digit t) -> take_digits (s ++ t) = (d, r ++ t).
Proof.
  revert t d r; induction s as [|c s IH]; intros t d r.
  - simpl. intros [= <- <-] Ht. specialize (Ht eq_refl).
    destruct t as [|c t]; [done|]. rewrite take_digits_cons. simpl in Ht. by rewrite Ht.
  - change ((c :: s) ++ t) with (c :: (s ++ t)). rewrite !take_digits_cons.
    destruct (is_digit c); [|by intros [= <- <-]].
    destruct (take_digits s) as [d' r'] eqn:E. intros [= <- <-] Ht.
    by rewrite (IH t d' r' eq_refl Ht).
Qed.

Lemma int_part_app s i r t :
  int_part s = Some (i, r) -> (r = [] -> no_digit t) -> int_part (s ++ t) = Some (i, r ++ t).
Proof.
  destruct s as [|c s]; [done|]. simpl. destruct (c =? 48); [by intros [= <- <-]|].
  destruct (is_digit c) eqn:Ec; [|done]. intros Htake Ht.
  apply (take_digits_app (c :: s) t i r) in Ht;
    [|rewrite take_digits_cons, Ec; by apply (inj Some) in Htake].
  rewrite <- app_comm_cons, take_digits_cons, Ec in Ht. by f_equal.
Qed.

Lemma after_number_no_digit t : after_number t -> no_digit t.
Proof.
  destruct t as [|c t]; [done|]. unfold after_number, no_digit, is_number_char.
  intros Hc. apply orb_false_iff in Hc. tauto.
Qed.

Lemma after_number_head c t : after_number (c :: t) -> c <> 46 /\ c <> 43 /\ c <> 45 /\ c <> 101 /\ c <> 69.
Proof.
  unfold after_number, is_number_char. intros [_ Hc]%orb_false_iff.
  apply bool_decide_eq_false in Hc. rewrite !elem_of_cons, elem_of_nil in Hc. tauto.
Qed.

Lemma frac_part_app s f r t :
  frac_part s = (f, r) -> after_number t -> frac_part (s ++ t) = (f, r ++ t).
Proof.
  intros Hs Ht. pose proof (after_number_no_digit t Ht) as Hd.
  assert (forall c s, c <> 46 -> frac_part (c :: s) = ([], c :: s)) as Hne.
  { intros c s0 Hc. unfold frac_part. repeat (case_match; try done). }
  destruct s as [|c s].
  { injection Hs as <- <-. destruct t as [|c t]; [done|].
    apply after_number_head in Ht as (? & _). by apply Hne. }
  destruct (decide (c = 46)) as [->|Hc].
  - unfold frac_part in *. simpl. destruct (take_digits s) as [d q] eqn:E.
    rewrite (take_digits_app s t d q E) by done. destruct d; by injection Hs as <- <-.
  - rewrite (Hne c s Hc) in Hs. injection Hs as <- <-. by apply Hne.
Qed.

Lemma exp_part_app s e r t :
  exp_part s = (e, r) -> after_number t -> exp_part (s ++ t) = (e, r ++ t).
Proof.
  intros Hs Ht. pose proof (after_number_no_digit t Ht) as Hd.
  destruct s as [|c s].
  { injection Hs as <- <-. destruct t as [|c t]; [done|].
    apply after_number_head in Ht as (_ & _ & _ & H1 & H2). simpl.
    apply Z.eqb_neq in H1, H2. by rewrite H1, H2. }
  unfold exp_part in *. simpl. destruct ((c =? 101) || (c =? 69)); [|by injection Hs as <- <-].
  assert (exp_sign (s ++ t) = ((exp_sign s).1, (exp_sign s).2 ++ t)) as ->.
  { destruct s as [|d s].
    - destruct t as [|d t]; [done|]. apply after_number_head in Ht as (_ & H1 & H2 & _).
      unfold exp_sign. simpl. repeat (case_match; try done).
    - unfold exp_sign. simpl. repeat (case_match; try done). }
  destruct (exp_sign s) as [sg q]. simpl. destruct (take_digits q) as [d q'] eqn:E.
  rewrite (take_digits_app q t d q' E) by done. destruct d; by injection Hs as <- <-.
Qed.

(** ** Values *)

Definition not_space (s : pystr) : Prop :=
  match s with c :: _ => is_json_space (Some c) = false | [] => True end.

Lemma skip_whitespace_nop n s :
  not_space s -> (1 <= n)%nat -> skip_whitespace n (Stream s None) = Ok (tt, Stream s None).
Proof.
  intros Hs Hn. destruct n as [|n]; [lia|]. cbn [skip_whitespace]. unfold p_bind. simpl.
  destruct s as [|c s]; [done|]. simpl in *. by rewrite Hs.
Qed.

Lemma is_head_cases c :
  is_head c = true ->
  is_json_space (Some c) = false /\ c <> 93 /\ c <> 125.
Proof.
  unfold is_head, is_digit. rewrite orb_true_iff, andb_true_iff, !Z.leb_le, bool_decide_eq_true.
  rewrite !elem_of_cons, elem_of_nil. intros Hc. split; [|lia].
  unfold is_json_space. apply bool_decide_eq_false. rewrite !elem_of_cons, elem_of_nil.
  intros Hin. repeat (destruct Hin as [[= ->]|Hin]; [lia|]). done.
Qed.

Lemma json_canonical_head `{!PyFloatLaws} j t :
  json_canonical j = Ok t -> exists c t', t = c :: t' /\ is_head c = true.
Proof.
  assert (Hd : forall c, is_digit c = true -> is_head c = true).
  { intros c Hc. unfold is_head. by rewrite Hc, orb_true_r. }
  assert (Hn : forall s p, split_number s = Some p -> exists c t', s = c :: t' /\ is_head c = true).
  { intros s p Hs. apply split_number_text in Hs as (_ & c & s' & -> & Hc).
    exists c, s'. split; [done|]. apply orb_true_iff in Hc as [Hc|Hc]; [|auto].
    by apply Z.eqb_eq in Hc as ->. }
  destruct j as [|[]|z|f|s|l|l]; simpl; try (intros [= <-]; by eexists _, _).
  - intros Hz. destruct (split_number t) eqn:E; [by eapply Hn|]. by apply int_token in Hz.
  - destruct (float_finite f) eqn:Ef; [|done]. intros [= <-].
    pose proof (float_repr_token f Ef) as Ht. unfold is_float_token in Ht.
    destruct (split_number (float_repr f)) eqn:E; [by eapply Hn|done].
  - unfold json_string. rewrite res_bind_ok. intros (? & _ & [= <-]). by eexists _, _.
  - rewrite res_bind_ok. intros (? & _ & [= <-]). by eexists _, _.
  - rewrite res_bind_ok. intros (? & _ & [= <-]). by eexists _, _.
Qed.

Lemma not_space_head c t rest : is_head c = true -> not_space ((c :: t) ++ rest).
Proof. intros Hc. simpl. by apply is_head_cases. Qed.

(** One element is read: what [value] must do on each text of an array. *)
Definition element_read (j : json) (t : pystr) : Prop :=
  reads value t (json_sorted j) after_number /\ exists c t', t = c :: t' /\ is_head c = true.

Lemma bind_ok {A B} (m : P stream A) (k : A -> P stream B) s a s' :
  m s = Ok (a, s') -> p_bind m k s = k a s'.
Proof. unfold p_bind. by intros ->. Qed.

Lemma array_loop_reads l ts :
  l <> [] -> Forall2 element_read l ts ->
  exists n0, forall n rest, (n0 <= n)%nat ->
    array_loop n (Stream (join [44] ts ++ 93 :: rest) None) = Ok (map json_sorted l, Stream rest None).
Proof.
  intros Hne Hl. induction Hl as [|j t l ts [[n0 Hr] (c & t' & -> & Hc)] Hl IH]; [done|].
  destruct Hl as [|j2 t2 l ts He Hl].
  - exists (S (S n0)). intros n rest Hn. destruct n as [|n]; [lia|]. cbn [array_loop join].
    rewrite (bind_ok _ _ _ _ _ (Hr n (93 :: rest) ltac:(lia) ltac:(done))).
    rewrite (bind_ok _ _ _ _ _ (skip_whitespace_nop n (93 :: rest) ltac:(done) ltac:(lia))). done.
  - destruct IH as [n1 IH]; [done|]. destruct He as [_ (c2 & t2' & -> & Hc2)].
    exists (S (S (n0 + n1))). intros n rest Hn. destruct n as [|n]; [lia|].
    cbn [array_loop]. change (join [44] ((c :: t') :: (c2 :: t2') :: ts))
      with ((c :: t') ++ 44 :: join [44] ((c2 :: t2') :: ts)).
    rewrite <- (assoc_L (++)).
    set (more := join [44] ((c2 :: t2') :: ts)). 
    assert (Hm : not_space (more ++ 93 :: rest)) by (destruct ts; by apply (not_space_head c2)).
    rewrite (bind_ok _ _ _ _ _ (Hr n ((44 :: more) ++ 93 :: rest) ltac:(lia) ltac:(done))).
    rewrite (bind_ok _ _ _ _ _ (skip_whitespace_nop n ((44 :: more) ++ 93 :: rest) ltac:(done) ltac:(lia))).
    rewrite (bind_ok _ _ _ (Some 44) (Stream (more ++ 93 :: rest) None)) by done.
    rewrite decide_False, decide_True by done.
    rewrite (bind_ok _ _ _ _ _ (skip_whitespace_nop n _ Hm ltac:(lia))).
    by rewrite (bind_ok _ _ _ _ _ (IH n rest ltac:(lia))).
Qed.

Definition member_read (kj : pystr * json) (t : pystr) : Prop :=
  exists kt c vt, t = (34 :: kt) ++ 58 :: c :: vt /\ is_head c = true /\
    reads string_ (34 :: kt) kj.1 anything /\
    reads value (c :: vt) (json_sorted kj.2) after_number.

Lemma dict_set_fresh {V} (k : pystr) (v : V) l : k ∉ l.*1 -> dict_set k v l = l ++ [(k, v)].
Proof.
  induction l as [|[k' v'] l IH]; [done|]. simpl. rewrite not_elem_of_cons. intros [Hk Hl].
  by rewrite decide_False, IH.
Qed.

(** One member, up to the delimiter after it. *)
Lemma object_loop_member kj t :
  member_read kj t ->
  exists n1, forall n acc rest, (n1 <= n)%nat -> after_number rest -> not_space rest ->
    object_loop (S n) acc (Stream (t ++ rest) None) =
    p_bind take_char (fun delimiter =>
      if decide (delimiter = Some 125) then p_ret (dict_set kj.1 (json_sorted kj.2) acc)
      else if decide (delimiter = Some 44) then
        p_bind (skip_whitespace n) (fun _ => object_loop n (dict_set kj.1 (json_sorted kj.2) acc))
      else p_raise StreamingJsonDecodeError) (Stream rest None).
Proof.
  intros (kt & c & vt & -> & Hc & [nk Hk] & [nv Hv]).
  exists (S (nk + nv)). intros n acc rest Hn Ha Hs. cbn [object_loop]. rewrite <- (assoc_L (++)).
  rewrite (bind_ok _ _ _ (Some 34) (Stream ((34 :: kt) ++ (58 :: c :: vt) ++ rest) None)) by done.
  rewrite decide_True by done.
  rewrite (bind_ok _ _ _ _ _ (Hk n ((58 :: c :: vt) ++ rest) ltac:(lia) I)).
  rewrite (bind_ok _ _ _ _ _ (skip_whitespace_nop n ((58 :: c :: vt) ++ rest) ltac:(done) ltac:(lia))).
  rewrite (bind_ok _ _ _ tt (Stream ((c :: vt) ++ rest) None)) by done.
  rewrite (bind_ok _ _ _ _ _ (skip_whitespace_nop n ((c :: vt) ++ rest)
             ltac:(by apply not_space_head) ltac:(lia))).
  rewrite (bind_ok _ _ _ _ _ (Hv n rest ltac:(lia) Ha)).
  rewrite (bind_ok _ _ _ _ _ (skip_whitespace_nop n rest Hs ltac:(lia))). done.
Qed.

Lemma object_loop_reads l ts acc :
  l <> [] -> Forall2 member_read l ts -> NoDup (acc.*1 ++ l.*1) ->
  exists n0, forall n rest, (n0 <= n)%nat ->
    object_loop n acc (Stream (join [44] ts ++ 125 :: rest) None) =
    Ok (acc ++ map (fun kj => (kj.1, json_sorted kj.2)) l, Stream rest None).
Proof.
  intros Hne Hl. revert acc. induction Hl as [|kj t l ts Hm Hl IH]; intros acc Hnd; [done|].
  destruct (object_loop_member kj t Hm) as [n1 H1].
  assert (Hset : dict_set kj.1 (json_sorted kj.2) acc = acc ++ [(kj.1, json_sorted kj.2)]).
  { apply dict_set_fresh. intros Hin. apply NoDup_app in Hnd as (_ & Hd & _).
    apply (Hd _ Hin). simpl. by left. }
  destruct Hl as [|kj2 t2 l ts Hm2 Hl].
  - exists (S n1). intros n rest Hn. destruct n as [|n]; [lia|]. cbn [join].
    rewrite H1 by (done || lia).
    rewrite (bind_ok _ _ _ (Some 125) (Stream rest None)) by done.
    rewrite decide_True by done. by rewrite Hset.
  - destruct (IH ltac:(done) (acc ++ [(kj.1, json_sorted kj.2)])) as [n2 H2].
    { rewrite fmap_app, <- (assoc_L (++)). done. }
    exists (S (S (n1 + n2))). intros n rest Hn. destruct n as [|n]; [lia|].
    change (join [44] (t :: t2 :: ts)) with (t ++ 44 :: join [44] (t2 :: ts)).
    rewrite <- (assoc_L (++)). set (more := join [44] (t2 :: ts)) in *.
    assert (Hs : not_space (more ++ 125 :: rest)).
    { destruct Hm2 as (kt & c & vt & -> & _). by destruct ts. }
    rewrite H1 by (done || lia).
    rewrite (bind_ok _ _ _ (Some 44) (Stream (more ++ 125 :: rest) None)) by done.
    rewrite decide_False, decide_True by done.
    rewrite (bind_ok _ _ _ _ _ (skip_whitespace_nop n _ Hs ltac:(lia))).
    rewrite Hset, H2 by lia. by rewrite <- (assoc_L (++)).
Qed.

Context `{!PyFloatLaws}.

Lemma value_number t j c t' :
  t = c :: t' -> ((c =? 45) || is_digit c) = true ->
  number_text t -> loads_number t = Ok j -> reads value t j after_number.
Proof.
  intros -> Hc Ht Hj. destruct (number_reads _ _ Ht Hj) as [n0 Hn].
  exists (S n0). intros n rest Hle Ha. destruct n as [|n]; [lia|]. cbn [value].
  rewrite (bind_ok _ _ _ (Some c) (Stream ((c :: t') ++ rest) None)) by done.
  assert (Hd : 45 <= c <= 57).
  { unfold is_digit in Hc. rewrite orb_true_iff, andb_true_iff, Z.eqb_eq, !Z.leb_le in Hc. lia. }
  repeat match goal with
  | |- context [c =? ?k] => lazymatch k with 45 => fail | _ =>
      replace (c =? k) with false by (symmetry; apply Z.eqb_neq; lia) end
  end.
  rewrite Hc. apply Hn; [lia|done].
Qed.

Lemma members_read l ts :
  Forall (fun kv => wf_json kv.2 = true -> forall t, json_canonical kv.2 = Ok t ->
            reads value t (json_sorted kv.2) after_number) l ->
  forallb (fun kv => scalar_string kv.1 && wf_json kv.2) l = true ->
  res_map_list member_text (map (fun kv => (kv.1, json_canonical kv.2)) l) = Ok ts ->
  Forall2 member_read l ts.
Proof.
  intros Hl. revert ts. induction Hl as [|[k j] l Hj Hl IH]; intros ts; simpl.
  - intros _ [= <-]. constructor.
  - rewrite !andb_true_iff. intros [[Hk Hwf] Hrest].
    unfold member_text at 1. simpl. rewrite res_bind_ok. intros (t & Ht & Hts).
    rewrite res_bind_ok in Hts. destruct Hts as (ts' & Hts & [= <-]). constructor; [|by apply IH].
    rewrite res_bind_ok in Ht. destruct Ht as (kt & Hkt & Ht).
    rewrite res_bind_ok in Ht. destruct Ht as (vt & Hvt & [= <-]).
    pose proof (string_reads k kt Hk Hkt) as Hkr. pose proof (json_canonical_head _ _ Hvt) as Hh.
    destruct Hh as (c & vt' & -> & Hc). unfold json_string in Hkt.
    rewrite res_bind_ok in Hkt. destruct Hkt as (e & _ & [= <-]).
    exists (e ++ [34]), c, vt'. split; [done|]. split; [done|]. split; [done|]. by apply Hj.
Qed.

Definition value_read (j : json) : Prop :=
  wf_json j = true -> forall t, json_canonical j = Ok t -> reads value t (json_sorted j) after_number.

Lemma elements_read l ts :
  Forall value_read l -> forallb wf_json l = true ->
  Forall2 (fun j t => json_canonical j = Ok t) l ts -> Forall2 element_read l ts.
Proof.
  intros IH Hwf Hts. induction Hts as [|j t l ts Hj Hts IHl]; [constructor|].
  simpl in Hwf. apply andb_true_iff in Hwf as [Hw Hwf].
  inversion IH as [|? ? Hj' IH']; subst. constructor; [|by apply IHl].
  split; [by apply Hj'|by eapply json_canonical_head].
Qed.

(** The opening bracket and a first character that does not close it. *)
Lemma value_open n c more :
  is_head c = true -> (1 <= n)%nat ->
  value (S n) (Stream (91 :: c :: more) None) =
    p_bind (array_loop n) (fun l => p_ret (JArr l)) (Stream (c :: more) None) /\
  value (S n) (Stream (123 :: c :: more) None) =
    p_bind (object_loop n []) (fun l => p_ret (JObj l)) (Stream (c :: more) None).
Proof.
  intros Hc Hn. pose proof (is_head_cases c Hc) as (Hsp & H93 & H125).
  split; cbn [value].
  - rewrite (bind_ok _ _ _ (Some 91) (Stream (91 :: c :: more) None)) by done.
    cbn [Z.eqb Pos.eqb]. rewrite (bind_ok _ _ _ tt (Stream (c :: more) None)) by done.
    rewrite (bind_ok _ _ _ _ _ (skip_whitespace_nop n (c :: more) Hsp Hn)).
    rewrite (bind_ok _ _ _ (Some c) (Stream (c :: more) None)) by done.
    by rewrite decide_False by congruence.
  - rewrite (bind_ok _ _ _ (Some 123) (Stream (123 :: c :: more) None)) by done.
    cbn [Z.eqb Pos.eqb]. rewrite (bind_ok _ _ _ tt (Stream (c :: more) None)) by done.
    rewrite (bind_ok _ _ _ _ _ (skip_whitespace_nop n (c :: more) Hsp Hn)).
    rewrite (bind_ok _ _ _ (Some c) (Stream (c :: more) None)) by done.
    by rewrite decide_False by congruence.
Qed.

Lemma value_empty n rest :
  (1 <= n)%nat ->
  value (S n) (Stream (91 :: 93 :: rest) None) = Ok (JArr [], Stream rest None) /\
  value (S n) (Stream (123 :: 125 :: rest) None) = Ok (JObj [], Stream rest None).
Proof. destruct n; [lia|]. by split. Qed.

Lemma bracketed (o : Z) m c rest : ([o] ++ m ++ [c]) ++ rest = o :: m ++ c :: rest.
Proof. simpl. by rewrite <- (assoc_L (++)). Qed.

(** A separated list starts as its first text does. *)
Lemma join_head c t ts tail :
  exists more, join [44] ((c :: t) :: ts) ++ tail = c :: more.
Proof. destruct ts; by eexists. Qed.

Lemma value_array l t :
  Forall value_read l -> wf_json (JArr l) = true -> json_canonical (JArr l) = Ok t ->
  reads value t (json_sorted (JArr l)) after_number.
Proof.
  intros IH Hwf. cbn [json_canonical json_sorted wf_json] in *. rewrite res_bind_ok.
  intros (ts & Hts & Ht). apply (inj Ok) in Ht as <-. apply res_map_list_ok in Hts. pose proof (elements_read _ _ IH Hwf Hts) as Hel.
  destruct l as [|j l].
  { inversion Hel; subst. exists 2%nat. intros [|n] rest Hn _; [lia|]. apply value_empty. lia. }
  destruct (array_loop_reads (j :: l) _ ltac:(done) Hel) as [n0 Hr].
  destruct ts as [|t0 ts]; [by inversion Hel|].
  inversion Hel as [|? ? ? ? [_ (c & t' & -> & Hc)] _]; subst.
  exists (S (S n0)). intros [|n] rest Hn _; [lia|]. rewrite bracketed.
  specialize (Hr n rest ltac:(lia)). destruct (join_head c t' ts (93 :: rest)) as [more Hm].
  rewrite Hm in *. etransitivity; [exact (proj1 (value_open n c more Hc ltac:(lia)))|].
  by rewrite (bind_ok _ _ _ _ _ Hr).
Qed.

Lemma value_object l t :
  Forall (fun kv => value_read kv.2) l -> wf_json (JObj l) = true ->
  json_canonical (JObj l) = Ok t -> reads value t (json_sorted (JObj l)) after_number.
Proof.
  intros IH Hwf Ht. cbn [json_canonical json_sorted wf_json] in *.
  apply andb_true_iff in Hwf as [Hnd Hwf]. apply bool_decide_eq_true in Hnd.
  rewrite sort_items_map, res_bind_ok in Ht. destruct Ht as (ts & Hts & Ht).
  apply (inj Ok) in Ht as <-. rewrite sort_items_map. pose proof (sort_items_perm l) as Hp.
  set (sl := sort_items l) in *. clearbody sl. rewrite <- Hp in IH, Hnd.
  assert (Hwf' : forallb (fun kv => scalar_string kv.1 && wf_json kv.2) sl = true).
  { apply forallb_forall. intros kv Hin. rewrite forallb_forall in Hwf. apply Hwf.
    apply list_elem_of_In. rewrite <- Hp. by apply list_elem_of_In. }
  pose proof (members_read _ _ IH Hwf' Hts) as Hm.
  destruct sl as [|kv sl].
  { inversion Hm; subst. exists 2%nat. intros [|n] rest Hn _; [lia|]. apply value_empty. lia. }
  destruct (object_loop_reads (kv :: sl) _ [] ltac:(done) Hm Hnd) as [n0 Hr].
  destruct ts as [|t0 ts]; [by inversion Hm|].
  inversion Hm as [|? ? ? ? (kt & c & vt & -> & _) _]; subst.
  exists (S (S n0)). intros [|n] rest Hn _; [lia|]. rewrite bracketed.
  specialize (Hr n rest ltac:(lia)).
  destruct (join_head 34 (kt ++ 58 :: c :: vt) ts (125 :: rest)) as [more Hmore].
  simpl ((34 :: kt) ++ _) in *. rewrite Hmore in *.
  etransitivity; [exact (proj2 (value_open n 34 more eq_refl ltac:(lia)))|].
  by rewrite (bind_ok _ _ _ _ _ Hr).
Qed.

Lemma value_reads j : value_read j.
Proof.
  induction j as [|b|z|f|s|l IH|l IH] using json_ind; intros Hwf t Ht.
  - injection Ht as <-. exists 1%nat. intros [|n] rest Hn _; [lia|]. reflexivity.
  - injection Ht as <-. exists 1%nat. intros [|n] rest Hn _; [lia|]. by destruct b.
  - simpl in Ht. destruct (split_number t) as [p|] eqn:E; [|by apply int_token in Ht].
    apply split_number_text in E as (Hnt & c & t' & -> & Hc).
    by eapply value_number; [|done..|apply int_loads].
  - simpl in *. rewrite Hwf in Ht. injection Ht as <-.
    pose proof (float_repr_token f Hwf) as Hf. unfold is_float_token in Hf.
    destruct (split_number (float_repr f)) as [p|] eqn:E; [|done].
    apply split_number_text in E as (Hnt & c & t' & E & Hc).
    by eapply value_number; [exact E|done..|apply float_loads].
  - simpl in *. destruct (string_reads s t Hwf Ht) as [n0 Hr].
    unfold json_string in Ht. rewrite res_bind_ok in Ht. destruct Ht as (e & _ & [= <-]).
    exists (S n0). intros [|n] rest Hn _; [lia|]. cbn [value object_loop array_loop].
    rewrite (bind_ok _ _ _ (Some 34) (Stream ((34 :: e ++ [34]) ++ rest) None)) by done.
    change (34 =? 34) with true. cbn iota. by rewrite (bind_ok _ _ _ _ _ (Hr n rest ltac:(lia) I)).
  - by apply value_array.
  - by apply value_object.
Qed.
End roundtrip.

(** ** The theorems *)

Section canonical.
Context `{PyFloatLaws}.

Lemma scalar_app s t : scalar_string (s ++ t) = scalar_string s && scalar_string t.
Proof. apply forallb_app. Qed.

Lemma number_text_scalar s : number_text s -> scalar_string s = true.
Proof.
  intros Hs. apply forallb_forall. intros c Hc%list_elem_of_In.
  pose proof (proj1 (Forall_forall _ _) Hs c Hc) as Hn. revert Hn.
  unfold is_number_char, is_digit, scalar_value, high_surrogate, low_surrogate.
  rewrite orb_true_iff, andb_true_iff, bool_decide_eq_true, !Z.leb_le.
  rewrite !elem_of_cons, elem_of_nil. intros Hn.
  rewrite !andb_true_iff, !negb_true_iff, !andb_false_iff, Z.leb_le, Z.ltb_lt, !Z.leb_gt. lia.
Qed.

Lemma escape_char_scalar c : scalar_value c = true -> scalar_string (escape_char c) = true.
Proof.
  intros Hc. unfold escape_char, short_escape.
  repeat case_goal; try done; [|by simpl; rewrite Hc].
  assert (0 <= c < 32) as Hr by (unfold scalar_value in Hc; rewrite !andb_true_iff in Hc; lia).
  clear -Hr. revert c Hr. 
  assert (forall n, (n < 32)%nat -> let c := Z.of_nat n in
    scalar_string (u "\u00" ++ [hex_digit (c / 16); hex_digit (c mod 16)]) = true) as Hall.
  { intros n Hn. do 32 (destruct n as [|n]; [by vm_compute|]). lia. }
  intros c Hr. specialize (Hall (Z.to_nat c) ltac:(lia)). by rewrite Z2Nat.id in Hall by lia.
Qed.

Lemma json_string_total s :
  scalar_string s = true -> exists t, json_string s = Ok t /\ scalar_string t = true.
Proof.
  intros Hs. unfold json_string. rewrite escape_string_scalar by done. eexists; split; [done|].
  cbn [res_bind]. change (scalar_string (34 :: ?t)) with (scalar_string t).
  rewrite scalar_app. apply andb_true_iff; split; [|done].
  apply forallb_forall. intros c Hc. apply in_concat in Hc as (e & He & Hc).
  apply in_map_iff in He as (d & <- & Hd). unfold scalar_string in Hs.
  rewrite forallb_forall in Hs. pose proof (escape_char_scalar d (Hs d Hd)) as Hd'.
  unfold scalar_string in Hd'. rewrite forallb_forall in Hd'. auto.
Qed.

Lemma join_scalar sep ts :
  scalar_string sep = true -> Forall (fun t => scalar_string t = true) ts ->
  scalar_string (join sep ts) = true.
Proof.
  intros Hsep Hts. induction Hts as [|t ts Ht Hts IH]; [done|].
  destruct ts as [|t2 ts]; [done|]. change (join sep (t :: t2 :: ts)) with (t ++ sep ++ join sep (t2 :: ts)).
  by rewrite !scalar_app, Ht, Hsep, IH.
Qed.

Lemma res_map_list_total {A} (f : A -> res pystr) (P : pystr -> Prop) l :
  Forall (fun a => exists t, f a = Ok t /\ P t) l -> exists ts, res_map_list f l = Ok ts /\ Forall P ts.
Proof.
  induction 1 as [|a l (t & Ht & HP) _ (ts & Hts & HPs)]; [by exists []|].
  exists (t :: ts). split; [by simpl; rewrite Ht, Hts|by constructor].
Qed.

Lemma dec_nat_scalar n : 0 <= n -> scalar_string (dec_nat n) = true.
Proof. intros Hn. by apply number_text_scalar, digits_number_text, dec_nat_spec. Qed.

Lemma bracket_scalar o t c :
  scalar_value o && scalar_value c = true -> scalar_string t = true ->
  scalar_string ([o] ++ t ++ [c]) = true.
Proof.
  intros [Ho Hc]%andb_true_iff Ht. rewrite !scalar_app, Ht. unfold scalar_string. simpl. by rewrite Ho, Hc.
Qed.

Lemma json_canonical_total j :
  wf_json j = true -> exists t, json_canonical j = Ok t /\ scalar_string t = true.
Proof.
  induction j as [|[]|z|f|s|l IH|l IH] using json_ind; cbn [wf_json json_canonical]; intros Hwf;
    try by eexists.
  - unfold str_int. apply Z.leb_le in Hwf. apply Z.ltb_ge in Hwf. rewrite Hwf.
    eexists; split; [done|]. unfold dec_int. case_goal.
    + change (scalar_string (?c :: ?t)) with (scalar_string t). apply dec_nat_scalar. lia.
    + apply dec_nat_scalar. lia.
  - rewrite Hwf. eexists; split; [done|].
    pose proof (float_repr_token f Hwf) as Ht. unfold is_float_token in Ht.
    destruct (split_number _) eqn:E; [|done]. apply split_number_text in E as (Hn & _).
    by apply number_text_scalar.
  - by apply json_string_total.
  - destruct (res_map_list_total json_canonical (fun t => scalar_string t = true) l) as (ts & -> & Hts).
    { rewrite forallb_forall in Hwf. rewrite Forall_forall in IH |- *. intros j Hj.
      apply IH; [done|]. by apply Hwf, list_elem_of_In. }
    eexists; split; [done|]. apply bracket_scalar; [done|by apply join_scalar].
  - apply andb_true_iff in Hwf as [_ Hwf]. rewrite sort_items_map.
    edestruct (res_map_list_total member_text (fun t => scalar_string t = true)) as (ts & -> & Hts).
    { apply Forall_fmap, Forall_forall. intros kv Hkv. rewrite sort_items_perm in Hkv.
      rewrite forallb_forall in Hwf. specialize (Hwf kv (proj1 (list_elem_of_In _ _) Hkv)).
      apply andb_true_iff in Hwf as [Hk Hv]. rewrite Forall_forall in IH.
      destruct (IH kv Hkv Hv) as (t & Ht & Hst). destruct (json_string_total kv.1 Hk) as (kt & Hkt & Hskt).
      unfold member_text, on_value. simpl. rewrite Hkt, Ht. simpl. eexists; split; [done|].
      by rewrite scalar_app, Hskt. }
    eexists; split; [done|]. apply bracket_scalar; [done|by apply join_scalar].
Qed.

(** Sorting the keys of a value does not change its canonical text. *)
Lemma json_canonical_sorted j : wf_json j = true -> json_canonical (json_sorted j) = json_canonical j.
Proof.
  induction j as [|[]|z|f|s|l IH|l IH] using json_ind; cbn [json_sorted json_canonical wf_json];
    intros Hwf; try done.
  - assert (res_map_list json_canonical (map json_sorted l) = res_map_list json_canonical l) as ->; [|done].
    induction IH as [|j l Hj _ IHl]; [done|]. simpl in *. apply andb_true_iff in Hwf as [? ?].
    by rewrite Hj, IHl.
  - apply andb_true_iff in Hwf as [Hnd Hwf]. apply bool_decide_eq_true in Hnd.
    f_equal. f_equal. rewrite !sort_items_map, map_map.
    rewrite <- (sort_items_unique l (sort_items l) Hnd) by (by rewrite sort_items_perm).
    apply map_ext_in. intros kv Hkv%list_elem_of_In. rewrite sort_items_perm in Hkv.
    rewrite Forall_forall in IH. unfold on_value. simpl. f_equal. apply IH; [done|].
    rewrite forallb_forall in Hwf. apply list_elem_of_In, Hwf in Hkv.
    by apply andb_true_iff in Hkv as [_ ?].
Qed.

Lemma canonical_text_parses j t :
  wf_json j = true -> json_canonical j = Ok t -> parse_json_text t = Ok (json_sorted j).
Proof.
  intros Hwf Ht. destruct (value_reads j Hwf t Ht) as [n0 Hr].
  destruct (json_canonical_head j t Ht) as (c & t' & -> & Hc).
  apply parse_text_ok. exists (Stream [] None).
  rewrite <- (parse_fuel_irrelevant _ (n0 + parse_fuel (length (c :: t')) + 1)%nat);
    [|done|unfold parse_fuel; simpl; lia..].
  set (n := (n0 + parse_fuel (length (c :: t')) + 1)%nat).
  specialize (Hr n [] ltac:(lia) I). rewrite app_nil_r in Hr. unfold parse.
  rewrite (bind_ok _ _ _ _ _ (skip_whitespace_nop n (c :: t')
             (proj1 (is_head_cases c Hc)) ltac:(lia))).
  rewrite (bind_ok _ _ _ _ _ Hr).
  rewrite (bind_ok _ _ _ _ _ (skip_whitespace_nop n [] I ltac:(lia))). done.
Qed.

(** C1: the parser inverts the canonical printer. *)
Theorem canonical_roundtrip j :
  wf_json j = true ->
  exists t b, json_canonical j = Ok t /\ utf8_encode t = Ok b /\
    forall chunks bs, mapM chunk_bytes chunks = Some bs -> concat bs = b ->
      parse_json_byte_chunks chunks = Ok (json_sorted j).
Proof.
  intros Hwf. destruct (json_canonical_total j Hwf) as (t & Ht & Hs).
  exists t, (concat (map utf8_encode_char t)). unfold utf8_encode, scalar_string in *. rewrite Hs.
  split; [done|]. split; [done|]. intros chunks bs Hbs Hb. apply parse_chunks_iff_text'.
  exists t. split; [|by apply canonical_text_parses]. exists bs. split; [done|].
  rewrite Hb. apply utf8_decode_encode. unfold utf8_encode. by rewrite Hs.
Qed.

(** Two representable values have the same canonical text exactly when they are
    equal as Python values, that is, up to the order of the keys of their objects. *)
Theorem canonical_injective j1 j2 :
  wf_json j1 = true -> wf_json j2 = true ->
  json_canonical j1 = json_canonical j2 <-> json_sorted j1 = json_sorted j2.
Proof.
  intros H1 H2. split; intros Heq.
  - destruct (json_canonical_total j1 H1) as (t & Ht & _).
    pose proof (canonical_text_parses j1 t H1 Ht). rewrite Heq in Ht.
    pose proof (canonical_text_parses j2 t H2 Ht). congruence.
  - by rewrite <- (json_canonical_sorted j1), <- (json_canonical_sorted j2), Heq.
Qed.
End canonical.
