(* ===== verification/JsonCanonical.v ===== *)
(** * JsonCanonical: what the generator yields

    [denotes h v j] says that the object graph below [v] unfolds to the finite
    value [j].  The generator yields the canonical text of [j] exactly when
    there is one, and fails, without looping, on every cyclic graph. *)

From stdpp Require Import prelude gmap strings list sorting.
From S2P Require Import Prelude Text Json JsonStream JsonReader JsonParser JsonRoundtrip.

Open Scope Z_scope.
Open Scope py_scope.

Section denotation.
Context `{PyFloat} (h : gmap positive pyobj).

Definition str_items (items : list (pyval * pyval)) : option (list (pystr * pyval)) :=
  mapM (fun kv => k ← str_key kv.1; Some (k, kv.2)) items.

Inductive denotes : pyval -> json -> Prop :=
  | denotes_enum v j : denotes v j -> denotes (PEnum v) j
  | denotes_none : denotes PNone JNull
  | denotes_bool b : denotes (PBool b) (JBool b)
  | denotes_int z : denotes (PInt z) (JInt z)
  | denotes_float f : denotes (PFloat f) (JFloat f)
  | denotes_str s : denotes (PStr s) (JStr s)
  | denotes_sequence id items l :
      h !! id = Some (OSequence items) ->
      Forall2 denotes items l -> denotes (PRef id) (JArr l)
  | denotes_dataclass id fields l :
      h !! id = Some (ODataclass fields) ->
      Forall2 (fun kv kj => kv.1 = kj.1 /\ denotes kv.2 kj.2) fields l ->
      denotes (PRef id) (JObj l)
  | denotes_dict id items kvs l :
      h !! id = Some (ODict items) -> str_items items = Some kvs ->
      Forall2 (fun kv kj => kv.1 = kj.1 /\ denotes kv.2 kj.2) kvs l ->
      denotes (PRef id) (JObj l).

Fixpoint json_depth (j : json) : nat :=
  match j with
  | JArr l => S (foldr (fun j n => json_depth j `max` n) 0 l)
  | JObj l => S (foldr (fun kj n => json_depth kj.2 `max` n) 0 l)
  | _ => 0
  end%nat.
End denotation.

(** ** The string generator *)

Section strings.
Context `{PyFloat}.

Lemma flush_concat b : concat (flush b) = b.
Proof. destruct b; [done|]. simpl. by rewrite app_nil_r. Qed.

(** Where the buffer is cut does not show in the concatenation. *)
Lemma iter_json_string_loop_spec s : forall buffer,
  res_bind (iter_json_string_loop s buffer) (fun fs => Ok (concat fs)) =
  res_bind (escape_string s) (fun t => Ok (buffer ++ t ++ [34])).
Proof.
  assert (Hemit : forall (m : pystr -> res (list pystr)) r buffer e,
    (forall b, res_bind (m b) (fun fs => Ok (concat fs)) = res_bind r (fun t => Ok (b ++ t ++ [34]))) ->
    res_bind (if string_chunk <=? Z.of_nat (length (buffer ++ e))
              then res_bind (m []) (fun fs => Ok ((buffer ++ e) :: fs)) else m (buffer ++ e))
             (fun fs => Ok (concat fs)) =
    res_bind r (fun t => Ok (buffer ++ (e ++ t) ++ [34]))).
  { intros m r buffer e Hm. case_goal.
    - rewrite res_bind_assoc. specialize (Hm []). destruct (m []) as [fs|]; simpl in *.
      + destruct r; simpl in *; [|done]. injection Hm as Hm. f_equal.
        rewrite Hm, <- !(assoc_L (++)). done.
      + by destruct r.
    - rewrite Hm. destruct r; simpl; [|done]. f_equal. by rewrite <- !(assoc_L (++)). }
  induction s as [s IH] using (induction_ltof1 _ length). unfold ltof in IH. intros buffer.
  destruct s as [|c s]; simpl.
  { by rewrite concat_app, flush_concat. }
  destruct (short_escape c) as [e|] eqn:Ee.
  { assert (high_surrogate c = false /\ low_surrogate c = false) as [-> ->].
    { unfold short_escape, high_surrogate, low_surrogate in *. clear -Ee.
      repeat (case_match; [assert (c < 100) by lia|]); try done; lia. }
    rewrite (Hemit _ (escape_string s)) by (intros; apply IH; simpl; lia).
    rewrite res_bind_assoc. unfold escape_char. by rewrite Ee. }
  destruct (high_surrogate c) eqn:Eh.
  { destruct s as [|lo s]; [done|]. case_goal; [|done].
    rewrite (Hemit _ (escape_string s)) by (intros; apply IH; simpl; lia).
    by rewrite res_bind_assoc. }
  case_goal; [done|].
  unfold escape_char. rewrite Ee. case_goal;
    rewrite (Hemit _ (escape_string s)) by (intros; apply IH; simpl; lia);
    by rewrite res_bind_assoc.
Qed.

Lemma iter_json_string_spec s :
  res_bind (iter_json_string s) (fun fs => Ok (concat fs)) = json_string s.
Proof.
  unfold iter_json_string, json_string. rewrite res_bind_assoc.
  pose proof (iter_json_string_loop_spec s []) as Hs.
  destruct (iter_json_string_loop s []), (escape_string s); simpl in *; congruence.
Qed.

Lemma iter_json_string_ok s fs : iter_json_string s = Ok fs -> json_string s = Ok (concat fs).
Proof. intros Hs. by rewrite <- iter_json_string_spec, Hs. Qed.

Lemma json_string_iter s t :
  json_string s = Ok t -> exists fs, iter_json_string s = Ok fs /\ concat fs = t.
Proof.
  rewrite <- iter_json_string_spec, res_bind_ok. intros (fs & Hfs & [= <-]). by exists fs.
Qed.

Lemma iter_json_string_err s e : iter_json_string s = Err e -> e = CanonicalJsonError.
Proof.
  intros Hs. assert (json_string s = Err e) as Hj by (by rewrite <- iter_json_string_spec, Hs).
  unfold json_string in Hj. clear Hs.
  assert (forall s e, escape_string s = Err e -> e = CanonicalJsonError) as He; last first.
  { destruct (escape_string s) eqn:E; [done|]. simpl in Hj. injection Hj as <-. by eapply He. }
  clear. intros s. induction s as [s IH] using (induction_ltof1 _ length). unfold ltof in IH.
  intros e. destruct s as [|c s]; [done|]. simpl.
  repeat case_match; subst; try congruence;
    match goal with |- context [escape_string ?s] =>
      specialize (IH s); destruct (escape_string s); simpl in *; try done end;
    intros [= <-]; apply IH; simpl; auto with lia.
Qed.
End strings.

(** ** The denotation *)

Section denotation_facts.
Context `{PyFloat} (h : gmap positive pyobj).

Lemma enum_value_plain v w : enum_value v <> PEnum w.
Proof. induction v; simpl; try done. Qed.

Lemma denotes_enum_value v j : denotes h v j <-> denotes h (enum_value v) j.
Proof.
  induction v; try done. simpl. rewrite <- IHv. split; [by inversion 1|by constructor].
Qed.

Definition member_denotes (kv : pystr * pyval) (kj : pystr * json) : Prop :=
  kv.1 = kj.1 /\ denotes h kv.2 kj.2.

Lemma Forall2_unique {A B} (R : A -> B -> Prop) l k1 k2 :
  Forall (fun b => forall a b', R a b -> R a b' -> b = b') k1 ->
  Forall2 R l k1 -> Forall2 R l k2 -> k1 = k2.
Proof.
  intros Hu H1. revert k2. induction H1 as [|a b l k1 Hab H1 IH]; intros k2 H2; inversion H2; subst; [done|].
  inversion Hu; subst. f_equal; eauto.
Qed.

Lemma denotes_fun v j1 j2 : denotes h v j1 -> denotes h v j2 -> j1 = j2.
Proof.
  revert v j2. induction j1 as [|b|z|f|s|l IH|l IH] using json_ind; intros v j2;
    rewrite (denotes_enum_value v), (denotes_enum_value v j2);
    generalize (enum_value_plain v); generalize (enum_value v); clear v; intros v Hv H1 H2;
    inversion H1; subst; try (by destruct (Hv _ eq_refl));
    inversion H2; subst; simplify_eq/=; try done.
  - f_equal. eapply Forall2_unique; [|done..].
    eapply Forall_impl; [exact IH|]. simpl. eauto.
  - f_equal. eapply Forall2_unique; [|done..]. eapply Forall_impl; [exact IH|].
    intros [] ? [] [] [] []; simpl in *; f_equal; [congruence|eauto].
  - f_equal. eapply Forall2_unique; [|done..]. eapply Forall_impl; [exact IH|].
    intros [] ? [] [] [] []; simpl in *; f_equal; [congruence|eauto].
Qed.

(** Sorting related members keeps them related. *)
Lemma sort_items_related {V W} (R : V -> W -> Prop) (l : list (pystr * V)) (k : list (pystr * W)) :
  Forall2 (fun a b => a.1 = b.1 /\ R a.2 b.2) l k ->
  Forall2 (fun a b => a.1 = b.1 /\ R a.2 b.2) (sort_items l) (sort_items k).
Proof.
  intros Hlk.
  assert (exists z : list (pystr * (V * W)),
    l = map (fun x => (x.1, fst x.2)) z /\ k = map (fun x => (x.1, snd x.2)) z /\
    Forall (fun x => R x.2.1 x.2.2) z) as (z & -> & -> & Hz).
  { induction Hlk as [|[a v] [b w] l k [Hab HR] _ (z & -> & -> & Hz)]; [by exists []|].
    simpl in *. subst b. exists ((a, (v, w)) :: z). split; [done|split; [done|by constructor]]. }
  rewrite !sort_items_map. rewrite <- (sort_items_perm z) in Hz.
  induction Hz; simpl; constructor; auto.
Qed.

Lemma json_depth_arr j l : j ∈ l -> (json_depth j < json_depth (JArr l))%nat.
Proof.
  simpl. induction l as [|x l IH]; [by rewrite elem_of_nil|].
  rewrite elem_of_cons. intros [->|Hj]; simpl; [lia|]. specialize (IH Hj). lia.
Qed.

Lemma json_depth_obj kj l : kj ∈ l -> (json_depth kj.2 < json_depth (JObj l))%nat.
Proof.
  simpl. induction l as [|x l IH]; [by rewrite elem_of_nil|].
  rewrite elem_of_cons. intros [->|Hj]; simpl; [lia|]. specialize (IH Hj). lia.
Qed.

Lemma comma_concat ms : concat (comma_separated ms) = join [44] (map (@concat Z) ms).
Proof.
  induction ms as [|m ms IH]; [done|]. destruct ms as [|m2 ms]; [done|].
  change (comma_separated (m :: m2 :: ms)) with (m ++ [[44]] ++ comma_separated (m2 :: ms)).
  by rewrite !concat_app, IH.
Qed.
End denotation_facts.

(** ** Soundness *)

Section sound.
Context `{PyFloat} (h : gmap positive pyobj).

Definition iter_member fuel (active : gset positive) (kv : pystr * pyval) : res (list pystr) :=
  let* k := iter_json_string kv.1 in
  let* t := iter_value fuel h kv.2 active in
  Ok (k ++ [[58]] ++ t).

Definition iter_sound (n : nat) : Prop := forall v active fs,
  iter_value n h v active = Ok fs -> exists j, denotes h v j /\ json_canonical j = Ok (concat fs).

Lemma iter_sequence_sound n active items ms :
  iter_sound n -> res_map_list (fun v => iter_value n h v active) items = Ok ms ->
  exists l, Forall2 (denotes h) items l /\ res_map_list json_canonical l = Ok (map (@concat Z) ms).
Proof.
  intros IH. revert ms. induction items as [|v items IHl]; intros ms; simpl.
  - intros [= <-]. by exists [].
  - rewrite res_bind_ok. intros (fs & Hv & Hms). rewrite res_bind_ok in Hms.
    destruct Hms as (ms' & Hms & [= <-]).
    destruct (IH _ _ _ Hv) as (j & Hj & Hc). destruct (IHl _ Hms) as (l & Hl & Hcs).
    exists (j :: l). split; [by constructor|]. simpl. by rewrite Hc, Hcs.
Qed.

Lemma iter_members_sound n active kvs ms :
  iter_sound n -> res_map_list (iter_member n active) kvs = Ok ms ->
  exists l, Forall2 (member_denotes h) kvs l /\
    res_map_list member_text (map (fun kj => (kj.1, json_canonical kj.2)) l) = Ok (map (@concat Z) ms).
Proof.
  intros IH. revert ms. induction kvs as [|[k v] kvs IHl]; intros ms; simpl.
  - intros [= <-]. by exists [].
  - rewrite res_bind_ok. intros (fs & Hv & Hms). rewrite res_bind_ok in Hms.
    destruct Hms as (ms' & Hms & [= <-]). unfold iter_member in Hv. simpl in Hv.
    rewrite res_bind_ok in Hv. destruct Hv as (kt & Hk & Hv).
    rewrite res_bind_ok in Hv. destruct Hv as (vt & Hv & [= <-]).
    destruct (IH _ _ _ Hv) as (j & Hj & Hc). destruct (IHl _ Hms) as (l & Hl & Hcs).
    exists ((k, j) :: l). split; [by constructor|]. simpl. rewrite Hcs. simpl.
    unfold member_text at 1. simpl. rewrite (iter_json_string_ok _ _ Hk), Hc. simpl.
    by rewrite concat_app.
Qed.

Lemma member_denotes_exists kvs l :
  Forall2 (member_denotes h) (sort_items kvs) l ->
  exists l', Forall2 (member_denotes h) kvs l' /\ sort_items l' = l.
Proof.
  intros Hl.
  assert (exists l', Forall2 (member_denotes h) kvs l') as [l' Hl'].
  { assert (Forall (fun kv => exists j, denotes h kv.2 j) kvs) as Hall.
    { rewrite <- (sort_items_perm kvs). clear -Hl. induction Hl as [|? ? ? ? []]; constructor; eauto. }
    clear -Hall. induction Hall as [|[k v] kvs [j Hj] _ [l Hl]]; [by exists []|].
    exists ((k, j) :: l). by constructor. }
  exists l'. split; [done|]. apply (sort_items_related (denotes h)) in Hl'.
  eapply Forall2_unique; [|exact Hl'|exact Hl].
  apply Forall_forall. intros [k j] _ [] [] [] []; simpl in *. f_equal; [congruence|].
  by eapply denotes_fun.
Qed.

Lemma iter_object_sound n active kvs fs :
  iter_sound n ->
  res_bind (res_map_list (iter_member n active) (sort_items kvs))
    (fun ms => Ok ([[123]] ++ comma_separated ms ++ [[125]])) = Ok fs ->
  exists l, Forall2 (member_denotes h) kvs l /\ json_canonical (JObj l) = Ok (concat fs).
Proof.
  intros IH. rewrite res_bind_ok. intros (ms & Hms & [= <-]).
  destruct (iter_members_sound _ _ _ _ IH Hms) as (sl & Hsl & Hc).
  destruct (member_denotes_exists _ _ Hsl) as (l & Hl & <-).
  exists l. split; [done|]. cbn [json_canonical]. rewrite sort_items_map.
  rewrite Hc. simpl. by rewrite concat_app, comma_concat.
Qed.

Lemma iter_value_sound n : iter_sound n.
Proof.
  induction n as [|n IH]; intros v active fs; [done|]. cbn [iter_value].
  intros Hfs. enough (exists j, denotes h (enum_value v) j /\ json_canonical j = Ok (concat fs))
    as (j & Hj & Hc) by (exists j; by rewrite denotes_enum_value).
  revert Hfs. destruct (enum_value v) as [|[]|z|f|s|w|id|] eqn:Ev; simpl; try done.
  - intros [= <-]. exists JNull. by repeat constructor.
  - intros [= <-]. exists (JBool true). by repeat constructor.
  - intros [= <-]. exists (JBool false). by repeat constructor.
  - rewrite res_bind_ok. intros (t & Ht & [= <-]). exists (JInt z). split; [constructor|].
    simpl. by rewrite app_nil_r.
  - case_goal; [|done]. intros [= <-]. exists (JFloat f). split; [constructor|].
    simpl. rewrite app_nil_r. by case_match.
  - intros Hs. exists (JStr s). split; [constructor|]. by apply iter_json_string_ok.
  - destruct (h !! id) as [[fields|items|items]|] eqn:Eid; [..|done].
    + case_goal; [done|]. intros Hfs. destruct (iter_object_sound _ _ _ _ IH Hfs) as (l & Hl & Hc).
      exists (JObj l). split; [by eapply denotes_dataclass|done].
    + case_goal; [done|]. rewrite res_bind_ok. intros (ms & Hms & [= <-]).
      destruct (iter_sequence_sound _ _ _ _ IH Hms) as (l & Hl & Hc).
      exists (JArr l). split; [by eapply denotes_sequence|]. cbn [json_canonical]. rewrite Hc. simpl.
      by rewrite concat_app, comma_concat.
    + destruct (mapM _ items) as [kvs|] eqn:Ek; [|done]. case_goal; [done|].
      intros Hfs. destruct (iter_object_sound _ _ _ _ IH Hfs) as (l & Hl & Hc).
      exists (JObj l). split; [by eapply denotes_dict|done].
Qed.
End sound.

(** ** Completeness: a graph with a canonical text is written *)

Section complete.
Context `{PyFloat} (h : gmap positive pyobj).

Lemma active_bound (active : gset positive) :
  active ⊆ dom h -> (size active <= size h)%nat.
Proof. intros Ha. rewrite <- (size_dom (D := gset positive) h). by apply subseteq_size. Qed.

Lemma active_enter id o (active : gset positive) :
  h !! id = Some o -> active ⊆ dom h -> id ∉ active ->
  {[id]} ∪ active ⊆ dom h /\ size ({[id]} ∪ active) = S (size active).
Proof.
  intros Ho Ha Hi. split.
  - apply elem_of_dom_2 in Ho. set_solver.
  - rewrite size_union, size_singleton; [lia|set_solver].
Qed.

(** Every container around the current value is strictly deeper. *)
Definition around (active : gset positive) (j : json) : Prop :=
  active ⊆ dom h /\
  forall id, id ∈ active -> exists j', denotes h (PRef id) j' /\ (json_depth j < json_depth j')%nat.

Lemma around_enter id o active j :
  h !! id = Some o -> denotes h (PRef id) j -> around active j ->
  id ∉ active /\ size ({[id]} ∪ active) = S (size active) /\
  forall j', (json_depth j' < json_depth j)%nat -> around ({[id]} ∪ active) j'.
Proof.
  intros Ho Hj [Hd Ha].
  assert (id ∉ active) as Hid.
  { intros Hid. destruct (Ha id Hid) as (j' & Hj' & Hlt). rewrite (denotes_fun h _ _ _ Hj Hj') in Hlt. lia. }
  destruct (active_enter id o active Ho Hd Hid) as [Hd' Hs]. split; [done|]. split; [done|].
  intros j' Hlt. split; [done|]. intros i. rewrite elem_of_union, elem_of_singleton. intros [->|Hi]; [eauto|].
  destruct (Ha i Hi) as (ji & Hji & Hlti). exists ji. split; [done|lia].
Qed.

Definition iter_complete (n : nat) : Prop := forall v active j t,
  around active j -> (size h < n + size active)%nat ->
  denotes h v j -> json_canonical j = Ok t ->
  exists fs, iter_value n h v active = Ok fs /\ concat fs = t.

Lemma iter_sequence_complete n active items l ts :
  iter_complete n -> (forall j, j ∈ l -> around active j) -> (size h < n + size active)%nat ->
  Forall2 (denotes h) items l -> res_map_list json_canonical l = Ok ts ->
  exists ms, res_map_list (fun v => iter_value n h v active) items = Ok ms /\ map (@concat Z) ms = ts.
Proof.
  intros IH Ha Hn Hl. revert ts. induction Hl as [|v j items l Hv Hl IHl]; intros ts; simpl.
  - intros [= <-]. by exists [].
  - rewrite res_bind_ok. intros (t & Ht & Hts). rewrite res_bind_ok in Hts. destruct Hts as (ts' & Hts & [= <-]).
    destruct (IH v active j t) as (fs & Hfs & <-); [apply Ha; by left|done..|].
    destruct (IHl (fun j Hj => Ha j (list_elem_of_further j _ _ Hj)) _ Hts) as (ms & Hms & <-).
    exists (fs :: ms). by rewrite Hfs, Hms.
Qed.

Lemma iter_members_complete n active kvs l ts :
  iter_complete n -> (forall kj, kj ∈ l -> around active kj.2) -> (size h < n + size active)%nat ->
  Forall2 (member_denotes h) kvs l ->
  res_map_list member_text (map (fun kj => (kj.1, json_canonical kj.2)) l) = Ok ts ->
  exists ms, res_map_list (iter_member h n active) kvs = Ok ms /\ map (@concat Z) ms = ts.
Proof.
  intros IH Ha Hn Hl. revert ts. induction Hl as [|[k v] [k' j] kvs l [Hk Hv] Hl IHl]; intros ts; simpl.
  - intros [= <-]. by exists [].
  - simpl in *. subst k'. rewrite res_bind_ok. intros (t & Ht & Hts).
    rewrite res_bind_ok in Hts. destruct Hts as (ts' & Hts & [= <-]).
    unfold member_text in Ht. simpl in Ht. rewrite res_bind_ok in Ht. destruct Ht as (kt & Hkt & Ht).
    rewrite res_bind_ok in Ht. destruct Ht as (vt & Hvt & [= <-]).
    destruct (json_string_iter _ _ Hkt) as (ks & Hks & <-).
    destruct (IH v active j vt) as (fs & Hfs & <-); [apply (Ha (k, j)); by left|done..|].
    destruct (IHl (fun j Hj => Ha j (list_elem_of_further j _ _ Hj)) _ Hts) as (ms & Hms & <-).
    unfold iter_member at 1. simpl. rewrite Hks, Hfs. simpl. rewrite Hms. simpl.
    eexists; split; [done|]. simpl. by rewrite concat_app.
Qed.

Lemma iter_object_complete n active kvs l t :
  iter_complete n -> (forall kj, kj ∈ l -> around active kj.2) -> (size h < n + size active)%nat ->
  Forall2 (member_denotes h) kvs l -> json_canonical (JObj l) = Ok t ->
  exists fs,
    res_bind (res_map_list (iter_member h n active) (sort_items kvs))
      (fun ms => Ok ([[123]] ++ comma_separated ms ++ [[125]])) = Ok fs /\ concat fs = t.
Proof.
  intros IH Ha Hn Hl. cbn [json_canonical]. rewrite sort_items_map, res_bind_ok.
  intros (ts & Hts & Ht). apply (inj Ok) in Ht as <-.
  destruct (iter_members_complete n active (sort_items kvs) (sort_items l) ts) as (ms & Hms & <-);
    [done| |done|by apply (sort_items_related (denotes h))|done|].
  { intros kj. rewrite sort_items_perm. apply Ha. }
  rewrite Hms. eexists; split; [done|]. by rewrite !concat_app, comma_concat.
Qed.

Lemma iter_value_complete n : iter_complete n.
Proof.
  induction n as [|n IH]; intros v active j t Hact Hn Hv Ht.
  { apply proj1, active_bound in Hact. lia. }
  rewrite denotes_enum_value in Hv. cbn [iter_value].
  pose proof (enum_value_plain v) as Hp. destruct (enum_value v) as [|b|z|f|s|w|id|];
    inversion Hv; subst; simpl in Ht.
  - injection Ht as <-. by exists [u "null"].
  - destruct b; injection Ht as <-; by eexists.
  - rewrite Ht. simpl. eexists; split; [done|]. simpl. by rewrite app_nil_r.
  - case_match; [|done]. injection Ht as <-. eexists; split; [done|]. simpl. by rewrite app_nil_r.
  - by apply json_string_iter.
  - by destruct (Hp w).
  - match goal with Ho : h !! id = _ |- _ => rewrite Ho;
      destruct (around_enter _ _ _ _ Ho Hv Hact) as (Hid & Hs & Ha) end.
    rewrite decide_False by done. rewrite res_bind_ok in Ht. destruct Ht as (ts & Hts & Ht).
    edestruct (iter_sequence_complete n ({[id]} ∪ active)) as (ms & Hms & Hts'); [done| | |done..|].
    { intros j Hj. by apply Ha, json_depth_arr. } { lia. }
    rewrite Hms. eexists; split; [done|]. injection Ht as <-. rewrite !concat_app, comma_concat, Hts'. done.
  - match goal with Ho : h !! id = _ |- _ => rewrite Ho;
      destruct (around_enter _ _ _ _ Ho Hv Hact) as (Hid & Hs & Ha) end.
    rewrite decide_False by done. eapply iter_object_complete; [done| | |done|exact Ht].
    { intros kj Hj. by apply Ha, json_depth_obj. } { lia. }
  - match goal with Ho : h !! id = _ |- _ => rewrite Ho;
      destruct (around_enter _ _ _ _ Ho Hv Hact) as (Hid & Hs & Ha) end.
    match goal with Hk : str_items _ = Some _ |- _ => unfold str_items in Hk; rewrite Hk end.
    rewrite decide_False by done. eapply iter_object_complete; [done| | |done|exact Ht].
    { intros kj Hj. by apply Ha, json_depth_obj. } { lia. }
Qed.
End complete.

(** ** Errors: what the generator raises, and cyclic graphs *)

Section errors.
Context `{PyFloat} (h : gmap positive pyobj).

Definition json_error (e : exn) : Prop := e = CanonicalJsonError \/ e = ValueError.

Lemma res_map_list_err {A B} (f : A -> res B) l e :
  res_map_list f l = Err e -> exists a, a ∈ l /\ f a = Err e.
Proof.
  induction l as [|a l IH]; simpl; [done|]. destruct (f a) as [b|e'] eqn:Ef; simpl.
  - destruct (res_map_list f l); simpl; [done|]. intros [= ->].
    destruct (IH eq_refl) as (a' & ? & ?). exists a'. split; [by right|done].
  - intros [= ->]. exists a. split; [by left|done].
Qed.

Lemma object_err n active kvs e :
  (forall v e, iter_value n h v active = Err e -> json_error e) ->
  res_bind (res_map_list (iter_member h n active) kvs)
    (fun ms => Ok ([[123]] ++ comma_separated ms ++ [[125]])) = Err e -> json_error e.
Proof.
  intros Hv. destruct (res_map_list _ _) as [ms|e'] eqn:E; simpl; [done|]. intros [= ->].
  apply res_map_list_err in E as ([k w] & _ & He). unfold iter_member in He. simpl in He.
  destruct (iter_json_string k) eqn:Ek; simpl in He.
  - destruct (iter_value n h w active) eqn:Ew; simpl in He; [done|]. injection He as ->. by eapply Hv.
  - injection He as ->. apply iter_json_string_err in Ek. by left.
Qed.

Lemma iter_value_err n v active e :
  active ⊆ dom h -> (size h < n + size active)%nat ->
  iter_value n h v active = Err e -> json_error e.
Proof.
  revert v active e; induction n as [|n IH]; intros v active e Ha Hn.
  { apply active_bound in Ha. lia. }
  assert (forall id o, h !! id = Some o -> id ∉ active ->
    forall v e, iter_value n h v ({[id]} ∪ active) = Err e -> json_error e) as Henter.
  { intros id o Ho Hi w e'. destruct (active_enter h id o active Ho Ha Hi) as [Hd Hs].
    apply IH; [done|lia]. }
  cbn [iter_value]. destruct (enum_value v) as [|[]|z|f|s|w|id|]; simpl; try done.
  - unfold str_int. case_goal; simpl; [|done]. intros [= <-]. by right.
  - case_goal; [done|]. intros [= <-]. by left.
  - intros Hs. apply iter_json_string_err in Hs. by left.
  - intros [= <-]. by left.
  - destruct (h !! id) as [[fields|items|items]|] eqn:Eid; rewrite ?Eid.
    + case_goal; [intros [= <-]; by left|]. apply object_err. by eapply Henter.
    + case_goal; [intros [= <-]; by left|].
      destruct (res_map_list _ items) as [ms|e'] eqn:E; simpl; [done|]. intros [= ->].
      apply res_map_list_err in E as (w & _ & He). by eapply Henter.
    + destruct (mapM _ items); [|intros [= <-]; by left].
      case_goal; [intros [= <-]; by left|]. apply object_err. by eapply Henter.
    + intros [= <-]. by left.
  - intros [= <-]. by left.
Qed.

(** [child id id']: the container [id] holds a reference to [id']. *)
Definition obj_values (o : pyobj) : list pyval :=
  match o with
  | ODataclass fields => map snd fields
  | OSequence items => items
  | ODict items => map snd items
  end.

Definition child (id id' : positive) : Prop :=
  exists o v, h !! id = Some o /\ v ∈ obj_values o /\ enum_value v = PRef id'.

Lemma child_denotes id id' j :
  child id id' -> denotes h (PRef id) j ->
  exists j', denotes h (PRef id') j' /\ (json_depth j' < json_depth j)%nat.
Proof.
  intros (o & v & Ho & Hv & Hr) Hj.
  enough (exists j', denotes h v j' /\ (json_depth j' < json_depth j)%nat) as (j' & Hj' & Hlt).
  { exists j'. split; [|done]. by rewrite denotes_enum_value, Hr in Hj'. }
  inversion Hj as [| | | | | |? items l Hi Hl|? fields l Hi Hl|? items kvs l Hi Hk Hl]; subst;
    rewrite Ho in Hi; injection Hi as ->; simpl in Hv.
  - apply list_elem_of_lookup in Hv as [i Hv]. eapply Forall2_lookup_l in Hl as (j' & Hj' & Hd); [|done].
    exists j'. split; [done|]. by eapply json_depth_arr, list_elem_of_lookup_2.
  - apply list_elem_of_fmap in Hv as (kv & -> & Hv). apply list_elem_of_lookup in Hv as [i Hv].
    eapply Forall2_lookup_l in Hl as (kj & Hkj & _ & Hd); [|done].
    exists kj.2. split; [done|]. by eapply json_depth_obj, list_elem_of_lookup_2.
  - apply list_elem_of_fmap in Hv as (kv & -> & Hv). apply list_elem_of_lookup in Hv as [i Hv].
    unfold str_items in Hk. apply mapM_Some in Hk.
    eapply Forall2_lookup_l in Hk as (kv' & Hkv' & Hk); [|done].
    eapply Forall2_lookup_l in Hl as (kj & Hkj & _ & Hd); [|done].
    destruct (str_key kv.1); simpl in Hk; [|done]. injection Hk as <-.
    exists kj.2. split; [done|]. by eapply json_depth_obj, list_elem_of_lookup_2.
Qed.

Lemma cyclic_not_denoted id j : tc child id id -> ~ denotes h (PRef id) j.
Proof.
  intros Hc Hj.
  enough (forall a b j, tc child a b -> denotes h (PRef a) j ->
    exists j', denotes h (PRef b) j' /\ (json_depth j' < json_depth j)%nat) as Htc.
  { destruct (Htc _ _ _ Hc Hj) as (j' & Hj' & Hlt). rewrite (denotes_fun h _ _ _ Hj Hj') in Hlt. lia. }
  clear. intros a b j Hab. revert j. induction Hab as [a b Hab|a b c Hab _ IH]; intros j Hj.
  - by eapply child_denotes.
  - destruct (child_denotes _ _ _ Hab Hj) as (j1 & Hj1 & H1).
    destruct (IH _ Hj1) as (j2 & Hj2 & H2). exists j2. split; [done|lia].
Qed.

Lemma reaches_denoted a b j :
  rtc child a b -> denotes h (PRef a) j -> exists j', denotes h (PRef b) j'.
Proof.
  intros Hab. revert j. induction Hab as [a|a b c Hab _ IH]; intros j Hj; [eauto|].
  destruct (child_denotes _ _ _ Hab Hj) as (j1 & Hj1 & _). eauto.
Qed.
End errors.

(** ** The theorems *)

Section theorems.
Context `{PyFloat}.

Lemma iter_canonical_json_iff' (h : gmap positive pyobj) v t :
  (exists fs, iter_canonical_json h v = Ok fs /\ concat fs = t) <->
  (exists j, denotes h v j /\ json_canonical j = Ok t).
Proof.
  split.
  - intros (fs & Hfs & <-). by eapply iter_value_sound.
  - intros (j & Hj & Ht). eapply (iter_value_complete h (S (size h)) v ∅ j t); [|lia|done..].
    split; set_solver.
Qed.

(** C28: the fragments the generator yields, put together, are the canonical text
    of the value the object graph unfolds to; when the graph unfolds to no finite value
    or that value has no canonical text, the generator raises instead. *)
Theorem iter_canonical_json_iff (h : gmap positive pyobj) v t :
  (exists fs, iter_canonical_json h v = Ok fs /\ concat fs = t) <->
  (exists j, denotes h v j /\ json_canonical j = Ok t).
Proof. apply iter_canonical_json_iff'. Qed.

(** An object graph in which a container reaches itself is refused with an error
    wherever the cycle is reached from, never followed for ever. *)
Theorem iter_canonical_json_cyclic (h : gmap positive pyobj) a b :
  rtc (child h) a b -> tc (child h) b b ->
  exists e, iter_canonical_json h (PRef a) = Err e /\ json_error e.
Proof.
  intros Hab Hbb. destruct (iter_canonical_json h (PRef a)) as [fs|e] eqn:E.
  - exfalso. apply iter_value_sound in E as (j & Hj & _).
    destruct (reaches_denoted h a b j Hab Hj) as (j' & Hj'). by eapply cyclic_not_denoted.
  - exists e. split; [done|]. eapply (iter_value_err h (S (size h)) _ ∅); [set_solver|lia|exact E].
Qed.

(** The generator fails with nothing but the two errors its callers catch:
    [CanonicalJsonError] for a value JSON does not have and [ValueError] for a cycle
    or an integer too long to print; the fuel given to it always suffices. *)
Theorem iter_canonical_json_errors (h : gmap positive pyobj) v e :
  iter_canonical_json h v = Err e -> e = CanonicalJsonError \/ e = ValueError.
Proof. apply iter_value_err; [set_solver|lia]. Qed.
End theorems.
