(* ===== verification/JsonExamples.v ===== *)
(** * JsonExamples: a concrete float type and the JSON theorems on concrete values

    [PyFloat] stands for CPython's binary64 printing and scanning.  The
    instance below has the floats with an integral value and one value that is
    not finite; it satisfies the laws, so the theorems that assume them are not
    vacuous. *)

From stdpp Require Import prelude gmap strings list sorting.
From S2P Require Import Prelude Text Json JsonStream JsonReader JsonParser JsonRoundtrip.
From S2P Require Import JsonCanonical.

Open Scope Z_scope.

Inductive whole_float : Type :=
  | Whole (negative : bool) (magnitude : N)
  | NotANumber.

#[export] Instance whole_float_eq_dec : EqDecision whole_float.
Proof. solve_decision. Defined.

Definition whole_repr (f : whole_float) : pystr :=
  match f with
  | Whole neg m => (if neg then [45] else []) ++ dec_nat (Z.of_N m) ++ u ".0"
  | NotANumber => u "nan"
  end.

Definition whole_of_token (s : pystr) : whole_float :=
  match split_number s with
  | Some p => Whole (np_negative p) (Z.to_N (dec_value (np_int p)))
  | None => NotANumber
  end.

Definition whole_finite (f : whole_float) : bool :=
  match f with Whole _ _ => true | NotANumber => false end.

Definition whole_PyFloat : PyFloat := {|
  pyfloat := whole_float;
  float_finite := whole_finite;
  float_repr := whole_repr;
  float_of_token := whole_of_token;
  float_trunc := fun f => match f with
                          | Whole neg m => Ok (if neg then - Z.of_N m else Z.of_N m)
                          | NotANumber => Err ValueError
                          end
|}.

Lemma split_whole neg m :
  split_number (whole_repr (Whole neg m)) = Some (NumberParts neg (dec_nat (Z.of_N m)) (u ".0") []).
Proof.
  assert (Hi : int_part (dec_nat (Z.of_N m) ++ u ".0") = Some (dec_nat (Z.of_N m), u ".0")).
  { rewrite (int_part_app _ (dec_nat (Z.of_N m)) []); [done| |done]. apply split_dec_nat. lia. }
  unfold split_number, whole_repr. destruct neg.
  - change (number_sign ([45] ++ ?s)) with (true, s). cbn iota beta. by rewrite Hi.
  - simpl ([] ++ _). destruct (dec_nat_head (Z.of_N m) ltac:(lia)) as (c & s & E & Hc).
    assert (number_sign (dec_nat (Z.of_N m) ++ u ".0") = (false, dec_nat (Z.of_N m) ++ u ".0")) as ->.
    { rewrite E. simpl. destruct (c =? 45) eqn:E2; [|done]. by apply Z.eqb_eq in E2 as ->. }
    by rewrite Hi.
Qed.

Lemma whole_PyFloatLaws : @PyFloatLaws whole_PyFloat.
Proof.
  split; intros [neg m|]; try done; intros _.
  - change (is_float_token (whole_repr (Whole neg m)) = true). unfold is_float_token.
    by rewrite split_whole.
  - change (whole_of_token (whole_repr (Whole neg m)) = Whole neg m).
    unfold whole_of_token. rewrite split_whole. cbn [np_negative np_int].
    destruct (dec_nat_spec (Z.of_N m)) as (-> & _); [lia|]. by rewrite N2Z.id.
Qed.

#[local] Existing Instance whole_PyFloat.
#[local] Existing Instance whole_PyFloatLaws.

(** A value with nested objects, an escape, a character outside the BMP and a float. *)
Definition sample : json :=
  JObj [(u "b", JArr [JInt (-12); JFloat (Whole true 3); JBool true; JArr []]);
        (u "a", JStr [34; 0x1F600; 10; 97]); (u "", JObj [])].

Lemma canonical_roundtrip_witness :
  wf_json sample = true /\
  exists t b, json_canonical sample = Ok t /\ utf8_encode t = Ok b /\
    forall chunks bs, mapM chunk_bytes chunks = Some bs -> concat bs = b ->
      parse_json_byte_chunks chunks = Ok (json_sorted sample).
Proof. split; [reflexivity|]. apply (canonical_roundtrip sample). reflexivity. Defined.

Lemma canonical_injective_witness :
  json_sorted sample <> sample /\
  (json_canonical sample = json_canonical (json_sorted sample) <->
   json_sorted sample = json_sorted (json_sorted sample)).
Proof.
  split; [by vm_compute|]. apply (canonical_injective sample (json_sorted sample)); reflexivity.
Defined.

(** [a = [1, b]; b = {"x": a}]: a list and a dictionary that contain each other. *)
Definition knot : gmap positive pyobj :=
  <[1%positive := OSequence [PInt 1; PRef 2]]>
  (<[2%positive := ODict [(PStr (u "x"), PRef 1)]]> ∅).

Lemma iter_canonical_json_cyclic_witness :
  exists e, iter_canonical_json knot (PRef 1) = Err e /\ json_error e.
Proof.
  assert (H12 : child knot 1 2).
  { exists (OSequence [PInt 1; PRef 2]), (PRef 2). split; [reflexivity|]. split; [|reflexivity].
    simpl. set_solver. }
  assert (H21 : child knot 2 1).
  { exists (ODict [(PStr (u "x"), PRef 1)]), (PRef 1). split; [reflexivity|]. split; [|reflexivity].
    simpl. set_solver. }
  apply (iter_canonical_json_cyclic knot 1 2); [by apply rtc_once|].
  eapply tc_l; [exact H21|by apply tc_once].
Defined.

Lemma iter_canonical_json_errors_witness :
  iter_canonical_json knot (PRef 2) = Err CanonicalJsonError /\
  (CanonicalJsonError = CanonicalJsonError \/ CanonicalJsonError = ValueError).
Proof.
  split; [reflexivity|]. apply (iter_canonical_json_errors knot (PRef 2)). reflexivity.
Defined.
