(* ===== verification/Graph.v ===== *)
(** * Graph: the recursive query of the ledger

    [WITH RECURSIVE affected(x) AS (SELECT .. UNION SELECT edges.node_id FROM
    edges JOIN affected ON edges.dependency_id = affected.x)]: the rows are
    joined until no new one appears.  [closure_spec] says that the result is
    the set of the nodes that depend, directly or not, on the initial ones. *)

From stdpp Require Import prelude gmap sets fin_sets fin_map_dom relations.
From S2P Require Import Prelude.

Section closure.
Context {A : Type} `{Countable A}.

(** An edge [(n, d)]: node [n] depends on [d]. *)
Definition edges_of (E : gset (A * A)) (S : gset A) : gset A :=
  set_map fst (filter (fun e => e.2 ∈ S) E).

Definition closure_step (E : gset (A * A)) (S : gset A) : gset A := S ∪ edges_of E S.

Definition sources (E : gset (A * A)) : gset A := set_map fst E.

(** Every round but the last adds the source of an edge. *)
Definition closure (E : gset (A * A)) (S : gset A) : gset A :=
  Nat.iter (size (sources E)) (closure_step E) S.

Definition depends (E : gset (A * A)) (d n : A) : Prop := (n, d) ∈ E.

(** ** Lemmas *)

Lemma elem_of_closure_step E S x :
  x ∈ closure_step E S <-> x ∈ S \/ exists d, d ∈ S /\ depends E d x.
Proof.
  unfold closure_step, edges_of, depends. rewrite elem_of_union, elem_of_map.
  setoid_rewrite elem_of_filter. split; intros [?|Hx]; auto.
  - destruct Hx as ([n d] & -> & Hd & He). right. by exists d.
  - destruct Hx as (d & Hd & He). right. by exists (x, d).
Qed.

Lemma closure_step_sub E S : S ⊆ closure_step E S.
Proof. unfold closure_step. set_solver. Qed.

Lemma iter_closure_sub E S n : S ⊆ Nat.iter n (closure_step E) S.
Proof. induction n; simpl; [done|]. etransitivity; [done|apply closure_step_sub]. Qed.

Lemma iter_closure_reach E S n x :
  x ∈ Nat.iter n (closure_step E) S -> exists s, s ∈ S /\ rtc (depends E) s x.
Proof.
  revert x; induction n as [|n IH]; simpl; intros x Hx; [by exists x; split; [|constructor]|].
  apply elem_of_closure_step in Hx as [Hx|(d & Hd & He)]; [by apply IH|].
  apply IH in Hd as (s & Hs & Hr). exists s. split; [done|]. by eapply rtc_r.
Qed.

(** What an iteration adds to [S] is the source of an edge. *)
Lemma iter_closure_added E S n : Nat.iter n (closure_step E) S ∖ S ⊆ sources E.
Proof.
  induction n as [|n IH]; simpl; [set_solver|].
  intros x Hx. apply elem_of_difference in Hx as [Hx Hn].
  apply elem_of_closure_step in Hx as [Hx|(d & _ & He)].
  - apply IH. set_solver.
  - apply elem_of_map. by exists (x, d).
Qed.

Lemma iter_closure_grows E S n :
  closure_step E (Nat.iter n (closure_step E) S) = Nat.iter n (closure_step E) S \/
  (S ⊆ Nat.iter n (closure_step E) S /\ n <= size (Nat.iter n (closure_step E) S ∖ S)).
Proof.
  induction n as [|n [IH|[Hs IH]]]; [right; split; [done|lia]|left; simpl; by rewrite IH|].
  destruct (decide (closure_step E (Nat.iter n (closure_step E) S) ⊆ Nat.iter n (closure_step E) S))
    as [Hf|Hf].
  - left. simpl. assert (closure_step E (Nat.iter n (closure_step E) S) = Nat.iter n (closure_step E) S) as Heq.
    { apply set_eq_subseteq. split; [done|apply closure_step_sub]. }
    by rewrite !Heq.
  - right. split; [apply (iter_closure_sub E S (Datatypes.S n))|]. simpl.
    enough (size (Nat.iter n (closure_step E) S ∖ S) <
            size (closure_step E (Nat.iter n (closure_step E) S) ∖ S)) by lia.
    apply subset_size. split; [pose proof (closure_step_sub E (Nat.iter n (closure_step E) S)); set_solver|].
    intros Hsub. apply Hf. intros x Hx. destruct (decide (x ∈ S)) as [HS|HS]; [by apply Hs|].
    assert (x ∈ Nat.iter n (closure_step E) S ∖ S) as Hd by (apply Hsub; set_solver). set_solver.
Qed.

Lemma closure_fixed E S : closure_step E (closure E S) = closure E S.
Proof.
  destruct (iter_closure_grows E S (size (sources E))) as [Hf|[Hs Hn]]; [done|]. fold (closure E S) in *.
  assert (closure E S ∖ S = sources E) as Hall.
  { apply set_subseteq_size_eq; [apply iter_closure_added|done]. }
  apply set_eq_subseteq. split; [|apply closure_step_sub].
  intros x Hx. apply elem_of_closure_step in Hx as [Hx|(d & _ & He)]; [done|].
  assert (x ∈ sources E) as Hin by (apply elem_of_map; by exists (x, d)). set_solver.
Qed.

Lemma closure_spec E S x :
  x ∈ closure E S <-> exists s, s ∈ S /\ rtc (depends E) s x.
Proof.
  split; [apply iter_closure_reach|].
  intros (s & Hs & Hr). apply (iter_closure_sub E S (size (sources E))) in Hs. fold (closure E S) in Hs.
  induction Hr as [|s y x He Hr IH]; [done|]. apply IH.
  rewrite <- closure_fixed. apply elem_of_closure_step. eauto.
Qed.

Lemma closure_sub E S : S ⊆ closure E S.
Proof. apply iter_closure_sub. Qed.

Lemma closure_closed E S d n : d ∈ closure E S -> depends E d n -> n ∈ closure E S.
Proof. intros Hd He. rewrite <- closure_fixed. apply elem_of_closure_step. eauto. Qed.
End closure.
