(* ===== verification/Sha256.v ===== *)
(** * Sha256: [hashlib.sha256] and the digests of the program

    FIPS 180-4 on lists of bytes, with 32-bit words as [Z] and every addition
    reduced modulo [2^32].  A hash object is the sequence of the bytes it was
    fed: [update] appends and [hexdigest] hashes them all. *)

From stdpp Require Import prelude gmap strings list sorting.
From S2P Require Import Prelude Text Json JsonStream JsonReader JsonParser JsonRoundtrip.
From S2P Require Import JsonCanonical.

Open Scope Z_scope.

Definition word_modulus : Z := 2 ^ 32.
Definition wadd (a b : Z) : Z := (a + b) mod word_modulus.
Definition rotr (n x : Z) : Z :=
  Z.lor (Z.shiftr x n) (Z.shiftl x (32 - n) mod word_modulus).

(** The constants of the standard are the first 32 bits of the fractional parts
    of the cube roots and of the square roots of the first primes. *)
Definition is_prime (n : Z) : bool :=
  (2 <=? n) && forallb (fun k => negb (n mod Z.of_nat k =? 0)) (seq 2 (Z.to_nat (Z.sqrt n) - 1)).

Definition primes : list Z :=
  Eval vm_compute in filter (fun n => is_prime n = true) (map Z.of_nat (seq 0 312)).

(** The bits of the integer cube root, the highest first. *)
Definition cube_root (n : Z) : Z :=
  fold_right (fun k r => let r' := r + 2 ^ Z.of_nat k in if r' ^ 3 <=? n then r' else r) 0 (seq 0 40).

Definition round_constants : list Z :=
  Eval vm_compute in map (fun p => cube_root (p * 2 ^ 96) mod word_modulus) primes.

Definition initial_hash : list Z :=
  Eval vm_compute in map (fun p => Z.sqrt (p * 2 ^ 64) mod word_modulus) (take 8 primes).

Example constants_count : length round_constants = 64%nat /\ head round_constants = Some 0x428a2f98.
Proof. vm_compute. done. Qed.

(** The 64 words of the message schedule, the newest first. *)
Definition schedule_step (w : list Z) : list Z :=
  let x15 := nth 14 w 0 in
  let x2 := nth 1 w 0 in
  let s0 := Z.lxor (rotr 7 x15) (Z.lxor (rotr 18 x15) (Z.shiftr x15 3)) in
  let s1 := Z.lxor (rotr 17 x2) (Z.lxor (rotr 19 x2) (Z.shiftr x2 10)) in
  wadd (wadd (nth 15 w 0) s0) (wadd (nth 6 w 0) s1) :: w.

Definition schedule (block : list Z) : list Z := rev (Nat.iter 48 schedule_step (rev block)).

Definition compress_round (s : list Z) (kw : Z * Z) : list Z :=
  match s with
  | [a; b; c; d; e; f; g; h] =>
      let s1 := Z.lxor (rotr 6 e) (Z.lxor (rotr 11 e) (rotr 25 e)) in
      let ch := Z.lxor (Z.land e f) (Z.land (Z.lxor e (word_modulus - 1)) g) in
      let t1 := wadd (wadd (wadd h s1) (wadd ch kw.1)) kw.2 in
      let s0 := Z.lxor (rotr 2 a) (Z.lxor (rotr 13 a) (rotr 22 a)) in
      let maj := Z.lxor (Z.land a b) (Z.lxor (Z.land a c) (Z.land b c)) in
      [wadd t1 (wadd s0 maj); a; b; c; wadd d t1; e; f; g]
  | _ => s
  end.

Definition compress (h : list Z) (block : list Z) : list Z :=
  zip_with wadd h (fold_left compress_round (zip round_constants (schedule block)) h).

Fixpoint words_of_bytes (bytes : list Z) : list Z :=
  match bytes with
  | a :: b :: c :: d :: rest => (a * 2 ^ 24 + b * 2 ^ 16 + c * 2 ^ 8 + d) :: words_of_bytes rest
  | _ => []
  end.

Fixpoint bytes_of_word (n : nat) (w : Z) : list Z :=
  match n with
  | O => []
  | S n => bytes_of_word n (w / 256) ++ [w mod 256]
  end.

(** One bit, zeros up to 56 modulo 64, and the length in bits on 8 bytes. *)
Definition pad (bytes : list Z) : list Z :=
  let n := Z.of_nat (length bytes) in
  bytes ++ [0x80] ++ replicate (Z.to_nat ((55 - n) mod 64)) 0 ++ bytes_of_word 8 (8 * n).

Fixpoint compress_blocks (blocks : nat) (h words : list Z) : list Z :=
  match blocks with
  | O => h
  | S blocks => compress_blocks blocks (compress h (take 16 words)) (drop 16 words)
  end.

Definition sha256 (bytes : list Z) : list Z :=
  let words := words_of_bytes (pad bytes) in
  compress_blocks (length words / 16) initial_hash words.

Definition hex_of_word (w : Z) : pystr :=
  concat (map (fun b => [hex_digit (b / 16); hex_digit (b mod 16)]) (bytes_of_word 4 w)).

Definition hexdigest (bytes : list Z) : pystr := concat (map hex_of_word (sha256 bytes)).

(** ["sha256:" + hashlib.sha256(text.encode("utf-8")).hexdigest()] *)
Definition sha256_text (text : pystr) : res pystr :=
  res_bind (utf8_encode text) (fun bytes => Ok (u "sha256:" ++ hexdigest bytes)).

(** [canonical_json_sha256]: the hash object is fed the coalesced fragments one
    by one, each encoded on its own. *)
Fixpoint update_all (digest : list Z) (pieces : list pystr) : res (list Z) :=
  match pieces with
  | [] => Ok digest
  | p :: pieces => res_bind (utf8_encode p) (fun b => update_all (digest ++ b) pieces)
  end.

Definition canonical_json_sha256 `{PyFloat} (h : gmap positive pyobj) (v : pyval) : res pystr :=
  res_bind (iter_canonical_json h v) (fun texts =>
  res_bind (update_all [] (coalesce texts [] 0)) (fun digest => Ok (u "sha256:" ++ hexdigest digest))).

(** ** Lemmas *)

Example sha256_abc :
  hexdigest [97; 98; 99] = u "ba7816bf8f01cfea414140de5dae2223b00361a396177a9cb410ff61f20015ad".
Proof. vm_compute. reflexivity. Qed.

Lemma utf8_encode_app s t :
  utf8_encode (s ++ t) =
  res_bind (utf8_encode s) (fun a => res_bind (utf8_encode t) (fun b => Ok (a ++ b))).
Proof.
  unfold utf8_encode. rewrite forallb_app. destruct (forallb scalar_value s); simpl; [|done].
  destruct (forallb scalar_value t); simpl; [|done]. by rewrite map_app, concat_app.
Qed.

Lemma utf8_encode_err s e : utf8_encode s = Err e -> e = ValueError.
Proof. unfold utf8_encode. case_goal; [done|]. by intros [= <-]. Qed.

Lemma update_all_concat pieces digest :
  update_all digest pieces = res_bind (utf8_encode (concat pieces)) (fun b => Ok (digest ++ b)).
Proof.
  revert digest; induction pieces as [|p pieces IH]; intros digest; simpl.
  - by rewrite app_nil_r.
  - rewrite utf8_encode_app. destruct (utf8_encode p) as [a|]; simpl; [|done].
    rewrite IH. destruct (utf8_encode (concat pieces)); simpl; [|done]. by rewrite (assoc_L (++)).
Qed.

Lemma coalesce_concat texts buffer n : concat (coalesce texts buffer n) = concat buffer ++ concat texts.
Proof.
  revert buffer n; induction texts as [|t texts IH]; intros buffer n; simpl.
  - destruct buffer; simpl; [done|]. by rewrite !app_nil_r.
  - case_goal; simpl; rewrite IH; simpl; rewrite ?concat_app; simpl; rewrite ?app_nil_r;
      by rewrite <- ?(assoc_L (++)).
Qed.

Lemma canonical_json_sha256_text `{PyFloat} (h : gmap positive pyobj) v :
  canonical_json_sha256 h v =
  res_bind (iter_canonical_json h v) (fun texts => sha256_text (concat texts)).
Proof.
  unfold canonical_json_sha256, sha256_text. destruct (iter_canonical_json h v) as [texts|]; [|done].
  simpl res_bind at 1. symmetry. simpl res_bind at 1. rewrite update_all_concat, coalesce_concat.
  simpl. rewrite res_bind_assoc. done.
Qed.

(** Cutting the text in pieces does not change the digest, which is the
    digest of the canonical text of the value the object graph stands for. *)
Theorem canonical_json_sha256_value `{PyFloatLaws} (h : gmap positive pyobj) v j :
  denotes h v j -> wf_json j = true ->
  exists t d, json_canonical j = Ok t /\ canonical_json_sha256 h v = Ok d /\ sha256_text t = Ok d.
Proof.
  intros Hd Hwf. destruct (json_canonical_total j Hwf) as (t & Ht & Hs).
  destruct (proj2 (iter_canonical_json_iff' h v t)) as (fs & Hfs & Hc); [by exists j|].
  rewrite canonical_json_sha256_text, Hfs. simpl. rewrite Hc.
  unfold sha256_text, utf8_encode, scalar_string in *. rewrite Hs. eexists t, _. split; [done|]. split; [done|]. by rewrite Hs.
Qed.
