(* ===== verification/StdJson.v ===== *)
(** * StdJson: [json.dumps] and [json.loads] of the standard library

    [canonical_json] of [spec.py] is [json.dumps] with sorted keys, compact
    separators and no ASCII escaping; the ledger reads its JSON columns back
    with [json.loads].  Unlike the streaming parser of [json_stream.py], this
    scanner takes lone surrogates and the three non-finite floats. *)

From stdpp Require Import prelude gmap strings list sorting.
From S2P Require Import Prelude Text Json JsonStream JsonReader JsonParser JsonRoundtrip.

Open Scope Z_scope.
Open Scope py_scope.

(** ** The printer *)

Section dumps.
Context `{PyFloat}.

Definition dumps_string (s : pystr) : pystr := 34 :: concat (map escape_char s) ++ [34].

Definition dumps_float (f : pyfloat) : pystr :=
  if float_finite f then float_repr f
  else if decide (float_repr f = u "nan") then u "NaN"
  else if decide (float_repr f = u "inf") then u "Infinity"
  else u "-Infinity".

Definition dumps_member (kt : pystr * res pystr) : res pystr :=
  let* t := kt.2 in Ok (dumps_string kt.1 ++ [58] ++ t).

(** [canonical_json]: [json.dumps(value, ensure_ascii=False, sort_keys=True,
    separators=(",", ":"))]. *)
Fixpoint canonical_json (j : json) : res pystr :=
  match j with
  | JNull => Ok (u "null")
  | JBool b => Ok (if b then u "true" else u "false")
  | JInt z => str_int z
  | JFloat f => Ok (dumps_float f)
  | JStr s => Ok (dumps_string s)
  | JArr l => let* ts := res_map_list canonical_json l in Ok ([91] ++ join [44] ts ++ [93])
  | JObj l =>
      let* ts := res_map_list dumps_member (sort_items (map (fun kv => (kv.1, canonical_json kv.2)) l)) in
      Ok ([123] ++ join [44] ts ++ [125])
  end.

(** ** The scanner *)

Definition skip_ws (s : pystr) : pystr :=
  (fix go s := match s with
               | c :: s' => if bool_decide (c ∈ [32; 9; 10; 13]) then go s' else s
               | [] => []
               end) s.

Definition hex_digits (s : pystr) : res (Z * pystr) :=
  match s with
  | a :: b :: c :: d :: r =>
      match hex4 [a; b; c; d] with Ok z => Ok (z, r) | Err _ => Err JSONDecodeError end
  | _ => Err JSONDecodeError
  end.

(** The second half of a surrogate pair, when a [\u] escape follows. *)
Definition low_half (s : pystr) : res (option (Z * pystr)) :=
  match s with
  | b :: v :: r =>
      if (b =? 92) && (v =? 117) then
        let* (z, r) := hex_digits r in
        Ok (if low_surrogate z then Some (z, r) else None)
      else Ok None
  | _ => Ok None
  end.

Fixpoint scanstring (fuel : nat) (s : pystr) : res (pystr * pystr) :=
  match fuel with
  | O => Err OutOfFuel
  | S fuel =>
      let more (c : Z) (s : pystr) := let* (t, r) := scanstring fuel s in Ok (c :: t, r) in
      match s with
      | [] => Err JSONDecodeError
      | c :: s =>
          if c =? 34 then Ok ([], s)
          else if c =? 92 then
            match s with
            | [] => Err JSONDecodeError
            | e :: s =>
                if e =? 117 then
                  let* (z, s) := hex_digits s in
                  if high_surrogate z then
                    let* low := low_half s in
                    match low with
                    | Some (z2, s2) => more (combine_surrogates z z2) s2
                    | None => more z s
                    end
                  else more z s
                else match simple_escape e with
                     | Some c => more c s
                     | None => Err JSONDecodeError
                     end
            end
          else if c <? 0x20 then Err JSONDecodeError
          else more c s
      end
  end.

(** [_match_number]: the longest prefix that is a number. *)
Definition scan_number (s : pystr) : res (json * pystr) :=
  let '(neg, s0) := number_sign s in
  match int_part s0 with
  | None => Err JSONDecodeError
  | Some (i, s1) =>
      let '(f, s2) := frac_part s1 in
      let '(e, s3) := exp_part s2 in
      match f, e with
      | [], [] =>
          if max_str_digits <? Z.of_nat (length i) then Err ValueError
          else Ok (JInt (if neg then - dec_value i else dec_value i), s3)
      | _, _ => Ok (JFloat (float_of_token ((if neg then [45] else []) ++ i ++ f ++ e)), s3)
      end
  end.

(** The keywords, with the values they stand for. *)
Definition keywords : list (pystr * json) :=
  [(u "null", JNull); (u "true", JBool true); (u "false", JBool false);
   (u "NaN", JFloat (float_of_token (u "nan")));
   (u "Infinity", JFloat (float_of_token (u "inf")));
   (u "-Infinity", JFloat (float_of_token (u "-inf")))].

Fixpoint scan_keyword (ks : list (pystr * json)) (s : pystr) : option (json * pystr) :=
  match ks with
  | [] => None
  | (k, v) :: ks => if starts_with k s then Some (v, drop (length k) s) else scan_keyword ks s
  end.

(** [s[0] == k], and the rest. *)
Definition next_is (k : Z) (s : pystr) : option pystr :=
  match s with
  | c :: s => if c =? k then Some s else None
  | [] => None
  end.

Fixpoint scan_once (fuel : nat) (s : pystr) : res (json * pystr) :=
  match fuel with
  | O => Err OutOfFuel
  | S fuel =>
      match next_is 34 s with
      | Some s1 => let* (t, r) := scanstring fuel s1 in Ok (JStr t, r)
      | None =>
      match next_is 123 s with
      | Some s1 =>
          match next_is 125 (skip_ws s1) with
          | Some r => Ok (JObj [], r)
          | None => let* (l, r) := scan_members fuel [] (skip_ws s1) in Ok (JObj l, r)
          end
      | None =>
      match next_is 91 s with
      | Some s1 =>
          match next_is 93 (skip_ws s1) with
          | Some r => Ok (JArr [], r)
          | None => let* (l, r) := scan_elements fuel (skip_ws s1) in Ok (JArr l, r)
          end
      | None =>
      match scan_keyword keywords s with
      | Some p => Ok p
      | None => scan_number s
      end end end end
  end
with scan_members (fuel : nat) (acc : list (pystr * json)) (s : pystr)
    : res (list (pystr * json) * pystr) :=
  match fuel with
  | O => Err OutOfFuel
  | S fuel =>
      match next_is 34 s with
      | None => Err JSONDecodeError
      | Some s =>
          let* (k, s) := scanstring fuel s in
          match next_is 58 (skip_ws s) with
          | None => Err JSONDecodeError
          | Some s =>
              let* (v, s) := scan_once fuel (skip_ws s) in
              let acc := dict_set k v acc in
              match next_is 125 (skip_ws s), next_is 44 (skip_ws s) with
              | Some s, _ => Ok (acc, s)
              | None, Some s => scan_members fuel acc (skip_ws s)
              | None, None => Err JSONDecodeError
              end
          end
      end
  end
with scan_elements (fuel : nat) (s : pystr) : res (list json * pystr) :=
  match fuel with
  | O => Err OutOfFuel
  | S fuel =>
      let* (v, s) := scan_once fuel s in
      match next_is 93 (skip_ws s), next_is 44 (skip_ws s) with
      | Some s, _ => Ok ([v], s)
      | None, Some s => let* (l, s) := scan_elements fuel (skip_ws s) in Ok (v :: l, s)
      | None, None => Err JSONDecodeError
      end
  end.

(** [json.loads] of a [str]. *)
Definition json_loads (s : pystr) : res json :=
  if starts_with [0xFEFF] s then Err JSONDecodeError
  else
    let* (v, r) := scan_once (S (2 * length s)) (skip_ws s) in
    match skip_ws r with [] => Ok v | _ => Err JSONDecodeError end.

(** ** The scanner consumes text, and its fuel is enough *)

Definition scanned {A} (m : res (A * pystr)) (s : pystr) : Prop :=
  match m with
  | Ok (_, r) => (length r < length s)%nat
  | Err e => e = JSONDecodeError \/ e = ValueError
  end.

Lemma scanned_weaken {A} (m : res (A * pystr)) s s' :
  scanned m s -> (length s <= length s')%nat -> scanned m s'.
Proof. unfold scanned. destruct m as [[]|]; [lia|done]. Qed.

Lemma scanned_bind {A B} (m : res (A * pystr)) (k : A -> pystr -> res (B * pystr)) s :
  scanned m s -> (forall a r, (length r < length s)%nat -> scanned (k a r) s) ->
  scanned (let* (a, r) := m in k a r) s.
Proof. destruct m as [[a r]|e]; simpl; auto. Qed.

Lemma skip_ws_length s : (length (skip_ws s) <= length s)%nat.
Proof.
  induction s as [|c s IH]; [done|].
  change (skip_ws (c :: s)) with (if bool_decide (c ∈ [32; 9; 10; 13]) then skip_ws s else c :: s).
  case_match; simpl in *; lia.
Qed.

Lemma next_is_length k s r : next_is k s = Some r -> length s = S (length r).
Proof. destruct s as [|c s]; simpl; [done|]. case_match; [|done]. by intros [= ->]. Qed.

Lemma hex_digits_scanned s : scanned (hex_digits s) s.
Proof.
  unfold hex_digits. destruct s as [|a [|b [|c [|d r]]]]; simpl; auto.
  destruct (hex4 _); simpl; [lia|auto].
Qed.

Lemma low_half_spec s :
  match low_half s with
  | Ok (Some (_, r)) => (length r < length s)%nat
  | Ok None => True
  | Err e => e = JSONDecodeError \/ e = ValueError
  end.
Proof.
  unfold low_half. destruct s as [|b [|v r]]; [done..|].
  destruct ((b =? 92) && (v =? 117)); [|done].
  pose proof (hex_digits_scanned r) as Hs. destruct (hex_digits r) as [[z r']|e]; simpl in *; [|done].
  destruct (low_surrogate z); simpl; [lia|done].
Qed.

Lemma scanstring_scanned n s : (length s < n)%nat -> scanned (scanstring n s) s.
Proof.
  revert s; induction n as [|n IH]; intros s Hn; [lia|]. simpl.
  assert (forall c r, (length r < length s)%nat ->
    scanned (let* (t, r) := scanstring n r in Ok (c :: t, r)) s) as Hmore.
  { intros c r Hr. apply scanned_bind; [|done].
    apply (scanned_weaken _ r); [apply IH|]; lia. }
  destruct s as [|c s]; [by left|]. case_match; [simpl; lia|].
  case_match; [|case_match; [by left|apply Hmore; simpl; lia]].
  destruct s as [|e s]; [by left|]. case_match; [|case_match; [apply Hmore; simpl; lia|by left]].
  apply scanned_bind; [apply (scanned_weaken _ s); [apply hex_digits_scanned|simpl; lia]|].
  intros z r Hr. case_match; [|by apply Hmore].
  pose proof (low_half_spec r) as Hl. destruct (low_half r) as [[[z2 r2]|]|e2]; simpl in *;
    [apply Hmore; lia|by apply Hmore|done].
Qed.

Lemma scan_number_scanned s : scanned (scan_number s) s.
Proof.
  unfold scan_number.
  assert (length (number_sign s).2 <= length s)%nat as Hn.
  { destruct s as [|c s]; simpl; [lia|]. case_match; simpl; lia. }
  destruct (number_sign s) as [neg s0]. destruct (int_part s0) as [[i s1]|] eqn:Ei; [|by left].
  apply int_part_spec in Ei as (-> & _ & Hi).
  destruct (frac_part_spec s1) as [Hf _]. destruct (frac_part s1) as [f s2].
  destruct (exp_part_spec s2) as [He _]. destruct (exp_part s2) as [e s3]. simpl in *.
  rewrite length_app in Hn. apply (f_equal length) in Hf, He. rewrite length_app in Hf, He.
  destruct i as [|c i]; [done|]. simpl in Hn.
  destruct f, e; simpl; try lia. case_match; simpl; [by right|lia].
Qed.

Lemma scan_keyword_length ks s v r :
  Forall (fun kv => kv.1 <> []) ks -> scan_keyword ks s = Some (v, r) -> (length r < length s)%nat.
Proof.
  induction 1 as [|[k w] ks Hk _ IH]; simpl in *; [done|]. case_match eqn:E; [|done].
  intros [= -> <-]. apply starts_with_iff in E as [t ->].
  rewrite length_drop, length_app. destruct k; [done|]. simpl. lia.
Qed.

Lemma scan_once_scanned n :
  (forall s, (2 * length s < n)%nat -> scanned (scan_once n s) s) /\
  (forall acc s, (2 * length s < n)%nat -> scanned (scan_members n acc s) s) /\
  (forall s, (2 * length s + 1 < n)%nat -> scanned (scan_elements n s) s).
Proof.
  induction n as [|n (IHv & IHm & IHe)]; [by repeat split; intros; lia|].
  assert (forall A (m : pystr -> res (A * pystr)) s0 s, scanned (m s0) s0 ->
    (length s0 <= length s)%nat -> scanned (m s0) s) as Hw.
  { intros A m s0 s. apply scanned_weaken. }
  split; [|split].
  - intros s Hn. cbn [scan_once scan_members scan_elements].
    destruct (next_is 34 s) as [s1|] eqn:E1.
    { apply next_is_length in E1. apply scanned_bind; [|simpl; lia].
      apply Hw; [apply scanstring_scanned|]; lia. }
    destruct (next_is 123 s) as [s1|] eqn:E2.
    { apply next_is_length in E2. pose proof (skip_ws_length s1).
      destruct (next_is 125 _) as [r|] eqn:E3; [apply next_is_length in E3; simpl; lia|].
      apply scanned_bind; [|simpl; lia]. apply Hw; [apply IHm|]; lia. }
    destruct (next_is 91 s) as [s1|] eqn:E4.
    { apply next_is_length in E4. pose proof (skip_ws_length s1).
      destruct (next_is 93 _) as [r|] eqn:E5; [apply next_is_length in E5; simpl; lia|].
      apply scanned_bind; [|simpl; lia]. apply Hw; [apply IHe|]; lia. }
    destruct (scan_keyword keywords s) as [[v r]|] eqn:E6; [|apply scan_number_scanned].
    simpl. eapply scan_keyword_length; [|done]. by repeat constructor.
  - intros acc s Hn. cbn [scan_once scan_members scan_elements].
    destruct (next_is 34 s) as [s1|] eqn:E1; [|by left]. apply next_is_length in E1.
    apply scanned_bind; [apply Hw; [apply scanstring_scanned|]; lia|]. intros k s2 H2.
    pose proof (skip_ws_length s2). destruct (next_is 58 _) as [s3|] eqn:E3; [|by left].
    apply next_is_length in E3. pose proof (skip_ws_length s3).
    apply scanned_bind; [apply Hw; [apply IHv|]; lia|]. intros v s4 H4.
    pose proof (skip_ws_length s4).
    destruct (next_is 125 _) as [s5|] eqn:E5; [apply next_is_length in E5; simpl; lia|].
    destruct (next_is 44 _) as [s6|] eqn:E6; [|by left]. apply next_is_length in E6.
    pose proof (skip_ws_length s6). apply Hw; [apply IHm|]; lia.
  - intros s Hn. cbn [scan_once scan_members scan_elements].
    apply scanned_bind; [apply Hw; [apply IHv|]; lia|]. intros v s4 H4.
    pose proof (skip_ws_length s4).
    destruct (next_is 93 _) as [s5|] eqn:E5; [apply next_is_length in E5; simpl; lia|].
    destruct (next_is 44 _) as [s6|] eqn:E6; [|by left]. apply next_is_length in E6.
    pose proof (skip_ws_length s6).
    apply scanned_bind; [apply Hw; [apply IHe|]; lia|]. intros l s7 H7. simpl. lia.
Qed.

(** [json.loads] returns, or raises [JSONDecodeError] or the [ValueError] of
    an integer with too many digits. *)
Lemma json_loads_err s e : json_loads s = Err e -> e = JSONDecodeError \/ e = ValueError.
Proof.
  unfold json_loads. case_match; [intros [= <-]; by left|].
  pose proof (skip_ws_length s).
  pose proof (proj1 (scan_once_scanned (S (2 * length s))) (skip_ws s) ltac:(lia)) as Hs.
  destruct (scan_once _ _) as [[v r]|e']; simpl in *; [|intros [= <-]; tauto].
  destruct (skip_ws r); [done|]. intros [= <-]. by left.
Qed.

(** ** Round trip *)

Definition code_points (s : pystr) : bool := forallb (fun c => 0 <=? c) s.

(** The values [json.dumps] and [json.loads] carry faithfully. *)
Fixpoint std_wf (j : json) : bool :=
  match j with
  | JNull | JBool _ => true
  | JInt z => Z.of_nat (length (dec_nat (Z.abs z))) <=? max_str_digits
  | JFloat f => float_finite f
  | JStr s => code_points s
  | JArr l => forallb std_wf l
  | JObj l => bool_decide (NoDup (l.*1)) && forallb (fun kv => code_points kv.1 && std_wf kv.2) l
  end.

Lemma wf_json_std j : wf_json j = true -> std_wf j = true.
Proof.
  assert (forall s, scalar_string s = true -> code_points s = true) as Hs.
  { intros s. unfold scalar_string, code_points. rewrite !forallb_forall. intros Hs c Hc.
    specialize (Hs c Hc). unfold scalar_value in Hs. rewrite !andb_true_iff in Hs. tauto. }
  induction j as [|b|z|f|s|l IH|l IH] using json_ind; simpl; auto.
  - rewrite !forallb_forall. intros Hl j Hj. rewrite Forall_forall in IH.
    apply IH; [by apply list_elem_of_In|auto].
  - rewrite !andb_true_iff, !forallb_forall. intros [Hnd Hl]. split; [done|].
    intros kv Hkv. specialize (Hl kv Hkv). rewrite andb_true_iff in *. destruct Hl as [Hk Hv].
    rewrite Forall_forall in IH. split; [auto|]. apply IH; [by apply list_elem_of_In|done].
Qed.

Definition std_reads {A} (p : nat -> pystr -> res (A * pystr)) (t : pystr) (a : A)
    (next : pystr -> Prop) (cost : nat) : Prop :=
  forall n rest, (2 * length t + cost < n)%nat -> next rest -> p n (t ++ rest) = Ok (a, rest).

Lemma scanstring_char n c t :
  0 <= c ->
  scanstring (S n) (escape_char c ++ t) = let* (s, r) := scanstring n t in Ok (c :: s, r).
Proof.
  intros Hc. destruct (decide (c < 32)) as [Hlt|Hge].
  { assert (forall k, (k < 32)%nat -> scanstring (S n) (escape_char (Z.of_nat k) ++ t) =
      let* (s, r) := scanstring n t in Ok (Z.of_nat k :: s, r)) as Hall.
    { intros k Hk. do 32 (destruct k as [|k]; [reflexivity|]). lia. }
    rewrite <- (Z2Nat.id c) by lia. apply Hall. lia. }
  unfold escape_char, short_escape.
  repeat match goal with
  | |- context [if c =? ?k then _ else _] =>
      let E := fresh "E" in destruct (c =? k) eqn:E; [apply Z.eqb_eq in E as ->; first [reflexivity|lia]|]
  end.
  assert (c <? 32 = false) as -> by (apply Z.ltb_ge; lia). simpl.
  rewrite E, E0. by assert (c <? 32 = false) as -> by (apply Z.ltb_ge; lia).
Qed.

Lemma scanstring_reads s n rest :
  code_points s = true -> (length s < n)%nat ->
  scanstring n (concat (map escape_char s) ++ 34 :: rest) = Ok (s, rest).
Proof.
  unfold code_points. revert n; induction s as [|c s IH]; intros [|n] Hs Hn; simpl in *; try lia; [done|].
  apply andb_true_iff in Hs as [Hc Hs]. apply Z.leb_le in Hc.
  rewrite <- (assoc_L (++)). etransitivity; [by apply scanstring_char|]. by rewrite IH by (done || lia).
Qed.

Lemma escaped_length s : (length s <= length (concat (map escape_char s)))%nat.
Proof.
  induction s as [|c s IH]; simpl; [done|]. rewrite length_app.
  assert (0 < length (escape_char c))%nat; [|lia].
  unfold escape_char, short_escape. repeat case_match; simplify_eq; simpl; lia.
Qed.

Lemma next_is_hit k r : next_is k (k :: r) = Some r.
Proof. simpl. by rewrite Z.eqb_refl. Qed.

Lemma next_is_miss k c r : c <> k -> next_is k (c :: r) = None.
Proof. intros Hc. simpl. by apply Z.eqb_neq in Hc as ->. Qed.

Lemma scan_string_reads s :
  code_points s = true -> std_reads scan_once (dumps_string s) (JStr s) anything 0.
Proof.
  intros Hs n rest Hn _. destruct n as [|n]; [lia|]. cbn [scan_once scan_members scan_elements].
  unfold dumps_string in *. simpl ((34 :: _) ++ rest). rewrite next_is_hit, <- (assoc_L (++)).
  simpl in Hn. rewrite length_app in Hn. pose proof (escaped_length s).
  change ([34] ++ rest) with (34 :: rest). rewrite (scanstring_reads s n rest Hs) by lia. done.
Qed.

Lemma scan_number_app t p rest :
  split_number t = Some p -> after_number rest ->
  scan_number (t ++ rest) =
  match np_frac p, np_exp p with
  | [], [] =>
      if max_str_digits <? Z.of_nat (length (np_int p)) then Err ValueError
      else Ok (JInt (if np_negative p then - dec_value (np_int p) else dec_value (np_int p)), rest)
  | _, _ => Ok (JFloat (float_of_token t), rest)
  end.
Proof.
  intros Hs Hr. unfold split_number, scan_number in *.
  assert (number_sign (t ++ rest) = ((number_sign t).1, (number_sign t).2 ++ rest) /\
          t = (if (number_sign t).1 then [45] else []) ++ (number_sign t).2) as [-> Ht].
  { destruct t as [|c t].
    - destruct rest as [|c rest]; [done|]. apply after_number_head in Hr as (_ & _ & Hc & _).
      simpl. by apply Z.eqb_neq in Hc as ->.
    - simpl. destruct (c =? 45) eqn:E; [|done]. by apply Z.eqb_eq in E as ->. }
  destruct (number_sign t) as [neg s0]. simpl in *.
  destruct (int_part s0) as [[i s1]|] eqn:Ei; [|done].
  rewrite (int_part_app s0 i s1 rest Ei) by (intros; by apply after_number_no_digit).
  apply int_part_spec in Ei as (-> & _).
  destruct (frac_part_spec s1) as [Hf _]. destruct (frac_part s1) as [f s2] eqn:Ef.
  rewrite (frac_part_app s1 f s2 rest Ef Hr).
  destruct (exp_part_spec s2) as [He _]. destruct (exp_part s2) as [e s3] eqn:Ee.
  rewrite (exp_part_app s2 e s3 rest Ee Hr). simpl in *.
  destruct s3; [|done]. injection Hs as <-. simpl. rewrite app_nil_r in He. by subst.
Qed.

Lemma number_no_keyword t p rest :
  split_number t = Some p -> scan_keyword keywords (t ++ rest) = None /\
  (forall k, k ∈ [34; 123; 91] -> next_is k (t ++ rest) = None).
Proof.
  intros Hs. unfold split_number in Hs.
  assert (exists c t', (t = c :: t' \/ t = 45 :: c :: t') /\ is_digit c = true) as (c & t' & Ht & Hc).
  { destruct t as [|c t]; [done|]. simpl in Hs. destruct (c =? 45) eqn:E.
    - apply Z.eqb_eq in E as ->. destruct t as [|d t]; [done|]. exists d, t. split; [by right|].
      simpl in Hs. destruct (d =? 48) eqn:E2; [by apply Z.eqb_eq in E2 as ->|].
      by destruct (is_digit d).
    - exists c, t. split; [by left|]. simpl in Hs. destruct (c =? 48) eqn:E2; [by apply Z.eqb_eq in E2 as ->|].
      by destruct (is_digit c). }
  unfold is_digit in Hc. rewrite andb_true_iff, !Z.leb_le in Hc.
  split.
  - assert (forall k d r, k <> [] -> hd 0 k <> d -> starts_with k (d :: r) = false) as Hne.
    { intros [|a k] d r Hk Hd; [done|]. simpl in *. by apply Z.eqb_neq in Hd as ->. }
    assert (forall ks, Forall (fun kv => starts_with kv.1 (t ++ rest) = false) ks ->
      scan_keyword ks (t ++ rest) = None) as Hks.
    { induction 1 as [|[k v] ks Hk _ IH]; [done|]. cbn [scan_keyword]. simpl in Hk. by rewrite Hk. }
    apply Hks. unfold keywords.
    repeat (apply Forall_cons; split; [cbn [fst]|]); try apply Forall_nil_2;
      destruct Ht as [-> | ->]; cbn [app];
      try (apply Hne; [done|match goal with |- ?x <> _ => let v := eval vm_compute in x in change (v <> c) end; lia]);
      try (apply Hne; [done|by vm_compute]).
    change (starts_with (u "-Infinity") (45 :: c :: t' ++ rest))
      with (starts_with (u "Infinity") (c :: t' ++ rest)).
    apply Hne; [done|]. change (73 <> c). lia.
  - intros k Hk. rewrite !elem_of_cons, elem_of_nil in Hk.
    destruct Ht as [-> | ->]; apply next_is_miss; lia.
Qed.

Lemma scan_value_number t j p :
  split_number t = Some p ->
  (forall rest, after_number rest -> scan_number (t ++ rest) = Ok (j, rest)) ->
  std_reads scan_once t j after_number 0.
Proof.
  intros Hs Hn n rest Hl Hr. destruct n as [|n]; [lia|]. cbn [scan_once scan_members scan_elements].
  destruct (number_no_keyword t p rest Hs) as [Hk Hx].
  rewrite !Hx, Hk by set_solver. by apply Hn.
Qed.

Lemma scan_int_reads z t : str_int z = Ok t -> std_reads scan_once t (JInt z) after_number 0.
Proof.
  unfold str_int. case_match eqn:Ez; [done|]. intros [= <-]. pose proof (split_dec_int z) as Hs.
  eapply scan_value_number; [exact Hs|]. intros rest Hr. rewrite (scan_number_app _ _ _ Hs Hr). simpl.
  rewrite Ez. destruct (dec_nat_spec (Z.abs z)) as (Hv & _); [lia|]. rewrite Hv.
  do 3 f_equal. destruct (z <? 0) eqn:E; [apply Z.ltb_lt in E|apply Z.ltb_ge in E]; lia.
Qed.

Lemma scan_float_reads `{!PyFloatLaws} f :
  float_finite f = true -> std_reads scan_once (float_repr f) (JFloat f) after_number 0.
Proof.
  intros Hf. pose proof (float_repr_token f Hf) as Ht. pose proof (float_repr_roundtrip f Hf) as Hr.
  unfold is_float_token in Ht. destruct (split_number (float_repr f)) as [p|] eqn:Hs; [|done].
  eapply scan_value_number; [exact Hs|]. intros rest Hrest. rewrite (scan_number_app _ _ _ Hs Hrest), Hr.
  by destruct (np_frac p), (np_exp p).
Qed.

(** *** Arrays and objects *)

Lemma skip_ws_nop c s : c <> 32 -> c <> 9 -> c <> 10 -> c <> 13 -> skip_ws (c :: s) = c :: s.
Proof.
  intros. change (skip_ws (c :: s)) with (if bool_decide (c ∈ [32; 9; 10; 13]) then skip_ws s else c :: s).
  rewrite bool_decide_false; [done|]. rewrite !elem_of_cons, elem_of_nil. naive_solver.
Qed.

Lemma skip_ws_head c s : is_head c = true -> skip_ws (c :: s) = c :: s.
Proof.
  intros Hc. unfold is_head, is_digit in Hc.
  rewrite orb_true_iff, andb_true_iff, !Z.leb_le, bool_decide_eq_true in Hc.
  rewrite !elem_of_cons, elem_of_nil in Hc. apply skip_ws_nop; lia.
Qed.

Definition std_value_read (j : json) (t : pystr) : Prop :=
  std_reads scan_once t j after_number 0 /\ exists c t', t = c :: t' /\ is_head c = true.

Lemma scan_elements_reads l ts :
  l <> [] -> Forall2 std_value_read l ts ->
  forall n rest, (2 * length (join [44%Z] ts) + 2 < n)%nat ->
    scan_elements n (join [44] ts ++ 93 :: rest) = Ok (l, rest).
Proof.
  intros Hne Hl. induction Hl as [|j t l ts [Hr (c & t' & -> & Hc)] Hl IH]; [done|].
  intros [|n] rest Hn; [lia|]. cbn [scan_once scan_members scan_elements].
  destruct Hl as [|j2 t2 l ts He Hl].
  - cbn [join] in *. rewrite (Hr n (93 :: rest)) by (done || lia). cbn [res_bind].
    by rewrite skip_ws_nop, next_is_hit by done.
  - change (join [44] ((c :: t') :: t2 :: ts)) with ((c :: t') ++ 44 :: join [44] (t2 :: ts)) in *.
    rewrite length_app in Hn. cbn [length] in Hn. rewrite <- (assoc_L (++)).
    change ((44 :: ?x) ++ ?y) with (44 :: (x ++ y)). rewrite (Hr n) by (done || (cbn [length]; lia)). cbn [res_bind].
    rewrite !skip_ws_nop, next_is_miss, next_is_hit by done.
    destruct He as [_ (c2 & t2' & -> & Hc2)]. destruct (join_head c2 t2' ts (93 :: rest)) as [more Hm].
    assert (skip_ws (join [44] ((c2 :: t2') :: ts) ++ 93 :: rest) = join [44] ((c2 :: t2') :: ts) ++ 93 :: rest)
      as -> by (rewrite Hm; by apply skip_ws_head).
    by rewrite (IH ltac:(done) n rest) by lia.
Qed.

Definition std_member_read (kj : pystr * json) (t : pystr) : Prop :=
  exists v, t = dumps_string kj.1 ++ 58 :: v /\ code_points kj.1 = true /\ std_value_read kj.2 v.

Lemma scan_member_reads kj t n acc rest :
  std_member_read kj t -> (2 * length t < S n)%nat -> after_number rest ->
  scan_members (S n) acc (t ++ rest) =
  match next_is 125 (skip_ws rest), next_is 44 (skip_ws rest) with
  | Some s, _ => Ok (dict_set kj.1 kj.2 acc, s)
  | None, Some s => scan_members n (dict_set kj.1 kj.2 acc) (skip_ws s)
  | None, None => Err JSONDecodeError
  end.
Proof.
  intros (v & -> & Hk & Hr & c & v' & -> & Hc) Hn Ha. cbn [scan_once scan_members scan_elements].
  unfold dumps_string in *. simpl in Hn. rewrite !length_app in Hn. simpl in Hn.
  pose proof (escaped_length kj.1).
  replace (((34 :: concat (map escape_char kj.1) ++ [34]) ++ 58 :: c :: v') ++ rest)
    with (34 :: concat (map escape_char kj.1) ++ 34 :: 58 :: (c :: v') ++ rest)
    by (simpl; by rewrite <- !(assoc_L (++))).
  rewrite next_is_hit, scanstring_reads by (done || lia). cbn [res_bind].
  rewrite skip_ws_nop, next_is_hit by done.
  change (skip_ws ((c :: v') ++ rest)) with (skip_ws (c :: (v' ++ rest))). rewrite skip_ws_head by done.
  change (c :: v' ++ rest) with ((c :: v') ++ rest). rewrite (Hr n rest) by (simpl; done || lia). done.
Qed.

Lemma scan_members_reads l ts :
  l <> [] -> Forall2 std_member_read l ts ->
  forall acc n rest, NoDup (acc.*1 ++ l.*1) -> (2 * length (join [44%Z] ts) + 2 < n)%nat ->
    scan_members n acc (join [44] ts ++ 125 :: rest) = Ok (acc ++ l, rest).
Proof.
  intros Hne Hl. induction Hl as [|kj t l ts Hm Hl IH]; [done|].
  intros acc [|n] rest Hnd Hn; [lia|].
  assert (dict_set kj.1 kj.2 acc = acc ++ [kj]) as Hset.
  { rewrite dict_set_fresh; [by destruct kj|]. intros Hin. apply NoDup_app in Hnd as (_ & Hd & _).
    apply (Hd _ Hin). simpl. by left. }
  destruct Hl as [|kj2 t2 l ts Hm2 Hl].
  - cbn [join] in *. rewrite (scan_member_reads kj t) by (done || lia).
    by rewrite skip_ws_nop, next_is_hit, Hset by done.
  - change (join [44] (t :: t2 :: ts)) with (t ++ 44 :: join [44] (t2 :: ts)) in *.
    rewrite length_app in Hn. cbn [length] in Hn. rewrite <- (assoc_L (++)).
    change ((44 :: ?x) ++ ?y) with (44 :: (x ++ y)). rewrite (scan_member_reads kj t) by (done || lia).
    rewrite skip_ws_nop, next_is_miss, next_is_hit, Hset by done.
    assert (exists t2', t2 = 34 :: t2') as [t2' ->] by (destruct Hm2 as (? & -> & _); by eexists).
    destruct (join_head 34 t2' ts (125 :: rest)) as [more Hmore].
    assert (skip_ws (join [44] ((34 :: t2') :: ts) ++ 125 :: rest) = join [44] ((34 :: t2') :: ts) ++ 125 :: rest)
      as -> by (rewrite Hmore; by apply skip_ws_head).
    rewrite (IH ltac:(done) (acc ++ [kj]) n rest) by (rewrite ?fmap_app, <- ?(assoc_L (++)); done || lia).
    by rewrite <- (assoc_L (++)).
Qed.

Lemma std_members_read l ts :
  Forall (fun kv => std_wf kv.2 = true -> forall t, canonical_json kv.2 = Ok t ->
            std_value_read (json_sorted kv.2) t) l ->
  forallb (fun kv => code_points kv.1 && std_wf kv.2) l = true ->
  res_map_list dumps_member (map (fun kv => (kv.1, canonical_json kv.2)) l) = Ok ts ->
  Forall2 std_member_read (map (fun kv => (kv.1, json_sorted kv.2)) l) ts.
Proof.
  intros Hl. revert ts. induction Hl as [|[k j] l Hj Hl IH]; intros ts; simpl.
  - intros _ [= <-]. constructor.
  - rewrite !andb_true_iff. intros [[Hk Hwf] Hrest].
    rewrite res_bind_ok. intros (t & Ht & Hts). rewrite res_bind_ok in Hts.
    destruct Hts as (ts' & Hts & [= <-]). constructor; [|by apply IH].
    unfold dumps_member in Ht. simpl in Ht. rewrite res_bind_ok in Ht. destruct Ht as (v & Hv & Ht).
    apply (inj Ok) in Ht as <-. exists v. split; [done|]. split; [done|]. by apply Hj.
Qed.

Lemma std_array_reads l ts :
  Forall2 std_value_read l ts -> std_value_read (JArr l) ([91] ++ join [44] ts ++ [93]).
Proof.
  intros Hel.
  split; [|by eexists _, _]. intros [|n] rest Hl _; [lia|]. rewrite bracketed in *.
  cbn [scan_once scan_members scan_elements]. rewrite next_is_miss, next_is_miss, next_is_hit by done.
  destruct l as [|j l]; [inversion Hel; by subst|].
  destruct ts as [|t0 ts]; [by inversion Hel|].
  inversion Hel as [|? ? ? ? [_ (c & t' & -> & Hc)] _]; subst.
  destruct (join_head c t' ts (93 :: rest)) as [more Hm].
  assert (skip_ws (join [44] ((c :: t') :: ts) ++ 93 :: rest) = join [44] ((c :: t') :: ts) ++ 93 :: rest)
    as -> by (rewrite Hm; by apply skip_ws_head).
  destruct (is_head_cases c Hc) as (_ & H93 & _). rewrite Hm, next_is_miss, <- Hm by done.
  rewrite !length_app in Hl. cbn [length] in Hl. by rewrite (scan_elements_reads (j :: l) _ ltac:(done) Hel) by lia.
Qed.

Lemma std_object_reads sl ts :
  NoDup sl.*1 -> Forall2 std_member_read sl ts -> std_value_read (JObj sl) ([123] ++ join [44] ts ++ [125]).
Proof.
  intros Hnd Hel.
  split; [|by eexists _, _]. intros [|n] rest Hl _; [lia|]. rewrite bracketed in *.
  cbn [scan_once scan_members scan_elements]. rewrite next_is_miss, next_is_hit by done.
  destruct sl as [|kv sl]; [inversion Hel; by subst|].
  destruct ts as [|t0 ts]; [by inversion Hel|].
  inversion Hel as [|? ? ? ? (v & -> & _) _]; subst.
  destruct (join_head 34 ((concat (map escape_char kv.1) ++ [34]) ++ 58 :: v) ts (125 :: rest)) as [more Hm].
  unfold dumps_string in *. cbn [fst app] in *.
  match type of Hm with ?x = _ => assert (skip_ws x = x) as -> by (rewrite Hm; by apply skip_ws_head) end.
  rewrite Hm, next_is_miss, <- Hm by done.
  cbn [length] in Hl. rewrite !length_app in Hl. cbn [length] in Hl.
  by rewrite (scan_members_reads (kv :: sl) _ ltac:(done) Hel [] n rest) by (done || (rewrite ?length_app in *; cbn [length] in *; lia)).
Qed.

Lemma std_value_reads `{!PyFloatLaws} j :
  std_wf j = true -> forall t, canonical_json j = Ok t -> std_value_read (json_sorted j) t.
Proof.
  assert (Hd : forall c, is_digit c = true -> is_head c = true)
    by (intros c Hc; unfold is_head; by rewrite Hc, orb_true_r).
  assert (Hn : forall s p, split_number s = Some p -> exists c t', s = c :: t' /\ is_head c = true).
  { intros s p Hs. apply split_number_text in Hs as (_ & c & s' & -> & Hc). exists c, s'. split; [done|].
    apply orb_true_iff in Hc as [Hc|Hc]; [by apply Z.eqb_eq in Hc as ->|auto]. }
  induction j as [|b|z|f|s|l IH|l IH] using json_ind; cbn [std_wf canonical_json json_sorted]; intros Hwf t Ht.
  - injection Ht as <-. split; [|by eexists _, _]. intros [|n] rest Hl _; [lia|]. done.
  - injection Ht as <-. split; [|destruct b; by eexists _, _].
    intros [|n] rest Hl _; [lia|]. by destruct b.
  - split; [by apply scan_int_reads|]. destruct (split_number t) eqn:E; [by eapply Hn|].
    by apply int_token in Ht.
  - unfold dumps_float in Ht. rewrite Hwf in Ht. injection Ht as <-. split; [by apply scan_float_reads|].
    pose proof (float_repr_token f Hwf) as Ht. unfold is_float_token in Ht.
    destruct (split_number (float_repr f)) eqn:E; [by eapply Hn|done].
  - injection Ht as <-. split; [|by eexists _, _]. intros n rest Hl _. by apply scan_string_reads.
  - rewrite res_bind_ok in Ht. destruct Ht as (ts & Hts & Ht). apply (inj Ok) in Ht as <-.
    apply res_map_list_ok in Hts.
    assert (Forall2 std_value_read (map json_sorted l) ts) as Hel.
    { clear -IH Hwf Hts. revert Hwf. induction Hts as [|j t l ts Hj Hts IHl]; [by constructor|].
      inversion IH; subst. simpl. intros [Hw Hr]%andb_true_iff. constructor; auto. }
    by apply std_array_reads.
  - apply andb_true_iff in Hwf as [Hnd Hwf]. apply bool_decide_eq_true in Hnd.
    rewrite sort_items_map, res_bind_ok in Ht. destruct Ht as (ts & Hts & Ht). apply (inj Ok) in Ht as <-.
    rewrite sort_items_map. pose proof (sort_items_perm l) as Hp.
    set (sl := sort_items l) in *. clearbody sl. rewrite <- Hp in IH, Hnd.
    assert (Hwf' : forallb (fun kv => code_points kv.1 && std_wf kv.2) sl = true).
    { apply forallb_forall. intros kv Hin. rewrite forallb_forall in Hwf. apply Hwf.
      apply list_elem_of_In. rewrite <- Hp. by apply list_elem_of_In. }
    pose proof (std_members_read _ _ IH Hwf' Hts) as Hel.
    assert (NoDup (map (fun kv => (kv.1, json_sorted kv.2)) sl).*1) as Hnd'.
    { by rewrite <- list_fmap_compose. }
    by apply std_object_reads.
Qed.

Lemma json_loads_dumps' `{!PyFloatLaws} j t :
  std_wf j = true -> canonical_json j = Ok t -> json_loads t = Ok (json_sorted j).
Proof.
  intros Hwf Ht. destruct (std_value_reads j Hwf t Ht) as [Hr (c & t' & -> & Hc)].
  unfold json_loads.
  assert (starts_with [0xFEFF] (c :: t') = false) as ->.
  { cbn [starts_with]. destruct (65279 =? c) eqn:E; [|done]. apply Z.eqb_eq in E as <-. by vm_compute in Hc. }
  rewrite skip_ws_head by done. specialize (Hr (S (2 * length (c :: t'))) [] ltac:(lia) I).
  rewrite app_nil_r in Hr. by rewrite Hr.
Qed.

(** Printing ignores the order of the keys. *)
Lemma canonical_json_sorted j : std_wf j = true -> canonical_json (json_sorted j) = canonical_json j.
Proof.
  induction j as [|[]|z|f|s|l IH|l IH] using json_ind; cbn [json_sorted canonical_json std_wf];
    intros Hwf; try done.
  - assert (res_map_list canonical_json (map json_sorted l) = res_map_list canonical_json l) as ->; [|done].
    induction IH as [|j l Hj _ IHl]; [done|]. simpl in *. apply andb_true_iff in Hwf as [? ?].
    by rewrite Hj, IHl.
  - apply andb_true_iff in Hwf as [Hnd Hwf]. apply bool_decide_eq_true in Hnd.
    f_equal. f_equal. rewrite !sort_items_map, map_map.
    rewrite <- (sort_items_unique l (sort_items l) Hnd) by (by rewrite sort_items_perm).
    apply map_ext_in. intros kv Hkv%list_elem_of_In. rewrite sort_items_perm in Hkv.
    rewrite Forall_forall in IH. simpl. f_equal. apply IH; [done|].
    rewrite forallb_forall in Hwf. apply list_elem_of_In, Hwf in Hkv.
    by apply andb_true_iff in Hkv as [_ ?].
Qed.

(** On values without surrogates the two printers of the program agree. *)
Lemma canonical_json_agrees j : wf_json j = true -> canonical_json j = json_canonical j.
Proof.
  assert (Hstr : forall s, scalar_string s = true -> json_string s = Ok (dumps_string s)).
  { intros s Hs. unfold json_string. by rewrite escape_string_scalar. }
  induction j as [|[]|z|f|s|l IH|l IH] using json_ind; cbn [wf_json canonical_json json_canonical];
    intros Hwf; try done.
  - unfold dumps_float. by rewrite Hwf.
  - by rewrite Hstr.
  - assert (res_map_list canonical_json l = res_map_list json_canonical l) as ->; [|done].
    induction IH as [|j l Hj _ IHl]; [done|]. simpl in *. apply andb_true_iff in Hwf as [? ?].
    by rewrite Hj, IHl.
  - apply andb_true_iff in Hwf as [_ Hwf]. rewrite !sort_items_map.
    assert (forall l', Forall (fun kv => kv ∈ l) l' ->
      res_map_list dumps_member (map (fun kv => (kv.1, canonical_json kv.2)) l') =
      res_map_list member_text (map (fun kv => (kv.1, json_canonical kv.2)) l')) as Hl.
    { induction 1 as [|kv l' Hin _ IHl]; [done|]. cbn [map res_map_list]. rewrite IHl.
      rewrite Forall_forall in IH. rewrite forallb_forall in Hwf.
      pose proof (Hwf kv (proj1 (list_elem_of_In _ _) Hin)) as Hkv. apply andb_true_iff in Hkv as [Hk Hv].
      unfold dumps_member, member_text. simpl. rewrite (IH kv Hin Hv), Hstr by done. done. }
    rewrite Hl; [done|]. apply Forall_forall. intros kv. by rewrite sort_items_perm.
Qed.

(** What [json.loads] reads back from [canonical_json] is the same value,
    and prints as the same text again. *)
Theorem json_loads_dumps `{!PyFloatLaws} j t :
  std_wf j = true -> canonical_json j = Ok t ->
  json_loads t = Ok (json_sorted j) /\ canonical_json (json_sorted j) = Ok t.
Proof. intros Hwf Ht. split; [by apply json_loads_dumps'|by rewrite canonical_json_sorted]. Qed.
End dumps.
