(* ===== verification/PyJson.v ===== *)
(** * PyJson: Python's dynamic operations on JSON values

    Truth, [str], [int] and the lookups that receipts are examined with. *)

From stdpp Require Import prelude gmap strings list sorting.
From S2P Require Import Prelude Text Json.

Open Scope Z_scope.

(** [str] of a list or a dictionary is its [repr], a parameter: the code only
    gets there when a receipt has a container where a name is expected. *)
Class PyRepr `{PyFloat} := { container_str : json -> pystr }.

Section dynamic.
Context `{PyFloat}.

Definition float_zero (f : pyfloat) : bool :=
  bool_decide (float_repr f = u "0.0") || bool_decide (float_repr f = u "-0.0").

(** [bool(j)] *)
Definition truthy (j : json) : bool :=
  match j with
  | JNull => false
  | JBool b => b
  | JInt z => negb (z =? 0)
  | JFloat f => negb (float_zero f)
  | JStr s => match s with [] => false | _ => true end
  | JArr l => match l with [] => false | _ => true end
  | JObj l => match l with [] => false | _ => true end
  end.

(** [isinstance(j, Mapping)] and [_mapping(j)]. *)
Definition is_mapping (j : json) : bool := match j with JObj _ => true | _ => false end.
Definition mapping (j : json) : list (pystr * json) := match j with JObj l => l | _ => [] end.

(** [d.get(key)] *)
Definition get (d : list (pystr * json)) (key : pystr) : json :=
  match dict_get key d with Some v => v | None => JNull end.

(** [{**a, **b}] *)
Definition dict_update (a b : list (pystr * json)) : list (pystr * json) :=
  fold_left (fun d kv => dict_set kv.1 kv.2 d) b a.

(** [j == 0], [j == s] and [j is True]. *)
Definition is_zero (j : json) : bool :=
  match j with
  | JInt z => z =? 0
  | JBool b => negb b
  | JFloat f => float_zero f
  | _ => false
  end.

Definition is_text (j : json) (s : pystr) : bool :=
  match j with JStr t => bool_decide (t = s) | _ => false end.

Definition is_true (j : json) : bool := match j with JBool b => b | _ => false end.

(** [str(j)] and [str(j or "")] *)
Definition py_str `{!PyRepr} (j : json) : res pystr :=
  match j with
  | JNull => Ok (u "None")
  | JBool true => Ok (u "True")
  | JBool false => Ok (u "False")
  | JInt z => str_int z
  | JFloat f => Ok (float_repr f)
  | JStr s => Ok s
  | JArr _ | JObj _ => Ok (container_str j)
  end.

Definition str_or_empty `{!PyRepr} (j : json) : res pystr :=
  if truthy j then py_str j else Ok [].

(** [int(s)]: white space, a sign, digits with single underscores between. *)
Definition digit_of `{PyUnicode} (c : Z) : option Z :=
  if is_digit c then Some (c - 48) else if c <? 128 then None else decimal_other c.

Fixpoint int_digits `{PyUnicode} (s : pystr) : option (list Z) :=
  match s with
  | [] => None
  | c :: s =>
      d ← digit_of c;
      match s with
      | [] => Some [d]
      | c' :: s' => if c' =? 95 then ds ← int_digits s'; Some (d :: ds)
                    else ds ← int_digits s; Some (d :: ds)
      end
  end.

Definition int_of_str `{PyUnicode} (s : pystr) : res Z :=
  let s := strip s in
  let '(neg, body) := match s with
                      | c :: s' => if c =? 45 then (true, s') else if c =? 43 then (false, s') else (false, s)
                      | [] => (false, [])
                      end in
  match int_digits body with
  | None => Err ValueError
  | Some ds =>
      if max_str_digits <? Z.of_nat (length ds) then Err ValueError
      else let v := fold_left (fun a d => a * 10 + d) ds 0 in Ok (if neg then - v else v)
  end.

(** [int(j)] and [int(j or 0)] *)
Definition py_int `{PyUnicode} (j : json) : res Z :=
  match j with
  | JBool b => Ok (if b then 1 else 0)
  | JInt z => Ok z
  | JFloat f => float_trunc f
  | JStr s => int_of_str s
  | JNull | JArr _ | JObj _ => Err TypeError
  end.

Definition int_or_zero `{PyUnicode} (j : json) : res Z :=
  if truthy j then py_int j else Ok 0.

(** [any(test(x) for x in l)], which stops at the first success. *)
Fixpoint any_res {A} (test : A -> res bool) (l : list A) : res bool :=
  match l with
  | [] => Ok false
  | a :: l => res_bind (test a) (fun b => if b then Ok true else any_res test l)
  end.

(** ** Lemmas *)

Lemma dict_get_set_eq {V} k (v : V) l : dict_get k (dict_set k v l) = Some v.
Proof.
  induction l as [|[k' v'] l IH]; simpl; [by rewrite decide_True|].
  case_decide; simpl; [by rewrite decide_True|]. by rewrite decide_False.
Qed.

Lemma dict_get_set_ne {V} k k' (v : V) l : k <> k' -> dict_get k (dict_set k' v l) = dict_get k l.
Proof.
  intros Hk. induction l as [|[k2 v2] l IH]; simpl; [by rewrite decide_False|].
  case_decide; simpl; subst; [by rewrite !decide_False|]. case_decide; [done|]. exact IH.
Qed.

Lemma dict_get_in {V} k (v : V) l : dict_get k l = Some v -> (k, v) ∈ l.
Proof.
  induction l as [|[k' v'] l IH]; simpl; [done|]. case_decide; subst; [intros [= ->]; left|].
  intros Hg. right. auto.
Qed.

Lemma dict_get_nodup {V} k (v : V) l : NoDup l.*1 -> (k, v) ∈ l -> dict_get k l = Some v.
Proof.
  induction l as [|[k' v'] l IH]; simpl; [by rewrite elem_of_nil|].
  rewrite NoDup_cons, elem_of_cons. intros [Hk Hnd] [[= -> ->]|Hin]; [by rewrite decide_True|].
  rewrite decide_False; [auto|]. intros ->. apply Hk. apply list_elem_of_fmap. by exists (k', v).
Qed.

Lemma dict_get_keys {V} k (l : list (pystr * V)) : is_Some (dict_get k l) <-> k ∈ l.*1.
Proof.
  induction l as [|[k' v] l IH]; cbn [dict_get fmap list_fmap fst]; [split; [by intros [? ?]|by intros ?%elem_of_nil]|].
  rewrite elem_of_cons. destruct (decide (k = k')) as [->|Hne]; [split; [by left|by eexists]|]. rewrite IH. tauto.
Qed.

Lemma dict_set_keys {V} k (v : V) l x : x ∈ (dict_set k v l).*1 <-> x = k \/ x ∈ l.*1.
Proof.
  induction l as [|[k' v'] l IH]; cbn [dict_set].
  - cbn [fmap list_fmap fst]. rewrite list_elem_of_singleton, elem_of_nil. tauto.
  - destruct (decide (k = k')) as [->|Hne]; cbn [fmap list_fmap fst]; rewrite !elem_of_cons; [tauto|].
    change (list_fmap _ _ fst (dict_set k v l)) with (dict_set k v l).*1. rewrite IH. tauto.
Qed.

Lemma dict_get_none {V} k (l : list (pystr * V)) : dict_get k l = None <-> k ∉ l.*1.
Proof.
  rewrite <- dict_get_keys. destruct (dict_get k l); split; try done.
  intros Hn. destruct Hn. by eexists.
Qed.

Lemma dict_get_perm {V} k (l1 l2 : list (pystr * V)) :
  NoDup l1.*1 -> l1 ≡ₚ l2 -> dict_get k l1 = dict_get k l2.
Proof.
  intros Hnd Hp. assert (NoDup l2.*1) as Hnd2 by (by rewrite <- Hp).
  destruct (dict_get k l1) as [v|] eqn:E1.
  - symmetry. apply dict_get_nodup; [done|]. rewrite <- Hp. by apply dict_get_in.
  - destruct (dict_get k l2) as [v|] eqn:E2; [|done].
    apply dict_get_in in E2. rewrite <- Hp in E2. apply dict_get_nodup in E2; [congruence|done].
Qed.

Lemma dict_get_map {V W} (f : V -> W) k (l : list (pystr * V)) :
  dict_get k (map (fun kv => (kv.1, f kv.2)) l) = f <$> dict_get k l.
Proof. induction l as [|[k' v] l IH]; simpl; [done|]. by case_decide. Qed.

Lemma dict_set_nodup {V} k (v : V) l : NoDup l.*1 -> NoDup (dict_set k v l).*1.
Proof.
  induction l as [|[k' v'] l IH]; simpl; [intros _; apply NoDup_singleton|].
  rewrite NoDup_cons. intros [Hk Hnd]. case_decide; subst; simpl; rewrite NoDup_cons; [done|].
  split; [|auto]. intros Hin. apply Hk. clear -Hin H0.
  induction l as [|[k2 v2] l IH]; simpl in *.
  - apply list_elem_of_singleton in Hin. congruence.
  - case_decide; simpl in *; [done|]. rewrite elem_of_cons in *. tauto.
Qed.
End dynamic.
