(* ===== verification/ReceiptTruth.v ===== *)
(** * ReceiptTruth: [verifier_receipt_truth_contract.py]

    What a receipt must contain for a stage to be recorded as done, the
    completion evidence attached to it, and the check made before a stored
    receipt is used again. *)

From stdpp Require Import prelude gmap strings list sorting.
From S2P Require Import Prelude Text Json JsonStream JsonReader JsonParser JsonRoundtrip.
From S2P Require Import JsonCanonical Sha256 StdJson PyJson.

Open Scope Z_scope.
Open Scope py_scope.

(** The three verifier functions; [code_hash] is the digest of the bytecode of
    one of them ([marshal.dumps(function.__code__)]), a parameter. *)
Inductive evidence_function : Type := ValidationEvidence | BuildEvidence | PackageEvidence.

#[export] Instance evidence_function_eq_dec : EqDecision evidence_function.
Proof. solve_decision. Defined.

Class VerifierCode := { code_hash : evidence_function -> pystr }.

(** The columns of a task a receipt is checked against. *)
Record work_row `{PyFloat} : Type := WorkRow {
  wr_node_id : pystr; wr_stage : pystr; wr_input_hash : pystr; wr_payload : json
}.

Section truth.
Context `{PyFloat, PyUnicode, !PyRepr, VerifierCode}.

Definition evidence_schema : pystr := u "mmm/work-completion-evidence-v2".
Definition verifier_reuse_contract : pystr := u "mmm/verifier-reuse-contract-v1".
Definition evidence_key : pystr := u "_mmm_completion_evidence".

Definition evidence : Type := list (pystr * json).

Definition truth_error {A} (why : string) : res A := Err (VerifierReceiptTruthError why).

Definition canonical_hash (value : json) : res pystr :=
  match canonical_json value with
  | Ok t => sha256_text t
  | Err _ => truth_error "VERIFIER_CONFIG_INVALID"
  end.

Definition command_is_full_gradle_build (item : list (pystr * json)) : res bool :=
  if negb (is_zero (get item (u "exit_code"))) || is_true (get item (u "timed_out")) then Ok false
  else
    let* name := str_or_empty (get item (u "name")) in
    if bool_decide (name ∉ [u "build"; u "clean_build"; u "incremental_build"]) then Ok false
    else match get item (u "command") with
         | JArr argv => any_res (fun a => let* s := py_str a in Ok (bool_decide (s = u "build"))) argv
         | _ => Ok false
         end.

Definition commands_passed (build : list (pystr * json)) : res bool :=
  match get build (u "commands") with
  | JArr commands =>
      any_res (fun item => match item with
                           | JObj d => command_is_full_gradle_build d
                           | _ => Ok false
                           end) commands
  | _ => Ok false
  end.

Definition positive_int (j : json) : bool := match j with JInt z => 0 <? z | _ => false end.

Definition validation_evidence (stage : pystr) (receipt : list (pystr * json)) : res evidence :=
  let* s := str_or_empty (get receipt (u "status")) in
  let status := upper (strip s) in
  if bool_decide (status ∉ [u "PASS"; u "NOT_REQUIRED"])
  then truth_error "VERIFIER_RECEIPT_STATUS_INVALID"
  else if bool_decide (stage ∈ [u "validate:source"; u "validate:source-final"]) then
    let checks := get receipt (u "checks_run") in
    let* manifest := str_or_empty (get receipt (u "project_manifest")) in
    if negb (positive_int checks) || bool_decide (manifest = [])
    then truth_error "VERIFIER_RECEIPT_MISSING"
    else Ok [(u "verifier", JStr (u "source_validator")); (u "checks_run", checks);
             (u "project_manifest", JStr manifest)]
  else if decide (stage = u "validate:jar") then
    let checks := get receipt (u "checks_run") in
    let* jar_sha := str_or_empty (get receipt (u "jar_sha256")) in
    if negb (positive_int checks) || negb (starts_with (u "sha256:") jar_sha)
    then truth_error "VERIFIER_RECEIPT_MISSING"
    else Ok [(u "verifier", JStr (u "jar_validator")); (u "checks_run", checks);
             (u "artifact_sha256", JStr jar_sha)]
  else if decide (stage = u "validate:quality") then
    let* receipt_id := str_or_empty (get receipt (u "receipt_id")) in
    let* receipt_sha := str_or_empty (get receipt (u "receipt_sha256")) in
    let* dimension_id := str_or_empty (get receipt (u "dimension_id")) in
    if bool_decide (receipt_id = []) || bool_decide (dimension_id = []) ||
       negb (starts_with (u "sha256:") receipt_sha)
    then truth_error "VERIFIER_RECEIPT_MISSING"
    else Ok [(u "verifier", JStr (u "quality_contract")); (u "dimension_id", JStr dimension_id);
             (u "receipt_id", JStr receipt_id); (u "receipt_sha256", JStr receipt_sha)]
  else if decide (stage = u "validate:runtime") then
    if decide (status = u "NOT_REQUIRED")
    then Ok [(u "verifier", JStr (u "runtime_policy")); (u "status", JStr (u "NOT_REQUIRED"))]
    else
      let runtime := mapping (get receipt (u "runtime")) in
      let playtest := mapping (get receipt (u "playtest")) in
      let visual := mapping (get receipt (u "visual")) in
      let server := mapping (get runtime (u "server")) in
      let client := mapping (get runtime (u "client")) in
      if negb (is_true (get server (u "server_running")))
      then truth_error "VERIFIER_RECEIPT_MISSING"
      else if negb (bool_decide (client = [])) && negb (is_true (get client (u "client_running")))
      then truth_error "VERIFIER_RECEIPT_MISSING"
      else if negb (is_text (get playtest (u "status")) (u "PASS"))
      then truth_error "VERIFIER_RECEIPT_MISSING"
      else
        let* interactions := int_or_zero (get playtest (u "interaction_count")) in
        if interactions <=? 0 then truth_error "VERIFIER_RECEIPT_MISSING"
        else
          let* assertions := int_or_zero (get playtest (u "assertion_count")) in
          if assertions <=? 0 then truth_error "VERIFIER_RECEIPT_MISSING"
          else if negb (is_text (get visual (u "status")) (u "PASS"))
          then truth_error "VERIFIER_RECEIPT_MISSING"
          else Ok [(u "verifier", JStr (u "runtime_playtest_visual"));
                   (u "server_running", JBool true);
                   (u "client_verified", JBool (negb (bool_decide (client = []))));
                   (u "interaction_count", JInt interactions);
                   (u "assertion_count", JInt assertions)]
  else truth_error "VERIFIER_RECEIPT_UNSUPPORTED_STAGE".

Definition build_evidence (node_id : pystr) (receipt : list (pystr * json)) : res evidence :=
  if decide (node_id <> u "build-project") then truth_error "VERIFIER_RECEIPT_UNSUPPORTED_BUILD_NODE"
  else
    let build := mapping (get receipt (u "build")) in
    let final := mapping (get receipt (u "final_build_receipt")) in
    let artifact := mapping (get build (u "artifact_receipt")) in
    let* passed := (if is_text (get build (u "status")) (u "PASS") then commands_passed build
                    else Ok false) in
    if negb passed then truth_error "VERIFIER_RECEIPT_MISSING"
    else if negb (is_text (get final (u "status")) (u "PASS")) ||
            negb (is_text (get final (u "production_jar")) (u "PASS"))
    then truth_error "VERIFIER_RECEIPT_MISSING"
    else
      let* artifact_sha :=
        str_or_empty (if truthy (get artifact (u "sha256")) then get artifact (u "sha256")
                      else get final (u "artifact_sha256")) in
      if negb (starts_with (u "sha256:") artifact_sha) then truth_error "VERIFIER_RECEIPT_MISSING"
      else Ok [(u "verifier", JStr (u "gradle_and_final_artifact"));
               (u "artifact_sha256", JStr artifact_sha);
               (u "toolchain_attested", JBool (is_true (get final (u "toolchain_attested"))))].

Definition is_gate_name (j : json) : bool :=
  match j with JStr s => negb (bool_decide (strip s = [])) | _ => false end.

Definition package_evidence (node_id : pystr) (receipt : list (pystr * json)) : res evidence :=
  if decide (node_id = u "package-build-artifact") then
    let* b := str_or_empty (get receipt (u "build_bundle_zip")) in
    let bundle := strip b in
    let release_ready := get receipt (u "release_ready") in
    let unresolved := get receipt (u "unresolved_gates") in
    let* s := str_or_empty (get receipt (u "status")) in
    match release_ready, unresolved with
    | JBool ready, JArr gates =>
        if bool_decide (upper s <> u "PASS") || bool_decide (bundle = []) ||
           negb (forallb is_gate_name gates) || (ready && negb (bool_decide (gates = [])))
        then truth_error "VERIFIER_RECEIPT_MISSING"
        else Ok [(u "verifier", JStr (u "package_phase")); (u "status", JStr (u "PASS"));
                 (u "build_bundle_zip", JStr bundle); (u "release_ready", release_ready);
                 (u "unresolved_gates", unresolved)]
    | _, _ => truth_error "VERIFIER_RECEIPT_MISSING"
    end
  else if decide (node_id <> u "package-release")
  then truth_error "VERIFIER_RECEIPT_UNSUPPORTED_PACKAGE_NODE"
  else
    let* release_zip := str_or_empty (get receipt (u "release_zip")) in
    let* s := str_or_empty (get receipt (u "status")) in
    if bool_decide (upper s <> u "PASS") || bool_decide (release_zip = [])
    then truth_error "VERIFIER_RECEIPT_MISSING"
    else Ok [(u "verifier", JStr (u "release_package")); (u "release_zip", JStr release_zip)].

Definition verifier_implementation_hash (verifier : pystr) : res pystr :=
  let* function :=
    if bool_decide (verifier ∈ [u "source_validator"; u "jar_validator"; u "quality_contract";
                                u "runtime_policy"; u "runtime_playtest_visual"])
    then Ok ValidationEvidence
    else if decide (verifier = u "gradle_and_final_artifact") then Ok BuildEvidence
    else if bool_decide (verifier ∈ [u "package_phase"; u "release_package"]) then Ok PackageEvidence
    else truth_error "VERIFIER_ID_UNKNOWN" in
  canonical_hash (JObj [(u "contract", JStr verifier_reuse_contract); (u "verifier", JStr verifier);
                        (u "implementation_code_hash", JStr (u "sha256:" ++ code_hash function))]).

Definition stage_evidence (stage node_id : pystr) (receipt : list (pystr * json)) : res evidence :=
  let phase_only := [(u "completion_scope", JStr (u "phase_only")); (u "verifier", JNull)] in
  let verified := (u "completion_scope", JStr (u "verified_stage")) in
  let packaging := (u "completion_scope", JStr (u "packaging_stage")) in
  if starts_with (u "generate:") stage then Ok phase_only
  else if starts_with (u "validate:") stage then
    let* e := validation_evidence stage receipt in Ok (dict_update [verified] e)
  else if decide (stage = u "build") then
    let* e := build_evidence node_id receipt in Ok (dict_update [verified] e)
  else if starts_with (u "package") stage then
    let* e := package_evidence node_id receipt in Ok (dict_update [packaging] e)
  else Ok phase_only.

Definition completion_evidence (row : work_row) (receipt : list (pystr * json)) : res evidence :=
  let* e := stage_evidence (wr_stage row) (wr_node_id row) receipt in
  let result :=
    dict_update [(u "schema_version", JStr evidence_schema); (u "node_id", JStr (wr_node_id row));
                 (u "stage", JStr (wr_stage row)); (u "input_hash", JStr (wr_input_hash row))] e in
  let verifier := get e (u "verifier") in
  if truthy verifier then
    let* payload := match wr_payload row with
                    | JNull => Ok []
                    | JObj d => Ok d
                    | _ => truth_error "VERIFIER_CONFIG_INVALID"
                    end in
    let* v := py_str verifier in
    let* version := verifier_implementation_hash v in
    let* config := canonical_hash (JObj [(u "stage", JStr (wr_stage row)); (u "payload", JObj payload)]) in
    Ok (dict_update result [(u "verifier_input_hash", JStr (wr_input_hash row));
                            (u "verifier_version_hash", JStr version);
                            (u "verifier_config_hash", JStr config)])
  else Ok result.

(** [existing.get(key) == expected.get(key)]: what is expected is a string or
    absent. *)
Definition same_field (existing expected : evidence) (key : pystr) : bool :=
  match get existing key, get expected key with
  | JStr s, JStr t => bool_decide (s = t)
  | JNull, JNull => true
  | _, _ => false
  end.

Definition reuse_fields : list pystr :=
  [u "schema_version"; u "completion_scope"; u "verifier"; u "verifier_input_hash";
   u "verifier_version_hash"; u "verifier_config_hash"].

Definition assert_reusable (expected existing : evidence) : res unit :=
  if negb (same_field existing expected (u "input_hash")) ||
     negb (same_field existing expected (u "stage"))
  then truth_error "VERIFIER_RECEIPT_STALE"
  else match get expected (u "verifier") with
       | JNull => Ok tt
       | _ =>
           if negb (forallb (same_field existing expected) reuse_fields)
           then truth_error "VERIFIER_RECEIPT_STALE"
           else
             let* h1 := canonical_hash (JObj existing) in
             let* h2 := canonical_hash (JObj expected) in
             if decide (h1 = h2) then Ok tt else truth_error "VERIFIER_RECEIPT_STALE"
       end.

Definition validate_arguments (row : work_row) (receipt : json) : res (list (pystr * json)) :=
  match receipt with
  | JObj d => if decide (wr_input_hash row = []) then truth_error "VERIFIER_INPUT_HASH_MISSING" else Ok d
  | _ => truth_error "VERIFIER_RECEIPT_INVALID"
  end.

Definition decorate_receipt (row : work_row) (receipt : json) : res json :=
  let* result := validate_arguments row receipt in
  let* expected := completion_evidence row result in
  match get result evidence_key with
  | JNull =>
      match get expected (u "verifier") with
      | JNull => Ok (JObj result)
      | _ => Ok (JObj (dict_set evidence_key (JObj expected) result))
      end
  | existing => let* _ := assert_reusable expected (mapping existing) in Ok (JObj result)
  end.

Definition assert_receipt_reusable (row : work_row) (receipt : json) : res json :=
  let* result := validate_arguments row receipt in
  let* expected := completion_evidence row result in
  match get result evidence_key with
  | JNull =>
      match get expected (u "verifier") with
      | JNull => Ok (JObj result)
      | _ => truth_error "VERIFIER_RECEIPT_STALE"
      end
  | existing => let* _ := assert_reusable expected (mapping existing) in Ok (JObj result)
  end.
End truth.
