(* ===== verification/ReceiptReuse.v ===== *)
(** * ReceiptReuse: a receipt that was accepted stays acceptable

    The ledger stores the canonical text of a decorated receipt and checks it
    again, with its keys in order, each time it is read.  The evidence does not
    depend on the order of the keys, so the check succeeds on what was stored;
    and what the check accepts has the evidence its stage requires. *)

From stdpp Require Import prelude gmap strings list sorting.
From S2P Require Import Prelude Text Json JsonStream JsonReader JsonParser JsonRoundtrip.
From S2P Require Import JsonCanonical Sha256 StdJson PyJson ReceiptTruth.

Open Scope Z_scope.
Open Scope py_scope.

Section reuse.
Context `{PyFloat, PyUnicode, !PyRepr, VerifierCode}.

(** The members of a dictionary after a round trip through the database. *)
Definition sorted_members (d : list (pystr * json)) : list (pystr * json) :=
  sort_items (map (fun kv => (kv.1, json_sorted kv.2)) d).

Definition scalar (j : json) : bool := match j with JArr _ | JObj _ => false | _ => true end.

Definition name_fields : list pystr :=
  [u "status"; u "project_manifest"; u "jar_sha256"; u "receipt_id"; u "receipt_sha256";
   u "dimension_id"; u "build_bundle_zip"; u "release_zip"].

Definition plain_command (item : json) : bool :=
  scalar (get (mapping item) (u "name")) &&
  match get (mapping item) (u "command") with JArr argv => forallb scalar argv | _ => true end.

(** No list or dictionary where a name is expected: [str] of those shows the
    order of the keys. *)
Definition plain_receipt (d : list (pystr * json)) : bool :=
  let build := mapping (get d (u "build")) in
  forallb (fun k => scalar (get d k)) name_fields &&
  scalar (get (mapping (get build (u "artifact_receipt"))) (u "sha256")) &&
  scalar (get (mapping (get d (u "final_build_receipt"))) (u "artifact_sha256")) &&
  match get build (u "commands") with JArr items => forallb plain_command items | _ => true end.

(** ** Sorting the keys does not change what is read *)

Lemma get_sorted d k : NoDup d.*1 -> get (sorted_members d) k = json_sorted (get d k).
Proof.
  intros Hnd. unfold get, sorted_members. rewrite sort_items_map, dict_get_map.
  rewrite <- (dict_get_perm k d) by (done || by rewrite sort_items_perm).
  by destruct (dict_get k d).
Qed.

Lemma get_wf d k : std_wf (JObj d) = true -> std_wf (get d k) = true.
Proof.
  simpl. rewrite andb_true_iff, forallb_forall. intros [_ Hd]. unfold get.
  destruct (dict_get k d) as [v|] eqn:E; [|done].
  apply dict_get_in, list_elem_of_In, Hd in E. by apply andb_true_iff in E as [_ ?].
Qed.

Lemma mapping_wf j : std_wf j = true -> std_wf (JObj (mapping j)) = true.
Proof. by destruct j. Qed.

Lemma wf_nodup d : std_wf (JObj d) = true -> NoDup d.*1.
Proof. simpl. rewrite andb_true_iff, bool_decide_eq_true. tauto. Qed.

Lemma mapping_sorted j : mapping (json_sorted j) = sorted_members (mapping j).
Proof. by destruct j. Qed.

Lemma sorted_members_nil d : sorted_members d = [] <-> d = [].
Proof.
  unfold sorted_members. rewrite sort_items_map. split; [|by intros ->].
  intros Hd. apply fmap_nil_inv in Hd. pose proof (sort_items_perm d) as Hp.
  rewrite Hd in Hp. by apply Permutation_nil_l in Hp.
Qed.

Lemma truthy_sorted j : truthy (json_sorted j) = truthy j.
Proof.
  destruct j as [| | | | |l|l]; simpl; try done; [by destruct l|].
  pose proof (sorted_members_nil l) as Hn. unfold sorted_members in Hn.
  destruct (sort_items _), l; try done; exfalso; naive_solver.
Qed.

Lemma scalar_sorted j : scalar j = true -> json_sorted j = j.
Proof. by destruct j. Qed.

Lemma is_text_sorted j s : is_text (json_sorted j) s = is_text j s.
Proof. by destruct j. Qed.
Lemma is_true_sorted j : is_true (json_sorted j) = is_true j.
Proof. by destruct j. Qed.
Lemma is_zero_sorted j : is_zero (json_sorted j) = is_zero j.
Proof. by destruct j. Qed.
Lemma positive_int_sorted j : positive_int (json_sorted j) = positive_int j.
Proof. by destruct j. Qed.
Lemma int_or_zero_sorted j : int_or_zero (json_sorted j) = int_or_zero j.
Proof. unfold int_or_zero. rewrite truthy_sorted. by destruct j. Qed.

Lemma any_res_ext {A B} (f : A -> res bool) (g : B -> res bool) (h : A -> B) l :
  (forall a, a ∈ l -> g (h a) = f a) -> any_res g (map h l) = any_res f l.
Proof.
  induction l as [|a l IH]; simpl; [done|]. intros Hfg.
  rewrite Hfg by left. destruct (f a) as [[]|]; simpl; [done| |done].
  apply IH. intros b Hb. apply Hfg. by right.
Qed.

Lemma command_sorted item :
  std_wf item = true -> plain_command item = true ->
  command_is_full_gradle_build (sorted_members (mapping item)) =
  command_is_full_gradle_build (mapping item).
Proof.
  intros Hwf. unfold plain_command. rewrite andb_true_iff. intros [Hn Ha].
  pose proof (wf_nodup _ (mapping_wf _ Hwf)) as Hnd.
  unfold command_is_full_gradle_build. rewrite !get_sorted, is_zero_sorted, is_true_sorted by done.
  rewrite (scalar_sorted _ Hn). destruct (negb _ || _); [done|].
  destruct (str_or_empty _) as [name|]; simpl; [|done]. destruct (bool_decide (name ∉ _)); [done|].
  destruct (get (mapping item) (u "command")) as [| | | | |argv|]; try done. simpl.
  apply any_res_ext. intros a Hin. rewrite forallb_forall in Ha.
  rewrite scalar_sorted; [done|]. by apply Ha, list_elem_of_In.
Qed.

Lemma commands_sorted build :
  std_wf (JObj build) = true ->
  match get build (u "commands") with JArr items => forallb plain_command items | _ => true end = true ->
  commands_passed (sorted_members build) = commands_passed build.
Proof.
  intros Hwf Hp. unfold commands_passed. rewrite get_sorted by by apply wf_nodup.
  pose proof (get_wf build (u "commands") Hwf) as Hc.
  destruct (get build (u "commands")) as [| | | | |items|]; try done.
  cbn [json_sorted std_wf] in *. apply any_res_ext. intros item Hin.
  apply list_elem_of_In in Hin. rewrite forallb_forall in Hc, Hp.
  specialize (Hc _ Hin). specialize (Hp _ Hin).
  destruct item as [| | | | | |d]; try done. exact (command_sorted (JObj d) Hc Hp).
Qed.

(** ** The evidence only reads the receipt through its keys *)

Lemma validation_sorted stage d :
  std_wf (JObj d) = true -> plain_receipt d = true ->
  validation_evidence stage (sorted_members d) = validation_evidence stage d.
Proof.
  intros Hwf Hp. pose proof (wf_nodup _ Hwf) as Hnd.
  assert (Hnames : forall k, k ∈ name_fields -> json_sorted (get d k) = get d k).
  { intros k Hk. apply scalar_sorted. unfold plain_receipt in Hp. rewrite !andb_true_iff in Hp.
    destruct Hp as [[[Hp _] _] _]. rewrite forallb_forall in Hp. by apply Hp, list_elem_of_In. }
  assert (Hsub : forall k, NoDup (mapping (get d k)).*1) by
    (intros k; by apply wf_nodup, mapping_wf, get_wf).
  unfold validation_evidence. rewrite !(get_sorted d) by done.
  rewrite (Hnames (u "status")), (Hnames (u "project_manifest")), (Hnames (u "jar_sha256")),
    (Hnames (u "receipt_id")), (Hnames (u "receipt_sha256")), (Hnames (u "dimension_id"))
    by (unfold name_fields; set_solver).
  rewrite !mapping_sorted, positive_int_sorted.
  assert (Hck : positive_int (get d (u "checks_run")) = true ->
    json_sorted (get d (u "checks_run")) = get d (u "checks_run")) by (by destruct (get d _)).
  destruct (str_or_empty (get d (u "status"))) as [s|]; cbn [res_bind]; [|done]. cbv zeta.
  destruct (bool_decide (upper (strip s) ∉ _)); [done|].
  destruct (bool_decide (stage ∈ _)).
  { destruct (str_or_empty (get d (u "project_manifest"))) as [m|]; cbn [res_bind]; [|done].
    destruct (positive_int (get d (u "checks_run"))); simpl negb; [by rewrite Hck|done]. }
  destruct (decide (stage = u "validate:jar")).
  { destruct (str_or_empty (get d (u "jar_sha256"))) as [m|]; cbn [res_bind]; [|done].
    destruct (positive_int (get d (u "checks_run"))); simpl negb; [by rewrite Hck|done]. }
  destruct (decide (stage = u "validate:quality")); [done|].
  destruct (decide (stage = u "validate:runtime")); [|done].
  destruct (decide (upper (strip s) = _)); [done|].
  pose proof (fun k => mapping_wf _ (get_wf _ k (mapping_wf _ (get_wf _ (u "runtime") Hwf)))) as Hrt.
  rewrite !(get_sorted (mapping (get d _))) by done.
  rewrite !mapping_sorted, !(get_sorted (mapping (get (mapping (get d (u "runtime"))) _)))
    by (by apply wf_nodup).
  rewrite !is_true_sorted, !is_text_sorted, !int_or_zero_sorted.
  assert (bool_decide (sorted_members (mapping (get (mapping (get d (u "runtime"))) (u "client"))) = []) =
          bool_decide (mapping (get (mapping (get d (u "runtime"))) (u "client")) = [])) as ->
    by (apply bool_decide_ext, sorted_members_nil).
  done.
Qed.

Lemma build_sorted node_id d :
  std_wf (JObj d) = true -> plain_receipt d = true ->
  build_evidence node_id (sorted_members d) = build_evidence node_id d.
Proof.
  intros Hwf Hp. pose proof (wf_nodup _ Hwf) as Hnd. unfold plain_receipt in Hp.
  rewrite !andb_true_iff in Hp. destruct Hp as [[[_ Ha] Hf] Hc].
  pose proof (fun k => mapping_wf _ (get_wf _ k Hwf)) as Hsub.
  pose proof (fun k => wf_nodup _ (Hsub k)) as Hsubn.
  unfold build_evidence. case_decide; [done|]. cbv zeta.
  rewrite !(get_sorted d), !mapping_sorted by done.
  rewrite !(get_sorted (mapping (get d _))), !mapping_sorted by done.
  rewrite !(get_sorted (mapping (get (mapping (get d _)) _)))
    by (apply wf_nodup, mapping_wf, get_wf, Hsub).
  rewrite !is_text_sorted, commands_sorted, is_true_sorted, truthy_sorted by (done || apply Hsub).
  destruct (if is_text _ _ then _ else _) as [passed|]; cbn [res_bind]; [|done].
  destruct passed; simpl negb; [|done]. destruct (_ || _); [done|].
  rewrite (scalar_sorted _ Ha), (scalar_sorted _ Hf). done.
Qed.

Lemma package_sorted node_id d :
  std_wf (JObj d) = true -> plain_receipt d = true ->
  package_evidence node_id (sorted_members d) = package_evidence node_id d.
Proof.
  intros Hwf Hp. pose proof (wf_nodup _ Hwf) as Hnd.
  assert (Hnames : forall k, k ∈ name_fields -> json_sorted (get d k) = get d k).
  { intros k Hk. apply scalar_sorted. unfold plain_receipt in Hp. rewrite !andb_true_iff in Hp.
    destruct Hp as [[[Hp _] _] _]. rewrite forallb_forall in Hp. by apply Hp, list_elem_of_In. }
  unfold package_evidence. rewrite !(get_sorted d) by done.
  rewrite !(Hnames (u "status")), (Hnames (u "build_bundle_zip")), (Hnames (u "release_zip"))
    by (unfold name_fields; set_solver).
  case_decide; [|done].
  destruct (str_or_empty (get d (u "build_bundle_zip"))) as [b|]; cbn [res_bind]; [|done].
  destruct (str_or_empty (get d (u "status"))) as [s|]; cbn [res_bind]; [|done].
  destruct (get d (u "release_ready")) as [|ready| | | | |]; try done. cbn [json_sorted].
  destruct (get d (u "unresolved_gates")) as [| | | | |gates|]; try done. cbn [json_sorted].
  destruct (forallb is_gate_name gates) eqn:Eg.
  - assert (map json_sorted gates = gates) as ->; [|by rewrite Eg].
    clear -Eg. induction gates as [|g gates IH]; simpl in *; [done|].
    apply andb_true_iff in Eg as [Hg Eg]. f_equal; [by destruct g|auto].
  - assert (forallb is_gate_name (map json_sorted gates) = false) as ->; [|by rewrite !orb_true_r].
    rewrite <- Eg. clear. induction gates as [|g gates IH]; simpl; [done|]. rewrite IH. by destruct g.
Qed.

Lemma stage_evidence_sorted stage node_id d :
  std_wf (JObj d) = true -> plain_receipt d = true ->
  stage_evidence stage node_id (sorted_members d) = stage_evidence stage node_id d.
Proof.
  intros Hwf Hp. unfold stage_evidence.
  by rewrite validation_sorted, build_sorted, package_sorted by done.
Qed.

Lemma completion_evidence_sorted row d :
  std_wf (JObj d) = true -> plain_receipt d = true ->
  completion_evidence row (sorted_members d) = completion_evidence row d.
Proof. intros Hwf Hp. unfold completion_evidence. by rewrite stage_evidence_sorted by done. Qed.

(** ** The evidence attached to a receipt does not change the evidence *)

Ltac distinct_keys := by (let Hx := fresh in intros Hx; vm_compute in Hx; discriminate Hx).

Lemma get_decorated d x k : k <> evidence_key -> get (dict_set evidence_key x d) k = get d k.
Proof. intros Hk. unfold get. by rewrite dict_get_set_ne. Qed.

Lemma stage_evidence_decorated stage node_id d x :
  stage_evidence stage node_id (dict_set evidence_key x d) = stage_evidence stage node_id d.
Proof.
  unfold stage_evidence, validation_evidence, build_evidence, package_evidence. cbv zeta.
  by rewrite !get_decorated by distinct_keys.
Qed.

Lemma completion_evidence_decorated row d x :
  completion_evidence row (dict_set evidence_key x d) = completion_evidence row d.
Proof. unfold completion_evidence. by rewrite stage_evidence_decorated. Qed.

Lemma plain_decorated d x : plain_receipt (dict_set evidence_key x d) = plain_receipt d.
Proof.
  unfold plain_receipt, name_fields. cbv zeta. cbn [forallb].
  by rewrite !get_decorated by distinct_keys.
Qed.

(** ** Comparing evidence with itself *)

Lemma same_field_sorted existing expected k :
  NoDup existing.*1 -> same_field (sorted_members existing) expected k = same_field existing expected k.
Proof. intros Hnd. unfold same_field. rewrite get_sorted by done. by destruct (get existing k). Qed.

Lemma assert_reusable_sorted expected existing :
  std_wf (JObj existing) = true ->
  assert_reusable expected (sorted_members existing) = assert_reusable expected existing.
Proof.
  intros Hwf. pose proof (wf_nodup _ Hwf) as Hnd. unfold assert_reusable.
  assert (forallb (same_field (sorted_members existing) expected) reuse_fields =
          forallb (same_field existing expected) reuse_fields) as ->.
  { induction reuse_fields as [|k ks IH]; simpl; [done|]. by rewrite same_field_sorted, IH. }
  rewrite !same_field_sorted by done.
  assert (canonical_hash (JObj (sorted_members existing)) = canonical_hash (JObj existing)) as ->; [|done].
  unfold canonical_hash. change (JObj (sorted_members existing)) with (json_sorted (JObj existing)).
  by rewrite canonical_json_sorted.
Qed.

Definition text_field (e : evidence) (k : pystr) : Prop := get e k = JNull \/ exists s, get e k = JStr s.

Lemma same_field_refl e k : text_field e k -> same_field e e k = true.
Proof. unfold same_field. intros [->|[s ->]]; [done|]. by apply bool_decide_true. Qed.

Lemma canonical_hash_total `{!PyFloatLaws} j : wf_json j = true -> exists h, canonical_hash j = Ok h.
Proof.
  intros Hwf. unfold canonical_hash. rewrite canonical_json_agrees by done.
  destruct (json_canonical_total j Hwf) as (t & -> & Ht).
  unfold sha256_text, utf8_encode, scalar_string in *. rewrite Ht. by eexists.
Qed.

(** Every field that is compared is a string or [None]. *)
Definition textual (j : json) : bool := match j with JNull | JStr _ => true | _ => false end.

Definition compared_fields : list pystr := u "input_hash" :: u "stage" :: reuse_fields.

Definition texty (e : evidence) : bool :=
  forallb (fun kv => negb (bool_decide (kv.1 ∈ compared_fields)) || textual kv.2) e.

Lemma texty_set k v e :
  texty e = true -> textual v = true -> texty (dict_set k v e) = true.
Proof.
  unfold texty. intros He Hv. induction e as [|[k' v'] e IH]; simpl in *; [by rewrite Hv, orb_true_r|].
  apply andb_true_iff in He as [Hk He]. destruct (decide (k = k')); simpl; apply andb_true_iff; split; auto.
  by rewrite Hv, orb_true_r.
Qed.

Lemma texty_update a b : texty a = true -> texty b = true -> texty (dict_update a b) = true.
Proof.
  unfold dict_update. revert a; induction b as [|[k v] b IH]; simpl; [done|].
  intros a Ha [Hk Hb]%andb_true_iff. apply IH; [|done].
  clear -Ha Hk. unfold texty in *. induction a as [|[k' v'] a IH]; simpl in *; [by rewrite Hk|].
  apply andb_true_iff in Ha as [Hk' Ha]. destruct (decide (k = k')); subst; simpl; apply andb_true_iff; split; auto.
Qed.

Lemma texty_field e k : texty e = true -> k ∈ compared_fields -> text_field e k.
Proof.
  intros He Hk. unfold text_field, get. destruct (dict_get k e) as [v|] eqn:E; [|by left].
  apply dict_get_in in E. unfold texty in He. rewrite forallb_forall in He.
  apply list_elem_of_In, He in E. simpl in E. rewrite bool_decide_true in E by done.
  destruct v; try done; [by left|right; by eexists].
Qed.

(** Follows every path of an evidence function to the dictionary it returns. *)
Ltac evidence_paths He :=
  repeat (first [progress case_hyp He | rewrite res_bind_ok in He; destruct He as (? & _ & He)]);
  try done; injection He as <-.

Lemma validation_texty stage d e : validation_evidence stage d = Ok e -> texty e = true.
Proof. unfold validation_evidence. intros He. by evidence_paths He; vm_compute. Qed.

Lemma build_texty node_id d e : build_evidence node_id d = Ok e -> texty e = true.
Proof. unfold build_evidence. intros He. by evidence_paths He; vm_compute. Qed.

Lemma package_texty node_id d e : package_evidence node_id d = Ok e -> texty e = true.
Proof. unfold package_evidence. intros He. by evidence_paths He; vm_compute. Qed.

Lemma stage_texty stage node_id d e : stage_evidence stage node_id d = Ok e -> texty e = true.
Proof.
  unfold stage_evidence. cbv zeta. intros He.
  destruct (starts_with _ stage); [by injection He as <-|].
  destruct (starts_with _ stage).
  { rewrite res_bind_ok in He. destruct He as (e' & He' & He). injection He as <-.
    apply texty_update; [done|by eapply validation_texty]. }
  destruct (decide _).
  { rewrite res_bind_ok in He. destruct He as (e' & He' & He). injection He as <-.
    apply texty_update; [done|by eapply build_texty]. }
  destruct (starts_with _ stage); [|by injection He as <-].
  rewrite res_bind_ok in He. destruct He as (e' & He' & He). injection He as <-.
  apply texty_update; [done|by eapply package_texty].
Qed.

Lemma completion_texty row d e : completion_evidence row d = Ok e -> texty e = true.
Proof.
  unfold completion_evidence. rewrite res_bind_ok. intros (se & Hse & He). apply stage_texty in Hse.
  assert (texty (dict_update [(u "schema_version", JStr evidence_schema);
    (u "node_id", JStr (wr_node_id row)); (u "stage", JStr (wr_stage row));
    (u "input_hash", JStr (wr_input_hash row))] se) = true) as Hbase by (by apply texty_update).
  cbv zeta in He. destruct (truthy _); [|by injection He as <-].
  rewrite res_bind_ok in He. destruct He as (payload & _ & He).
  rewrite res_bind_ok in He. destruct He as (v & _ & He).
  rewrite res_bind_ok in He. destruct He as (version & _ & He).
  rewrite res_bind_ok in He. destruct He as (config & _ & He). injection He as <-.
  by repeat (apply texty_set; [|done]).
Qed.

Lemma assert_reusable_refl `{!PyFloatLaws} e :
  texty e = true -> wf_json (JObj e) = true -> assert_reusable e e = Ok tt.
Proof.
  intros Ht Hwf. unfold assert_reusable.
  assert (Hf : forall k, k ∈ compared_fields -> same_field e e k = true)
    by (intros k Hk; by apply same_field_refl, texty_field).
  rewrite !Hf by (unfold compared_fields; set_solver). simpl orb. cbn iota.
  assert (forallb (same_field e e) reuse_fields = true) as ->.
  { apply forallb_forall. intros k Hk%list_elem_of_In. apply Hf. unfold compared_fields.
    rewrite !elem_of_cons. auto. }
  destruct (canonical_hash_total _ Hwf) as [hash ->]. simpl. rewrite decide_True by done.
  by case_match.
Qed.

(** ** The theorems *)

Lemma decorate_object row r r' :
  decorate_receipt row r = Ok r' -> exists d, r = JObj d /\ exists d', r' = JObj d'.
Proof.
  unfold decorate_receipt, validate_arguments. destruct r as [| | | | | |d]; simpl; try done.
  case_decide; simpl; [done|]. rewrite res_bind_ok. intros (e & _ & Hr). exists d. split; [done|].
  destruct (get d evidence_key); [case_match; injection Hr as <-; by eexists|..];
    rewrite res_bind_ok in Hr; destruct Hr as (_ & _ & Hr); injection Hr as <-; by eexists.
Qed.

(** What a read checks, in terms of the members as they were before sorting. *)
Lemma read_sorted row d e :
  wr_input_hash row <> [] -> std_wf (JObj d) = true -> plain_receipt d = true ->
  completion_evidence row d = Ok e ->
  assert_receipt_reusable row (JObj (sorted_members d)) =
  match get d evidence_key with
  | JNull => match get e (u "verifier") with
             | JNull => Ok (JObj (sorted_members d)) | _ => truth_error "VERIFIER_RECEIPT_STALE" end
  | existing => let* _ := assert_reusable e (mapping existing) in Ok (JObj (sorted_members d))
  end.
Proof.
  intros Hih Hwf Hp He. unfold assert_receipt_reusable, validate_arguments.
  rewrite decide_False by done. cbn [res_bind].
  rewrite completion_evidence_sorted, He, get_sorted by (done || by apply wf_nodup). cbn [res_bind].
  pose proof (get_wf d evidence_key Hwf) as Hx.
  destruct (get d evidence_key) as [| | | | | |existing]; try done.
  cbn [json_sorted mapping]. fold (sorted_members existing). by rewrite assert_reusable_sorted.
Qed.

Lemma decorated_evidence_wf d e :
  wf_json (JObj (dict_set evidence_key (JObj e) d)) = true -> wf_json (JObj e) = true.
Proof.
  intros Hwf. cbn [wf_json] in Hwf. apply andb_true_iff in Hwf as [_ Hwf].
  rewrite forallb_forall in Hwf. specialize (Hwf (evidence_key, JObj e)).
  apply andb_true_iff in Hwf as [_ Hwf]; [exact Hwf|].
  apply list_elem_of_In, dict_get_in, dict_get_set_eq.
Qed.

(** A receipt the ledger has decorated and stored is accepted when it is read
    back with its keys in order, under the same verifiers. *)
Theorem decorated_receipt_reusable `{!PyFloatLaws} row d r' :
  decorate_receipt row (JObj d) = Ok r' -> wf_json r' = true -> plain_receipt d = true ->
  assert_receipt_reusable row (json_sorted r') = Ok (json_sorted r').
Proof.
  unfold decorate_receipt. simpl validate_arguments.
  destruct (decide (wr_input_hash row = [])) as [|Hih]; [done|]. cbn [res_bind].
  rewrite res_bind_ok. intros (e & He & Hr) Hwf Hp.
  assert (Hsame : r' = JObj d -> match get d evidence_key with
      | JNull => get e (u "verifier") = JNull
      | existing => assert_reusable e (mapping existing) = Ok tt end ->
    assert_receipt_reusable row (json_sorted r') = Ok (json_sorted r')).
  { intros -> Ha. apply wf_json_std in Hwf. change (json_sorted (JObj d)) with (JObj (sorted_members d)).
    rewrite (read_sorted row d e) by done. destruct (get d evidence_key); by rewrite Ha. }
  destruct (get d evidence_key) eqn:Eg.
  2-7: rewrite res_bind_ok in Hr; destruct Hr as ([] & Ha & Hr); injection Hr as <-; by apply Hsame.
  destruct (get e (u "verifier")) eqn:Ev; injection Hr as <-; [by apply Hsame|..].
  all: change (json_sorted (JObj (dict_set evidence_key (JObj e) d)))
         with (JObj (sorted_members (dict_set evidence_key (JObj e) d))).
  all: rewrite (read_sorted row _ e); [|done|by apply wf_json_std|by rewrite plain_decorated
                                       |by rewrite completion_evidence_decorated].
  all: unfold get at 1; rewrite dict_get_set_eq; cbn [mapping].
  all: by rewrite assert_reusable_refl by (by eapply completion_texty || by eapply decorated_evidence_wf).
Qed.

(** The stages whose receipts must carry evidence. *)
Definition verified_stage (stage : pystr) : bool :=
  negb (starts_with (u "generate:") stage) &&
  (starts_with (u "validate:") stage || bool_decide (stage = u "build") ||
   starts_with (u "package") stage).

Lemma validation_verifier stage d e :
  validation_evidence stage d = Ok e -> forall sc, exists v, v <> [] /\
    get (dict_update [(u "completion_scope", sc)] e) (u "verifier") = JStr v.
Proof.
  unfold validation_evidence. intros He sc.
  evidence_paths He; eexists; (split; [|vm_compute; reflexivity]); done.
Qed.

Lemma build_verifier node_id d e :
  build_evidence node_id d = Ok e -> forall sc, exists v, v <> [] /\
    get (dict_update [(u "completion_scope", sc)] e) (u "verifier") = JStr v.
Proof.
  unfold build_evidence. intros He sc.
  evidence_paths He; eexists; (split; [|vm_compute; reflexivity]); done.
Qed.

Lemma package_verifier node_id d e :
  package_evidence node_id d = Ok e -> forall sc, exists v, v <> [] /\
    get (dict_update [(u "completion_scope", sc)] e) (u "verifier") = JStr v.
Proof.
  unfold package_evidence. intros He sc.
  evidence_paths He; eexists; (split; [|vm_compute; reflexivity]); done.
Qed.

Lemma dict_update_nodup a b : NoDup a.*1 -> NoDup (dict_update a b).*1.
Proof.
  unfold dict_update. revert a; induction b as [|[k v] b IH]; intros a Ha; simpl; [done|].
  by apply IH, dict_set_nodup.
Qed.

Lemma dict_update_get a b k (v : json) :
  NoDup b.*1 -> dict_get k b = Some v -> dict_get k (dict_update a b) = Some v.
Proof.
  unfold dict_update. revert a; induction b as [|[k' v'] b IH]; intros a; simpl; [done|].
  rewrite NoDup_cons. intros [Hk Hnd]. case_decide; subst; [|by apply IH].
  intros [= ->]. clear IH.
  assert (forall a, dict_get k' (fold_left (fun d kv => dict_set kv.1 kv.2 d) b a) = dict_get k' a) as Hb.
  { clear Hnd a. induction b as [|[k2 v2] b IH]; intros a; simpl in *; [done|].
    apply not_elem_of_cons in Hk as [Hne Hk]. rewrite IH by done. by apply dict_get_set_ne. }
  rewrite Hb. apply dict_get_set_eq.
Qed.

Lemma get_text d k s : get d k = JStr s -> dict_get k d = Some (JStr s).
Proof. unfold get. by destruct (dict_get k d); [intros ->|]. Qed.

Lemma stage_verifier stage node_id d e :
  verified_stage stage = true -> stage_evidence stage node_id d = Ok e ->
  NoDup e.*1 /\ exists v, v <> [] /\ get e (u "verifier") = JStr v.
Proof.
  unfold verified_stage, stage_evidence. cbv zeta. destruct (starts_with (u "generate:") stage); [done|].
  cbn [negb andb]. intros Hv He. destruct (starts_with (u "validate:") stage).
  { rewrite res_bind_ok in He. destruct He as (e' & He' & [= <-]). split; [apply dict_update_nodup, NoDup_singleton|].
    by eapply validation_verifier. }
  destruct (decide (stage = u "build")) as [Hb|Hb].
  { rewrite res_bind_ok in He. destruct He as (e' & He' & [= <-]). split; [apply dict_update_nodup, NoDup_singleton|].
    by eapply build_verifier. }
  rewrite bool_decide_false in Hv by done. cbn [orb] in Hv. rewrite Hv in He.
  rewrite res_bind_ok in He. destruct He as (e' & He' & [= <-]). split; [apply dict_update_nodup, NoDup_singleton|].
  by eapply package_verifier.
Qed.

Lemma completion_verifier row d e :
  verified_stage (wr_stage row) = true -> completion_evidence row d = Ok e ->
  (exists facts, stage_evidence (wr_stage row) (wr_node_id row) d = Ok facts) /\
  exists v, get e (u "verifier") = JStr v.
Proof.
  intros Hv He. unfold completion_evidence in He. rewrite res_bind_ok in He. destruct He as (facts & Hf & He).
  destruct (stage_verifier _ _ _ _ Hv Hf) as (Hnd & v & Hne & Hg). split; [by exists facts|]. exists v.
  cbv zeta in He. rewrite Hg in He. destruct v as [|c v]; [done|]. cbn [truthy] in He.
  rewrite res_bind_ok in He. destruct He as (payload & _ & He).
  rewrite res_bind_ok in He. destruct He as (v' & _ & He).
  rewrite res_bind_ok in He. destruct He as (version & _ & He).
  rewrite res_bind_ok in He. destruct He as (config & _ & He). apply (inj Ok) in He as <-.
  unfold get. cbn [dict_update fold_left]. unfold dict_update at 1. cbn [fold_left fst snd].
  rewrite !dict_get_set_ne by distinct_keys.
  fold (dict_update [(u "schema_version", JStr evidence_schema); (u "node_id", JStr (wr_node_id row));
    (u "stage", JStr (wr_stage row)); (u "input_hash", JStr (wr_input_hash row))] facts).
  rewrite (dict_update_get _ facts (u "verifier") (JStr (c :: v)) Hnd); [done|by apply get_text].
Qed.

(** Nothing is accepted for a verified stage without the evidence of that
    stage: the receipt has the facts the stage requires, it carries an evidence
    object, and that object has the digest of the evidence computed from the
    receipt and the task it is read for. *)
Theorem verified_receipt_has_evidence row r r' :
  verified_stage (wr_stage row) = true ->
  assert_receipt_reusable row r = Ok r' ->
  r' = r /\ exists d e facts existing digest,
    r = JObj d /\ completion_evidence row d = Ok e /\
    stage_evidence (wr_stage row) (wr_node_id row) d = Ok facts /\
    get d evidence_key = existing /\ existing <> JNull /\
    canonical_hash (JObj (mapping existing)) = Ok digest /\ canonical_hash (JObj e) = Ok digest.
Proof.
  intros Hv. unfold assert_receipt_reusable, validate_arguments.
  destruct r as [| | | | | |d]; simpl; try done. destruct (decide _); simpl; [done|].
  rewrite res_bind_ok. intros (e & He & Hr).
  destruct (completion_verifier _ _ _ Hv He) as [[facts Hf] [v Hg]].
  assert (Hreuse : forall existing, assert_reusable e existing = Ok tt ->
    exists digest, canonical_hash (JObj existing) = Ok digest /\ canonical_hash (JObj e) = Ok digest).
  { intros existing. unfold assert_reusable. destruct (_ || _); [done|]. rewrite Hg.
    destruct (negb _); [done|]. rewrite res_bind_ok. intros (h1 & H1' & H2').
    rewrite res_bind_ok in H2'. destruct H2' as (h2 & H2' & H3'). case_decide; [|done]. subst. by exists h2. }
  rewrite Hg in Hr. destruct (get d evidence_key) as [| | | | | |existing] eqn:Ed; [done|..];
    rewrite res_bind_ok in Hr; destruct Hr as ([] & Ha & [= <-]); split; try done;
    destruct (Hreuse _ Ha) as (digest & Hd1 & Hd2);
    (eexists d, e, facts, _, digest); by split_and!.
Qed.
End reuse.
