(* ===== verification/Tables.v ===== *)
(** * Tables: SQL statements on a table keyed by text

    A table is a finite map from its primary key to its row.  [UPDATE .. WHERE]
    rewrites the rows that satisfy a condition, [SELECT .. ORDER BY key] lists
    their keys in order, and an operation returns a result and the database it
    leaves, which a transaction takes back when it raises. *)

From stdpp Require Import prelude gmap sets fin_maps fin_map_dom strings list sorting.
From S2P Require Import Prelude Text.

Open Scope Z_scope.

Definition db_op (DB A : Type) : Type := DB -> res A * DB.

(** [with connection:] commits, or rolls back and raises again. *)
Definition transaction {DB A} (m : db_op DB A) : db_op DB A := fun d =>
  match m d with
  | (Ok a, d') => (Ok a, d')
  | (Err e, _) => (Err e, d)
  end.

Definition op_bind {DB A B} (m : db_op DB A) (k : A -> db_op DB B) : db_op DB B := fun d =>
  match m d with
  | (Ok a, d') => k a d'
  | (Err e, d') => (Err e, d')
  end.

Section tables.
Context {V : Type}.

Definition update_where (p : pystr -> V -> bool) (f : V -> V) (m : gmap pystr V) : gmap pystr V :=
  map_imap (fun k v => Some (if p k v then f v else v)) m.

Definition rows_where (p : pystr -> V -> bool) (m : gmap pystr V) : gset pystr :=
  dom (filter (fun kv => p kv.1 kv.2 = true) m).

(** [SELECT key FROM table WHERE p ORDER BY key] *)
Definition select_ids (p : pystr -> V -> bool) (m : gmap pystr V) : list pystr :=
  sorted_set (rows_where p m).

(** [cursor.rowcount] of an [UPDATE]. *)
Definition rowcount (p : pystr -> V -> bool) (m : gmap pystr V) : nat := size (rows_where p m).

Definition exists_row (p : pystr -> V -> bool) (m : gmap pystr V) : bool :=
  bool_decide (rows_where p m <> ∅).

(** ** Lemmas *)

Lemma lookup_update_where p f m k :
  update_where p f m !! k = (fun v => if p k v then f v else v) <$> m !! k.
Proof. unfold update_where. rewrite map_lookup_imap. by destruct (m !! k). Qed.

Lemma dom_update_where p f m : dom (update_where p f m) = dom m.
Proof.
  apply set_eq. intros k. rewrite !elem_of_dom, lookup_update_where. by rewrite fmap_is_Some.
Qed.

Lemma elem_of_rows_where p m k : k ∈ rows_where p m <-> exists v, m !! k = Some v /\ p k v = true.
Proof.
  unfold rows_where. rewrite elem_of_dom. unfold is_Some. setoid_rewrite map_lookup_filter_Some. done.
Qed.

Lemma elem_of_select_ids p m k : k ∈ select_ids p m <-> exists v, m !! k = Some v /\ p k v = true.
Proof. unfold select_ids. by rewrite sorted_set_elem, elem_of_rows_where. Qed.

Lemma exists_row_true p m : exists_row p m = true <-> exists k v, m !! k = Some v /\ p k v = true.
Proof.
  unfold exists_row. rewrite bool_decide_eq_true. setoid_rewrite <- elem_of_rows_where.
  split; [by apply set_choose_L|]. intros [k Hk] Hempty. set_solver.
Qed.

Lemma exists_row_false p m : exists_row p m = false <-> forall k v, m !! k = Some v -> p k v = false.
Proof.
  rewrite <- not_true_iff_false, exists_row_true. split.
  - intros Hn k v Hv. destruct (p k v) eqn:E; [|done]. exfalso. eauto.
  - intros Hf (k & v & Hv & Hp). by rewrite (Hf k v Hv) in Hp.
Qed.

Lemma sort_strs_head l x t : sort_strs l = x :: t -> forall y, y ∈ l -> str_le x y.
Proof.
  intros Hs y Hy. assert (Sorted str_le (x :: t)) as Hsorted.
  { rewrite <- Hs. apply Sorted_merge_sort. intros a b. apply str_leb_total. }
  apply Sorted_StronglySorted in Hsorted; [|intros ???; apply str_leb_trans].
  assert (y ∈ x :: t) as Hin.
  { rewrite <- Hs. unfold sort_strs. by rewrite merge_sort_Permutation. }
  apply elem_of_cons in Hin as [->|Hin]; [apply str_leb_refl|].
  inversion Hsorted as [|? ? _ Hall]; subst. rewrite Forall_forall in Hall. auto.
Qed.

(** [ORDER BY key LIMIT 1] *)
Lemma select_ids_head p m k :
  head (select_ids p m) = Some k ->
  (exists v, m !! k = Some v /\ p k v = true) /\
  forall k' v', m !! k' = Some v' -> p k' v' = true -> str_le k k'.
Proof.
  unfold select_ids, sorted_set. destruct (sort_strs _) as [|x t] eqn:E; [done|]. intros [= ->].
  assert (forall y, y ∈ rows_where p m -> str_le k y) as Hmin.
  { intros y Hy. eapply sort_strs_head; [exact E|]. by apply elem_of_elements. }
  split.
  - apply elem_of_rows_where. apply elem_of_elements. rewrite <- (merge_sort_Permutation str_le).
    unfold sort_strs in E. rewrite E. by left.
  - intros k' v' Hv Hp. apply Hmin, elem_of_rows_where. eauto.
Qed.

Lemma select_ids_nil p m k v :
  head (select_ids p m) = None -> m !! k = Some v -> p k v = false.
Proof.
  intros Hh Hv. destruct (p k v) eqn:E; [|done].
  assert (k ∈ select_ids p m) as Hk by (apply elem_of_select_ids; eauto).
  destruct (select_ids p m); [by apply elem_of_nil in Hk|done].
Qed.
End tables.

Lemma transaction_ok {DB A} (m : db_op DB A) d a d' :
  transaction m d = (Ok a, d') <-> m d = (Ok a, d').
Proof. unfold transaction. destruct (m d) as [[]]; naive_solver. Qed.

Lemma transaction_err {DB A} (m : db_op DB A) d e d' : transaction m d = (Err e, d') -> d' = d.
Proof. unfold transaction. destruct (m d) as [[]]; naive_solver. Qed.
