(* ===== verification/Ledger.v ===== *)
(** * Ledger: [DurableWorkLedger] of [work_graph.py]

    The SQLite database, the transitions of tasks and checkpoints, and the
    integrity checks of [work_graph_receipt_read.py].  A time is a number of
    microseconds.  Operations that [SELECT] before they take the write lock are
    given what other connections do in between ([env]). *)

From stdpp Require Import prelude gmap sets fin_maps strings list sorting.
From S2P Require Import Prelude Text Json JsonStream JsonReader JsonParser JsonRoundtrip.
From S2P Require Import JsonCanonical Sha256 StdJson PyJson ReceiptTruth Graph Tables.

Open Scope Z_scope.
Open Scope py_scope.

(** ** Data *)

Inductive WorkState : Type := PENDING | RUNNING | INPUT_REQUIRED | SUCCEEDED | FAILED | CANCELLED.

#[export] Instance WorkState_eq_dec : EqDecision WorkState.
Proof. solve_decision. Defined.

Definition state_value (s : WorkState) : pystr :=
  match s with
  | PENDING => u "pending" | RUNNING => u "running" | INPUT_REQUIRED => u "input_required"
  | SUCCEEDED => u "succeeded" | FAILED => u "failed" | CANCELLED => u "cancelled"
  end.

Record WorkNode `{PyFloat} : Type := Node {
  node_id : pystr; stage : pystr; input_hash : pystr; dependencies : list pystr;
  payload : list (pystr * json); resource_class : json
}.

Record WorkGraphPlan `{PyFloat} : Type := Plan {
  proposal_hash : pystr; graph_hash : pystr; module_count : Z; nodes : list WorkNode
}.

Record task_row : Type := Task {
  t_stage : pystr; t_input_hash : pystr; t_payload_json : pystr; t_state : WorkState;
  t_attempt : Z; t_lease_owner : option pystr; t_lease_until : option Z;
  t_output_hash : option pystr; t_receipt_json : option pystr; t_receipt_hash : option pystr;
  t_error : option pystr; t_updated_at : Z
}.

Record checkpoint_row : Type := Checkpoint {
  c_stage : pystr; c_input_hash : pystr; c_state : WorkState; c_attempt : Z;
  c_output_hash : option pystr; c_receipt_json : option pystr; c_receipt_hash : option pystr;
  c_error : option pystr; c_updated_at : Z
}.

Record db : Type := Db {
  metadata : gmap pystr pystr;
  tasks : gmap pystr task_row;
  edges : gset (pystr * pystr);
  checkpoints : gmap pystr checkpoint_row
}.

(** The Python object: its constructor arguments; [sync_plan] changes the second. *)
Record ledger : Type := Ledger { l_proposal_hash : pystr; l_graph_hash : pystr }.

Definition second : Z := 1000000.
Definition schema_version : pystr := u "mmm/durable-work-ledger-v1".
Definition error_limit : nat := 16384.

Definition set_metadata (m : gmap pystr pystr) (d : db) : db := Db m (tasks d) (edges d) (checkpoints d).
Definition set_tasks (t : gmap pystr task_row) (d : db) : db := Db (metadata d) t (edges d) (checkpoints d).
Definition set_checkpoints (c : gmap pystr checkpoint_row) (d : db) : db :=
  Db (metadata d) (tasks d) (edges d) c.

(** [_meta]: an absent key reads as the empty string. *)
Definition meta (d : db) (key : pystr) : pystr := default [] (metadata d !! key).
Definition put_meta (key value : pystr) (d : db) : db := set_metadata (<[key := value]> (metadata d)) d.

Definition graph_error {A} (why : string) : res A := Err (WorkGraphError why).

(** [str(value or "")] of a nullable text column. *)
Definition text_or_empty (c : option pystr) : pystr := default [] c.

(** ** The [SET] clauses *)

Definition claimed_row (owner : pystr) (until : option Z) (now : Z) (r : task_row) : task_row :=
  Task (t_stage r) (t_input_hash r) (t_payload_json r) RUNNING (t_attempt r + 1) (Some owner) until
    (t_output_hash r) (t_receipt_json r) (t_receipt_hash r) None now.

Definition expired_row (now : Z) (r : task_row) : task_row :=
  Task (t_stage r) (t_input_hash r) (t_payload_json r) PENDING (t_attempt r) None None
    (t_output_hash r) (t_receipt_json r) (t_receipt_hash r) (Some (u "expired worker lease")) now.

Definition succeeded_row (digest json hash : pystr) (now : Z) (r : task_row) : task_row :=
  Task (t_stage r) (t_input_hash r) (t_payload_json r) SUCCEEDED (t_attempt r) None None
    (Some digest) (Some json) (Some hash) None now.

Definition stopped_row (s : WorkState) (error : pystr) (now : Z) (r : task_row) : task_row :=
  Task (t_stage r) (t_input_hash r) (t_payload_json r) s (t_attempt r) None None
    (t_output_hash r) (t_receipt_json r) (t_receipt_hash r) (Some (take error_limit error)) now.

Definition retried_row (now : Z) (r : task_row) : task_row :=
  Task (t_stage r) (t_input_hash r) (t_payload_json r) PENDING (t_attempt r) None None
    (t_output_hash r) (t_receipt_json r) (t_receipt_hash r) None now.

Definition resumed_row (now : Z) (r : task_row) : task_row :=
  Task (t_stage r) (t_input_hash r) (t_payload_json r) PENDING (t_attempt r) (t_lease_owner r)
    (t_lease_until r) (t_output_hash r) (t_receipt_json r) (t_receipt_hash r) None now.

Definition reset_row (now : Z) (r : task_row) : task_row :=
  Task (t_stage r) (t_input_hash r) (t_payload_json r) PENDING (t_attempt r) None None
    None None None None now.

Definition replanned_row (stage input_hash payload_json : pystr) (r : task_row) : task_row :=
  Task stage input_hash payload_json (t_state r) (t_attempt r) (t_lease_owner r) (t_lease_until r)
    (t_output_hash r) (t_receipt_json r) (t_receipt_hash r) (t_error r) (t_updated_at r).

Definition hashed_row (digest : pystr) (r : task_row) : task_row :=
  Task (t_stage r) (t_input_hash r) (t_payload_json r) (t_state r) (t_attempt r) (t_lease_owner r)
    (t_lease_until r) (t_output_hash r) (t_receipt_json r) (Some digest) (t_error r) (t_updated_at r).

Definition new_row (stage input_hash payload_json : pystr) (now : Z) : task_row :=
  Task stage input_hash payload_json PENDING 0 None None None None None None now.

(** [WHERE] conditions. *)
Definition is_node (id : pystr) : pystr -> task_row -> bool := fun k _ => bool_decide (k = id).
Definition in_state (s : WorkState) : pystr -> task_row -> bool := fun _ r => bool_decide (t_state r = s).
Definition not_in_state (s : WorkState) : pystr -> task_row -> bool := fun _ r => bool_decide (t_state r <> s).
Definition node_in_state (id : pystr) (s : WorkState) : pystr -> task_row -> bool :=
  fun k r => bool_decide (k = id) && bool_decide (t_state r = s).
Definition lease_expired (now : Z) (r : task_row) : bool :=
  match t_lease_until r with Some t => t <? now | None => false end.

(** [NOT EXISTS (SELECT 1 FROM edges JOIN tasks AS dependency ..)] *)
Definition blockers (d : db) (id : pystr) : list pystr :=
  select_ids (fun k r => bool_decide ((id, k) ∈ edges d) && bool_decide (t_state r <> SUCCEEDED)) (tasks d).

Definition dependencies_of (d : db) (id : pystr) : list pystr :=
  sorted_set (set_map snd (filter (fun e => e.1 = id) (edges d))).

(** ** Receipts *)

Section receipts.
Context `{PyFloat, PyUnicode, !PyRepr, VerifierCode}.

Definition _receipt_hash (receipt_json : pystr) : res pystr :=
  match json_loads receipt_json with
  | Err JSONDecodeError => graph_error "Stored work receipt is not valid JSON."
  | Err e => Err e
  | Ok payload => let* canonical := canonical_json payload in sha256_text canonical
  end.

Definition _verified_receipt_digest (receipt_json : option pystr) : res (option pystr) :=
  match receipt_json with
  | None | Some [] => Ok None
  | Some t =>
      match _receipt_hash t with
      | Ok h => Ok (Some h)
      | Err (WorkGraphError _) => Ok None
      | Err e => Err e
      end
  end.

Inductive receipt_status : Type := NotSucceeded | Invalid | Legacy (digest : pystr) | Valid.

(** The row given to the verifier contract, and its verdict: the exceptions
    that mean the receipt cannot be used again, and the others. *)
Definition reusable (id : pystr) (r : task_row) (receipt : pystr) : res bool :=
  let checked :=
    let* payload := json_loads (t_payload_json r) in
    let* receipt := json_loads receipt in
    assert_receipt_reusable (WorkRow _ id (t_stage r) (t_input_hash r) payload) receipt in
  match checked with
  | Ok _ => Ok true
  | Err (VerifierReceiptTruthError _) | Err TypeError | Err ValueError | Err JSONDecodeError => Ok false
  | Err e => Err e
  end.

Definition digest_matches (receipt_hash output_hash : option pystr) (digest : pystr) : bool :=
  match text_or_empty receipt_hash with
  | [] => bool_decide (text_or_empty output_hash = digest)
  | h => bool_decide (h = digest)
  end.

Definition has_hash (receipt_hash : option pystr) : bool := bool_decide (text_or_empty receipt_hash <> []).

Definition _receipt_status (id : pystr) (r : task_row) : res receipt_status :=
  if decide (t_state r <> SUCCEEDED) then Ok NotSucceeded
  else
    let* digest := _verified_receipt_digest (t_receipt_json r) in
    match digest with
    | None => Ok Invalid
    | Some digest =>
        if negb (digest_matches (t_receipt_hash r) (t_output_hash r) digest) then Ok Invalid
        else
          let* ok := reusable id r (text_or_empty (t_receipt_json r)) in
          Ok (if ok then (if has_hash (t_receipt_hash r) then Valid else Legacy digest) else Invalid)
    end.

(** The two statements of [_invalidate_many]: the nodes with everything that depends on them
    are selected, then they are reset.  In a transaction nothing happens in between. *)
Definition affected_nodes (ids : list pystr) (d : db) : gset pystr :=
  let start := rows_where (fun k _ => bool_decide (k ∈ ids)) (tasks d) in
  closure (edges d) start.

Definition reset_nodes (now : Z) (affected : gset pystr) (d : db) : db :=
  set_tasks (update_where (fun k _ => bool_decide (k ∈ affected)) (reset_row now) (tasks d)) d.

Definition _invalidate_many (now : Z) (ids : list pystr) (d : db) : list pystr * db :=
  let affected := affected_nodes ids d in (sorted_set affected, reset_nodes now affected d).

(** A read takes the write lock only when it writes.  [env n] is what other connections do in
    its gaps: [env 0] after the rows were selected and checked, [env 1] between the statements
    of the invalidation, [env 2] after the commit, [env 3] before the dependencies are selected,
    and [env 4] after [cached_receipt] has seen that the row exists. *)
Definition gaps : Type := nat -> db -> db.
Definition alone : gaps := fun _ d => d.

Definition set_receipt_hash (id digest : pystr) (d : db) : db :=
  set_tasks (update_where (is_node id) (hashed_row digest) (tasks d)) d.

Definition select_task (d : db) (id : pystr) : res task_row :=
  match tasks d !! id with Some r => Ok r | None => graph_error "Unknown work node" end.

(** [verified_task_row] *)
Definition verified_task_row (now : Z) (env : gaps) (id : pystr) : db_op db task_row := fun d =>
  match select_task d id with
  | Err e => (Err e, d)
  | Ok r =>
      match _receipt_status id r with
      | Err e => (Err e, d)
      | Ok Invalid =>
          let d := env 0%nat d in
          let affected := affected_nodes [id] d in
          let d := env 2%nat (reset_nodes now affected (env 1%nat d)) in
          (select_task d id, d)
      | Ok (Legacy digest) =>
          let d := env 2%nat (set_receipt_hash id digest (env 0%nat d)) in
          (select_task d id, d)
      | Ok _ => (Ok r, d)
      end
  end.

(** [task]: what is returned to the caller. *)
Record task_view : Type := View {
  v_node_id : pystr; v_row : task_row; v_payload : json; v_receipt : option json;
  v_dependencies : list pystr
}.

Definition view_of (d : db) (id : pystr) (r : task_row) : res task_view :=
  let* payload := json_loads (t_payload_json r) in
  let* receipt := match text_or_empty (t_receipt_json r) with
                  | [] => Ok None
                  | t => let* j := json_loads t in Ok (Some j)
                  end in
  Ok (View id r payload receipt (dependencies_of d id)).

Definition task (now : Z) (env : gaps) (id : pystr) : db_op db task_view := fun d =>
  match verified_task_row now env id d with
  | (Ok r, d') => let d' := env 3%nat d' in (view_of d' id r, d')
  | (Err e, d') => (Err e, d')
  end.

(** ** Claims: [claim_ready] for a plain worker, [begin]

    Most operations below end with a read of the task, and the checkpoints begin with one.  The
    definitions of the whole operations have that read [alone]; [History] has the operation and
    the read as separate events, with anything in between and in the gaps of the read. *)

Definition ready_task (d : db) (stages : list pystr) : pystr -> task_row -> bool := fun k r =>
  bool_decide (t_state r = PENDING) && bool_decide (blockers d k = []) &&
  (bool_decide (stages = []) || bool_decide (t_stage r ∈ stages)).

Definition reclaim_expired (now : Z) (d : db) : db :=
  set_tasks (update_where (fun _ r => bool_decide (t_state r = RUNNING) && lease_expired now r)
               (expired_row now) (tasks d)) d.

Definition claim_node (id owner : pystr) (until : option Z) (now : Z) (d : db) : db :=
  set_tasks (update_where (is_node id) (claimed_row owner until now) (tasks d)) d.

Definition claim_ready_tx (now : Z) (worker_id : pystr) (stages : list pystr) (lease_seconds : Z)
    : db_op db (option pystr) := fun d =>
  let d := reclaim_expired now d in
  match head (select_ids (ready_task d stages) (tasks d)) with
  | None => (Ok None, d)
  | Some id => (Ok (Some id), claim_node id worker_id (Some (now + lease_seconds * second)) now d)
  end.

(** [begin]: [true] when the node has to run. *)
Definition begin_tx (now : Z) (id worker_id : pystr) : db_op db bool := fun d =>
  match tasks d !! id with
  | None => (graph_error "Unknown work node", d)
  | Some r =>
      if decide (t_state r = SUCCEEDED) then (Ok false, d)
      else if decide (blockers d id <> []) then (graph_error "Work node has incomplete dependencies", d)
      else (Ok true, claim_node id worker_id None now d)
  end.

Definition begin (now : Z) (id worker_id : pystr) : db_op db task_view :=
  op_bind (transaction (begin_tx now id worker_id)) (fun _ => task now alone id).

(** ** Completion: [succeed], [fail], [retry], [cancel] *)

(** The decorated receipt, its text, its hash and the output digest. *)
Definition completion (id : pystr) (r : task_row) (receipt : json) (output_hash : pystr)
    : res (pystr * pystr * pystr) :=
  let* payload := json_loads (t_payload_json r) in
  let* verified := decorate_receipt (WorkRow _ id (t_stage r) (t_input_hash r) payload) receipt in
  let* receipt_json := canonical_json verified in
  let* receipt_hash := _receipt_hash receipt_json in
  Ok (receipt_json, receipt_hash, match output_hash with [] => receipt_hash | _ => output_hash end).

Definition succeed_tx (now : Z) (env : db -> db) (id : pystr) (receipt : json) (output_hash : pystr)
    : db_op db unit := fun d =>
  match tasks d !! id with
  | None => (graph_error "Unknown work node", d)
  | Some r =>
      if bool_decide (t_state r ∉ [RUNNING; SUCCEEDED])
      then (graph_error "Work node cannot succeed from its state", d)
      else match completion id r receipt output_hash with
      | Err e => (Err e, d)
      | Ok (receipt_json, receipt_hash, digest) =>
          if decide (t_state r = SUCCEEDED) then
            if bool_decide (text_or_empty (t_output_hash r) = digest) &&
               bool_decide (text_or_empty (t_receipt_json r) = receipt_json) &&
               bool_decide (text_or_empty (t_receipt_hash r) = receipt_hash)
            then (Ok tt, d)
            else (graph_error "Work node already succeeded with a different receipt.", d)
          else
            let d := env d in
            let target := node_in_state id RUNNING in
            if decide (rowcount target (tasks d) <> 1%nat)
            then (graph_error "Work node changed while succeeding", d)
            else (Ok tt, set_tasks (update_where target
                           (succeeded_row digest receipt_json receipt_hash now) (tasks d)) d)
      end
  end.

Definition succeed (now : Z) (env : db -> db) (id : pystr) (receipt : json) (output_hash : pystr)
    : db_op db task_view :=
  op_bind (succeed_tx now env id receipt output_hash) (fun _ => task now alone id).

Definition fail_tx (now : Z) (env : db -> db) (id error : pystr) (input_required : bool)
    : db_op db unit := fun d =>
  let target := if input_required then INPUT_REQUIRED else FAILED in
  match tasks d !! id with
  | None => (graph_error "Unknown work node", d)
  | Some r =>
      let source_state := t_state r in
      if decide (source_state = CANCELLED) then (Ok tt, d)
      else if input_required && bool_decide (source_state = INPUT_REQUIRED) then (Ok tt, d)
      else if bool_decide (source_state ∉ RUNNING :: (if input_required then [PENDING] else []))
      then (graph_error "Work node cannot fail from its state", d)
      else
        let d := env d in
        let where_ := node_in_state id source_state in
        if decide (rowcount where_ (tasks d) <> 1%nat)
        then (graph_error "Work node changed while failing", d)
        else (Ok tt, set_tasks (update_where where_ (stopped_row target error now) (tasks d)) d)
  end.

Definition fail_ (now : Z) (env : db -> db) (id error : pystr) (input_required : bool) : db_op db task_view :=
  op_bind (fail_tx now env id error input_required) (fun _ => task now alone id).

Definition retry_tx (now : Z) (env : db -> db) (id : pystr) : db_op db unit := fun d =>
  match tasks d !! id with
  | None => (graph_error "Unknown work node", d)
  | Some r =>
      if bool_decide (t_state r ∉ [FAILED; INPUT_REQUIRED; CANCELLED])
      then (graph_error "Only stopped work can be retried", d)
      else let d := env d in
           (Ok tt, set_tasks (update_where (is_node id) (retried_row now) (tasks d)) d)
  end.

Definition retry (now : Z) (env : db -> db) (id : pystr) : db_op db task_view :=
  op_bind (retry_tx now env id) (fun _ => task now alone id).

Definition cancel_tx (now : Z) (id reason : pystr) (d : db) : db :=
  set_tasks (update_where (fun k r => bool_decide (k = id) && bool_decide (t_state r <> SUCCEEDED))
               (stopped_row CANCELLED reason now) (tasks d)) d.

Definition cancel (now : Z) (id reason : pystr) : db_op db task_view := fun d =>
  task now alone id (cancel_tx now id reason d).

(** ** The whole run: [cancel_run], [resume_run], [summary] *)

Definition stopped_checkpoint (s : WorkState) (error : pystr) (now : Z) (r : checkpoint_row) : checkpoint_row :=
  Checkpoint (c_stage r) (c_input_hash r) s (c_attempt r) (c_output_hash r) (c_receipt_json r)
    (c_receipt_hash r) (Some (take error_limit error)) now.

Definition resumed_checkpoint (now : Z) (r : checkpoint_row) : checkpoint_row :=
  Checkpoint (c_stage r) (c_input_hash r) FAILED (c_attempt r) (c_output_hash r) (c_receipt_json r)
    (c_receipt_hash r) None now.

Definition cancel_run_tx (now : Z) (reason : pystr) (d : db) : db :=
  let message := match strip reason with [] => u "cancelled by user" | m => m end in
  let d := put_meta (u "cancel_requested") (take error_limit message) d in
  let d := set_tasks (update_where (not_in_state SUCCEEDED) (stopped_row CANCELLED message now) (tasks d)) d in
  set_checkpoints (update_where (fun _ c => bool_decide (c_state c <> SUCCEEDED))
                     (stopped_checkpoint CANCELLED message now) (checkpoints d)) d.

Definition resume_run_tx (now : Z) (d : db) : db :=
  let d := set_metadata (delete (u "cancel_requested") (metadata d)) d in
  let d := set_tasks (update_where (in_state CANCELLED) (resumed_row now) (tasks d)) d in
  set_checkpoints (update_where (fun _ c => bool_decide (c_state c = CANCELLED))
                     (resumed_checkpoint now) (checkpoints d)) d.

Definition count_state (d : db) (s : WorkState) : nat := rowcount (in_state s) (tasks d).
Definition count_checkpoints (d : db) (s : WorkState) : nat :=
  rowcount (fun _ c => bool_decide (c_state c = s)) (checkpoints d).

(** [progress] is the fraction that is rounded to six digits; [None] is [1.0]. *)
Record summary_view : Type := Summary {
  s_graph_hash : pystr; s_module_count : Z; s_task_count : nat;
  s_counts : list (WorkState * nat); s_checkpoint_counts : list (WorkState * nat);
  s_cancel_requested : option pystr; s_progress : option (nat * nat)
}.

Definition all_states : list WorkState := [PENDING; RUNNING; INPUT_REQUIRED; SUCCEEDED; FAILED; CANCELLED].

(** [SELECT state, COUNT] grouped by state: the states that occur. *)
Definition state_counts (count : WorkState -> nat) : list (WorkState * nat) :=
  filter (fun sc => sc.2 <> 0%nat) (map (fun s => (s, count s)) all_states).

Definition summary (d : db) : res summary_view :=
  let total := sum_list (map (count_state d) all_states) in
  let* modules := int_of_str (match meta d (u "module_count") with [] => u "0" | m => m end) in
  Ok (Summary (meta d (u "graph_hash")) modules total
        (state_counts (count_state d)) (state_counts (count_checkpoints d))
        (match meta d (u "cancel_requested") with [] => None | r => Some r end)
        (match total with O => None | _ => Some (count_state d SUCCEEDED, total) end)).

Definition cancel_run (now : Z) (reason : pystr) : db_op db summary_view := fun d =>
  let d := cancel_run_tx now reason d in (summary d, d).

Definition resume_run (now : Z) : db_op db summary_view := fun d =>
  let d := resume_run_tx now d in (summary d, d).

Definition raise_if_cancelled (d : db) : res unit :=
  match meta d (u "cancel_requested") with
  | [] => Ok tt
  | _ => graph_error "Production run is cancelled"
  end.

(** [invalidate] *)
Definition invalidate (now : Z) (id : pystr) : db_op db (list pystr) := fun d =>
  let '(affected, d) := _invalidate_many now [id] d in (Ok affected, d).

(** [cached_receipt] *)
Definition cached_receipt (now : Z) (env : gaps) (id : pystr) (input_hash : option pystr)
    : db_op db (option json) := fun d =>
  match tasks d !! id with
  | None => (Ok None, d)
  | Some _ =>
      match verified_task_row now env id (env 4%nat d) with
      | (Err e, d) => (Err e, d)
      | (Ok r, d) =>
          if decide (t_state r <> SUCCEEDED) then (Ok None, d)
          else if match input_hash with Some h => bool_decide (t_input_hash r <> h) | None => false end
          then (Ok None, d)
          else match text_or_empty (t_receipt_json r) with
               | [] => (Ok (Some (JObj [])), d)
               | t => (let* j := json_loads t in Ok (Some j), d)
               end
      end
  end.

(** ** Checkpoints *)

Definition checkpoint_at (id input_hash : pystr) (s : WorkState) : pystr -> checkpoint_row -> bool :=
  fun k c => bool_decide (k = id) && bool_decide (c_input_hash c = input_hash) && bool_decide (c_state c = s).

Definition restarted_checkpoint (stage input_hash : pystr) (now : Z) (c : checkpoint_row) : checkpoint_row :=
  Checkpoint stage input_hash RUNNING (c_attempt c + 1) None None None None now.

Definition succeeded_checkpoint (json hash : pystr) (now : Z) (c : checkpoint_row) : checkpoint_row :=
  Checkpoint (c_stage c) (c_input_hash c) SUCCEEDED (c_attempt c) (Some hash) (Some json) (Some hash) None now.

Definition invalidated_checkpoint (error : pystr) (now : Z) (c : checkpoint_row) : checkpoint_row :=
  Checkpoint (c_stage c) (c_input_hash c) FAILED (c_attempt c) None None None (Some (take error_limit error)) now.

Definition hashed_checkpoint (digest : pystr) (c : checkpoint_row) : checkpoint_row :=
  Checkpoint (c_stage c) (c_input_hash c) (c_state c) (c_attempt c) (c_output_hash c) (c_receipt_json c)
    (Some digest) (c_error c) (c_updated_at c).

Definition update_checkpoints (p : pystr -> checkpoint_row -> bool) (f : checkpoint_row -> checkpoint_row)
    (d : db) : db := set_checkpoints (update_where p f (checkpoints d)) d.

Definition integrity_error : pystr := u "Stored checkpoint receipt failed integrity verification.".

(** Is the stored receipt of a checkpoint what its hash says? *)
Definition checkpoint_digest (c : checkpoint_row) : res (option pystr) :=
  let* digest := _verified_receipt_digest (c_receipt_json c) in
  Ok (match digest with
      | Some h => if digest_matches (c_receipt_hash c) (c_output_hash c) h then Some h else None
      | None => None
      end).

(** [verified_checkpoint_row]: the row as it was selected, or [None]. *)
Definition verified_checkpoint_row (now : Z) (env : gaps) (id : pystr) : db_op db (option checkpoint_row) := fun d =>
  match checkpoints d !! id with
  | None => (Ok None, d)
  | Some c =>
      if decide (c_state c <> SUCCEEDED) then (Ok (Some c), d)
      else match checkpoint_digest c with
      | Err e => (Err e, d)
      | Ok None =>
          (Ok None, update_checkpoints (fun k c => bool_decide (k = id) && bool_decide (c_state c = SUCCEEDED))
                      (invalidated_checkpoint integrity_error (now / second * second)) (env 0%nat d))
      | Ok (Some digest) =>
          if has_hash (c_receipt_hash c) then (Ok (Some c), d)
          else (Ok (Some c), update_checkpoints (fun k c => bool_decide (k = id) && bool_decide (c_state c = SUCCEEDED))
                               (hashed_checkpoint digest) (env 0%nat d))
      end
  end.

Definition cached_checkpoint (now : Z) (env : gaps) (id input_hash : pystr) : db_op db (option json) := fun d =>
  match verified_checkpoint_row now env id d with
  | (Err e, d) => (Err e, d)
  | (Ok None, d) => (Ok None, d)
  | (Ok (Some c), d) =>
      if bool_decide (c_state c <> SUCCEEDED) || bool_decide (c_input_hash c <> input_hash) then (Ok None, d)
      else match text_or_empty (c_receipt_json c) with
           | [] => (Ok (Some (JObj [])), d)
           | t => (let* j := json_loads t in Ok (Some j), d)
           end
  end.

Definition begin_checkpoint_tx (now : Z) (id stage input_hash : pystr) : db_op db unit := fun d =>
  match checkpoints d !! id with
  | None =>
      (Ok tt, set_checkpoints
                (<[id := Checkpoint stage input_hash RUNNING 1 None None None None now]> (checkpoints d)) d)
  | Some c =>
      if decide (c_input_hash c = input_hash /\ c_state c = SUCCEEDED)
      then (graph_error "Checkpoint already succeeded for this input", d)
      else if decide (c_input_hash c = input_hash /\ c_state c = RUNNING)
      then (graph_error "Checkpoint is already running", d)
      else if decide (c_input_hash c = input_hash /\ c_state c = CANCELLED)
      then (graph_error "Checkpoint is cancelled and requires explicit retry", d)
      else if decide (c_input_hash c <> input_hash /\ c_state c = RUNNING)
      then (graph_error "Checkpoint input changed while another attempt is running", d)
      else
        let where_ := checkpoint_at id (c_input_hash c) (c_state c) in
        if decide (rowcount where_ (checkpoints d) <> 1%nat)
        then (graph_error "Checkpoint changed while starting", d)
        else (Ok tt, update_checkpoints where_ (restarted_checkpoint stage input_hash now) d)
  end.

Definition begin_checkpoint (now : Z) (id stage input_hash : pystr) : db_op db unit :=
  transaction (begin_checkpoint_tx now id stage input_hash).

Definition succeed_checkpoint (now : Z) (id input_hash : pystr) (receipt : json) : db_op db unit := fun d =>
  match (let* rendered := canonical_json receipt in let* hash := _receipt_hash rendered in Ok (rendered, hash)) with
  | Err e => (Err e, d)
  | Ok (rendered, hash) =>
      let where_ := checkpoint_at id input_hash RUNNING in
      if decide (rowcount where_ (checkpoints d) = 0%nat)
      then (graph_error "Checkpoint changed while running", d)
      else (Ok tt, update_checkpoints where_ (succeeded_checkpoint rendered hash now) d)
  end.

Definition fail_checkpoint (now : Z) (env : db -> db) (id input_hash error : pystr) : db_op db unit := fun d =>
  match checkpoints d !! id with
  | None => (graph_error "Unknown checkpoint", d)
  | Some c =>
      if decide (c_input_hash c <> input_hash) then (graph_error "Checkpoint input changed while running", d)
      else if decide (c_state c = CANCELLED) then (Ok tt, d)
      else if decide (c_state c <> RUNNING) then (graph_error "Checkpoint cannot fail from its state", d)
      else
        let d := env d in
        let where_ := checkpoint_at id input_hash RUNNING in
        if decide (rowcount where_ (checkpoints d) <> 1%nat)
        then (graph_error "Checkpoint changed while failing", d)
        else (Ok tt, update_checkpoints where_ (stopped_checkpoint FAILED error now) d)
  end.

Definition invalidate_checkpoint (now : Z) (id input_hash reason : pystr) : db_op db bool := fun d =>
  match checkpoints d !! id with
  | None => (graph_error "Unknown checkpoint", d)
  | Some c =>
      if bool_decide (c_input_hash c <> input_hash) || bool_decide (c_state c <> SUCCEEDED) then (Ok false, d)
      else
        let where_ := checkpoint_at id input_hash SUCCEEDED in
        if decide (rowcount where_ (checkpoints d) <> 1%nat)
        then (graph_error "Checkpoint changed while invalidating", d)
        else (Ok true, update_checkpoints where_ (invalidated_checkpoint reason now) d)
  end.

(** ** [sync_plan] *)

Record sync_view : Type := Sync {
  sy_graph_hash : pystr; sy_previous_graph_hash : pystr; sy_node_count : nat;
  sy_invalidated_nodes : list pystr; sy_pruned_nodes : list pystr
}.

(** The rows of [desired_tasks]. *)
Definition desired_task (n : WorkNode) : res (pystr * (pystr * pystr * pystr)) :=
  let* payload_json := canonical_json (JObj (payload n)) in
  Ok (node_id n, (stage n, input_hash n, payload_json)).

Definition plan_edges (plan : WorkGraphPlan) : list (pystr * pystr) :=
  n ← nodes plan; map (fun dep => (node_id n, dep)) (dependencies n).

Definition missing_dependencies (plan : WorkGraphPlan) : list pystr :=
  filter (fun dep => dep ∉ map node_id (nodes plan)) (map snd (plan_edges plan)).

Definition merged_task (now : Z) (current : gmap pystr task_row) (id : pystr)
    (desired : pystr * pystr * pystr) : task_row :=
  let '(stage, input_hash, payload_json) := desired in
  match current !! id with
  | Some r => replanned_row stage input_hash payload_json r
  | None => new_row stage input_hash payload_json now
  end.

Definition sync_plan_tx (now : Z) (plan : WorkGraphPlan) : db_op db (pystr * list pystr * list pystr) := fun d =>
  match res_map_list desired_task (nodes plan) with
  | Err e => (Err e, d)
  | Ok rows =>
      if decide (~ NoDup (plan_edges plan)) then (Err IntegrityError, d)
      else
        let desired : gmap pystr (pystr * pystr * pystr) := list_to_map rows in
        let stored_graph := meta d (u "graph_hash") in
        let changed := rows_where (fun k r => match desired !! k with
                                              | Some (_, h, _) => bool_decide (t_input_hash r <> h)
                                              | None => false end) (tasks d) in
        let pruned := select_ids (fun k _ => bool_decide (desired !! k = None)) (tasks d) in
        let new_edges : gset (pystr * pystr) := list_to_set (plan_edges plan) in
        let affected := closure new_edges changed in
        let rows := map_imap (fun k des => Some (merged_task now (tasks d) k des)) desired in
        let rows := update_where (fun k _ => bool_decide (k ∈ affected)) (reset_row now) rows in
        let d' := Db (metadata d) rows new_edges (checkpoints d) in
        let d' := put_meta (u "module_count") (dec_int (module_count plan))
                    (put_meta (u "graph_hash") (graph_hash plan) d') in
        (Ok (stored_graph, sorted_set changed, pruned), d')
  end.

Definition sync_plan (now : Z) (plan : WorkGraphPlan) (l : ledger) : db_op db (sync_view * ledger) := fun d =>
  if decide (proposal_hash plan <> l_proposal_hash l)
  then (graph_error "Work graph proposal does not match the ledger.", d)
  else if decide (~ NoDup (map node_id (nodes plan)))
  then (graph_error "Work graph contains duplicate node identifiers.", d)
  else if decide (missing_dependencies plan <> [])
  then (graph_error "Production work graph contains unknown dependencies", d)
  else op_bind (transaction (sync_plan_tx now plan)) (fun '(stored, changed, pruned) d =>
         (Ok (Sync (graph_hash plan) stored (length (nodes plan)) changed pruned,
              Ledger (l_proposal_hash l) (graph_hash plan)), d)) d.

(** ** [_initialize] and [_verify_stored_receipts] *)

Definition task_statuses (d : db) : res (list (pystr * receipt_status)) :=
  res_map_list (fun kr => let* s := _receipt_status kr.1 kr.2 in Ok (kr.1, s)) (map_to_list (tasks d)).

Definition corrupt_ids (statuses : list (pystr * receipt_status)) : list pystr :=
  omap (fun ks => match ks.2 with Invalid => Some ks.1 | _ => None end) statuses.

Definition legacy_ids (statuses : list (pystr * receipt_status)) : list (pystr * pystr) :=
  omap (fun ks => match ks.2 with Legacy digest => Some (ks.1, digest) | _ => None end) statuses.

Definition set_legacy_hashes (statuses : list (pystr * receipt_status)) (d : db) : db :=
  fold_left (fun d ks => match ks.2 with Legacy digest => set_receipt_hash ks.1 digest d | _ => d end)
    statuses d.

Definition verify_tasks (now : Z) : db_op db unit := fun d =>
  match task_statuses d with
  | Err e => (Err e, d)
  | Ok statuses =>
      let d := set_legacy_hashes statuses d in
      let d := match corrupt_ids statuses with [] => d | ids => (_invalidate_many now ids d).2 end in
      (Ok tt, d)
  end.

Definition verify_checkpoint (now : Z) (kc : pystr * checkpoint_row) : res (pystr * checkpoint_row) :=
  let c := kc.2 in
  if decide (c_state c <> SUCCEEDED) then Ok kc
  else
    let* digest := checkpoint_digest c in
    Ok (kc.1, match digest with
              | None => invalidated_checkpoint integrity_error now c
              | Some h => if has_hash (c_receipt_hash c) then c else hashed_checkpoint h c
              end).

Definition verify_checkpoints (now : Z) : db_op db unit := fun d =>
  match res_map_list (verify_checkpoint now) (map_to_list (checkpoints d)) with
  | Err e => (Err e, d)
  | Ok rows => (Ok tt, set_checkpoints (list_to_map rows) d)
  end.

Definition _verify_stored_receipts (now : Z) : db_op db unit :=
  op_bind (verify_tasks now) (fun _ => verify_checkpoints now).

Definition _initialize_tx (now : Z) (l : ledger) : db_op db unit := fun d =>
  let stored_schema := meta d (u "schema_version") in
  let stored_proposal := meta d (u "proposal_hash") in
  if bool_decide (stored_schema <> []) && bool_decide (stored_schema <> schema_version)
  then (graph_error "Unsupported durable work ledger schema.", d)
  else if bool_decide (stored_proposal <> []) && bool_decide (stored_proposal <> l_proposal_hash l)
  then (graph_error "Existing run belongs to a different approved proposal.", d)
  else
    let d := put_meta (u "schema_version") schema_version d in
    let d := put_meta (u "proposal_hash") (l_proposal_hash l) d in
    let d := match l_graph_hash l, metadata d !! u "graph_hash" with
             | _ :: _, None => put_meta (u "graph_hash") (l_graph_hash l) d
             | _, _ => d
             end in
    _verify_stored_receipts now d.

Definition _initialize (now : Z) (l : ledger) : db_op db unit := transaction (_initialize_tx now l).

Definition empty_db : db := Db ∅ ∅ ∅ ∅.

(** [open_existing] and the constructor. *)
Definition open_existing (now : Z) : db_op db ledger := fun d =>
  match meta d (u "proposal_hash") with
  | [] => (graph_error "Work ledger has no proposal hash.", d)
  | p => let l := Ledger p (meta d (u "graph_hash")) in
         op_bind (_initialize now l) (fun _ d => (Ok l, d)) d
  end.

(** ** [tasks]: one page *)

Definition str_lt (a b : pystr) : bool := str_leb a b && negb (str_leb b a).

Definition page_ids (d : db) (cursor : pystr) (limit : nat) (state : option WorkState) : list pystr :=
  take (S limit) (select_ids (fun k r => str_lt cursor k &&
    match state with Some s => bool_decide (t_state r = s) | None => true end) (tasks d)).

Definition page_rows (d : db) (ids : list pystr) : list (pystr * task_row) :=
  omap (fun id => r ← tasks d !! id; Some (id, r)) ids.

(** [verified_task_page]: checks the page once, and reads it again if a row
    was not valid. *)
Definition verified_task_page (now : Z) (env : gaps) (reread : db -> list (pystr * task_row))
    : db_op db (list (pystr * task_row)) := fun d =>
  let rows := reread d in
  match res_map_list (fun kr => let* s := _receipt_status kr.1 kr.2 in Ok (kr.1, s)) rows with
  | Err e => (Err e, d)
  | Ok statuses =>
      let corrupted := corrupt_ids statuses in
      let legacy := legacy_ids statuses in
      match corrupted, legacy with
      | [], [] => (Ok rows, d)
      | _, _ =>
          let d := env 0%nat d in
          let d := match corrupted with
                   | [] => d
                   | _ => let affected := affected_nodes corrupted d in reset_nodes now affected (env 1%nat d)
                   end in
          let d := fold_left (fun d kh =>
                     if bool_decide (kh.1 ∈ corrupted) then d
                     else set_tasks (update_where (node_in_state kh.1 SUCCEEDED) (hashed_row kh.2) (tasks d)) d)
                     legacy d in
          let d := env 2%nat d in
          (Ok (reread d), d)
      end
  end.

Definition tasks_page (now : Z) (env : gaps) (cursor : pystr) (limit : nat) (state : option WorkState)
    : db_op db (list task_view * pystr) := fun d =>
  if bool_decide (limit < 1)%nat || bool_decide (1000 < limit)%nat
  then (graph_error "Task page size must be between 1 and 1000.", d)
  else
    match verified_task_page now env (fun d => page_rows d (page_ids d cursor limit state)) d with
    | (Err e, d) => (Err e, d)
    | (Ok rows, d) =>
        let d := env 3%nat d in
        ((let* views := res_map_list (fun kr => view_of d kr.1 kr.2) (take limit rows) in
          Ok (views, if bool_decide (limit < length rows)%nat
                     then match last views with Some v => v_node_id v | None => [] end
                     else [])), d)
    end.

(** ** [run_checkpoint] and [run_named_checkpoint]

    The action is Python code that may use the ledger too; [exn_text] is the
    text ["{type}: {message}"] of an exception, a parameter. *)

Section run.
Context {T : Type} (exn_text : exn -> pystr) (encode : T -> res json) (decode : json -> res T).

Definition lift {A} (m : res A) : db_op db A := fun d => (m, d).

(** [try: m except Exception as exc: handler(exc); raise] *)
Definition op_catch {A} (m : db_op db A) (handler : exn -> db_op db unit) : db_op db A := fun d =>
  match m d with
  | (Ok a, d) => (Ok a, d)
  | (Err e, d) => match handler e d with
                  | (Ok _, d) => (Err e, d)
                  | (Err e', d) => (Err e', d)
                  end
  end.

Definition run_checkpoint (now later : Z) (env : db -> db) (id worker_id : pystr)
    (action : db_op db T) : db_op db T := fun d =>
  match raise_if_cancelled d with
  | Err e => (Err e, d)
  | Ok _ =>
      op_bind (cached_receipt now alone id None) (fun cached =>
        match cached with
        | Some c => lift (decode c)
        | None =>
            op_bind (begin now id worker_id) (fun _ =>
            op_catch
              (op_bind action (fun value =>
               op_bind (lift (encode value)) (fun receipt =>
               op_bind (succeed later env id receipt []) (fun _ => lift (Ok value)))))
              (fun e => op_bind (fail_ later env id (exn_text e) false) (fun _ => lift (Ok tt))))
        end) d
  end.

Definition run_named_checkpoint (now later : Z) (env : db -> db) (id stage : pystr) (input_value : json)
    (action : db_op db T) (validate_cached : option (T -> bool)) : db_op db T := fun d =>
  match raise_if_cancelled d with
  | Err e => (Err e, d)
  | Ok _ =>
  match (let* t := canonical_json input_value in sha256_text t) with
  | Err e => (Err e, d)
  | Ok input_hash =>
      let fresh :=
        op_bind (begin_checkpoint now id stage input_hash) (fun _ =>
        op_catch
          (op_bind action (fun value =>
           op_bind (lift (encode value)) (fun receipt =>
           op_bind (succeed_checkpoint later id input_hash receipt) (fun _ => lift (Ok value)))))
          (fun e => fail_checkpoint later env id input_hash (exn_text e))) in
      op_bind (cached_checkpoint now alone id input_hash) (fun cached =>
        match cached with
        | Some c =>
            op_bind (lift (decode c)) (fun decoded =>
              if match validate_cached with Some v => v decoded | None => true end
              then lift (Ok decoded)
              else op_bind (invalidate_checkpoint now id input_hash
                              (u "cached checkpoint output failed validation")) (fun _ => fresh))
        | None => fresh
        end) d
  end
  end.
End run.
End receipts.

