(* ===== verification/LedgerInv.v ===== *)
(** * LedgerInv: the invariant of the ledger

    Edges join existing tasks; only a succeeded task has a receipt (a digest of one may
    be left behind), only a running task a lease; and a task runs or has succeeded only when everything
    it depends on has succeeded.  Every transition preserves it. *)

From stdpp Require Import prelude gmap sets fin_maps strings list sorting relations.
From S2P Require Import Prelude Text Json JsonStream JsonReader JsonParser JsonRoundtrip.
From S2P Require Import JsonCanonical Sha256 StdJson PyJson ReceiptTruth Graph Tables Ledger.

Open Scope Z_scope.

Definition active (s : WorkState) : Prop := s = RUNNING \/ s = SUCCEEDED.

Definition row_ok (r : task_row) : Prop :=
  (t_state r <> SUCCEEDED -> t_output_hash r = None /\ t_receipt_json r = None) /\
  (t_state r <> RUNNING -> t_lease_owner r = None /\ t_lease_until r = None) /\
  (t_state r = RUNNING -> is_Some (t_lease_owner r) /\ 1 <= t_attempt r) /\
  0 <= t_attempt r.

Definition edges_ok (d : db) : Prop :=
  forall n dep, (n, dep) ∈ edges d -> n ∈ dom (tasks d) /\ dep ∈ dom (tasks d).

Definition rows_ok (d : db) : Prop := forall id r, tasks d !! id = Some r -> row_ok r.

Definition deps_ok (d : db) : Prop :=
  forall n dep rn rd, (n, dep) ∈ edges d -> tasks d !! n = Some rn -> active (t_state rn) ->
    tasks d !! dep = Some rd -> t_state rd = SUCCEEDED.

Definition inv (d : db) : Prop := edges_ok d /\ rows_ok d /\ deps_ok d.

(** ** Updates that keep what has succeeded *)

Definition deps_succeeded (d : db) (n : pystr) : Prop :=
  forall dep rd, (n, dep) ∈ edges d -> tasks d !! dep = Some rd -> t_state rd = SUCCEEDED.

Lemma blockers_nil d n : blockers d n = [] -> deps_succeeded d n.
Proof.
  intros Hb dep rd He Hd. destruct (decide (t_state rd = SUCCEEDED)) as [|Hs]; [done|].
  assert (dep ∈ blockers d n) as Hin.
  { apply elem_of_select_ids. exists rd. split; [done|]. by rewrite !bool_decide_true. }
  rewrite Hb in Hin. by apply elem_of_nil in Hin.
Qed.

Lemma inv_update p f d :
  inv d ->
  (forall k r, tasks d !! k = Some r -> p k r = true ->
    row_ok (f r) /\
    (active (t_state (f r)) -> active (t_state r) \/ deps_succeeded d k) /\
    (t_state r = SUCCEEDED -> t_state (f r) = SUCCEEDED)) ->
  inv (set_tasks (update_where p f (tasks d)) d).
Proof.
  intros (He & Hr & Hd) Hf. split; [|split].
  - intros n dep Hn. simpl. rewrite dom_update_where. by apply He.
  - intros id r. simpl. rewrite lookup_update_where, fmap_Some. intros (r0 & H0 & ->).
    destruct (p id r0) eqn:Ep; [by apply (Hf id)|by eapply Hr].
  - intros n dep rn rd Hn. simpl. rewrite !lookup_update_where, !fmap_Some.
    intros (rn0 & Hrn & ->) Ha (rd0 & Hrd & ->).
    assert (t_state rd0 = SUCCEEDED) as Hs.
    { destruct (p n rn0) eqn:Ep; [|by eapply Hd].
      destruct (Hf n rn0 Hrn Ep) as (_ & Hact & _). destruct (Hact Ha) as [Ha'|Ha']; [by eapply Hd|by eapply Ha']. }
    destruct (p dep rd0) eqn:Ep; [|done]. by apply (Hf dep rd0 Hrd Ep).
Qed.

(** ** The [SET] clauses *)

Lemma claimed_ok owner until now r : row_ok r -> t_state r <> SUCCEEDED -> row_ok (claimed_row owner until now r).
Proof. intros (H1 & _ & _ & H4) Hs. split_and!; simpl; try done; [auto| |lia]. intros _. split; [by eexists|lia]. Qed.

Lemma not_running_ok r st e now out rc rh :
  row_ok r -> st <> RUNNING -> (st <> SUCCEEDED -> out = None /\ rc = None) ->
  row_ok (Task (t_stage r) (t_input_hash r) (t_payload_json r) st (t_attempt r) None None out rc rh e now).
Proof. intros (_ & _ & _ & H4) Hs Hr. split_and!; simpl; try done. Qed.

Lemma expired_ok now r : row_ok r -> t_state r <> SUCCEEDED -> row_ok (expired_row now r).
Proof. intros Hr Hs. apply not_running_ok; [done..|]. intros _. by apply Hr. Qed.
Lemma stopped_ok s e now r :
  row_ok r -> t_state r <> SUCCEEDED -> s <> RUNNING -> row_ok (stopped_row s e now r).
Proof. intros Hr Hs Hn. apply not_running_ok; [done..|]. intros _. by apply Hr. Qed.
Lemma retried_ok now r : row_ok r -> t_state r <> SUCCEEDED -> row_ok (retried_row now r).
Proof. intros Hr Hs. apply not_running_ok; [done..|]. intros _. by apply Hr. Qed.
Lemma succeeded_ok x y z now r : row_ok r -> row_ok (succeeded_row x y z now r).
Proof. intros Hr. by apply not_running_ok. Qed.
Lemma reset_ok now r : row_ok r -> row_ok (reset_row now r).
Proof. intros Hr. by apply not_running_ok. Qed.
Lemma resumed_ok now r : row_ok r -> t_state r = CANCELLED -> row_ok (resumed_row now r).
Proof.
  intros (H1 & H2 & _ & H4) Hs. rewrite Hs in *. split_and!; simpl; try done; intros _;
    [by apply H1|by apply H2].
Qed.
Lemma hashed_ok h r : row_ok r -> row_ok (hashed_row h r).
Proof. intros (H1 & H2 & H3 & H4). by split_and!. Qed.

(** ** Invalidation *)

(** The nodes may be selected in an earlier state of the same edges. *)
Lemma reset_nodes_inv now ids d d' :
  edges d' = edges d -> inv d' -> inv (reset_nodes now (affected_nodes ids d) d').
Proof.
  intros Hedges (He & Hr & Hd). unfold reset_nodes. split; [|split].
  - intros n dep Hn. simpl. rewrite dom_update_where. by apply He.
  - intros id r. simpl. rewrite lookup_update_where, fmap_Some. intros (r0 & H0 & ->).
    case_bool_decide; [|by eapply Hr]. eapply reset_ok, Hr, H0.
  - intros n dep rn rd Hn. simpl. rewrite !lookup_update_where, !fmap_Some.
    intros (rn0 & Hrn & ->) Ha (rd0 & Hrd & ->).
    case_bool_decide as Hin; [simpl in Ha; by destruct Ha|].
    case_bool_decide as Hin2; [|by eapply Hd].
    exfalso. apply Hin. unfold affected_nodes in *. apply (closure_closed _ _ dep); [exact Hin2|].
    change ((n, dep) ∈ edges d') in Hn. by rewrite Hedges in Hn.
Qed.

Lemma invalidate_inv now ids d : inv d -> inv (_invalidate_many now ids d).2.
Proof. by apply reset_nodes_inv. Qed.

(** ** The transitions *)

Section transitions.
Context `{PyFloat, PyUnicode, !PyRepr, VerifierCode}.

Lemma inv_same d d' : tasks d = tasks d' -> edges d = edges d' -> inv d -> inv d'.
Proof. unfold inv, edges_ok, rows_ok, deps_ok. by intros -> ->. Qed.

Lemma set_receipt_hash_inv id digest d : inv d -> inv (set_receipt_hash id digest d).
Proof.
  intros Hi. apply inv_update; [done|]. intros k r' Hk Hp.
  split_and!; [|intros; by left|done]. apply hashed_ok. by eapply Hi.
Qed.

(** What happens in the gaps before a read writes: other operations, which keep the invariant
    and, between the statements of an invalidation, the edges. *)
Definition calm (env : gaps) (d : db) : Prop :=
  inv (env 0%nat d) /\ inv (env 1%nat (env 0%nat d)) /\ edges (env 1%nat (env 0%nat d)) = edges (env 0%nat d).

(** Nothing happens after the write of a read. *)
Definition quiet_after (env : gaps) : Prop := forall n d, (2 <= n)%nat -> env n d = d.

Lemma alone_calm d : inv d -> calm alone d.
Proof. intros Hi. unfold calm, alone. auto. Qed.

Lemma alone_quiet : quiet_after alone.
Proof. done. Qed.

#[local] Hint Resolve alone_calm alone_quiet : core.

Lemma verified_task_row_inv now env id d :
  quiet_after env -> calm env d -> inv d -> inv (verified_task_row now env id d).2.
Proof.
  intros Hq (Hg0 & Hg1 & He) Hi. unfold verified_task_row, select_task. destruct (tasks d !! id) as [r|] eqn:Er; [|done].
  destruct (_receipt_status id r) as [[| |digest|]|] eqn:Es; try done; cbv zeta; simpl; rewrite Hq by lia.
  - by apply reset_nodes_inv.
  - by apply set_receipt_hash_inv.
Qed.

Lemma task_inv now env id d : quiet_after env -> calm env d -> inv d -> inv (task now env id d).2.
Proof.
  intros Hq Hc Hi. unfold task. pose proof (verified_task_row_inv now env id d Hq Hc Hi) as Hv.
  destruct (verified_task_row now env id d) as [[]]; simpl in *; [by rewrite Hq by lia|done].
Qed.

Lemma then_task_inv {A} now id (m : db_op db A) d :
  inv (m d).2 -> inv (op_bind m (fun _ => task now alone id) d).2.
Proof. unfold op_bind. destruct (m d) as [[a|e] d']; simpl; [intros; apply task_inv; auto|done]. Qed.

Lemma transaction_inv {A} (m : db_op db A) d : inv d -> inv (m d).2 -> inv (transaction m d).2.
Proof. unfold transaction. by destruct (m d) as [[]]. Qed.

Lemma reclaim_expired_inv now d : inv d -> inv (reclaim_expired now d).
Proof.
  intros Hi. apply inv_update; [done|]. intros k r Hr Hp. apply andb_true_iff in Hp as [Hp _].
  apply bool_decide_eq_true in Hp. split_and!; simpl; [|by intros [?|?]|congruence].
  apply expired_ok; [by eapply Hi|congruence].
Qed.

Lemma claim_node_inv id owner until now d r :
  inv d -> tasks d !! id = Some r -> t_state r <> SUCCEEDED -> deps_succeeded d id ->
  inv (claim_node id owner until now d).
Proof.
  intros Hi Hr Hs Hd. apply inv_update; [done|]. intros k r' Hk Hp.
  apply bool_decide_eq_true in Hp as ->. assert (r' = r) as -> by congruence.
  split_and!; [apply claimed_ok; [by eapply Hi|done]|intros _; by right|done].
Qed.

Lemma ready_task_true d stages k r :
  ready_task d stages k r = true ->
  t_state r = PENDING /\ deps_succeeded d k /\ (stages = [] \/ t_stage r ∈ stages).
Proof.
  unfold ready_task. rewrite !andb_true_iff, orb_true_iff, !bool_decide_eq_true.
  intros [[Hs Hb] Hst]. split_and!; [done|by apply blockers_nil|done].
Qed.

Lemma claim_ready_tx_inv now w stages lease d : inv d -> inv (claim_ready_tx now w stages lease d).2.
Proof.
  intros Hi. apply (reclaim_expired_inv now) in Hi. unfold claim_ready_tx.
  destruct (head _) as [id|] eqn:Eh; [|done]. simpl.
  apply select_ids_head in Eh as [(r & Hr & Hp) _]. apply ready_task_true in Hp as (Hs & Hd & _).
  eapply claim_node_inv; [done|exact Hr|congruence|done].
Qed.

Lemma begin_tx_inv now id w d : inv d -> inv (begin_tx now id w d).2.
Proof.
  intros Hi. unfold begin_tx. destruct (tasks d !! id) as [r|] eqn:Er; [|done].
  case_decide; [done|]. case_decide as Hb; [done|]. simpl.
  eapply claim_node_inv; [done|exact Er|done|by apply blockers_nil].
Qed.

Lemma node_in_state_true id s k r : node_in_state id s k r = true <-> k = id /\ t_state r = s.
Proof. unfold node_in_state. by rewrite andb_true_iff, !bool_decide_eq_true. Qed.

Lemma succeed_tx_inv now env id receipt oh d :
  inv d -> inv (env d) -> inv (succeed_tx now env id receipt oh d).2.
Proof.
  intros Hi He. unfold succeed_tx. destruct (tasks d !! id) as [r|] eqn:Er; [|done].
  destruct (bool_decide (t_state r ∉ _)); [done|].
  destruct (completion id r receipt oh) as [[[rj rh] dg]|]; [|done].
  destruct (decide (t_state r = SUCCEEDED)); [by destruct (_ && _)|]. cbv zeta.
  destruct (decide (rowcount _ _ <> _)); [done|].
  apply inv_update; [done|]. intros k r' Hk Hp. apply node_in_state_true in Hp as [-> Hs].
  split_and!; [apply succeeded_ok; by eapply He|intros _; left; by left|done].
Qed.

Lemma fail_tx_inv now env id error ir d :
  inv d -> inv (env d) -> inv (fail_tx now env id error ir d).2.
Proof.
  intros Hi He. unfold fail_tx. destruct (tasks d !! id) as [r|] eqn:Er; [|done].
  destruct (decide (t_state r = CANCELLED)) as [|Hc]; [done|]. destruct (ir && _); [done|].
  destruct (bool_decide (t_state r ∉ _)) eqn:Ea; [done|].
  apply bool_decide_eq_false in Ea. apply dec_stable in Ea. cbv zeta.
  destruct (decide (rowcount _ _ <> _)); [done|].
  apply inv_update; [done|]. intros k r' Hk Hp. apply node_in_state_true in Hp as [-> Hs].
  assert (t_state r' <> SUCCEEDED) as Hn.
  { rewrite Hs. intros Hx. rewrite Hx in Ea. destruct ir; set_solver. }
  split_and!; [apply stopped_ok; [by eapply He|done|by destruct ir]|by destruct ir; intros [?|?]|done].
Qed.

Lemma retry_tx_inv now env id d :
  inv d -> inv (env d) ->
  (forall r, tasks (env d) !! id = Some r -> t_state r <> SUCCEEDED) ->
  inv (retry_tx now env id d).2.
Proof.
  intros Hi He Hf. unfold retry_tx. destruct (tasks d !! id) as [r|] eqn:Er; [|done].
  destruct (bool_decide (t_state r ∉ _)); [done|]. apply inv_update; [done|]. intros k r' Hk Hp.
  apply bool_decide_eq_true in Hp as ->. pose proof (Hf r' Hk).
  split_and!; [apply retried_ok; [by eapply He|done]|by intros [?|?]|done].
Qed.

Lemma cancel_tx_inv now id reason d : inv d -> inv (cancel_tx now id reason d).
Proof.
  intros Hi. apply inv_update; [done|]. intros k r Hk Hp. apply andb_true_iff in Hp as [_ Hp].
  apply bool_decide_eq_true in Hp.
  split_and!; [apply stopped_ok; [by eapply Hi|done|done]|by intros [?|?]|done].
Qed.

Lemma cancel_run_tx_inv now reason d : inv d -> inv (cancel_run_tx now reason d).
Proof.
  intros Hi. unfold cancel_run_tx. cbv zeta. set (m := match strip reason with [] => _ | m => m end).
  eapply inv_same; [reflexivity..|]. apply inv_update; [by eapply inv_same|].
  intros k r Hk Hp. apply bool_decide_eq_true in Hp.
  split_and!; [apply stopped_ok; [by eapply Hi|done|done]|by intros [?|?]|done].
Qed.

Lemma resume_run_tx_inv now d : inv d -> inv (resume_run_tx now d).
Proof.
  intros Hi. unfold resume_run_tx. cbv zeta. eapply inv_same; [reflexivity..|].
  apply inv_update; [by eapply inv_same|]. intros k r Hk Hp. apply bool_decide_eq_true in Hp.
  split_and!; [apply resumed_ok; [by eapply Hi|done]|by intros [?|?]|congruence].
Qed.

Lemma cached_receipt_inv now env id ih d :
  quiet_after env -> calm env d -> inv d -> inv (cached_receipt now env id ih d).2.
Proof.
  intros Hq Hc Hi. unfold cached_receipt. destruct (tasks d !! id); [|done]. rewrite (Hq 4%nat) by lia.
  pose proof (verified_task_row_inv now env id d Hq Hc Hi) as Hv.
  destruct (verified_task_row now env id d) as [[r|e] d']; simpl in *; [|done]. by repeat case_match.
Qed.

(** ** Integrity checks of whole tables *)

Lemma set_legacy_hashes_inv statuses d : inv d -> inv (set_legacy_hashes statuses d).
Proof.
  unfold set_legacy_hashes. revert d; induction statuses as [|[k s] statuses IH]; intros d Hi; simpl; [done|].
  destruct s as [| |digest|]; apply IH; [done..|by apply set_receipt_hash_inv|done].
Qed.

Lemma verify_tasks_inv now d : inv d -> inv (verify_tasks now d).2.
Proof.
  intros Hi. unfold verify_tasks. destruct (task_statuses d) as [statuses|] eqn:Es; [|done]. simpl.
  pose proof (set_legacy_hashes_inv statuses d Hi) as Hl.
  destruct (corrupt_ids statuses); [done|]. by apply invalidate_inv.
Qed.

Lemma initialize_inv now l d : inv d -> inv (_initialize now l d).2.
Proof.
  intros Hi. unfold _initialize. apply transaction_inv; [done|]. unfold _initialize_tx.
  destruct (_ && _); [done|]. destruct (_ && _); [done|]. cbv zeta.
  set (d1 := match l_graph_hash l, _ with _ :: _, None => _ | _, _ => _ end).
  assert (inv d1) as Hd1 by (unfold d1; repeat case_match; by eapply inv_same).
  unfold _verify_stored_receipts, op_bind. pose proof (verify_tasks_inv now d1 Hd1) as Hv.
  destruct (verify_tasks now d1) as [[[]|] d2]; simpl in *; [|done].
  unfold verify_checkpoints. by case_match; [eapply inv_same|].
Qed.

Lemma hash_legacy_inv (corrupted : list pystr) legacy d :
  inv d ->
  inv (fold_left (fun d (kh : pystr * pystr) =>
         if bool_decide (kh.1 ∈ corrupted) then d
         else set_tasks (update_where (node_in_state kh.1 SUCCEEDED) (hashed_row kh.2) (tasks d)) d) legacy d).
Proof.
  revert d; induction legacy as [|[k h] legacy IH]; intros d Hi; simpl; [done|]. apply IH.
  case_bool_decide; [done|]. apply inv_update; [done|]. intros k' r Hk Hp.
  split_and!; [apply hashed_ok; by eapply Hi|by left|done].
Qed.

Lemma verified_task_page_inv now env reread d :
  quiet_after env -> calm env d -> inv d -> inv (verified_task_page now env reread d).2.
Proof.
  intros Hq (Hg0 & Hg1 & He) Hi. unfold verified_task_page. cbv zeta. destruct (res_map_list _ _) as [statuses|]; [|done].
  destruct (corrupt_ids statuses) as [|c cs]; [destruct (legacy_ids statuses); [done|]|];
    cbn [snd]; rewrite (Hq 2%nat) by lia; apply hash_legacy_inv; [done|by apply reset_nodes_inv].
Qed.

Lemma tasks_page_inv now env cursor limit state d :
  quiet_after env -> calm env d -> inv d -> inv (tasks_page now env cursor limit state d).2.
Proof.
  intros Hq Hc Hi. unfold tasks_page. destruct (_ || _); [done|].
  pose proof (verified_task_page_inv now env (fun d => page_rows d (page_ids d cursor limit state)) d Hq Hc Hi) as Hv.
  destruct (verified_task_page now env _ d) as [[rows|] d']; [|done]. cbv zeta. simpl. by rewrite Hq by lia.
Qed.

(** ** [sync_plan] *)

Lemma replanned_ok a b c r : row_ok r -> row_ok (replanned_row a b c r).
Proof. done. Qed.

Lemma new_row_ok a b c now : row_ok (new_row a b c now).
Proof. by split_and!. Qed.

(** The input hash of a node covers its dependencies ([_node] hashes them). *)
Definition plan_binds (d : db) (plan : WorkGraphPlan) : Prop :=
  forall n r dep, n ∈ nodes plan -> tasks d !! node_id n = Some r ->
    t_input_hash r = input_hash n -> dep ∈ dependencies n -> (node_id n, dep) ∈ edges d.

Lemma desired_lookup plan rows n :
  NoDup (map node_id (nodes plan)) -> res_map_list desired_task (nodes plan) = Ok rows ->
  n ∈ nodes plan ->
  exists pj, canonical_json (JObj (payload n)) = Ok pj /\
    (list_to_map rows : gmap pystr _) !! node_id n = Some (stage n, input_hash n, pj).
Proof.
  intros Hnd Hrows Hn. apply res_map_list_ok in Hrows.
  assert (rows.*1 = map node_id (nodes plan)) as Hids.
  { clear -Hrows. induction Hrows as [|n kv ns rows Hd _ IH]; [done|].
    unfold desired_task in Hd. rewrite res_bind_ok in Hd. destruct Hd as (pj & _ & [= <-]). simpl. by f_equal. }
  apply list_elem_of_lookup in Hn as [i Hi]. eapply Forall2_lookup_l in Hrows as (kv & Hkv & Hd); [|done].
  unfold desired_task in Hd. rewrite res_bind_ok in Hd. destruct Hd as (pj & Hpj & [= <-]).
  exists pj. split; [done|]. apply elem_of_list_to_map; [by rewrite Hids|]. by eapply list_elem_of_lookup_2.
Qed.

(** A node of a plan is known by its identifier. *)
Lemma node_id_unique plan n n' :
  NoDup (map node_id (nodes plan)) -> n ∈ nodes plan -> n' ∈ nodes plan -> node_id n = node_id n' -> n = n'.
Proof.
  intros Hnd [i Hi]%list_elem_of_lookup [j Hj]%list_elem_of_lookup Hid.
  assert (i = j) as ->; [|congruence].
  eapply (NoDup_lookup (map node_id (nodes plan))); [done|by rewrite list_lookup_fmap, Hi|].
  by rewrite list_lookup_fmap, Hj, Hid.
Qed.

Lemma desired_dom plan rows k v :
  res_map_list desired_task (nodes plan) = Ok rows ->
  (list_to_map rows : gmap pystr _) !! k = Some v ->
  exists n pj, n ∈ nodes plan /\ node_id n = k /\ v = (stage n, input_hash n, pj).
Proof.
  intros Hrows Hk. apply elem_of_list_to_map_2, list_elem_of_lookup in Hk as [i Hi].
  apply res_map_list_ok in Hrows. eapply Forall2_lookup_r in Hrows as (n & Hn & Hd); [|done].
  unfold desired_task in Hd. rewrite res_bind_ok in Hd. destruct Hd as (pj & _ & [= <- <-]).
  exists n, pj. split_and!; [by eapply list_elem_of_lookup_2|done..].
Qed.

Lemma desired_ids plan rows k :
  NoDup (map node_id (nodes plan)) -> res_map_list desired_task (nodes plan) = Ok rows ->
  is_Some ((list_to_map rows : gmap pystr _) !! k) <-> k ∈ map node_id (nodes plan).
Proof.
  intros Hnd Hrows. split.
  - intros [v Hv]. destruct (desired_dom _ _ _ _ Hrows Hv) as (n & pj & Hn & <- & _). by apply list_elem_of_fmap_2.
  - intros (n & -> & Hn)%list_elem_of_fmap. destruct (desired_lookup _ _ _ Hnd Hrows Hn) as (pj & _ & ->). by eexists.
Qed.

Lemma plan_edges_spec plan n dep :
  (n, dep) ∈ plan_edges plan <-> exists nd, nd ∈ nodes plan /\ node_id nd = n /\ dep ∈ dependencies nd.
Proof.
  unfold plan_edges. rewrite list_elem_of_bind. setoid_rewrite list_elem_of_fmap. naive_solver.
Qed.

Lemma missing_dependencies_nil plan n dep :
  missing_dependencies plan = [] -> (n, dep) ∈ plan_edges plan -> dep ∈ map node_id (nodes plan).
Proof.
  intros Hm He. destruct (decide (dep ∈ map node_id (nodes plan))) as [|Hn]; [done|].
  assert (dep ∈ missing_dependencies plan) as Hin.
  { apply list_elem_of_filter. split; [done|]. apply list_elem_of_fmap. by exists (n, dep). }
  rewrite Hm in Hin. by apply elem_of_nil in Hin.
Qed.

Lemma sync_plan_tx_inv now plan d :
  NoDup (map node_id (nodes plan)) -> missing_dependencies plan = [] -> plan_binds d plan ->
  inv d -> inv (sync_plan_tx now plan d).2.
Proof.
  intros Hnd Hm Hb Hi. pose proof Hi as (He & Hr & Hd). unfold sync_plan_tx.
  destruct (res_map_list desired_task (nodes plan)) as [rows|] eqn:Erows; [|done].
  destruct (decide (~ NoDup (plan_edges plan))) as [|_]; [done|]. cbv zeta. cbn [snd].
  set (desired := list_to_map rows : gmap pystr _).
  set (changed := rows_where _ (tasks d)).
  set (new_edges := list_to_set (plan_edges plan) : gset _).
  eapply inv_same; [reflexivity..|].
  assert (Hrow : forall k r, map_imap (fun k des => Some (merged_task now (tasks d) k des)) desired !! k = Some r ->
    exists n pj, n ∈ nodes plan /\ node_id n = k /\ r = merged_task now (tasks d) k (stage n, input_hash n, pj)).
  { intros k r. rewrite map_lookup_imap. destruct (desired !! k) as [v|] eqn:Ev; [|done]. simpl. intros [= <-].
    destruct (desired_dom _ _ _ _ Erows Ev) as (n & pj & Hn & Hk & ->). by exists n, pj. }
  split; [|split].
  - intros n dep. simpl. rewrite dom_update_where. intros Hn%elem_of_list_to_set.
    assert (forall k, k ∈ map node_id (nodes plan) ->
      k ∈ dom (map_imap (fun k des => Some (merged_task now (tasks d) k des)) desired)) as Hdom.
    { intros k (nd & -> & Hnd')%list_elem_of_fmap. apply elem_of_dom. rewrite map_lookup_imap.
      destruct (desired_lookup plan rows nd Hnd Erows Hnd') as (pj & _ & Hpj). unfold desired. rewrite Hpj. by eexists. }
    split; apply Hdom; [|by eapply missing_dependencies_nil].
    apply plan_edges_spec in Hn as (nd & Hin & <- & _). by apply list_elem_of_fmap_2.
  - intros k r. simpl. rewrite lookup_update_where, fmap_Some. intros (r0 & Hr0 & ->).
    assert (row_ok r0) as Hok.
    { destruct (Hrow _ _ Hr0) as (n & pj & _ & _ & ->). unfold merged_task.
      destruct (tasks d !! k) eqn:Ek; [apply replanned_ok; by eapply Hr|apply new_row_ok]. }
    case_bool_decide; [by apply reset_ok|done].
  - intros n dep rn rd. simpl. intros Hn%elem_of_list_to_set. rewrite !lookup_update_where, !fmap_Some.
    intros (rn0 & Hrn & ->) Ha (rd0 & Hrd & ->).
    case_bool_decide as Hin; [simpl in Ha; by destruct Ha|].
    assert (dep ∉ closure new_edges changed) as Hdep.
    { intros Hc. apply Hin. eapply closure_closed; [exact Hc|]. by apply elem_of_list_to_set. }
    rewrite bool_decide_false by done.
    destruct (Hrow _ _ Hrn) as (nd & pj & Hnd' & <- & ->). unfold merged_task in Ha.
    destruct (tasks d !! node_id nd) as [rn|] eqn:Ern; [|simpl in Ha; by destruct Ha]. simpl in Ha.
    assert (t_input_hash rn = input_hash nd) as Hh.
    { destruct (decide (t_input_hash rn = input_hash nd)) as [|Hne]; [done|]. exfalso. apply Hin.
      apply closure_sub, elem_of_rows_where. exists rn. split; [done|].
      destruct (desired_lookup plan rows nd Hnd Erows Hnd') as (pj' & _ & Hpj). unfold desired. rewrite Hpj.
      by apply bool_decide_true. }
    apply plan_edges_spec in Hn as (nd' & Hin' & Hid & Hdin).
    assert ((node_id nd, dep) ∈ edges d) as Hold.
    { assert (nd' = nd) as -> by (by eapply node_id_unique).
      by eapply Hb. }
    destruct (He _ _ Hold) as [_ Hdom]. apply elem_of_dom in Hdom as [rd Hrd0].
    destruct (Hrow _ _ Hrd) as (ndd & pjd & _ & <- & ->). unfold merged_task. rewrite Hrd0. simpl.
    by eapply Hd.
Qed.

Lemma sync_plan_inv now plan l d :
  plan_binds d plan -> inv d -> inv (sync_plan now plan l d).2.
Proof.
  intros Hb Hi. unfold sync_plan. destruct (decide (proposal_hash plan <> _)); [done|].
  destruct (decide (~ NoDup _)) as [|Hnd]; [done|]. apply dec_stable in Hnd.
  destruct (decide (missing_dependencies plan <> [])) as [|Hm]; [done|]. apply dec_stable in Hm.
  unfold op_bind. pose proof (transaction_inv (sync_plan_tx now plan) d Hi (sync_plan_tx_inv now plan d Hnd Hm Hb Hi)) as Ht.
  by destruct (transaction _ d) as [[[[? ?] ?]|] ?].
Qed.
End transitions.
