(* ===== verification/LedgerProps.v ===== *)
(** * LedgerProps: what each operation of the ledger does

    Claims, completion, invalidation, replanning and cancellation, each with
    the rows it changes and the rows it leaves alone. *)

From stdpp Require Import prelude gmap sets fin_maps strings list sorting relations.
From S2P Require Import Prelude Text Json JsonStream JsonReader JsonParser JsonRoundtrip.
From S2P Require Import JsonCanonical Sha256 StdJson PyJson ReceiptTruth ReceiptReuse Graph.
From S2P Require Import Tables Ledger LedgerInv.

Open Scope Z_scope.
Open Scope py_scope.

Section props.
Context `{PyFloat, PyUnicode, !PyRepr, VerifierCode}.

(** ** Claims *)

(** [claim_ready] gives the first ready task of the wanted stages: it was
    waiting, everything it depends on has succeeded, no ready task has a
    smaller id; it is now running for this worker, with one more attempt, and no
    other task changes once the expired leases are taken back.  It gives
    nothing only when no task is ready. *)
Theorem claim_ready_tx_spec now worker stages lease d :
  let d0 := reclaim_expired now d in
  match claim_ready_tx now worker stages lease d with
  | (Ok (Some id), d') =>
      exists r, tasks d0 !! id = Some r /\ ready_task d0 stages id r = true /\ deps_succeeded d0 id /\
        (forall id' r', tasks d0 !! id' = Some r' -> ready_task d0 stages id' r' = true -> str_le id id') /\
        tasks d' = <[id := claimed_row worker (Some (now + lease * second)) now r]> (tasks d0) /\
        edges d' = edges d /\ checkpoints d' = checkpoints d
  | (Ok None, d') =>
      d' = d0 /\ forall id r, tasks d0 !! id = Some r -> ready_task d0 stages id r = false
  | (Err _, _) => False
  end.
Proof.
  intros d0. unfold claim_ready_tx. fold d0.
  assert (edges d0 = edges d /\ checkpoints d0 = checkpoints d) as [He Hc] by done. clearbody d0. destruct (head _) as [id|] eqn:Eh.
  - pose proof Eh as Hh. apply select_ids_head in Hh as [(r & Hr & Hp) Hmin].
    exists r. split_and!; try done; [by apply ready_task_true in Hp as (_ & Hd & _)|].
    apply map_eq. intros k. simpl. rewrite lookup_update_where. unfold is_node.
    destruct (decide (k = id)) as [->|Hk].
    + by rewrite Hr, lookup_insert_eq; simpl; rewrite bool_decide_true.
    + rewrite lookup_insert_ne by done. destruct (tasks d0 !! k); simpl; [|done].
      by rewrite bool_decide_false.
  - split; [done|]. intros id r Hr. by eapply select_ids_nil.
Qed.

(** ** Invalidation *)

Lemma invalidate_many_spec now ids d k :
  let affected := closure (edges d) (rows_where (fun k _ => bool_decide (k ∈ ids)) (tasks d)) in
  tasks (_invalidate_many now ids d).2 !! k =
  (fun r => if bool_decide (k ∈ affected) then reset_row now r else r) <$> tasks d !! k.
Proof. simpl. by rewrite lookup_update_where. Qed.

(** [invalidate] resets exactly the node and the nodes that depend on it,
    directly or not, returns their ids, and leaves every other row as it was. *)
Theorem invalidate_spec now id d affected d' :
  invalidate now id d = (Ok affected, d') ->
  is_Some (tasks d !! id) ->
  (forall k, k ∈ affected <-> rtc (depends (edges d)) id k) /\
  (forall k r, k ∈ affected -> tasks d !! k = Some r -> tasks d' !! k = Some (reset_row now r)) /\
  (forall k, k ∉ affected -> tasks d' !! k = tasks d !! k) /\
  edges d' = edges d /\ checkpoints d' = checkpoints d /\ metadata d' = metadata d.
Proof.
  unfold invalidate, _invalidate_many. intros [= <- <-] [r0 Hr0].
  assert (Hin : forall k, k ∈ sorted_set (closure (edges d)
      (rows_where (fun k _ => bool_decide (k ∈ [id])) (tasks d))) <-> rtc (depends (edges d)) id k).
  { intros k. rewrite sorted_set_elem, closure_spec. split.
    - intros (s & Hs & Hk). apply elem_of_rows_where in Hs as (r & _ & Hs).
      apply bool_decide_eq_true in Hs. by apply list_elem_of_singleton in Hs as ->.
    - intros Hk. exists id. split; [|done]. apply elem_of_rows_where. exists r0. split; [done|].
      apply bool_decide_true. by left. }
  split_and!; [exact Hin| | |done..].
  - intros k r Hk Hr. simpl. rewrite lookup_update_where, Hr. simpl.
    by rewrite bool_decide_true by by apply sorted_set_elem.
  - intros k Hk. simpl. rewrite lookup_update_where. destruct (tasks d !! k); simpl; [|done].
    rewrite bool_decide_false; [done|]. intros Hc. apply Hk. by apply sorted_set_elem.
Qed.

(** ** Reading a task *)

Lemma assert_receipt_same row r r' : assert_receipt_reusable row r = Ok r' -> r' = r.
Proof.
  unfold assert_receipt_reusable, validate_arguments. destruct r as [| | | | | |d]; simpl; try done.
  destruct (decide (wr_input_hash row = [])); simpl; [done|]. rewrite res_bind_ok. intros (e & _ & Hr).
  destruct (get d evidence_key); [destruct (get e _); try done; congruence|..];
    rewrite res_bind_ok in Hr; destruct Hr as (_ & _ & Hr); congruence.
Qed.

Lemma reusable_true id r text :
  reusable id r text = Ok true ->
  exists payload receipt, json_loads (t_payload_json r) = Ok payload /\ json_loads text = Ok receipt /\
    assert_receipt_reusable (WorkRow _ id (t_stage r) (t_input_hash r) payload) receipt = Ok receipt.
Proof.
  unfold reusable. destruct (json_loads (t_payload_json r)) as [payload|e]; simpl; [|by destruct e].
  destruct (json_loads text) as [receipt|e]; simpl; [|by destruct e].
  destruct (assert_receipt_reusable _ receipt) as [r'|e] eqn:Ea; simpl; [|by destruct e].
  intros _. exists payload, receipt. pose proof (assert_receipt_same _ _ _ Ea) as ->. done.
Qed.

Lemma receipt_status_ok id r s :
  _receipt_status id r = Ok s -> s = Valid \/ (exists dg, s = Legacy dg) ->
  exists digest, _verified_receipt_digest (t_receipt_json r) = Ok (Some digest) /\
    digest_matches (t_receipt_hash r) (t_output_hash r) digest = true /\
    reusable id r (text_or_empty (t_receipt_json r)) = Ok true /\
    s = (if has_hash (t_receipt_hash r) then Valid else Legacy digest).
Proof.
  unfold _receipt_status. destruct (decide (t_state r <> SUCCEEDED)); [intros [= <-]; naive_solver|].
  rewrite res_bind_ok. intros ([digest|] & Hd & Hs) Hok; [|injection Hs as <-; naive_solver].
  destruct (digest_matches _ _ digest) eqn:Em; simpl in Hs; [|injection Hs as <-; naive_solver].
  rewrite res_bind_ok in Hs. destruct Hs as ([] & Hu & Hs); injection Hs as <-; [|naive_solver].
  exists digest. by split_and!.
Qed.

Lemma receipt_status_not id r : _receipt_status id r = Ok NotSucceeded -> t_state r <> SUCCEEDED.
Proof.
  unfold _receipt_status. destruct (decide (t_state r <> SUCCEEDED)); [done|].
  rewrite res_bind_ok. intros ([digest|] & _ & Hs); [|done]. destruct (negb _); [done|].
  rewrite res_bind_ok in Hs. destruct Hs as ([] & _ & Hs); [|done]. by destruct (has_hash _).
Qed.

(** A succeeded task is shown only with a receipt that passes the checks: its
    text parses, its digest is the stored one, and the verifier contract of its
    stage accepts it for this very input. *)
Theorem task_succeeded_verified now id d v d' :
  task now alone id d = (Ok v, d') -> t_state (v_row v) = SUCCEEDED ->
  exists digest receipt,
    _verified_receipt_digest (t_receipt_json (v_row v)) = Ok (Some digest) /\
    t_receipt_hash (v_row v) = Some digest /\ tasks d' !! id = Some (v_row v) /\
    json_loads (text_or_empty (t_receipt_json (v_row v))) = Ok receipt /\
    assert_receipt_reusable
      (WorkRow _ id (t_stage (v_row v)) (t_input_hash (v_row v)) (v_payload v)) receipt = Ok receipt.
Proof.
  unfold task. destruct (verified_task_row now alone id d) as [[r|] d1] eqn:Ev; [|done].
  intros Hview Hs. injection Hview as Hv <-.
  assert (v_row v = r /\ json_loads (t_payload_json r) = Ok (v_payload v)) as [Hrow Hpay].
  { unfold view_of in Hv. rewrite res_bind_ok in Hv. destruct Hv as (p & Hp & Hv).
    rewrite res_bind_ok in Hv. destruct Hv as (rc & _ & [= <-]). done. }
  rewrite Hrow in *. clear Hv Hrow.
  unfold verified_task_row, select_task in Ev. destruct (tasks d !! id) as [r0|] eqn:Er; [|done].
  destruct (_receipt_status id r0) as [s|] eqn:Es; [|done]. destruct s as [| |dg|].
  - injection Ev as <- <-. by apply receipt_status_not in Es.
  - exfalso. unfold alone in Ev. change (reset_nodes now (affected_nodes [id] d) d) with (_invalidate_many now [id] d).2 in Ev.
    cbv zeta in Ev. rewrite invalidate_many_spec, Er in Ev. simpl in Ev. rewrite bool_decide_true in Ev.
    + injection Ev as <- <-. done.
    + apply closure_sub, elem_of_rows_where. exists r0. split; [done|]. apply bool_decide_true. by left.
  - destruct (receipt_status_ok _ _ _ Es ltac:(eauto)) as (digest & Hdg & Hm & Hu & Hst).
    destruct (has_hash _); [done|]. injection Hst as ->.
    unfold set_receipt_hash, alone in Ev. simpl in Ev. rewrite lookup_update_where, Er in Ev. simpl in Ev.
    unfold is_node in Ev. rewrite bool_decide_true in Ev by done. injection Ev as <- <-.
    destruct (reusable_true _ _ _ Hu) as (payload & receipt & Hp & Hrc & Ha). simpl in *.
    exists digest, receipt. split_and!; try done.
    + rewrite lookup_update_where, Er. simpl. unfold is_node. by rewrite bool_decide_true.
    + congruence.
  - injection Ev as <- <-.
    destruct (receipt_status_ok _ _ _ Es ltac:(eauto)) as (digest & Hdg & Hm & Hu & Hst).
    destruct (has_hash _) eqn:Eh; [|done].
    destruct (reusable_true _ _ _ Hu) as (payload & receipt & Hp & Hrc & Ha).
    exists digest, receipt. split_and!; try done; [|congruence].
    unfold digest_matches, has_hash, text_or_empty in *. apply bool_decide_eq_true in Eh.
    destruct (t_receipt_hash r0) as [[|c h]|]; try done. simpl in Hm. f_equal. by apply bool_decide_eq_true in Hm.
Qed.

(** ** Completion *)

Lemma canonical_json_total `{!PyFloatLaws} j :
  wf_json j = true -> exists t, canonical_json j = Ok t /\ t <> [] /\ scalar_string t = true.
Proof.
  intros Hwf. rewrite canonical_json_agrees by done.
  destruct (json_canonical_total j Hwf) as (t & Ht & Hs). exists t. split_and!; try done.
  by destruct (json_canonical_head j t Ht) as (c & t' & -> & _).
Qed.

(** The digest of a stored text is the digest of the text itself. *)
Lemma receipt_hash_dumps `{!PyFloatLaws} j t :
  std_wf j = true -> canonical_json j = Ok t -> _receipt_hash t = sha256_text t.
Proof.
  intros Hwf Ht. unfold _receipt_hash. rewrite (json_loads_dumps' j t Hwf Ht).
  by rewrite canonical_json_sorted, Ht.
Qed.

Lemma sha256_text_total t : scalar_string t = true -> exists h, sha256_text t = Ok (u "sha256:" ++ h).
Proof. intros Hs. unfold sha256_text, utf8_encode. unfold scalar_string in Hs. rewrite Hs. by eexists. Qed.

Lemma rowcount_node (id : pystr) (s : WorkState) (m : gmap pystr task_row) r :
  m !! id = Some r -> t_state r = s -> rowcount (node_in_state id s) m = 1%nat.
Proof.
  intros Hr Hs. unfold rowcount. assert (rows_where (node_in_state id s) m = {[id]}) as ->.
  { apply set_eq. intros k. rewrite elem_of_rows_where, elem_of_singleton.
    setoid_rewrite node_in_state_true. naive_solver. }
  apply size_singleton.
Qed.

Lemma update_node (id : pystr) (s : WorkState) (f : task_row -> task_row) (m : gmap pystr task_row) r :
  m !! id = Some r -> t_state r = s -> update_where (node_in_state id s) f m = <[id := f r]> m.
Proof.
  intros Hr Hs. apply map_eq. intros k. rewrite lookup_update_where.
  destruct (decide (k = id)) as [->|Hk].
  - rewrite Hr, lookup_insert_eq. simpl. by rewrite (proj2 (node_in_state_true _ _ _ _)).
  - rewrite lookup_insert_ne by done. destruct (m !! k) as [r'|]; simpl; [|done].
    destruct (node_in_state id s k r') eqn:E; [|done]. by apply node_in_state_true in E as [-> _].
Qed.


(** ** Replanning *)

(** A node of the plan whose stored input is another one. *)
Definition input_changed (d : db) (plan : WorkGraphPlan) (k : pystr) : Prop :=
  exists n r, n ∈ nodes plan /\ node_id n = k /\ tasks d !! k = Some r /\ t_input_hash r <> input_hash n.

(** C27: [sync_plan] makes the tasks and the edges those of the plan, drops the
    others, and resets exactly the nodes whose input changed and the nodes that
    depend on those in the new graph: every other node keeps its state, its
    attempts and its receipt. *)
Theorem sync_plan_spec now plan l d view l' d' :
  sync_plan now plan l d = (Ok (view, l'), d') ->
  l' = Ledger (l_proposal_hash l) (graph_hash plan) /\
  meta d' (u "graph_hash") = graph_hash plan /\ checkpoints d' = checkpoints d /\
  (forall n dep, (n, dep) ∈ edges d' <-> exists nd, nd ∈ nodes plan /\ node_id nd = n /\ dep ∈ dependencies nd) /\
  (forall k, is_Some (tasks d' !! k) <-> k ∈ map node_id (nodes plan)) /\
  (forall k, k ∈ sy_invalidated_nodes view <-> input_changed d plan k) /\
  (forall k, k ∈ sy_pruned_nodes view <-> is_Some (tasks d !! k) /\ k ∉ map node_id (nodes plan)) /\
  exists reset : gset pystr,
    (forall k, k ∈ reset <-> exists c, input_changed d plan c /\ rtc (depends (edges d')) c k) /\
    forall n, n ∈ nodes plan -> exists payload_json,
      canonical_json (JObj (payload n)) = Ok payload_json /\
      tasks d' !! node_id n =
        Some (match tasks d !! node_id n with
              | None => new_row (stage n) (input_hash n) payload_json now
              | Some r => let r' := replanned_row (stage n) (input_hash n) payload_json r in
                          if decide (node_id n ∈ reset) then reset_row now r' else r'
              end).
Proof.
  unfold sync_plan. destruct (decide (proposal_hash plan <> _)) as [|_]; [done|].
  destruct (decide (~ NoDup _)) as [|Hnd]; [done|]. apply dec_stable in Hnd.
  destruct (decide (missing_dependencies plan <> [])) as [|Hm]; [done|].
  unfold op_bind, transaction, sync_plan_tx.
  destruct (res_map_list desired_task (nodes plan)) as [rows|] eqn:Erows; [|done].
  destruct (decide (~ NoDup (plan_edges plan))) as [|_]; [done|]. cbv zeta.
  set (desired := list_to_map rows : gmap pystr _).
  set (changed := rows_where _ (tasks d)).
  set (new_edges := list_to_set (plan_edges plan) : gset _).
  intros Heq. injection Heq as <- <- <-.
  assert (Hdes : forall n, n ∈ nodes plan -> exists pj, canonical_json (JObj (payload n)) = Ok pj /\
    desired !! node_id n = Some (stage n, input_hash n, pj)).
  { intros n Hn. exact (desired_lookup plan rows n Hnd Erows Hn). }
  assert (Hids : forall k, is_Some (desired !! k) <-> k ∈ map node_id (nodes plan)) by (intros k; exact (desired_ids plan rows k Hnd Erows)).
  assert (Hch : forall k, k ∈ changed <-> input_changed d plan k).
  { intros k. unfold changed. rewrite elem_of_rows_where. split.
    - intros (r & Hr & Hk). destruct (desired !! k) as [[[st h] pj]|] eqn:Ek; [|done].
      destruct (desired_dom _ _ _ _ Erows Ek) as (n & pj' & Hn & Hid & [= _ -> _]).
      apply bool_decide_eq_true in Hk. by exists n, r.
    - intros (n & r & Hn & <- & Hr & Hne). exists r. split; [done|].
      destruct (Hdes n Hn) as (pj & _ & ->). by apply bool_decide_true. }
  assert (Hedges : forall n dep, (n, dep) ∈ new_edges <->
    exists nd, nd ∈ nodes plan /\ node_id nd = n /\ dep ∈ dependencies nd).
  { intros n dep. unfold new_edges. rewrite elem_of_list_to_set. apply plan_edges_spec. }
  split_and!; try done.
  - unfold meta. simpl. rewrite lookup_insert_ne by done. by rewrite lookup_insert_eq.
  - intros k. simpl. rewrite lookup_update_where, fmap_is_Some, map_lookup_imap, <- Hids.
    destruct (desired !! k); simpl; split; intros [? ?]; try done; by eexists.
  - intros k. simpl. rewrite sorted_set_elem. apply Hch.
  - intros k. simpl. rewrite elem_of_select_ids, <- Hids. split.
    + intros (r & Hr & Hk). apply bool_decide_eq_true in Hk. rewrite Hk. split; [by eexists|]. by intros [? ?].
    + intros [[r Hr] Hk]. exists r. split; [done|]. apply bool_decide_true. by apply eq_None_not_Some.
  - exists (closure new_edges changed). split.
    + intros k. rewrite closure_spec. by setoid_rewrite Hch.
    + intros n Hn. destruct (Hdes n Hn) as (pj & Hpj & Hd). exists pj. split; [done|]. simpl.
      rewrite lookup_update_where, map_lookup_imap, Hd. simpl.
      destruct (tasks d !! node_id n) as [r|] eqn:Er; [|by case_bool_decide].
      case_bool_decide; case_decide; done.
Qed.
End props.
