(* ===== verification/Checkpoints.v ===== *)
(** * Checkpoints: the run flag, named checkpoints and their reuse *)

From stdpp Require Import prelude gmap sets fin_maps strings list sorting relations.
From S2P Require Import Prelude Text Json JsonStream JsonReader JsonParser JsonRoundtrip.
From S2P Require Import JsonCanonical Sha256 StdJson PyJson ReceiptTruth ReceiptReuse Graph.
From S2P Require Import Tables Ledger LedgerInv LedgerProps.

Open Scope Z_scope.
Open Scope py_scope.

Section checkpoints.
Context `{PyFloat, PyUnicode, !PyRepr, VerifierCode}.

(** ** Cancelling and resuming a run *)

Lemma cancel_message reason :
  exists c m, take error_limit (match strip reason with [] => u "cancelled by user" | m => m end) = c :: m.
Proof. destruct (strip reason) as [|c m]; [by eexists _, _|]. by exists c, (take 16383 m). Qed.

Lemma lookup_cancel_run now reason d k :
  tasks (cancel_run_tx now reason d) !! k =
  (fun r => if decide (t_state r = SUCCEEDED) then r
            else stopped_row CANCELLED (match strip reason with [] => u "cancelled by user" | m => m end) now r)
  <$> tasks d !! k.
Proof.
  unfold cancel_run_tx. simpl. rewrite lookup_update_where. destruct (tasks d !! k) as [r|]; simpl; [|done].
  unfold not_in_state. case_bool_decide; case_decide; done.
Qed.

(** Cancelling a run refuses further work and keeps what has succeeded;
    resuming it puts every other task back in the queue, with its attempts, and
    every unfinished checkpoint in the failed state from which it can start again. *)
Theorem cancel_resume now reason later d :
  let d1 := cancel_run_tx now reason d in
  let d2 := resume_run_tx later d1 in
  raise_if_cancelled d1 = Err (WorkGraphError "Production run is cancelled") /\
  raise_if_cancelled d2 = Ok tt /\ edges d2 = edges d /\
  (forall k r, tasks d !! k = Some r -> exists r2, tasks d2 !! k = Some r2 /\
     t_attempt r2 = t_attempt r /\ t_input_hash r2 = t_input_hash r /\
     if decide (t_state r = SUCCEEDED) then r2 = r
     else t_state r2 = PENDING /\ t_lease_owner r2 = None /\ t_error r2 = None) /\
  (forall k c, checkpoints d !! k = Some c -> exists c2, checkpoints d2 !! k = Some c2 /\
     if decide (c_state c = SUCCEEDED) then c2 = c else c_state c2 = FAILED).
Proof.
  intros d1 d2. split_and!.
  - unfold raise_if_cancelled, d1, cancel_run_tx, meta. simpl. rewrite lookup_insert_eq. simpl.
    destruct (cancel_message reason) as (c & m & ->). done.
  - unfold raise_if_cancelled, d2, resume_run_tx, meta. simpl. by rewrite lookup_delete_eq.
  - done.
  - intros k r Hr. unfold d2, resume_run_tx. simpl. rewrite lookup_update_where.
    change (update_where _ _ (tasks d)) with (tasks d1). unfold d1. rewrite lookup_cancel_run, Hr. simpl.
    eexists; split; [done|]. unfold in_state. case_decide as Hs; [|by simpl].
    rewrite bool_decide_false by congruence. done.
  - intros k c Hc. unfold d2, resume_run_tx, d1, cancel_run_tx. simpl. rewrite !lookup_update_where, Hc. simpl.
    eexists; split; [done|]. case_decide as Hs.
    + rewrite (bool_decide_false (c_state c <> SUCCEEDED)) by tauto.
      by rewrite bool_decide_false by congruence.
    + by rewrite (bool_decide_true (c_state c <> SUCCEEDED)).
Qed.

(** ** One attempt at a time *)

Lemma rowcount_checkpoint (id ih : pystr) (s : WorkState) (m : gmap pystr checkpoint_row) c :
  m !! id = Some c ->
  rowcount (checkpoint_at id ih s) m =
    (if decide (c_input_hash c = ih /\ c_state c = s) then 1 else 0)%nat.
Proof.
  intros Hc. unfold rowcount.
  assert (forall k c', m !! k = Some c' -> checkpoint_at id ih s k c' = true <->
    k = id /\ c_input_hash c = ih /\ c_state c = s) as Hat.
  { intros k c' Hc'. unfold checkpoint_at. rewrite !andb_true_iff, !bool_decide_eq_true.
    split; [intros [[-> ?] ?]|intros (-> & ? & ?)]; assert (c' = c) as -> by congruence; done. }
  case_decide as Hd.
  - assert (rows_where (checkpoint_at id ih s) m = {[id]}) as ->; [|apply size_singleton].
    apply set_eq. intros k. rewrite elem_of_rows_where, elem_of_singleton. split.
    + intros (c' & Hc' & Hk). by apply (Hat _ _ Hc') in Hk as [-> _].
    + intros ->. exists c. split; [done|]. by apply Hat.
  - assert (rows_where (checkpoint_at id ih s) m = ∅) as ->; [|apply size_empty].
    apply set_eq. intros k. rewrite elem_of_rows_where. split; [|set_solver].
    intros (c' & Hc' & Hk). by apply (Hat _ _ Hc') in Hk as [_ ?].
Qed.

Lemma update_checkpoint (id ih : pystr) (s : WorkState) (f : checkpoint_row -> checkpoint_row) (m : gmap pystr checkpoint_row) c :
  m !! id = Some c -> c_input_hash c = ih -> c_state c = s ->
  update_where (checkpoint_at id ih s) f m = <[id := f c]> m.
Proof.
  intros Hc Hh Hs. apply map_eq. intros k. rewrite lookup_update_where. unfold checkpoint_at.
  destruct (decide (k = id)) as [->|Hk].
  - rewrite Hc, lookup_insert_eq. simpl. by rewrite !bool_decide_true.
  - rewrite lookup_insert_ne by done. destruct (m !! k); simpl; [|done]. by rewrite bool_decide_false.
Qed.

(** A checkpoint has one running attempt.  [begin_checkpoint] starts one
    exactly when there is none and this input was neither completed nor
    cancelled; while it runs every other start is refused and changes nothing,
    and only its own input can complete it. *)
Theorem begin_checkpoint_exclusive now id stage input_hash d d' :
  begin_checkpoint now id stage input_hash d = (Ok tt, d') ->
  (forall c, checkpoints d !! id = Some c -> c_state c <> RUNNING /\
     (c_input_hash c = input_hash -> c_state c <> SUCCEEDED /\ c_state c <> CANCELLED)) /\
  checkpoints d' = <[id := Checkpoint stage input_hash RUNNING
                             (match checkpoints d !! id with Some c => c_attempt c + 1 | None => 1 end)
                             None None None None now]> (checkpoints d) /\
  (forall now' stage' hash', exists why,
     begin_checkpoint now' id stage' hash' d' = (Err (WorkGraphError why), d')) /\
  (forall now' hash' receipt, hash' <> input_hash ->
     is_ok (succeed_checkpoint now' id hash' receipt d').1 = false).
Proof.
  intros Hb. assert (Hrow :
    (forall c, checkpoints d !! id = Some c -> c_state c <> RUNNING /\
       (c_input_hash c = input_hash -> c_state c <> SUCCEEDED /\ c_state c <> CANCELLED)) /\
    checkpoints d' = <[id := Checkpoint stage input_hash RUNNING
                               (match checkpoints d !! id with Some c => c_attempt c + 1 | None => 1 end)
                               None None None None now]> (checkpoints d)).
  { unfold begin_checkpoint in Hb. rewrite transaction_ok in Hb. unfold begin_checkpoint_tx in Hb.
    destruct (checkpoints d !! id) as [c|] eqn:Ec; [|by injection Hb as <-].
    destruct (decide (c_input_hash c = input_hash /\ c_state c = SUCCEEDED)) as [|N1]; [done|].
    destruct (decide (c_input_hash c = input_hash /\ c_state c = RUNNING)) as [|N2]; [done|].
    destruct (decide (c_input_hash c = input_hash /\ c_state c = CANCELLED)) as [|N3]; [done|].
    destruct (decide (c_input_hash c <> input_hash /\ c_state c = RUNNING)) as [|N4]; [done|].
    destruct (decide (rowcount _ _ <> _)); [done|]. injection Hb as <-. split.
    - intros c' [= <-]. destruct (decide (c_input_hash c = input_hash)); naive_solver.
    - unfold update_checkpoints. simpl. by rewrite (update_checkpoint _ _ _ _ _ c). }
  destruct Hrow as [Hpre Hrow]. split_and!; [done|done| |].
  - intros now' stage' hash'. unfold begin_checkpoint, transaction, begin_checkpoint_tx.
    rewrite Hrow, lookup_insert_eq. simpl.
    rewrite decide_False by naive_solver. case_decide; [by eexists|].
    rewrite decide_False by naive_solver. rewrite decide_True by naive_solver. by eexists.
  - intros now' hash' receipt Hne. unfold succeed_checkpoint. destruct (let* rendered := _ in _) as [[]|]; [|done].
    rewrite decide_True; [done|]. rewrite Hrow. erewrite rowcount_checkpoint by apply lookup_insert_eq. simpl.
    rewrite decide_False; [done|]. naive_solver.
Qed.

(** ** Work is not repeated *)

Lemma succeed_checkpoint_ok `{!PyFloatLaws} now id ih receipt d d' :
  wf_json receipt = true -> succeed_checkpoint now id ih receipt d = (Ok tt, d') ->
  exists c text hash, canonical_json receipt = Ok text /\ text <> [] /\ _receipt_hash text = Ok hash /\
    hash <> [] /\ checkpoints d !! id = Some c /\ c_input_hash c = ih /\ c_state c = RUNNING /\
    checkpoints d' = <[id := succeeded_checkpoint text hash now c]> (checkpoints d) /\
    tasks d' = tasks d /\ metadata d' = metadata d.
Proof.
  intros Hwf. unfold succeed_checkpoint.
  destruct (canonical_json_total receipt Hwf) as (text & Ht & Hne & Hsc). rewrite Ht. cbn [res_bind].
  rewrite (receipt_hash_dumps _ _ (wf_json_std _ Hwf) Ht).
  destruct (sha256_text_total text Hsc) as [h Hh]. rewrite Hh. cbn [res_bind].
  destruct (decide (rowcount _ _ = 0%nat)) as [|Hrow]; [done|]. intros Hd. injection Hd as <-.
  destruct (checkpoints d !! id) as [c|] eqn:Ec.
  2: { exfalso. apply Hrow. unfold rowcount.
       assert (rows_where (checkpoint_at id ih RUNNING) (checkpoints d) = ∅) as ->; [|apply size_empty].
       apply set_eq. intros k. rewrite elem_of_rows_where. split; [|set_solver].
       intros (c & Hc & Hk). unfold checkpoint_at in Hk. rewrite !andb_true_iff, !bool_decide_eq_true in Hk.
       destruct Hk as [[-> _] _]. congruence. }
  rewrite (rowcount_checkpoint _ _ _ _ _ Ec) in Hrow. case_decide as Hc; [|done]. destruct Hc as [Hih Hs].
  exists c, text, (u "sha256:" ++ h). rewrite (receipt_hash_dumps _ _ (wf_json_std _ Hwf) Ht), Hh.
  split_and!; try done. unfold update_checkpoints. simpl.
  by rewrite (update_checkpoint id ih RUNNING _ _ c).
Qed.

Lemma cached_checkpoint_hit `{!PyFloatLaws} now later id ih receipt d d' :
  wf_json receipt = true -> succeed_checkpoint now id ih receipt d = (Ok tt, d') ->
  cached_checkpoint later alone id ih d' = (Ok (Some (json_sorted receipt)), d').
Proof.
  intros Hwf Hok. destruct (succeed_checkpoint_ok _ _ _ _ _ _ Hwf Hok)
    as (c & text & hash & Ht & Hne & Hh & Hhne & Hc & Hih & Hs & Hd' & _ & _).
  unfold cached_checkpoint, verified_checkpoint_row. rewrite Hd', lookup_insert_eq. cbn [c_state succeeded_checkpoint].
  rewrite decide_False by (intros Hx; by apply Hx).
  unfold checkpoint_digest. cbn [c_receipt_json c_receipt_hash c_output_hash succeeded_checkpoint].
  assert (_verified_receipt_digest (Some text) = Ok (Some hash)) as ->.
  { unfold _verified_receipt_digest. destruct text; [done|]. by rewrite Hh. }
  assert (digest_matches (Some hash) (Some hash) hash = true /\ has_hash (Some hash) = true) as [Hm Hhash].
  { unfold digest_matches, has_hash. simpl. split; [|by apply bool_decide_true].
    destruct hash; [done|]. by apply bool_decide_true. }
  cbn [res_bind]. rewrite Hm, Hhash. cbn [c_state succeeded_checkpoint c_input_hash c_receipt_json].
  rewrite (bool_decide_false (SUCCEEDED <> SUCCEEDED)) by (intros Hx; by apply Hx).
  rewrite bool_decide_false by tauto. simpl.
  destruct text as [|x text]; [done|].
  by rewrite (json_loads_dumps' _ _ (wf_json_std _ Hwf) Ht).
Qed.

(** A completed checkpoint is not run again: for the same input
    [run_named_checkpoint] returns what the stored receipt decodes to, does not
    call the action and changes nothing. *)
Theorem run_named_checkpoint_cached `{!PyFloatLaws} {T} (exn_text : exn -> pystr) (encode : T -> res json)
    (decode : json -> res T) now before later env id stage input_value input_hash receipt d d' value
    validate_cached :
  (let* t := canonical_json input_value in sha256_text t) = Ok input_hash ->
  wf_json receipt = true ->
  succeed_checkpoint before id input_hash receipt d = (Ok tt, d') ->
  decode (json_sorted receipt) = Ok value ->
  (forall v, validate_cached = Some v -> v value = true) ->
  raise_if_cancelled d' = Ok tt ->
  forall action : db_op db T,
    run_named_checkpoint exn_text encode decode now later env id stage input_value action validate_cached d' =
    (Ok value, d').
Proof.
  intros Hin Hwf Hok Hdec Hval Hrun action. unfold run_named_checkpoint. rewrite Hrun, Hin.
  unfold op_bind at 1. rewrite (cached_checkpoint_hit _ _ _ _ _ _ _ Hwf Hok).
  unfold op_bind, lift. rewrite Hdec.
  destruct validate_cached as [v|]; [by rewrite (Hval v eq_refl)|done].
Qed.
End checkpoints.
