(* ===== verification/Scheduler.v ===== *)
(** * Scheduler: [scheduler_parallel_safety_contract.py] and
    [scheduler_claim_fencing_contract.py]

    The lane-aware claim of the orchestrator, the renewal of its leases, and the
    publication of a result under the claim it was computed for. *)

From stdpp Require Import prelude gmap sets fin_maps strings list sorting.
From S2P Require Import Prelude Text Json JsonStream JsonReader JsonParser JsonRoundtrip.
From S2P Require Import JsonCanonical Sha256 StdJson PyJson ReceiptTruth Graph Tables Ledger.

Open Scope Z_scope.
Open Scope py_scope.

Section scheduler.
Context `{PyFloat, PyUnicode, !PyRepr, VerifierCode}.

(** ** Lanes *)

(** [_positive_int] of a string, and of an integer. *)
Definition positive_of_str (value : option pystr) : option Z :=
  match value with
  | None => None
  | Some s => match int_of_str (strip s) with
              | Ok n => if 0 <? n then Some n else None
              | Err _ => None
              end
  end.

Definition positive_of_int (value : option Z) : option Z :=
  match value with Some n => if 0 <? n then Some n else None | None => None end.

(** [recommended_cpu_io_workers]: the variable [MMM_CPU_IO_WORKERS], the
    argument and [os.cpu_count()]. *)
Definition recommended_cpu_io_workers (variable : option pystr) (cpu_count os_cpu_count : option Z) : Z :=
  match positive_of_str variable with
  | Some n => n
  | None =>
      let logical := match positive_of_int cpu_count with
                     | Some n => n
                     | None => default 2 (positive_of_int os_cpu_count)
                     end in
      if logical <=? 2 then logical else logical - 1
  end.

(** [_RESOURCE_CAPACITIES], which the LLM runtime rewrites at start-up. *)
Definition resource_capacities : list (pystr * Z) :=
  [(u "llm", 1); (u "image_gpu", 1); (u "commit", 1)].

Definition capacities (cpu : Z) (resources : list (pystr * Z)) : list (pystr * Z) :=
  (u "cpu_io", cpu) :: resources.

Definition resource_priority (lane : pystr) : Z :=
  if decide (lane = u "llm") then 0
  else if decide (lane = u "image_gpu") then 1
  else if decide (lane = u "cpu_io") then 2
  else if decide (lane = u "commit") then 3
  else 9.

Definition serial_cpu_stages : list pystr :=
  [u "generate:content"; u "generate:system"; u "generate:entity"; u "generate:host"].

(** [_resource_sql]: [json_extract] of the payload, which [canonical_json] wrote. *)
Definition resource_of (r : task_row) : pystr :=
  match json_loads (t_payload_json r) with
  | Ok (JObj d) =>
      match get d (u "resource_class") with
      | JStr s => if bool_decide (s ∈ [u "llm"; u "image_gpu"; u "commit"]) then s else u "cpu_io"
      | _ => u "cpu_io"
      end
  | _ => u "cpu_io"
  end.

(** [stage LIKE 'generate:%'] *)
Definition like_generate (s : pystr) : bool := starts_with (u "generate:") (ascii_lower s).

Definition running_in (lane : pystr) : pystr -> task_row -> bool := fun _ r =>
  bool_decide (t_state r = RUNNING) && like_generate (t_stage r) && bool_decide (resource_of r = lane).

Definition running_count (d : db) (lane : pystr) : Z := Z.of_nat (rowcount (running_in lane) (tasks d)).

(** ** Admission: [ready_node_id] *)

Definition capacity_of (caps : list (pystr * Z)) (lane : pystr) : Z :=
  Z.max 1 (default 1 (dict_get lane caps)).

Definition free_lane (caps : list (pystr * Z)) (shared : bool) (d : db) (lane : pystr) : bool :=
  (running_count d lane <? capacity_of caps lane) &&
  negb (shared && bool_decide (lane = u "llm") && (0 <? running_count d (u "image_gpu"))) &&
  negb (shared && bool_decide (lane = u "image_gpu") && (0 <? running_count d (u "llm"))).

Definition free_lanes (caps : list (pystr * Z)) (shared : bool) (d : db) : list pystr :=
  filter (fun lane => free_lane caps shared d lane = true) (map fst caps).

(** A stage that mutates a registry has one running task. *)
Definition stage_is_busy (d : db) (s : pystr) : bool :=
  bool_decide (s ∈ serial_cpu_stages) &&
  exists_row (fun _ r => bool_decide (t_state r = RUNNING) && bool_decide (t_stage r = s)) (tasks d).

Definition ready_in_lane (d : db) (stages : list pystr) (lane : pystr) : pystr -> task_row -> bool := fun k r =>
  ready_task d stages k r && negb (stage_is_busy d (t_stage r)) && bool_decide (resource_of r = lane).

(** The first ready task of each free lane. *)
Definition lane_heads (caps : list (pystr * Z)) (shared : bool) (stages : list pystr) (d : db)
    : list (pystr * pystr) :=
  omap (fun lane => id ← head (select_ids (ready_in_lane d stages lane) (tasks d)); Some (id, lane))
    (free_lanes caps shared d).

(** [(running / capacity, priority, id)]: the quotients of counts are compared
    as fractions. *)
Definition lane_before (caps : list (pystr * Z)) (d : db) (a b : pystr * pystr) : bool :=
  let load_a := running_count d a.2 * capacity_of caps b.2 in
  let load_b := running_count d b.2 * capacity_of caps a.2 in
  let pa := resource_priority a.2 in
  let pb := resource_priority b.2 in
  (load_a <? load_b) ||
  ((load_a =? load_b) && ((pa <? pb) || ((pa =? pb) && str_leb a.1 b.1))).

Definition best_head (caps : list (pystr * Z)) (d : db) (l : list (pystr * pystr)) : option (pystr * pystr) :=
  fold_left (fun best x => match best with
                           | None => Some x
                           | Some b => if lane_before caps d b x then Some b else Some x
                           end) l None.

Definition ready_node_id (caps : list (pystr * Z)) (shared : bool) (stages : list pystr) (d : db)
    : option pystr := fst <$> best_head caps d (lane_heads caps shared stages d).

(** ** [claim_orchestrator_ready] and [renew_orchestrator_claims] *)

Definition owned_by (owner : pystr) (r : task_row) : bool := bool_decide (t_lease_owner r = Some owner).

Definition expired_owned (now : Z) (owner : pystr) : pystr -> task_row -> bool := fun _ r =>
  bool_decide (t_state r = RUNNING) && owned_by owner r && lease_expired now r && like_generate (t_stage r).

Definition lease_between (low high : Z) (r : task_row) : bool :=
  match t_lease_until r with Some t => (low <=? t) && (t <=? high) | None => false end.

Definition renewed_row (until now : Z) (r : task_row) : task_row :=
  Task (t_stage r) (t_input_hash r) (t_payload_json r) (t_state r) (t_attempt r) (t_lease_owner r)
    (Some until) (t_output_hash r) (t_receipt_json r) (t_receipt_hash r) (t_error r) now.

Definition renew_before (now lease_seconds : Z) : Z := now + Z.max second (lease_seconds * second / 2).

Definition maintenance_due (now lease_seconds : Z) (owner : pystr) (d : db) : bool :=
  exists_row (fun _ r => bool_decide (t_state r = RUNNING) &&
    (lease_expired now r || (owned_by owner r && lease_between now (renew_before now lease_seconds) r))) (tasks d).

Definition renew_owned (now lease_seconds : Z) (owner : pystr) (d : db) : db :=
  set_tasks (update_where (fun _ r => bool_decide (t_state r = RUNNING) && owned_by owner r &&
      lease_between now (renew_before now lease_seconds) r)
    (renewed_row (now + lease_seconds * second) now) (tasks d)) d.

Definition expire_others (now : Z) (owner : pystr) (d : db) : db :=
  set_tasks (update_where (fun _ r => bool_decide (t_state r = RUNNING) && lease_expired now r &&
      negb (owned_by owner r)) (expired_row now) (tasks d)) d.

Definition claim_orchestrator_tx (now : Z) (owner : pystr) (caps : list (pystr * Z)) (shared : bool)
    (stages : list pystr) (lease_seconds : Z) : db_op db (option pystr) := fun d =>
  if exists_row (expired_owned now owner) (tasks d)
  then (graph_error "Current orchestrator lease expired while its local worker may still be active", d)
  else
    let d := expire_others now owner (renew_owned now lease_seconds owner d) in
    match ready_node_id caps shared stages d with
    | None => (Ok None, d)
    | Some id =>
        if decide (rowcount (node_in_state id PENDING) (tasks d) <> 1%nat) then (Ok None, d)
        else (Ok (Some id),
              set_tasks (update_where (node_in_state id PENDING)
                (claimed_row owner (Some (now + lease_seconds * second)) now) (tasks d)) d)
    end.

Definition claim_orchestrator_ready (first_now now : Z) (env : db -> db) (owner : pystr)
    (caps : list (pystr * Z)) (shared : bool) (stages : list pystr) (lease_seconds : Z)
    : db_op db (option task_view) := fun d =>
  if lease_seconds <? 1 then (graph_error "lease_seconds must be positive.", d)
  else if negb (maintenance_due first_now lease_seconds owner d) &&
          negb (exists_row (in_state PENDING) (tasks d)) then (Ok None, d)
  else
    op_bind (transaction (claim_orchestrator_tx now owner caps shared stages lease_seconds)) (fun claimed =>
      match claimed with
      | None => fun d => (Ok None, d)
      | Some id => op_bind (task now alone id) (fun v d => (Ok (Some v), d))
      end) (env d).

Definition renew_orchestrator_claims_tx (now : Z) (owner : pystr) (lease_seconds : Z) : db_op db nat := fun d =>
  if exists_row (expired_owned now owner) (tasks d)
  then (graph_error "Current orchestrator lease expired while its local worker may still be active", d)
  else
    let live := fun (_ : pystr) r => bool_decide (t_state r = RUNNING) && owned_by owner r &&
      match t_lease_until r with Some t => now <=? t | None => false end && like_generate (t_stage r) in
    (Ok (rowcount live (tasks d)),
     set_tasks (update_where live (renewed_row (now + lease_seconds * second) now) (tasks d)) d).

Definition renew_orchestrator_claims (now : Z) (owner : pystr) (lease_seconds : Z) : db_op db nat := fun d =>
  if lease_seconds <? 1 then (graph_error "lease_seconds must be positive.", d)
  else transaction (renew_orchestrator_claims_tx now owner lease_seconds) d.

(** [DurableWorkLedger.claim_ready]: the orchestrator goes through the lanes. *)
Definition claim_ready (first_now now : Z) (env : db -> db) (owner : pystr) (caps : list (pystr * Z))
    (shared : bool) (worker_id : pystr) (stages : list pystr) (lease_seconds : Z)
    : db_op db (option task_view) := fun d =>
  if decide (strip worker_id = []) then (graph_error "worker_id must not be empty.", d)
  else if lease_seconds <? 1 then (graph_error "lease_seconds must be positive.", d)
  else if decide (worker_id = u "mmm-orchestrator")
  then claim_orchestrator_ready first_now now env owner caps shared stages lease_seconds d
  else
    op_bind (transaction (claim_ready_tx now worker_id stages lease_seconds)) (fun claimed =>
      match claimed with
      | None => fun d => (Ok None, d)
      | Some id => op_bind (task now alone id) (fun v d => (Ok (Some v), d))
      end) d.

(** ** Fenced publication *)

Definition _snapshot_claim (now : Z) (id : pystr) : db_op db (Z * pystr) := fun d =>
  match task now alone id d with
  | (Err e, d) => (Err e, d)
  | (Ok v, d) =>
      (let r := v_row v in
       if decide (t_state r <> RUNNING) then graph_error "Work node is not running while capturing its claim"
       else if t_attempt r <? 1 then graph_error "Work node has an invalid running attempt."
       else match t_lease_owner r with
            | Some (c :: owner) => Ok (t_attempt r, c :: owner)
            | _ => graph_error "Work node has no running owner."
            end, d)
  end.

(** The row is running for this very claim. *)
Definition holds_claim (id : pystr) (attempt : Z) (owner : pystr) : pystr -> task_row -> bool := fun k r =>
  bool_decide (k = id) && bool_decide (t_state r = RUNNING) && (t_attempt r =? attempt) && owned_by owner r.

Definition _fenced_fail (now : Z) (id : pystr) (attempt : Z) (owner error : pystr) (d : db) : db :=
  if decide (rowcount (holds_claim id attempt owner) (tasks d) <> 1%nat) then d
  else set_tasks (update_where (holds_claim id attempt owner) (stopped_row FAILED error now) (tasks d)) d.

Definition committed_row (digest rendered : pystr) (now : Z) (r : task_row) : task_row :=
  Task (t_stage r) (t_input_hash r) (t_payload_json r) SUCCEEDED (t_attempt r) None None
    (Some digest) (Some rendered) (t_receipt_hash r) None now.

Definition claim_is_current (id : pystr) (attempt : Z) (owner : pystr) (d : db) : bool :=
  match tasks d !! id with Some r => holds_claim id attempt owner id r | None => false end.

(** [index] is the refresh of the shared project index with the paths of the
    receipt: an exception of it is raised as [index_error_type]. *)
Definition _commit_success (now : Z) (env : db -> db) (index : json -> res unit) (id : pystr)
    (receipt : json) (attempt : Z) (owner : pystr) : db_op db unit := fun d =>
  match canonical_json receipt with
  | Err e => (Err e, d)
  | Ok rendered =>
  match sha256_text rendered with
  | Err e => (Err e, d)
  | Ok digest =>
      if negb (claim_is_current id attempt owner d) then (graph_error "Stale worker claim rejected", d)
      else match index receipt with
      | Err _ => (Err (RuntimeError "Shared ProjectIndex commit failed"), d)
      | Ok _ =>
          let d := env d in
          if negb (claim_is_current id attempt owner d) then (graph_error "Stale worker claim rejected", d)
          else if decide (rowcount (holds_claim id attempt owner) (tasks d) <> 1%nat)
          then (graph_error "Work claim changed while succeeding", d)
          else (Ok tt, set_tasks (update_where (holds_claim id attempt owner)
                         (committed_row digest rendered now) (tasks d)) d)
      end
  end
  end.
End scheduler.
