(* ===== verification/SchedulerProps.v ===== *)
(** * SchedulerProps: what the lane-aware claim and the fenced publication do *)

From stdpp Require Import prelude gmap sets fin_maps strings list sorting relations.
From S2P Require Import Prelude Text Json JsonStream JsonReader JsonParser JsonRoundtrip.
From S2P Require Import JsonCanonical Sha256 StdJson PyJson ReceiptTruth Graph Tables Ledger.
From S2P Require Import LedgerInv LedgerProps Scheduler.

Open Scope Z_scope.
Open Scope py_scope.

(** ** Counting rows *)

Section counting.
Context {V : Type}.
Implicit Types (p : pystr -> V -> bool) (m : gmap pystr V).

Lemma rowcount_le p q m m' :
  (forall k v, m !! k = Some v -> p k v = true -> exists v', m' !! k = Some v' /\ q k v' = true) ->
  (rowcount p m <= rowcount q m')%nat.
Proof.
  intros Hs. apply subseteq_size. intros k (v & Hv & Hp)%elem_of_rows_where.
  apply elem_of_rows_where. eauto.
Qed.

Lemma rowcount_insert p m k v : (rowcount p (<[k := v]> m) <= S (rowcount p m))%nat.
Proof.
  unfold rowcount. transitivity (size ({[k]} ∪ rows_where p m)).
  - apply subseteq_size. intros k' (v' & Hv' & Hp)%elem_of_rows_where.
    apply lookup_insert_Some in Hv' as [[<- _]|[_ Hv']]; [set_solver|].
    apply elem_of_union_r, elem_of_rows_where. eauto.
  - destruct (decide (k ∈ rows_where p m)).
    + assert ({[k]} ∪ rows_where p m = rows_where p m) as -> by set_solver. lia.
    + rewrite size_union by set_solver. rewrite size_singleton. lia.
Qed.

Lemma rowcount_insert_out p m k v : p k v = false -> (rowcount p (<[k := v]> m) <= rowcount p m)%nat.
Proof.
  intros Hf. apply rowcount_le. intros k' v' Hv' Hp.
  apply lookup_insert_Some in Hv' as [[<- <-]|[_ Hv']]; [congruence|eauto].
Qed.

Lemma rowcount_zero p m : rowcount p m = 0%nat <-> forall k v, m !! k = Some v -> p k v = false.
Proof.
  unfold rowcount. rewrite size_empty_iff. split.
  - intros Hz k v Hv. destruct (p k v) eqn:E; [|done]. exfalso.
    assert (k ∈ rows_where p m) by (apply elem_of_rows_where; eauto). set_solver.
  - intros Hf k. rewrite elem_of_rows_where. split; [|set_solver]. intros (v & Hv & Hp).
    by rewrite (Hf k v Hv) in Hp.
Qed.
End counting.

Section props.
Context `{PyFloat, PyUnicode, !PyRepr, VerifierCode}.

(** ** The chosen lane *)

Lemma capacity_pos caps lane : 1 <= capacity_of caps lane.
Proof. unfold capacity_of. lia. Qed.

Lemma lane_before_spec caps d a b :
  lane_before caps d a b = true <->
  running_count d a.2 * capacity_of caps b.2 < running_count d b.2 * capacity_of caps a.2 \/
  running_count d a.2 * capacity_of caps b.2 = running_count d b.2 * capacity_of caps a.2 /\
  (resource_priority a.2 < resource_priority b.2 \/
   resource_priority a.2 = resource_priority b.2 /\ str_le a.1 b.1).
Proof.
  unfold lane_before. cbv zeta. rewrite orb_true_iff, andb_true_iff, orb_true_iff, andb_true_iff, !Z.ltb_lt, !Z.eqb_eq.
  done.
Qed.

Lemma lane_before_refl caps d a : lane_before caps d a a = true.
Proof. apply lane_before_spec. right. split; [done|]. right. split; [done|]. apply str_leb_refl. Qed.

Lemma lane_before_total caps d a b : lane_before caps d a b = false -> lane_before caps d b a = true.
Proof.
  rewrite <- not_true_iff_false, !lane_before_spec.
  set (x := running_count d a.2 * _). set (y := running_count d b.2 * _).
  destruct (Z.lt_trichotomy x y) as [?|[?|?]]; [tauto| |tauto].
  destruct (Z.lt_trichotomy (resource_priority a.2) (resource_priority b.2)) as [?|[?|?]];
    [tauto| |intros _; right; split; [done|by left]].
  destruct (str_leb_total a.1 b.1); unfold str_le in *; intros Hn; [exfalso; apply Hn|]; right; split; try done; right; done.
Qed.

Lemma load_trans x y z cx cy cz :
  1 <= cx -> 1 <= cy -> 1 <= cz -> x * cy <= y * cx -> y * cz <= z * cy ->
  x * cz <= z * cx /\ (x * cz = z * cx -> x * cy = y * cx /\ y * cz = z * cy).
Proof.
  intros Hx Hy Hz B1 B2.
  assert (x * cy * cz <= y * cx * cz) as E1 by nia.
  assert (y * cz * cx <= z * cy * cx) as E2 by nia.
  split; [nia|]. intros He.
  assert (x * cy * cz = z * cx * cy) as E3 by (rewrite <- He; ring).
  assert (x * cy * cz = y * cx * cz) as E4 by nia.
  assert (y * cz * cx = z * cy * cx) as E5 by nia. split; nia.
Qed.

Lemma lane_before_trans caps d a b c :
  lane_before caps d a b = true -> lane_before caps d b c = true -> lane_before caps d a c = true.
Proof.
  rewrite !lane_before_spec. intros B1 B2.
  pose proof (capacity_pos caps a.2) as Pa. pose proof (capacity_pos caps b.2) as Pb.
  pose proof (capacity_pos caps c.2) as Pc.
  destruct (load_trans (running_count d a.2) (running_count d b.2) (running_count d c.2)
    _ _ _ Pa Pb Pc) as [Hle Heq]; [lia|lia|].
  destruct (decide (running_count d a.2 * capacity_of caps c.2 = running_count d c.2 * capacity_of caps a.2))
    as [E|E]; [|left; lia].
  right. split; [done|]. destruct (Heq E) as [E1 E2].
  destruct B1 as [B1|[_ B1]]; [lia|]. destruct B2 as [B2|[_ B2]]; [lia|].
  destruct B1 as [?|[? S1]]; [left; destruct B2 as [?|[? _]]; lia|].
  destruct B2 as [?|[? S2]]; [left; lia|]. right. split; [lia|]. by eapply str_leb_trans.
Qed.

(** [min(.., key=..)] *)
Lemma best_head_spec caps d l x :
  best_head caps d l = Some x -> x ∈ l /\ forall y, y ∈ l -> lane_before caps d x y = true.
Proof.
  unfold best_head. destruct l as [|b l]; [done|]. simpl.
  revert b. induction l as [|y l IH]; intros b; simpl.
  - intros [= ->]. split; [by left|]. intros y ->%list_elem_of_singleton. apply lane_before_refl.
  - destruct (lane_before caps d b y) eqn:E; intros Hx; apply IH in Hx as [Hin Hmin].
    + split; [set_solver|]. intros z Hz. apply elem_of_cons in Hz as [->|Hz]; [by apply Hmin; left|].
      apply elem_of_cons in Hz as [->|Hz]; [|by apply Hmin; right].
      eapply lane_before_trans; [by apply Hmin; left|done].
    + split; [set_solver|]. intros z Hz. apply elem_of_cons in Hz as [->|Hz]; [|by apply Hmin].
      eapply lane_before_trans; [by apply Hmin; left|]. by apply lane_before_total.
Qed.

Lemma best_head_none caps d l : best_head caps d l = None -> l = [].
Proof.
  unfold best_head. destruct l as [|x l]; [done|]. intros Hn. exfalso. simpl in Hn. revert x Hn.
  induction l as [|y l IH]; intros b; simpl; [done|].
  destruct (lane_before _ _ _ _); apply IH.
Qed.

Lemma lane_heads_spec caps shared stages d id lane :
  (id, lane) ∈ lane_heads caps shared stages d <->
  lane ∈ free_lanes caps shared d /\ head (select_ids (ready_in_lane d stages lane) (tasks d)) = Some id.
Proof.
  unfold lane_heads. rewrite list_elem_of_omap. split.
  - intros (l & Hl & Hh). apply bind_Some in Hh as (id' & Hh & [= <- <-]). done.
  - intros [Hl Hh]. exists lane. by rewrite Hh.
Qed.

Lemma free_lanes_spec caps shared d lane :
  lane ∈ free_lanes caps shared d <-> lane ∈ map fst caps /\ free_lane caps shared d lane = true.
Proof. unfold free_lanes. rewrite list_elem_of_filter. tauto. Qed.

Lemma ready_in_lane_true d stages lane k r :
  ready_in_lane d stages lane k r = true <->
  ready_task d stages k r = true /\ stage_is_busy d (t_stage r) = false /\ resource_of r = lane.
Proof. unfold ready_in_lane. rewrite !andb_true_iff, negb_true_iff, bool_decide_eq_true. tauto. Qed.

Lemma free_lane_true caps shared d lane :
  free_lane caps shared d lane = true <->
  running_count d lane < capacity_of caps lane /\
  (shared = true -> lane = u "llm" -> running_count d (u "image_gpu") = 0) /\
  (shared = true -> lane = u "image_gpu" -> running_count d (u "llm") = 0).
Proof.
  unfold free_lane. rewrite !andb_true_iff, !negb_true_iff, !andb_false_iff, !bool_decide_eq_false, Z.ltb_lt, !Z.ltb_ge.
  assert (forall l, 0 <= running_count d l) as Hp by (intros l; unfold running_count; lia).
  pose proof (Hp (u "image_gpu")). pose proof (Hp (u "llm")).
  split.
  - intros [[Hc Hi] Hl]. split_and!; [done| |]; intros -> ->; destruct Hi as [[?|?]|?], Hl as [[?|?]|?]; try done; lia.
  - intros (Hc & Hi & Hl). split_and!; [done| |].
    + destruct shared; [|by left; left]. destruct (decide (lane = u "llm")); [|by left; right].
      right. rewrite Hi by done. lia.
    + destruct shared; [|by left; left]. destruct (decide (lane = u "image_gpu")); [|by left; right].
      right. rewrite Hl by done. lia.
Qed.
(** ** The claim *)

Definition settle (now lease_seconds : Z) (owner : pystr) (d : db) : db :=
  expire_others now owner (renew_owned now lease_seconds owner d).

Lemma claim_found now owner caps shared stages lease d id d' :
  claim_orchestrator_tx now owner caps shared stages lease d = (Ok (Some id), d') ->
  let d0 := settle now lease owner d in
  exists_row (expired_owned now owner) (tasks d) = false /\
  exists r lane, tasks d0 !! id = Some r /\ ready_in_lane d0 stages lane id r = true /\
    lane ∈ map fst caps /\ free_lane caps shared d0 lane = true /\
    (forall id' r', tasks d0 !! id' = Some r' -> ready_in_lane d0 stages lane id' r' = true -> str_le id id') /\
    (forall h, h ∈ lane_heads caps shared stages d0 -> lane_before caps d0 (id, lane) h = true) /\
    d' = set_tasks (<[id := claimed_row owner (Some (now + lease * second)) now r]> (tasks d0)) d0.
Proof.
  unfold claim_orchestrator_tx. destruct (exists_row _ _) eqn:Ex; [done|]. cbv zeta.
  change (expire_others now owner _) with (settle now lease owner d). set (d0 := settle now lease owner d).
  unfold ready_node_id. destruct (best_head _ _ _) as [[id' lane]|] eqn:Eb; simpl; [|done].
  destruct (decide (rowcount _ _ <> _)); [done|]. intros [= -> <-]. split; [done|].
  apply best_head_spec in Eb as [Hin Hmin].
  apply lane_heads_spec in Hin as [Hfree Hh]. apply free_lanes_spec in Hfree as [Hlane Hfree].
  apply select_ids_head in Hh as [(r & Hr & Hp) Hmin']. exists r, lane. split_and!; try done.
  f_equal. apply update_node; [done|].
  apply ready_in_lane_true in Hp as (Hp & _). by apply ready_task_true in Hp as [].
Qed.

Lemma claim_orchestrator_running now owner caps shared stages lease d id d' :
  claim_orchestrator_tx now owner caps shared stages lease d = (Ok (Some id), d') ->
  let d0 := settle now lease owner d in
  exists r, tasks d0 !! id = Some r /\
    running_count d0 (resource_of r) < capacity_of caps (resource_of r) /\
    (shared = true -> resource_of r = u "llm" -> running_count d0 (u "image_gpu") = 0) /\
    (shared = true -> resource_of r = u "image_gpu" -> running_count d0 (u "llm") = 0) /\
    (t_stage r ∈ serial_cpu_stages ->
      forall k x, tasks d0 !! k = Some x -> t_stage x = t_stage r -> t_state x <> RUNNING) /\
    d' = set_tasks (<[id := claimed_row owner (Some (now + lease * second)) now r]> (tasks d0)) d0.
Proof.
  intros Hc d0. destruct (claim_found _ _ _ _ _ _ _ _ _ Hc) as (_ & r & lane & Hr & Hp & _ & Hfree & _ & _ & ->).
  exists r. apply ready_in_lane_true in Hp as (_ & Hbusy & <-).
  apply free_lane_true in Hfree as (Hcap & Hi & Hl). split_and!; try done.
  intros Hserial k x Hx Hsx Hrun. unfold stage_is_busy in Hbusy. rewrite bool_decide_true in Hbusy by done.
  simpl in Hbusy. rewrite exists_row_false in Hbusy. specialize (Hbusy k x Hx).
  by rewrite !bool_decide_true in Hbusy.
Qed.

Lemma claim_orchestrator_idle now owner caps shared stages lease d d' :
  claim_orchestrator_tx now owner caps shared stages lease d = (Ok None, d') -> d' = settle now lease owner d.
Proof.
  unfold claim_orchestrator_tx. destruct (exists_row _ _); [done|]. cbv zeta.
  destruct (ready_node_id _ _ _ _); [destruct (decide (rowcount _ _ <> _)); [|done]|]; by intros [= <-].
Qed.

Lemma claim_orchestrator_refused now owner caps shared stages lease d e d' :
  claim_orchestrator_tx now owner caps shared stages lease d = (Err e, d') -> d' = d.
Proof.
  unfold claim_orchestrator_tx. destruct (exists_row _ _); [by intros [= _ <-]|]. cbv zeta.
  destruct (ready_node_id _ _ _ _); [destruct (decide (rowcount _ _ <> _)); done|done].
Qed.

(** The lane-aware claim admits a task only when everything it depends on has
    succeeded, its lane has a free slot, the other GPU lane is idle when they
    share one GPU, and no task of a stage that must run alone is running; it is
    the first such task of its lane, and its lane is the one
    with the least load.  The claim changes no other row once leases are settled,
    and is refused while a lease of this orchestrator has expired. *)
Theorem claim_orchestrator_spec now owner caps shared stages lease d id d' :
  claim_orchestrator_tx now owner caps shared stages lease d = (Ok (Some id), d') ->
  let d0 := expire_others now owner (renew_owned now lease owner d) in
  exists_row (expired_owned now owner) (tasks d) = false /\
  exists r, tasks d0 !! id = Some r /\
    t_state r = PENDING /\ deps_succeeded d0 id /\ (stages = [] \/ t_stage r ∈ stages) /\
    running_count d0 (resource_of r) < capacity_of caps (resource_of r) /\
    (shared = true -> resource_of r = u "llm" -> running_count d0 (u "image_gpu") = 0) /\
    (shared = true -> resource_of r = u "image_gpu" -> running_count d0 (u "llm") = 0) /\
    (t_stage r ∈ serial_cpu_stages ->
      forall k x, tasks d0 !! k = Some x -> t_stage x = t_stage r -> t_state x <> RUNNING) /\
    (forall k x, tasks d0 !! k = Some x -> ready_in_lane d0 stages (resource_of r) k x = true -> str_le id k) /\
    (forall k x, tasks d0 !! k = Some x -> ready_in_lane d0 stages (resource_of x) k x = true ->
      resource_of x ∈ map fst caps -> free_lane caps shared d0 (resource_of x) = true ->
      running_count d0 (resource_of r) * capacity_of caps (resource_of x) <=
        running_count d0 (resource_of x) * capacity_of caps (resource_of r)) /\
    d' = set_tasks (<[id := claimed_row owner (Some (now + lease * second)) now r]> (tasks d0)) d0.
Proof.
  intros Hc d0. destruct (claim_found _ _ _ _ _ _ _ _ _ Hc) as (Hex & r & lane & Hr & Hp & _ & _ & Hmin & Hbest & Hd').
  destruct (claim_orchestrator_running _ _ _ _ _ _ _ _ _ Hc) as (r' & Hr' & Hcap & Hi & Hl & Hserial & _).
  change (settle now lease owner d) with d0 in *. assert (r' = r) as -> by congruence.
  split; [done|]. exists r. apply ready_in_lane_true in Hp as (Hp & _ & <-).
  apply ready_task_true in Hp as (Hs & Hd & Hst). split_and!; try done.
  - intros k x Hx Hready Hlane Hfree.
    destruct (head (select_ids (ready_in_lane d0 stages (resource_of x)) (tasks d0))) as [h|] eqn:Eh.
    + assert ((h, resource_of x) ∈ lane_heads caps shared stages d0) as Hin.
      { apply lane_heads_spec. split; [by apply free_lanes_spec|done]. }
      apply Hbest, lane_before_spec in Hin. simpl in Hin. lia.
    + pose proof (select_ids_nil _ _ _ _ Eh Hx). congruence.
Qed.

(** The claim is work-conserving: it finds nothing only when every ready task of
    the wanted stages is in a lane that is full or shut out, or belongs to a stage
    that is already running. *)
Theorem claim_orchestrator_none now owner caps shared stages lease d d' :
  claim_orchestrator_tx now owner caps shared stages lease d = (Ok None, d') ->
  d' = expire_others now owner (renew_owned now lease owner d) /\
  forall id r, tasks d' !! id = Some r -> ready_task d' stages id r = true ->
    stage_is_busy d' (t_stage r) = true \/
    resource_of r ∉ map fst caps \/ free_lane caps shared d' (resource_of r) = false.
Proof.
  unfold claim_orchestrator_tx. destruct (exists_row _ _) eqn:Ex; [done|]. cbv zeta.
  set (d0 := expire_others now owner _).
  unfold ready_node_id. destruct (best_head _ _ _) as [[id lane]|] eqn:Eb; simpl.
  - apply best_head_spec in Eb as [Hin _]. apply lane_heads_spec in Hin as [_ Hh].
    apply select_ids_head in Hh as [(r & Hr & Hp) _].
    apply ready_in_lane_true in Hp as (Hp & _). apply ready_task_true in Hp as (Hs & _).
    rewrite (rowcount_node id PENDING _ r) by done. by rewrite decide_False by (intros Hx; by apply Hx).
  - intros [= <-]. split; [done|]. intros id r Hr Hready.
    destruct (stage_is_busy d0 (t_stage r)) eqn:Ebusy; [by left|]. right.
    destruct (decide (resource_of r ∈ map fst caps)); [|by left]. right.
    destruct (free_lane caps shared d0 (resource_of r)) eqn:Ef; [|done]. exfalso.
    destruct (head (select_ids (ready_in_lane d0 stages (resource_of r)) (tasks d0))) as [h|] eqn:Eh.
    + apply best_head_none in Eb. assert ((h, resource_of r) ∈ lane_heads caps shared stages d0) as Hin.
      { apply lane_heads_spec. split; [by apply free_lanes_spec|done]. }
      rewrite Eb in Hin. by apply elem_of_nil in Hin.
    + pose proof (select_ids_nil _ _ _ _ Eh Hr) as Hf.
      by rewrite (proj2 (ready_in_lane_true _ _ _ _ _)) in Hf.
Qed.
(** ** What admission guarantees *)

(** Lanes within their capacity, at most one GPU lane at work on a shared GPU,
    and one running task of each stage that must run alone. *)
Definition admitted (caps : list (pystr * Z)) (shared : bool) (d : db) : Prop :=
  (forall lane, running_count d lane <= capacity_of caps lane) /\
  (shared = true -> running_count d (u "llm") = 0 \/ running_count d (u "image_gpu") = 0) /\
  (forall s i j ri rj, s ∈ serial_cpu_stages -> tasks d !! i = Some ri -> tasks d !! j = Some rj ->
    t_state ri = RUNNING -> t_stage ri = s -> t_state rj = RUNNING -> t_stage rj = s -> i = j).

(** The running tasks of [d'] were running in [d]. *)
Definition fewer_running (d d' : db) : Prop :=
  forall k r', tasks d' !! k = Some r' -> t_state r' = RUNNING ->
    exists r, tasks d !! k = Some r /\ t_state r = RUNNING /\ t_stage r' = t_stage r /\
      t_payload_json r' = t_payload_json r.

Lemma running_in_true lane k r :
  running_in lane k r = true <-> t_state r = RUNNING /\ like_generate (t_stage r) = true /\ resource_of r = lane.
Proof. unfold running_in. rewrite !andb_true_iff, !bool_decide_eq_true. tauto. Qed.

Lemma fewer_running_count d d' lane : fewer_running d d' -> running_count d' lane <= running_count d lane.
Proof.
  intros Hf. unfold running_count. apply inj_le. apply rowcount_le. intros k r' Hr' Hp.
  apply running_in_true in Hp as (Hs & Hg & Hl). destruct (Hf k r' Hr' Hs) as (r & Hr & Hs' & Est & Ep).
  exists r. split; [done|]. apply running_in_true. unfold resource_of in *. by rewrite <- Est, <- Ep.
Qed.

Lemma fewer_admitted caps shared d d' : fewer_running d d' -> admitted caps shared d -> admitted caps shared d'.
Proof.
  intros Hf (Hc & Hg & Hs). split_and!.
  - intros lane. pose proof (fewer_running_count d d' lane Hf). specialize (Hc lane). lia.
  - intros Hsh. pose proof (fewer_running_count d d' (u "llm") Hf). pose proof (fewer_running_count d d' (u "image_gpu") Hf).
    unfold running_count in *. destruct (Hg Hsh); [left|right]; lia.
  - intros s i j ri rj Hin Hi Hj Ri Si Rj Sj.
    destruct (Hf i ri Hi Ri) as (ri0 & Hi0 & Ri0 & Es & _). destruct (Hf j rj Hj Rj) as (rj0 & Hj0 & Rj0 & Es' & _).
    eapply (Hs s i j ri0 rj0); congruence.
Qed.

Lemma running_count_pos d lane : 0 <= running_count d lane.
Proof. unfold running_count. lia. Qed.

Lemma update_fewer p f d :
  (forall k r, p k r = true -> t_state (f r) = RUNNING ->
    t_state r = RUNNING /\ t_stage (f r) = t_stage r /\ t_payload_json (f r) = t_payload_json r) ->
  fewer_running d (set_tasks (update_where p f (tasks d)) d).
Proof.
  intros Hf k r'. simpl. rewrite lookup_update_where, fmap_Some. intros (r & Hr & ->) Hs.
  destruct (p k r) eqn:Ep; [|by eauto]. destruct (Hf k r Ep Hs) as (? & ? & ?). eauto.
Qed.

Lemma fewer_trans d1 d2 d3 : fewer_running d1 d2 -> fewer_running d2 d3 -> fewer_running d1 d3.
Proof.
  intros F1 F2 k r3 Hr3 Hs3. destruct (F2 k r3 Hr3 Hs3) as (r2 & Hr2 & Hs2 & -> & ->). by apply F1.
Qed.

Lemma settle_fewer now lease owner d : fewer_running d (settle now lease owner d).
Proof.
  eapply fewer_trans; [|apply update_fewer; done]. apply update_fewer. intros k r Hp _.
  rewrite !andb_true_iff, bool_decide_eq_true in Hp. by destruct Hp as [[? _] _].
Qed.

Lemma resource_claimed owner until now r : resource_of (claimed_row owner until now r) = resource_of r.
Proof. done. Qed.

(** Nothing that runs cannot be too much. *)
Lemma idle_admitted caps shared d :
  (forall k r, tasks d !! k = Some r -> t_state r <> RUNNING) -> admitted caps shared d.
Proof.
  intros Hi. assert (Hz : forall lane, running_count d lane = 0).
  { intros lane. unfold running_count. rewrite (proj2 (rowcount_zero _ _)); [done|]. intros k r Hr.
    apply not_true_iff_false. rewrite running_in_true. intros (Hs & _). by apply (Hi k r). }
  split_and!; [intros lane; rewrite Hz; unfold capacity_of; lia|intros _; left; apply Hz|].
  intros s i j ri rj _ Hri _ Hs. exfalso. by apply (Hi i ri).
Qed.

(** C4: the admission control of the orchestrator's claim is safe: if every lane is
    within its capacity, a shared GPU serves at most one kind of model, and no two
    tasks of a stage that must run alone are running, then this still holds after
    [claim_orchestrator_ready], whatever it claims.  The claims that do not look at
    lanes, [claim_ready] and [begin], give no such guarantee. *)
Theorem claim_orchestrator_admitted now owner caps shared stages lease d :
  admitted caps shared d ->
  admitted caps shared (claim_orchestrator_tx now owner caps shared stages lease d).2.
Proof.
  intros Ha. destruct (claim_orchestrator_tx _ _ _ _ _ _ d) as [[[id|]|e] d'] eqn:Ec; simpl.
  - destruct (claim_orchestrator_running _ _ _ _ _ _ _ _ _ Ec) as (r & Hr & Hcap & Hi & Hl & Hserial & ->).
    set (d0 := settle now lease owner d) in *.
    pose proof (fewer_admitted caps shared d d0 (settle_fewer _ _ _ _) Ha) as (Hc & Hg & Hs).
    set (row := claimed_row _ _ _ r). assert (resource_of row = resource_of r) as Erow by done.
    assert (Hother : forall lane, lane <> resource_of r ->
      running_count (set_tasks (<[id := row]> (tasks d0)) d0) lane <= running_count d0 lane).
    { intros lane Hne. unfold running_count. apply inj_le, rowcount_insert_out.
      apply not_true_iff_false. rewrite running_in_true, Erow. intros (_ & _ & ?). congruence. }
    split_and!.
    + intros lane. destruct (decide (lane = resource_of r)) as [->|Hne].
      * unfold running_count in *. pose proof (rowcount_insert (running_in (resource_of r)) (tasks d0) id row). cbn [tasks set_tasks]. lia.
      * specialize (Hother lane Hne). specialize (Hc lane). lia.
    + intros Hsh. specialize (Hi Hsh). specialize (Hl Hsh).
      set (d1 := set_tasks (<[id := row]> (tasks d0)) d0) in *.
      pose proof (running_count_pos d1 (u "llm")). pose proof (running_count_pos d1 (u "image_gpu")).
      destruct (decide (resource_of r = u "llm")) as [E|E].
      { right. specialize (Hother (u "image_gpu") ltac:(by rewrite E)). specialize (Hi E). lia. }
      destruct (decide (resource_of r = u "image_gpu")) as [E'|E'].
      { left. specialize (Hother (u "llm") ltac:(by rewrite E')). specialize (Hl E'). lia. }
      pose proof (Hother (u "llm") (not_eq_sym E)). pose proof (Hother (u "image_gpu") (not_eq_sym E')).
      destruct (Hg Hsh); [left|right]; lia.
    + intros s i j ri rj Hin Hri Hrj Ri Si Rj Sj. simpl in Hri, Hrj.
      apply lookup_insert_Some in Hri as [[<- <-]|[Ni Hri]], Hrj as [[<- <-]|[Nj Hrj]]; try done.
      * exfalso. simpl in Si. eapply (Hserial ltac:(by rewrite Si) j rj); [done|congruence|done].
      * exfalso. simpl in Sj. eapply (Hserial ltac:(by rewrite Sj) i ri); [done|congruence|done].
      * by eapply (Hs s i j).
  - apply claim_orchestrator_idle in Ec as ->. eapply fewer_admitted; [apply settle_fewer|done].
  - apply claim_orchestrator_refused in Ec as ->. done.
Qed.
End props.
