(* ===== verification/History.v ===== *)
(** * History: what any sequence of operations on a ledger preserves

    The writes of one ledger, by any number of workers and in any order, as a
    relation between databases.  An operation that reads before it takes the
    write lock may have others in between; [history] names the three races that
    it leaves out.  The invariant holds after all histories, and a claim that was
    lost is not current again while the task stays in the plan. *)

From stdpp Require Import prelude gmap sets fin_maps strings list sorting relations.
From S2P Require Import Prelude Text Json JsonStream JsonReader JsonParser JsonRoundtrip.
From S2P Require Import JsonCanonical Sha256 StdJson PyJson ReceiptTruth Graph Tables Ledger.
From S2P Require Import LedgerInv LedgerProps Scheduler SchedulerProps.

Open Scope Z_scope.
Open Scope py_scope.

Section history.
Context `{PyFloat, PyUnicode, !PyRepr, VerifierCode}.

(** ** The scheduler keeps the invariant *)

Lemma renewed_ok until now r : row_ok r -> t_state r = RUNNING -> row_ok (renewed_row until now r).
Proof. intros (R1 & R2 & R3 & R4) Hs. split_and!; simpl; try done. Qed.

Lemma renew_where_inv p until now d :
  (forall k r, p k r = true -> t_state r = RUNNING) -> inv d ->
  inv (set_tasks (update_where p (renewed_row until now) (tasks d)) d).
Proof.
  intros Hp Hi. apply inv_update; [done|]. intros k r Hr Hpk. pose proof (Hp k r Hpk) as Hs.
  split_and!; [apply renewed_ok; [by eapply Hi|done]|intros ?; by left|done].
Qed.

Lemma settle_inv now lease owner d : inv d -> inv (settle now lease owner d).
Proof.
  intros Hi. unfold settle, expire_others. apply inv_update.
  - apply renew_where_inv; [|done]. intros k r Hp. rewrite !andb_true_iff, bool_decide_eq_true in Hp. naive_solver.
  - intros k r Hr Hp. rewrite !andb_true_iff, bool_decide_eq_true in Hp. destruct Hp as [[Hs _] _].
    assert (inv (renew_owned now lease owner d)) as Hi'.
    { apply renew_where_inv; [|done]. intros k' r' Hp. rewrite !andb_true_iff, bool_decide_eq_true in Hp. naive_solver. }
    split_and!; [apply expired_ok; [by eapply Hi'|congruence]|by intros [?|?]|congruence].
Qed.

Lemma claim_orchestrator_tx_inv now owner caps shared stages lease d :
  inv d -> inv (claim_orchestrator_tx now owner caps shared stages lease d).2.
Proof.
  intros Hi. destruct (claim_orchestrator_tx _ _ _ _ _ _ d) as [[[id|]|e] d'] eqn:Ec; simpl.
  - destruct (claim_found _ _ _ _ _ _ _ _ _ Ec) as (_ & r & lane & Hr & Hp & _ & _ & _ & _ & ->).
    apply ready_in_lane_true in Hp as (Hp & _). apply ready_task_true in Hp as (Hs & Hd & _).
    rewrite <- (update_node id PENDING (claimed_row owner (Some (now + lease * second)) now) _ r) by done.
    apply inv_update; [by apply settle_inv|]. intros k r' Hk Hpk. apply node_in_state_true in Hpk as [-> Hs'].
    split_and!; [apply claimed_ok; [by eapply settle_inv|congruence]|intros _; by right|congruence].
  - apply claim_orchestrator_idle in Ec as ->. by apply settle_inv.
  - by apply claim_orchestrator_refused in Ec as ->.
Qed.

Lemma renew_tx_inv now owner lease d : inv d -> inv (renew_orchestrator_claims_tx now owner lease d).2.
Proof.
  intros Hi. unfold renew_orchestrator_claims_tx. destruct (exists_row _ _); [done|].
  apply renew_where_inv; [|done]. intros k r Hp. rewrite !andb_true_iff, bool_decide_eq_true in Hp. naive_solver.
Qed.

Lemma holds_claim_true id attempt owner k r :
  holds_claim id attempt owner k r = true <->
  k = id /\ t_state r = RUNNING /\ t_attempt r = attempt /\ t_lease_owner r = Some owner.
Proof.
  unfold holds_claim, owned_by. rewrite !andb_true_iff, !bool_decide_eq_true, Z.eqb_eq. tauto.
Qed.

Lemma fenced_fail_inv now id attempt owner error d : inv d -> inv (_fenced_fail now id attempt owner error d).
Proof.
  intros Hi. unfold _fenced_fail. destruct (decide _); [done|]. apply inv_update; [done|].
  intros k r Hr Hp. apply holds_claim_true in Hp as (_ & Hs & _).
  split_and!; [apply stopped_ok; [by eapply Hi|congruence|done]|by intros [?|?]|congruence].
Qed.

Lemma committed_ok digest rendered now r :
  row_ok r -> row_ok (committed_row digest rendered now r).
Proof. intros Hr. by apply not_running_ok. Qed.

Lemma commit_success_inv now env index id receipt attempt owner d :
  inv d -> inv (env d) -> inv (_commit_success now env index id receipt attempt owner d).2.
Proof.
  intros Hi He. unfold _commit_success. destruct (canonical_json receipt) as [t|]; [|done].
  destruct (sha256_text t) as [dg|]; [|done]. destruct (negb _); [done|].
  destruct (index receipt); [|done]. cbv zeta. destruct (negb _); [done|]. destruct (decide _); [done|].
  apply inv_update; [done|]. intros k r Hr Hp. apply holds_claim_true in Hp as (_ & Hs & _).
  split_and!; [apply committed_ok; by eapply He|intros _; left; by left|done].
Qed.
(** ** Attempts only grow, and running again takes a new one *)

Definition row_step (r r' : task_row) : Prop :=
  t_attempt r <= t_attempt r' /\
  (t_state r' = RUNNING -> t_attempt r' = t_attempt r ->
    t_state r = RUNNING /\ t_lease_owner r' = t_lease_owner r).

#[local] Instance row_step_po : PreOrder row_step.
Proof.
  split; [by intros r|]. intros r1 r2 r3 [A1 B1] [A2 B2]. split; [lia|]. intros Hs Ha.
  assert (t_attempt r2 = t_attempt r1) as E by lia. destruct (B2 Hs ltac:(lia)) as [Hs2 ->]. by apply B1.
Qed.

(** The tasks of [keep] stay and make such steps. *)
Definition evolves (keep : gset pystr) (d d' : db) : Prop :=
  forall id r, id ∈ keep -> tasks d !! id = Some r -> exists r', tasks d' !! id = Some r' /\ row_step r r'.

#[local] Instance evolves_po keep : PreOrder (evolves keep).
Proof.
  split; [intros d id r _ Hr; by exists r|]. intros d1 d2 d3 E1 E2 id r Hk Hr.
  destruct (E1 id r Hk Hr) as (r2 & Hr2 & S1). destruct (E2 id r2 Hk Hr2) as (r3 & Hr3 & S2).
  exists r3. split; [done|]. by transitivity r2.
Qed.

Lemma evolves_same keep d d' : tasks d' = tasks d -> evolves keep d d'.
Proof. intros He id r _ Hr. rewrite He. by exists r. Qed.

Lemma evolves_update keep p f d :
  (forall k r, p k r = true -> row_step r (f r)) -> evolves keep d (set_tasks (update_where p f (tasks d)) d).
Proof.
  intros Hf id r _ Hr. simpl. rewrite lookup_update_where, Hr. simpl. eexists; split; [done|].
  destruct (p id r) eqn:Ep; [by apply (Hf id)|done].
Qed.

(** The clauses that do not start an attempt. *)
Lemma row_step_stop r r' : t_attempt r' = t_attempt r -> t_state r' <> RUNNING -> row_step r r'.
Proof. intros He Hs. split; [lia|]. by intros. Qed.

Lemma row_step_claimed owner until now r : row_step r (claimed_row owner until now r).
Proof. split; simpl; lia. Qed.

Lemma row_step_renewed until now r : row_step r (renewed_row until now r).
Proof. split; simpl; [lia|]. by intros. Qed.

Lemma row_step_hashed h r : row_step r (hashed_row h r).
Proof. split; simpl; [lia|]. by intros. Qed.

#[local] Hint Resolve row_step_claimed row_step_renewed row_step_hashed : ledger.
#[local] Hint Extern 2 (row_step _ _) => by apply row_step_stop : ledger.
#[local] Hint Extern 1 (evolves _ ?d ?d) => reflexivity : ledger.
#[local] Hint Extern 3 (evolves _ _ (set_tasks _ _)) => apply evolves_update; auto with ledger : ledger.

Lemma invalidate_evolves keep now ids d : evolves keep d (_invalidate_many now ids d).2.
Proof. unfold _invalidate_many, reset_nodes. simpl. auto with ledger. Qed.

(** The gaps of a read before its write, and nothing after it. *)
Definition between (e0 e1 : db -> db) : gaps := fun n =>
  match n with 0%nat => e0 | 1%nat => e1 | _ => fun d => d end.

Lemma between_quiet e0 e1 : quiet_after (between e0 e1).
Proof. intros [|[|n]] d Hn; [lia..|done]. Qed.

Section reads.
Context (keep : gset pystr) (e0 e1 : db -> db) (d : db).
Hypotheses (E0 : evolves keep d (e0 d)) (E1 : evolves keep (e0 d) (e1 (e0 d))).

Lemma reset_evolves now ids d0 : evolves keep d0 d -> evolves keep d0 (reset_nodes now (affected_nodes ids (e0 d)) (e1 (e0 d))).
Proof.
  intros E. transitivity d; [exact E|]. transitivity (e0 d); [exact E0|]. transitivity (e1 (e0 d)); [exact E1|].
  unfold reset_nodes. auto with ledger.
Qed.

Lemma row_read_evolves now id : evolves keep d (verified_task_row now (between e0 e1) id d).2.
Proof.
  unfold verified_task_row. destruct (select_task d id) as [r|]; [|done].
  destruct (_receipt_status id r) as [[| |digest|]|]; try done; [by apply reset_evolves|].
  simpl. transitivity (e0 d); [done|]. unfold set_receipt_hash. auto with ledger.
Qed.

Lemma task_evolves now id : evolves keep d (task now (between e0 e1) id d).2.
Proof.
  unfold task. pose proof (row_read_evolves now id) as Hv. by destruct (verified_task_row now (between e0 e1) id d) as [[]].
Qed.

Lemma cached_receipt_evolves now id ih : evolves keep d (cached_receipt now (between e0 e1) id ih d).2.
Proof.
  unfold cached_receipt. destruct (tasks d !! id); [|done]. change (between e0 e1 4%nat d) with d.
  pose proof (row_read_evolves now id) as Hv.
  destruct (verified_task_row now (between e0 e1) id d) as [[r|e] d']; simpl in *; [|done]. by repeat case_match.
Qed.

Lemma hash_legacy_evolves (corrupted : list pystr) legacy d1 :
  evolves keep d d1 ->
  evolves keep d (fold_left (fun d (kh : pystr * pystr) =>
         if bool_decide (kh.1 ∈ corrupted) then d
         else set_tasks (update_where (node_in_state kh.1 SUCCEEDED) (hashed_row kh.2) (tasks d)) d) legacy d1).
Proof.
  revert d1; induction legacy as [|[k h] legacy IH]; intros d1 E; simpl; [done|]. apply IH.
  case_bool_decide; [done|]. transitivity d1; [done|]. auto with ledger.
Qed.

Lemma page_evolves now cursor limit state : evolves keep d (tasks_page now (between e0 e1) cursor limit state d).2.
Proof.
  unfold tasks_page. destruct (_ || _); [done|].
  assert (forall reread, evolves keep d (verified_task_page now (between e0 e1) reread d).2) as Hv.
  { intros reread. unfold verified_task_page. cbv zeta. destruct (res_map_list _ _) as [statuses|]; [|done].
    destruct (corrupt_ids statuses) as [|c cs]; [destruct (legacy_ids statuses); [done|]|];
      cbn [snd between]; apply hash_legacy_evolves; [done|by apply reset_evolves]. }
  specialize (Hv (fun d => page_rows d (page_ids d cursor limit state))).
  by destruct (verified_task_page now _ _ d) as [[rows|] d'].
Qed.
End reads.

Lemma set_legacy_evolves keep statuses d : evolves keep d (set_legacy_hashes statuses d).
Proof.
  unfold set_legacy_hashes. revert d; induction statuses as [|[k s] l IH]; intros d; simpl; [done|].
  destruct s; try apply IH. etransitivity; [|apply IH]. unfold set_receipt_hash. auto with ledger.
Qed.

Lemma verify_tasks_evolves keep now d : evolves keep d (verify_tasks now d).2.
Proof.
  unfold verify_tasks. destruct (task_statuses d) as [statuses|]; [|done]. cbv zeta. simpl.
  etransitivity; [apply (set_legacy_evolves keep statuses)|].
  destruct (corrupt_ids statuses); [done|apply invalidate_evolves].
Qed.

Lemma transaction_evolves {A} keep (m : db_op db A) d :
  evolves keep d (m d).2 -> evolves keep d (transaction m d).2.
Proof. unfold transaction. by destruct (m d) as [[]]. Qed.

Lemma initialize_evolves keep now l d : evolves keep d (_initialize now l d).2.
Proof.
  unfold _initialize. apply transaction_evolves. unfold _initialize_tx.
  destruct (_ && _); [done|]. destruct (_ && _); [done|]. cbv zeta.
  set (d1 := match l_graph_hash l, _ with _ :: _, None => _ | _, _ => _ end).
  assert (tasks d1 = tasks d) as Hd1 by (unfold d1; by repeat case_match).
  unfold _verify_stored_receipts, op_bind. pose proof (verify_tasks_evolves keep now d1) as Hv.
  destruct (verify_tasks now d1) as [[[]|] d2]; simpl in *.
  - unfold verify_checkpoints. transitivity d1; [by apply evolves_same|].
    transitivity d2; [done|]. destruct (res_map_list _ _); by apply evolves_same.
  - transitivity d1; [by apply evolves_same|done].
Qed.

Lemma claim_evolves keep now worker stages lease d : evolves keep d (claim_ready_tx now worker stages lease d).2.
Proof.
  unfold claim_ready_tx. assert (evolves keep d (reclaim_expired now d)) as E.
  { unfold reclaim_expired. auto with ledger. }
  destruct (head _); simpl; [|done]. etransitivity; [exact E|]. unfold claim_node. auto with ledger.
Qed.

Lemma settle_evolves keep now lease owner d : evolves keep d (settle now lease owner d).
Proof.
  unfold settle, expire_others. transitivity (renew_owned now lease owner d); [unfold renew_owned|]; auto with ledger.
Qed.

Lemma claim_lane_evolves keep now owner caps shared stages lease d :
  evolves keep d (claim_orchestrator_tx now owner caps shared stages lease d).2.
Proof.
  destruct (claim_orchestrator_tx _ _ _ _ _ _ d) as [[[id|]|e] d'] eqn:Ec; simpl.
  - destruct (claim_orchestrator_running _ _ _ _ _ _ _ _ _ Ec) as (r & Hr & _ & _ & _ & _ & ->).
    transitivity (settle now lease owner d); [apply settle_evolves|].
    intros k rk _ Hk. simpl. destruct (decide (k = id)) as [->|Hne].
    + rewrite lookup_insert_eq. eexists; split; [done|]. assert (rk = r) as -> by congruence. auto with ledger.
    + rewrite lookup_insert_ne by done. by exists rk.
  - apply claim_orchestrator_idle in Ec as ->. apply settle_evolves.
  - by apply claim_orchestrator_refused in Ec as ->.
Qed.

Lemma begin_evolves keep now id w d : evolves keep d (begin_tx now id w d).2.
Proof.
  unfold begin_tx. destruct (tasks d !! id); [|done]. case_decide; [done|]. case_decide; [done|].
  simpl. unfold claim_node. auto with ledger.
Qed.

Lemma cancel_run_evolves keep now reason d : evolves keep d (cancel_run_tx now reason d).
Proof.
  unfold cancel_run_tx. cbv zeta. set (m := match strip reason with [] => _ | m => m end).
  etransitivity; [|by apply evolves_same]. etransitivity; [|apply evolves_update; auto with ledger].
  by apply evolves_same.
Qed.

Lemma resume_run_evolves keep now d : evolves keep d (resume_run_tx now d).
Proof.
  unfold resume_run_tx. cbv zeta. etransitivity; [|by apply evolves_same].
  etransitivity; [|apply evolves_update; auto with ledger]. by apply evolves_same.
Qed.

Lemma sync_evolves keep now plan l d :
  (forall id, id ∈ keep -> id ∈ map node_id (nodes plan)) -> evolves keep d (sync_plan now plan l d).2.
Proof.
  intros Hkeep. unfold sync_plan. destruct (decide (proposal_hash plan <> _)); [done|].
  destruct (decide (~ NoDup _)) as [|Hnd]; [done|]. apply dec_stable in Hnd.
  destruct (decide (missing_dependencies plan <> [])); [done|].
  assert (evolves keep d (transaction (sync_plan_tx now plan) d).2) as E.
  { apply transaction_evolves. unfold sync_plan_tx.
    destruct (res_map_list desired_task (nodes plan)) as [rows|] eqn:Erows; [|done].
    destruct (decide (~ NoDup (plan_edges plan))); [done|]. cbv zeta. intros id r Hk Hr. simpl.
    apply Hkeep, list_elem_of_fmap in Hk as (nd & -> & Hn).
    destruct (desired_lookup plan rows nd Hnd Erows Hn) as (pj & _ & Hpj).
    rewrite lookup_update_where, map_lookup_imap, Hpj. simpl. rewrite Hr. eexists; split; [done|].
    case_bool_decide; [by apply row_step_stop|]. split; simpl; [lia|]. by intros. }
  unfold op_bind. by destruct (transaction _ d) as [[[[? ?] ?]|] ?].
Qed.
(** Operations that read before they write: [env] is what happened in between. *)
Lemma succeed_evolves keep now env id receipt oh d :
  evolves keep d (env d) -> evolves keep d (succeed_tx now env id receipt oh d).2.
Proof.
  intros He. unfold succeed_tx. destruct (tasks d !! id) as [r|]; [|done].
  destruct (bool_decide _); [done|]. destruct (completion id r receipt oh) as [[[rj rh] dg]|]; [|done].
  destruct (decide (t_state r = SUCCEEDED)); [by destruct (_ && _)|]. cbv zeta.
  destruct (decide (rowcount _ _ <> _)); [done|]. etransitivity; [exact He|]. simpl. auto with ledger.
Qed.

Lemma fail_evolves keep now env id error ir d :
  evolves keep d (env d) -> evolves keep d (fail_tx now env id error ir d).2.
Proof.
  intros He. unfold fail_tx. destruct (tasks d !! id) as [r|]; [|done].
  destruct (decide (t_state r = CANCELLED)); [done|]. destruct (ir && _); [done|].
  destruct (bool_decide _); [done|]. cbv zeta. destruct (decide (rowcount _ _ <> _)); [done|].
  etransitivity; [exact He|]. simpl. destruct ir; auto with ledger.
Qed.

Lemma retry_evolves keep now env id d :
  evolves keep d (env d) -> evolves keep d (retry_tx now env id d).2.
Proof.
  intros He. unfold retry_tx. destruct (tasks d !! id) as [r|]; [|done]. destruct (bool_decide _); [done|].
  etransitivity; [exact He|]. simpl. auto with ledger.
Qed.

Lemma commit_evolves keep now env index id receipt attempt owner d :
  evolves keep d (env d) -> evolves keep d (_commit_success now env index id receipt attempt owner d).2.
Proof.
  intros He. unfold _commit_success. destruct (canonical_json receipt); [|done].
  destruct (sha256_text _); [|done]. destruct (negb _); [done|]. destruct (index receipt); [|done]. cbv zeta.
  destruct (negb _); [done|]. destruct (decide _); [done|]. etransitivity; [exact He|]. simpl. auto with ledger.
Qed.

Lemma fenced_fail_evolves keep now id attempt owner error d :
  evolves keep d (_fenced_fail now id attempt owner error d).
Proof. unfold _fenced_fail. destruct (decide _); [done|]. auto with ledger. Qed.

(** ** The operations of a ledger *)

Inductive action : Type :=
  | Claim (now : Z) (worker_id : pystr) (stages : list pystr) (lease_seconds : Z)
  | ClaimLane (now : Z) (owner : pystr) (caps : list (pystr * Z)) (shared : bool) (stages : list pystr)
      (lease_seconds : Z)
  | Renew (now : Z) (owner : pystr) (lease_seconds : Z)
  | Begin (now : Z) (id worker_id : pystr)
  | Cancel (now : Z) (id reason : pystr)
  | CancelRun (now : Z) (reason : pystr)
  | ResumeRun (now : Z)
  | Invalidate (now : Z) (id : pystr)
  | FencedFail (now : Z) (id : pystr) (attempt : Z) (owner error : pystr)
  | BeginCheckpoint (now : Z) (id stage input_hash : pystr)
  | SucceedCheckpoint (now : Z) (id input_hash : pystr) (receipt : json)
  | InvalidateCheckpoint (now : Z) (id input_hash reason : pystr)
  | Open (now : Z) (l : ledger)
  | SyncPlan (now : Z) (plan : WorkGraphPlan) (l : ledger).

(** The database after one operation that is a single transaction. *)
Definition act (a : action) (d : db) : db :=
  match a with
  | Claim now w stages lease => (transaction (claim_ready_tx now w stages lease) d).2
  | ClaimLane now owner caps shared stages lease =>
      (transaction (claim_orchestrator_tx now owner caps shared stages lease) d).2
  | Renew now owner lease => (renew_orchestrator_claims now owner lease d).2
  | Begin now id w => (transaction (begin_tx now id w) d).2
  | Cancel now id reason => cancel_tx now id reason d
  | CancelRun now reason => cancel_run_tx now reason d
  | ResumeRun now => resume_run_tx now d
  | Invalidate now id => (invalidate now id d).2
  | FencedFail now id attempt owner error => _fenced_fail now id attempt owner error d
  | BeginCheckpoint now id stage ih => (begin_checkpoint now id stage ih d).2
  | SucceedCheckpoint now id ih receipt => (succeed_checkpoint now id ih receipt d).2
  | InvalidateCheckpoint now id ih reason => (invalidate_checkpoint now id ih reason d).2
  | Open now l => (_initialize now l d).2
  | SyncPlan now plan l => (sync_plan now plan l d).2
  end.

(** The operations that check the receipts they return. *)
Inductive reading : Type :=
  | Read (now : Z) (id : pystr)
  | ReadPage (now : Z) (cursor : pystr) (limit : nat) (state : option WorkState)
  | ReadReceipt (now : Z) (id : pystr) (input_hash : option pystr)
  | ReadCheckpoint (now : Z) (id input_hash : pystr).

(** The database after a read, with what happens in its gaps. *)
Definition read_act (q : reading) (env : gaps) (d : db) : db :=
  match q with
  | Read now id => (task now env id d).2
  | ReadPage now cursor limit state => (tasks_page now env cursor limit state d).2
  | ReadReceipt now id ih => (cached_receipt now env id ih d).2
  | ReadCheckpoint now id ih => (cached_checkpoint now env id ih d).2
  end.

(** What a new plan must satisfy: a node whose input hash is unchanged has the
    dependencies it had, because the hash covers them ([_node]); and the tasks
    of [keep] are still in it. *)
Definition allowed (keep : gset pystr) (d : db) (a : action) : Prop :=
  match a with
  | SyncPlan _ plan _ => plan_binds d plan /\ forall id, id ∈ keep -> id ∈ map node_id (nodes plan)
  | _ => True
  end.

(** Databases reached from [d] by operations of any number of workers.  Between
    the two statements of [succeed], [fail], [retry], [_commit_success] and
    [fail_checkpoint], and before the writes of a read, any history may happen,
    but for three things:

    - [retry] does not check the state again when it writes, so its task must
      not succeed in between;
    - a read that resets a damaged receipt selects the dependents in one
      statement and resets them in another, so the edges must not change in
      between;
    - a synchronised plan keeps the dependencies of the nodes whose input hash
      is unchanged ([allowed]).

    What happens in the other gaps of a read is a part of the history before or
    after it ([reads_anywhere]). *)
Inductive history (keep : gset pystr) : db -> db -> Prop :=
  | history_start d : history keep d d
  | history_act a d d1 : history keep d d1 -> allowed keep d1 a -> history keep d (act a d1)
  | history_succeed now env id receipt oh d d1 :
      history keep d d1 -> history keep d1 (env d1) ->
      history keep d (succeed_tx now env id receipt oh d1).2
  | history_fail now env id error ir d d1 :
      history keep d d1 -> history keep d1 (env d1) ->
      history keep d (fail_tx now env id error ir d1).2
  | history_retry now env id d d1 :
      history keep d d1 -> history keep d1 (env d1) ->
      (forall r, tasks (env d1) !! id = Some r -> t_state r <> SUCCEEDED) ->
      history keep d (retry_tx now env id d1).2
  | history_commit now env index id receipt attempt owner d d1 :
      history keep d d1 -> history keep d1 (env d1) ->
      history keep d (_commit_success now env index id receipt attempt owner d1).2
  | history_fail_checkpoint now env id ih error d d1 :
      history keep d d1 -> history keep d1 (env d1) ->
      history keep d (fail_checkpoint now env id ih error d1).2
  | history_read q e0 e1 d d1 :
      history keep d d1 -> history keep d1 (e0 d1) -> history keep (e0 d1) (e1 (e0 d1)) ->
      edges (e1 (e0 d1)) = edges (e0 d1) ->
      history keep d (read_act q (between e0 e1) d1).

(** The checkpoint operations leave the tasks alone. *)
Lemma checkpoint_same (a : action) d :
  match a with
  | BeginCheckpoint _ _ _ _ | SucceedCheckpoint _ _ _ _ | InvalidateCheckpoint _ _ _ _ =>
      tasks (act a d) = tasks d /\ edges (act a d) = edges d
  | _ => True
  end.
Proof.
  destruct a; simpl; try done.
  - unfold begin_checkpoint, transaction. destruct (begin_checkpoint_tx _ _ _ _ d) as [[[]|e] d'] eqn:E; [|done].
    unfold begin_checkpoint_tx in E. simpl. repeat case_match; by simplify_eq.
  - unfold succeed_checkpoint. repeat case_match; by simplify_eq.
  - unfold invalidate_checkpoint. repeat case_match; by simplify_eq.
Qed.

Lemma cached_checkpoint_same now e0 e1 id ih d :
  let d' := (cached_checkpoint now (between e0 e1) id ih d).2 in
  tasks d' = tasks d /\ edges d' = edges d \/ tasks d' = tasks (e0 d) /\ edges d' = edges (e0 d).
Proof.
  cbv zeta. unfold cached_checkpoint. destruct (verified_checkpoint_row now (between e0 e1) id d) as [res d'] eqn:E.
  assert (tasks d' = tasks d /\ edges d' = edges d \/ tasks d' = tasks (e0 d) /\ edges d' = edges (e0 d)) as Hd'.
  { unfold verified_checkpoint_row in E. repeat case_match; simplify_eq; auto. }
  destruct res as [[c|]|]; simpl; [|done..]. by repeat case_match.
Qed.

Lemma act_inv keep a d : allowed keep d a -> inv d -> inv (act a d).
Proof.
  intros Ha Hi. pose proof (checkpoint_same a d) as Hc.
  destruct a; simpl in Ha; try (by destruct Hc as [Ht He]; by eapply inv_same); simpl.
  - by apply transaction_inv, claim_ready_tx_inv.
  - by apply transaction_inv, claim_orchestrator_tx_inv.
  - unfold renew_orchestrator_claims. destruct (_ <? 1); [done|]. by apply transaction_inv, renew_tx_inv.
  - by apply transaction_inv, begin_tx_inv.
  - by apply cancel_tx_inv.
  - by apply cancel_run_tx_inv.
  - by apply resume_run_tx_inv.
  - by apply (invalidate_inv now [id]).
  - by apply fenced_fail_inv.
  - by apply initialize_inv.
  - destruct Ha as [Hb _]. by apply sync_plan_inv.
Qed.

Lemma act_evolves keep a d : allowed keep d a -> evolves keep d (act a d).
Proof.
  intros Ha. pose proof (checkpoint_same a d) as Hc.
  destruct a; simpl in Ha; try (by destruct Hc as [Ht _]; by apply evolves_same); simpl.
  - by apply transaction_evolves, claim_evolves.
  - by apply transaction_evolves, claim_lane_evolves.
  - unfold renew_orchestrator_claims. destruct (_ <? 1); [done|]. apply transaction_evolves.
    unfold renew_orchestrator_claims_tx. destruct (exists_row _ _); [done|]. simpl. auto with ledger.
  - by apply transaction_evolves, begin_evolves.
  - unfold cancel_tx. auto with ledger.
  - by apply cancel_run_evolves.
  - by apply resume_run_evolves.
  - by apply (invalidate_evolves keep now [id]).
  - by apply fenced_fail_evolves.
  - by apply initialize_evolves.
  - destruct Ha as [_ Hk]. by apply sync_evolves.
Qed.

Lemma read_act_inv q e0 e1 d :
  inv d -> inv (e0 d) -> inv (e1 (e0 d)) -> edges (e1 (e0 d)) = edges (e0 d) -> inv (read_act q (between e0 e1) d).
Proof.
  intros Hi Hi0 Hi1 He. pose proof (between_quiet e0 e1) as Hq. assert (calm (between e0 e1) d) as Hc by done.
  destruct q; simpl; [by apply task_inv|by apply tasks_page_inv|by apply cached_receipt_inv|].
  destruct (cached_checkpoint_same now e0 e1 id input_hash d) as [[Ht Hed]|[Ht Hed]];
    (eapply inv_same; [by symmetry in Ht|by symmetry in Hed|done]).
Qed.

Lemma read_act_evolves keep q e0 e1 d :
  evolves keep d (e0 d) -> evolves keep (e0 d) (e1 (e0 d)) -> evolves keep d (read_act q (between e0 e1) d).
Proof.
  intros E0 E1. destruct q; simpl; [by apply task_evolves|by apply page_evolves|by apply cached_receipt_evolves|].
  destruct (cached_checkpoint_same now e0 e1 id input_hash d) as [[Ht _]|[Ht _]]; [by apply evolves_same|].
  transitivity (e0 d); [done|by apply evolves_same].
Qed.

Lemma fail_checkpoint_same now env id ih error d :
  tasks (fail_checkpoint now env id ih error d).2 = tasks d /\
  edges (fail_checkpoint now env id ih error d).2 = edges d \/
  tasks (fail_checkpoint now env id ih error d).2 = tasks (env d) /\
  edges (fail_checkpoint now env id ih error d).2 = edges (env d).
Proof. unfold fail_checkpoint. repeat case_match; auto. Qed.

Lemma history_inv keep d d' : history keep d d' -> inv d -> inv d'.
Proof.
  induction 1 as [d|a d d1 _ IH Ha|now env id rc oh d d1 _ IH1 _ IH2|now env id error ir d d1 _ IH1 _ IH2
    |now env id d d1 _ IH1 _ IH2 Hn|now env ix id rc at_ ow d d1 _ IH1 _ IH2|now env id ih error d d1 _ IH1 _ IH2
    |q e0 e1 d d1 _ IH _ IH0 _ IH1 Hed]; intros Hi; auto.
  - eapply act_inv; eauto.
  - apply succeed_tx_inv; auto.
  - apply fail_tx_inv; auto.
  - apply retry_tx_inv; auto.
  - apply commit_success_inv; auto.
  - destruct (fail_checkpoint_same now env id ih error d1) as [[Ht He]|[Ht He]];
      (eapply inv_same; [by symmetry in Ht|by symmetry in He|auto]).
  - apply read_act_inv; auto.
Qed.

Lemma history_evolves keep d d' : history keep d d' -> evolves keep d d'.
Proof.
  induction 1 as [d|a d d1 _ IH Ha|now env id rc oh d d1 _ IH1 _ IH2|now env id error ir d d1 _ IH1 _ IH2
    |now env id d d1 _ IH1 _ IH2 Hn|now env ix id rc at_ ow d d1 _ IH1 _ IH2|now env id ih error d d1 _ IH1 _ IH2
    |q e0 e1 d d1 _ IH _ IH0 _ IH1 Hed]; [done|..];
    (etransitivity; [eassumption|]).
  - by apply act_evolves.
  - by apply succeed_evolves.
  - by apply fail_evolves.
  - by apply retry_evolves.
  - by apply commit_evolves.
  - destruct (fail_checkpoint_same now env id ih error d1) as [[Ht _]|[Ht _]]; [by apply evolves_same|].
    transitivity (env d1); [done|by apply evolves_same].
  - by apply read_act_evolves.
Qed.

(** ** Histories follow one another, and reads may be interrupted anywhere *)

Lemma history_trans keep d d1 d2 : history keep d d1 -> history keep d1 d2 -> history keep d d2.
Proof. intros Hd. induction 1; eauto using history. Qed.

Lemma row_gaps now env id d :
  let x := (verified_task_row now (between (env 0%nat) (env 1%nat)) id d).2 in
  (verified_task_row now env id d).2 = x \/ (verified_task_row now env id d).2 = env 2%nat x.
Proof.
  cbv zeta. unfold verified_task_row. destruct (select_task d id) as [r|]; [|auto].
  destruct (_receipt_status id r) as [[| |digest|]|]; simpl; auto.
Qed.

Lemma page_gaps now env reread d :
  let x := (verified_task_page now (between (env 0%nat) (env 1%nat)) reread d).2 in
  (verified_task_page now env reread d).2 = x \/ (verified_task_page now env reread d).2 = env 2%nat x.
Proof.
  cbv zeta. unfold verified_task_page. cbv zeta. destruct (res_map_list _ _) as [statuses|]; [|auto].
  destruct (corrupt_ids statuses) as [|c cs]; [destruct (legacy_ids statuses)|]; cbn [snd between]; auto.
Qed.

Section interrupted.
Context (keep : gset pystr) (env : gaps) (d : db).
Hypothesis (Henv : forall n d', history keep d d' -> history keep d' (env n d')).
Hypothesis (Hedges : forall d', history keep d d' -> edges (env 1%nat d') = edges d').

Lemma gap_after n d' : history keep d d' -> history keep d (env n d').
Proof. intros Hd. eapply history_trans; [exact Hd|by apply Henv]. Qed.

Lemma between_gaps q d' : history keep d d' -> history keep d (read_act q (between (env 0%nat) (env 1%nat)) d').
Proof. intros Hd. apply history_read; [done|by apply Henv| |]; [apply Henv|apply Hedges]; by apply gap_after. Qed.

Lemma row_anywhere now id d' : history keep d d' -> history keep d (verified_task_row now env id d').2.
Proof.
  intros Hd. pose proof (between_gaps (Read now id) d' Hd) as Hr. simpl in Hr. unfold task in Hr.
  assert (history keep d (verified_task_row now (between (env 0%nat) (env 1%nat)) id d').2) as Hx
    by (by destruct (verified_task_row now (between _ _) id d') as [[]]).
  destruct (row_gaps now env id d') as [-> | ->]; [done|by apply gap_after].
Qed.

(** Whatever happens in the gaps of a read is a history, provided that no plan
    is synchronised between the two statements of an invalidation. *)
Lemma reads_anywhere q : history keep d (read_act q env d).
Proof.
  pose proof (history_start keep d) as Hd. destruct q as [now id|now cursor limit state|now id ih|now id ih]; simpl.
  - unfold task. pose proof (row_anywhere now id d Hd) as Hr.
    destruct (verified_task_row now env id d) as [[]]; [by apply gap_after|done].
  - pose proof (between_gaps (ReadPage now cursor limit state) d Hd) as Hr. simpl in Hr. unfold tasks_page in *.
    destruct (_ || _); [done|]. pose proof (page_gaps now env (fun d => page_rows d (page_ids d cursor limit state)) d) as Hg.
    destruct (verified_task_page now (between _ _) _ d) as [[rows|] x]; simpl in Hr, Hg;
      destruct (verified_task_page now env _ d) as [[rows'|] x']; simpl in *;
      destruct Hg as [-> | ->]; repeat apply gap_after; done.
  - unfold cached_receipt. destruct (tasks d !! id); [|done].
    pose proof (row_anywhere now id (env 4%nat d) (gap_after 4 _ Hd)) as Hr.
    destruct (verified_task_row now env id (env 4%nat d)) as [[r|e] d']; simpl in *; [|done]. by repeat case_match.
  - exact (between_gaps (ReadCheckpoint now id ih) d Hd).
Qed.
End interrupted.

Lemma inv_empty : inv empty_db.
Proof. split_and!; intros ? *; simpl; rewrite ?lookup_empty; set_solver. Qed.

(** C2: a ledger stays consistent under any number of workers: its edges join
    existing tasks; a task is running or succeeded only if everything it depends on
    has succeeded; only a succeeded task has a receipt or an output hash, and only a
    running one a lease, an owner and an attempt.  The operations come in any order,
    and other histories may happen between the statements of those that read before
    they write, with three exceptions that [history] spells out: a retry does not
    race with a success of its task, the edges do not change while a read resets a
    damaged receipt, and a synchronised plan keeps the dependencies of the nodes
    whose input hash is unchanged. *)
Theorem ledger_consistent keep d :
  history keep empty_db d ->
  (forall n dep, (n, dep) ∈ edges d -> is_Some (tasks d !! n) /\ is_Some (tasks d !! dep)) /\
  (forall n dep rn rd, (n, dep) ∈ edges d -> tasks d !! n = Some rn -> tasks d !! dep = Some rd ->
    t_state rn = RUNNING \/ t_state rn = SUCCEEDED -> t_state rd = SUCCEEDED) /\
  (forall id r, tasks d !! id = Some r ->
    (t_state r <> SUCCEEDED -> t_receipt_json r = None /\ t_output_hash r = None) /\
    (t_state r <> RUNNING -> t_lease_owner r = None /\ t_lease_until r = None) /\
    (t_state r = RUNNING -> is_Some (t_lease_owner r) /\ 1 <= t_attempt r)).
Proof.
  intros Hh. destruct (history_inv _ _ _ Hh inv_empty) as (He & Hr & Hd). split_and!.
  - intros n dep Hn. rewrite <- !elem_of_dom. by apply He.
  - intros n dep rn rd Hn Hrn Hrd Ha. by eapply Hd.
  - intros id r Hid. destruct (Hr id r Hid) as (R1 & R2 & R3 & _). split_and!; try done.
    intros Hs. by destruct (R1 Hs) as (-> & ->).
Qed.

(** ** Fencing *)

Lemma claim_lost keep id attempt owner d d1 d2 :
  id ∈ keep -> claim_is_current id attempt owner d = true -> history keep d d1 ->
  claim_is_current id attempt owner d1 = false -> history keep d1 d2 ->
  claim_is_current id attempt owner d2 = false.
Proof.
  intros Hk Hc Hh1 Hl Hh2. unfold claim_is_current in *.
  destruct (tasks d !! id) as [r|] eqn:Er; [|done]. apply holds_claim_true in Hc as (_ & Hs & Ha & Ho).
  destruct (history_evolves _ _ _ Hh1 id r Hk Er) as (r1 & Hr1 & Hle & _). rewrite Hr1 in Hl.
  destruct (history_evolves _ _ _ Hh2 id r1 Hk Hr1) as (r2 & Hr2 & Hle2 & Hrun). rewrite Hr2.
  apply not_true_iff_false. intros (_ & Hs2 & Ha2 & Ho2)%holds_claim_true.
  apply not_true_iff_false in Hl. apply Hl, holds_claim_true.
  destruct (Hrun Hs2 ltac:(lia)) as [Hs1 Ho1]. split_and!; [done|done|lia|congruence].
Qed.

(** C3: while its task stays in every plan that is synchronised, a lost claim is
    lost for good.  Once the task of a worker is no longer running for the attempt
    and owner the worker was given, because its lease expired, it was cancelled,
    invalidated, failed or completed, no later history in which no plan drops the
    task ([keep]) makes the claim current again: publishing a result or a failure
    under it changes nothing, even if the task is running once more.  (A task that a
    plan drops and a later one brings back counts its attempts from 0 again.) *)
Theorem stale_claim_fenced keep id attempt owner d d1 d2 :
  id ∈ keep ->
  claim_is_current id attempt owner d = true -> history keep d d1 ->
  claim_is_current id attempt owner d1 = false -> history keep d1 d2 ->
  forall now env index receipt error,
    (exists e, _commit_success now env index id receipt attempt owner d2 = (Err e, d2)) /\
    _fenced_fail now id attempt owner error d2 = d2.
Proof.
  intros Hk Hc Hh1 Hl Hh2 now env index receipt error.
  pose proof (claim_lost _ _ _ _ _ _ _ Hk Hc Hh1 Hl Hh2) as Hf. split.
  - unfold _commit_success. destruct (canonical_json receipt); [|by eexists].
    destruct (sha256_text _); [|by eexists]. rewrite Hf. by eexists.
  - unfold _fenced_fail. rewrite decide_True; [done|].
    assert (rowcount (holds_claim id attempt owner) (tasks d2) = 0%nat) as ->; [|done].
    apply rowcount_zero. intros k r Hr. apply not_true_iff_false. intros Hp.
    pose proof Hp as (-> & _)%holds_claim_true. unfold claim_is_current in Hf. rewrite Hr in Hf. congruence.
Qed.

(** C6: a result is published for the claim it was computed under.  When
    [_commit_success] succeeds the claim was current both before and after the
    index was refreshed, the task has succeeded with the canonical text of the
    receipt and its digest, and nothing else has changed; and while the task stays
    in every plan that is synchronised ([keep]), no second publication under the
    same claim can follow. *)
Theorem commit_success_spec keep now env index id receipt attempt owner d d' :
  id ∈ keep ->
  _commit_success now env index id receipt attempt owner d = (Ok tt, d') ->
  claim_is_current id attempt owner d = true /\ claim_is_current id attempt owner (env d) = true /\
  index receipt = Ok tt /\
  (exists r text digest, tasks (env d) !! id = Some r /\ canonical_json receipt = Ok text /\
    sha256_text text = Ok digest /\
    d' = set_tasks (<[id := committed_row digest text now r]> (tasks (env d))) (env d)) /\
  forall d2 now' env' index' receipt', history keep d' d2 ->
    is_ok (_commit_success now' env' index' id receipt' attempt owner d2).1 = false.
Proof.
  intros Hk. unfold _commit_success at 1. destruct (canonical_json receipt) as [text|] eqn:Et; [|done].
  destruct (sha256_text text) as [digest|] eqn:Eh; [|done].
  destruct (claim_is_current id attempt owner d) eqn:Ec; [|done]. simpl negb. cbn iota.
  destruct (index receipt) as [[]|]; [|done]. cbv zeta.
  destruct (claim_is_current id attempt owner (env d)) eqn:Ec2; [|done]. simpl negb. cbn iota.
  destruct (decide _); [done|]. intros [= <-].
  pose proof Ec2 as Hcur. unfold claim_is_current in Hcur. destruct (tasks (env d) !! id) as [r|] eqn:Er; [|done].
  assert (Hupd : update_where (holds_claim id attempt owner) (committed_row digest text now) (tasks (env d)) =
    <[id := committed_row digest text now r]> (tasks (env d))).
  { apply map_eq. intros k. rewrite lookup_update_where. destruct (decide (k = id)) as [->|Hne].
    - rewrite Er, lookup_insert_eq. simpl. by rewrite Hcur.
    - rewrite lookup_insert_ne by done. destruct (tasks (env d) !! k) as [rk|]; simpl; [|done].
      destruct (holds_claim id attempt owner k rk) eqn:E; [|done]. by apply holds_claim_true in E as [-> _]. }
  rewrite Hupd. split_and!; try done; [by exists r, text, digest|].
  intros d2 now' env' index' receipt' Hh.
  destruct (history_evolves _ _ _ Hh id (committed_row digest text now r) Hk) as (r2 & Hr2 & Hle & Hrun).
  { simpl. by rewrite lookup_insert_eq. }
  apply holds_claim_true in Hcur as (_ & _ & Ha & _). simpl in *.
  unfold _commit_success. destruct (canonical_json receipt') as [t2|]; [|done]. destruct (sha256_text t2); [|done].
  assert (claim_is_current id attempt owner d2 = false) as ->; [|reflexivity].
  unfold claim_is_current. rewrite Hr2. apply not_true_iff_false. intros (_ & Hs2 & Ha2 & _)%holds_claim_true.
  by destruct (Hrun Hs2 ltac:(lia)).
Qed.
End history.
