(* ===== verification/LedgerExamples.v ===== *)
(** * LedgerExamples: the ledger theorems on a concrete run

    Instances of the parameters (Unicode tables, [str] of a container, the
    digests of the verifier functions), a plan of three tasks, and the databases
    some operations reach from it. *)

From stdpp Require Import prelude gmap sets fin_maps strings list sorting relations.
From S2P Require Import Prelude Text Json JsonStream JsonReader JsonParser JsonRoundtrip.
From S2P Require Import JsonCanonical JsonExamples Sha256 StdJson PyJson ReceiptTruth.
From S2P Require Import ReceiptReuse Graph Tables Ledger LedgerInv LedgerProps Checkpoints.
From S2P Require Import Scheduler SchedulerProps History.

Open Scope Z_scope.

#[export] Existing Instance whole_PyFloat.
#[export] Existing Instance whole_PyFloatLaws.

#[export] Instance ascii_PyUnicode : PyUnicode := {| upper_other := fun c => [c]; decimal_other := fun _ => None |}.
#[export] Instance short_PyRepr : PyRepr := {| container_str := fun _ => u "[...]" |}.
#[export] Instance fixed_VerifierCode : VerifierCode := {|
  code_hash := fun f => match f with ValidationEvidence => u "01" | BuildEvidence => u "02" | PackageEvidence => u "03" end
|}.

Lemma canonical_json_sha256_value_witness :
  exists t d, json_canonical (JArr [JInt 1]) = Ok t /\
    canonical_json_sha256 {[1%positive := OSequence [PInt 1]]} (PRef 1) = Ok d /\ sha256_text t = Ok d.
Proof.
  apply (canonical_json_sha256_value {[1%positive := OSequence [PInt 1]]} (PRef 1) (JArr [JInt 1]));
    [|reflexivity]. econstructor; [reflexivity|]. repeat constructor.
Defined.

Lemma json_loads_dumps_witness :
  exists t, canonical_json sample = Ok t /\ json_loads t = Ok (json_sorted sample) /\
    canonical_json (json_sorted sample) = Ok t.
Proof.
  eexists. split; [vm_compute; reflexivity|]. apply (json_loads_dumps sample); vm_compute; reflexivity.
Defined.

(** ** Receipts *)

Definition check_row : work_row := WorkRow _ (u "check") (u "validate:source") (u "sha256:11") (JObj []).

Definition check_receipt : list (pystr * json) :=
  [(u "status", JStr (u "pass")); (u "checks_run", JInt 7); (u "project_manifest", JStr (u "sha256:ab"))].

(** A computation that succeeds with a value that satisfies a boolean. *)
Definition ok_with {A} (p : A -> bool) (m : res A) : bool := match m with Ok a => p a | Err _ => false end.

Lemma ok_with_true {A} (p : A -> bool) m : ok_with p m = true -> exists a, m = Ok a /\ p a = true.
Proof. destruct m as [a|e]; [|discriminate]. intros Hp. exists a. split; [reflexivity|exact Hp]. Qed.

Lemma decorated_receipt_reusable_witness :
  exists r, decorate_receipt check_row (JObj check_receipt) = Ok r /\
    assert_receipt_reusable check_row (json_sorted r) = Ok (json_sorted r).
Proof.
  assert (Hc : ok_with wf_json (decorate_receipt check_row (JObj check_receipt)) = true)
    by (vm_compute; reflexivity).
  apply ok_with_true in Hc as (r & Hr & Hwf). exists r. split; [exact Hr|].
  apply (decorated_receipt_reusable check_row check_receipt r Hr Hwf). reflexivity.
Defined.

Lemma verified_receipt_has_evidence_witness :
  exists r, assert_receipt_reusable check_row r = Ok r /\ exists d, r = JObj d /\ get d evidence_key <> JNull.
Proof.
  assert (Hc : ok_with (fun r => is_ok (assert_receipt_reusable check_row r))
    (decorate_receipt check_row (JObj check_receipt)) = true) by (vm_compute; reflexivity).
  apply ok_with_true in Hc as (r & _ & Hok).
  destruct (assert_receipt_reusable check_row r) as [r'|] eqn:Er; [|discriminate].
  destruct (verified_receipt_has_evidence check_row r r' eq_refl Er)
    as (-> & d & e & facts & existing & digest & -> & _ & _ & <- & Hn & _).
  exists (JObj d). split; [exact Er|]. exists d. split; [reflexivity|exact Hn].
Defined.

(** ** A ledger *)

Definition example_plan : WorkGraphPlan := Plan _ (u "sha256:p") (u "sha256:g") 1
  [Node _ (u "blocks") (u "generate:content") (u "sha256:01") [] [(u "resource_class", JStr (u "llm"))] (JStr (u "llm"));
   Node _ (u "items") (u "generate:content") (u "sha256:02") [] [(u "resource_class", JStr (u "llm"))] (JStr (u "llm"));
   Node _ (u "check") (u "validate:source") (u "sha256:11") [u "blocks"; u "items"] [] (JStr (u "cpu_io"))].

Definition example_ledger : ledger := Ledger (u "sha256:p") [].
Definition planned : db := act (SyncPlan 0 example_plan example_ledger) empty_db.
Definition lanes : list (pystr * Z) := capacities 4 resource_capacities.
Definition claimed : db := act (ClaimLane 0 (u "w") lanes true [] 900) planned.

Definition has_task (d : db) (id : pystr) (p : task_row -> bool) : bool :=
  match tasks d !! id with Some r => p r | None => false end.

Lemma has_task_true d id p : has_task d id p = true -> exists r, tasks d !! id = Some r /\ p r = true.
Proof. unfold has_task. destruct (tasks d !! id) as [r|]; [|discriminate]. intros Hp. by exists r. Qed.

Lemma invalidate_spec_witness :
  exists affected d', invalidate 5 (u "blocks") planned = (Ok affected, d') /\
    (forall k, k ∈ affected <-> rtc (depends (edges planned)) (u "blocks") k).
Proof.
  assert (Hc : has_task planned (u "blocks") (fun _ => true) = true) by (vm_compute; reflexivity).
  apply has_task_true in Hc as (r & Hr & _).
  eexists _, _. split; [reflexivity|].
  eapply (invalidate_spec 5 (u "blocks") planned); [reflexivity|by exists r].
Defined.

Lemma sync_plan_spec_witness :
  exists view l' d', sync_plan 0 example_plan example_ledger empty_db = (Ok (view, l'), d') /\
    forall k, is_Some (tasks d' !! k) <-> k ∈ map node_id (nodes example_plan).
Proof.
  destruct (sync_plan 0 example_plan example_ledger empty_db) as [[[view l']|e] d'] eqn:E.
  - exists view, l', d'. split; [reflexivity|].
    apply (sync_plan_spec 0 example_plan example_ledger empty_db view l' d' E).
  - exfalso. assert (Hok : is_ok (sync_plan 0 example_plan example_ledger empty_db).1 = true) by (vm_compute; reflexivity).
    rewrite E in Hok. discriminate.
Defined.

(** One running check, and its completion. *)
Definition check_task : task_row :=
  claimed_row (u "w") (Some 900) 1 (new_row (u "validate:source") (u "sha256:11") (u "{}") 0).
Definition checking : db := Db ∅ {[u "check" := check_task]} ∅ ∅.
Definition checked : db := (succeed 2 id (u "check") (JObj check_receipt) [] checking).2.


Lemma task_succeeded_verified_witness :
  exists v d', task 3 alone (u "check") checked = (Ok v, d') /\ t_state (v_row v) = SUCCEEDED /\
    exists digest, _verified_receipt_digest (t_receipt_json (v_row v)) = Ok (Some digest) /\
      t_receipt_hash (v_row v) = Some digest.
Proof.
  assert (Hc : ok_with (fun v => bool_decide (t_state (v_row v) = SUCCEEDED)) (task 3 alone (u "check") checked).1 = true)
    by (vm_compute; reflexivity).
  destruct (task 3 alone (u "check") checked) as [m d'] eqn:E. apply ok_with_true in Hc as (v & Hv & Hs).
  apply bool_decide_eq_true in Hs. simpl in Hv. subst m.
  exists v, d'. split; [reflexivity|]. split; [exact Hs|].
  destruct (task_succeeded_verified 3 (u "check") checked v d' E Hs) as (digest & receipt & Hd & Hh & _).
  exists digest. split; [exact Hd|exact Hh].
Defined.

(** ** Checkpoints *)

Definition started : db := (begin_checkpoint 1 (u "research") (u "research") (u "sha256:in") empty_db).2.

Lemma begin_checkpoint_exclusive_witness :
  begin_checkpoint 1 (u "research") (u "research") (u "sha256:in") empty_db = (Ok tt, started) /\
  exists why, begin_checkpoint 2 (u "research") (u "research") (u "sha256:other") started =
    (Err (WorkGraphError why), started).
Proof.
  split; [vm_compute; reflexivity|].
  apply (begin_checkpoint_exclusive 1 (u "research") (u "research") (u "sha256:in") empty_db started).
  vm_compute; reflexivity.
Defined.

Lemma run_named_checkpoint_cached_witness :
  exists input_hash d',
    (succeed_checkpoint 2 (u "research") input_hash (JObj check_receipt)
       (begin_checkpoint 1 (u "research") (u "research") input_hash empty_db).2 = (Ok tt, d')) /\
    forall action : db_op db json,
      run_named_checkpoint (fun _ => []) (fun j => Ok j) (fun j => Ok j) 3 4 id (u "research") (u "research")
        (JInt 5) action None d' = (Ok (json_sorted (JObj check_receipt)), d').
Proof.
  assert (Hc : ok_with (fun h =>
    let m := succeed_checkpoint 2 (u "research") h (JObj check_receipt)
       (begin_checkpoint 1 (u "research") (u "research") h empty_db).2 in
    is_ok m.1 && is_ok (raise_if_cancelled m.2))
    (res_bind (canonical_json (JInt 5)) sha256_text) = true) by (vm_compute; reflexivity).
  apply ok_with_true in Hc as (h & Hh & Hp). exists h. revert Hp. cbv zeta.
  destruct (succeed_checkpoint 2 (u "research") h (JObj check_receipt) _) as [[[]|e] d'] eqn:E; [|discriminate].
  intros Hp. exists d'. split; [reflexivity|]. apply andb_true_iff in Hp as [_ Hrun].
  destruct (raise_if_cancelled (Ok tt, d').2) as [[]|] eqn:Er; [|discriminate].
  refine (run_named_checkpoint_cached (fun _ => []) (fun j => Ok j) (fun j => Ok j) 3 2 4 id (u "research")
    (u "research") (JInt 5) h (JObj check_receipt) _ d' _ None Hh eq_refl E eq_refl _ Er).
  intros v Hv. discriminate.
Defined.

(** ** The scheduler *)

Lemma claim_orchestrator_spec_witness :
  claim_orchestrator_tx 0 (u "w") lanes true [] 900 planned = (Ok (Some (u "blocks")), claimed) /\
  exists r, tasks (expire_others 0 (u "w") (renew_owned 0 900 (u "w") planned)) !! u "blocks" = Some r /\
    t_state r = PENDING.
Proof.
  assert (Hc : claim_orchestrator_tx 0 (u "w") lanes true [] 900 planned = (Ok (Some (u "blocks")), claimed))
    by (vm_compute; reflexivity).
  split; [exact Hc|].
  destruct (claim_orchestrator_spec 0 (u "w") lanes true [] 900 planned (u "blocks") claimed Hc)
    as (_ & r & Hr & Hs & _).
  exists r. split; [exact Hr|exact Hs].
Defined.

Lemma claim_orchestrator_none_witness :
  exists d', claim_orchestrator_tx 1 (u "w") lanes true [] 900 claimed = (Ok None, d') /\
    d' = expire_others 1 (u "w") (renew_owned 1 900 (u "w") claimed).
Proof.
  assert (Hc : (claim_orchestrator_tx 1 (u "w") lanes true [] 900 claimed).1 = Ok None) by (vm_compute; reflexivity).
  destruct (claim_orchestrator_tx 1 (u "w") lanes true [] 900 claimed) as [m d'] eqn:E. simpl in Hc. subst m.
  exists d'. split; [reflexivity|]. apply (claim_orchestrator_none 1 (u "w") lanes true [] 900 claimed d' E).
Defined.

(** Four tasks that are ready at once: two of a stage that runs alone, and one for each kind
    of model.  With a shared GPU three claims give the words to the LLM, one host task to a
    CPU lane, and then nothing: the texture waits for the GPU, the other host for the first. *)
Definition resource_node (id stage input resource : pystr) : WorkNode :=
  Node _ id stage input [] [(u "resource_class", JStr resource)] (JStr resource).

Definition lane_plan : WorkGraphPlan := Plan _ (u "sha256:p") (u "sha256:g") 1
  [resource_node (u "host-a") (u "generate:host") (u "sha256:01") (u "cpu_io");
   resource_node (u "host-b") (u "generate:host") (u "sha256:02") (u "cpu_io");
   resource_node (u "texture") (u "generate:texture") (u "sha256:03") (u "image_gpu");
   resource_node (u "words") (u "generate:language") (u "sha256:04") (u "llm")].

Definition lane_claim (owner : pystr) : db_op db (option pystr) :=
  claim_orchestrator_tx 1 owner lanes true [] 900.
Definition lane_ready : db := act (SyncPlan 0 lane_plan example_ledger) empty_db.
Definition llm_busy : db := (lane_claim (u "w1") lane_ready).2.
Definition host_busy : db := (lane_claim (u "w2") llm_busy).2.

Definition nothing_runs (d : db) : bool := negb (exists_row (fun _ r => bool_decide (t_state r = RUNNING)) (tasks d)).

Lemma nothing_runs_true d : nothing_runs d = true -> forall k r, tasks d !! k = Some r -> t_state r <> RUNNING.
Proof.
  unfold nothing_runs. intros Hn k r Hr Hs. apply negb_true_iff, not_true_iff_false in Hn. apply Hn.
  apply exists_row_true. exists k, r. split; [exact Hr|by apply bool_decide_eq_true].
Qed.

Lemma lane_ready_admitted : admitted lanes true lane_ready.
Proof. apply idle_admitted, nothing_runs_true. vm_compute; reflexivity. Qed.

Lemma claim_orchestrator_admitted_witness :
  (lane_claim (u "w1") lane_ready).1 = Ok (Some (u "words")) /\
  (lane_claim (u "w2") llm_busy).1 = Ok (Some (u "host-a")) /\
  (lane_claim (u "w3") host_busy).1 = Ok None /\
  has_task host_busy (u "texture") (ready_task host_busy [] (u "texture")) = true /\
  has_task host_busy (u "host-b") (ready_task host_busy [] (u "host-b")) = true /\
  admitted lanes true llm_busy /\ admitted lanes true host_busy.
Proof.
  split_and!; [vm_compute; reflexivity..| |].
  - exact (claim_orchestrator_admitted 1 (u "w1") lanes true [] 900 lane_ready lane_ready_admitted).
  - exact (claim_orchestrator_admitted 1 (u "w2") lanes true [] 900 llm_busy
      (claim_orchestrator_admitted 1 (u "w1") lanes true [] 900 lane_ready lane_ready_admitted)).
Defined.

(** ** Histories *)

Definition cancelled : db := act (Cancel 2 (u "blocks") (u "stop")) claimed.
Definition reclaimed : db := act (Begin 4 (u "blocks") (u "w")) cancelled.

Lemma planned_history : history {[u "blocks"]} empty_db planned.
Proof.
  apply history_act; [apply history_start|]. split.
  - intros n r dep _ Hr. exfalso. revert Hr. simpl. rewrite lookup_empty. discriminate.
  - intros i ->%elem_of_singleton. by left.
Qed.

Lemma claimed_history : history {[u "blocks"]} empty_db claimed.
Proof. apply history_act; [apply planned_history|exact I]. Qed.

(** A result is published, and a read finds that its digest was not stored.  Before the read
    stores it, another worker invalidates the task. *)
Definition publish (now : Z) (receipt : json) (attempt : Z) : db -> db := fun d =>
  (_commit_success now id (fun _ => Ok tt) (u "blocks") receipt attempt (u "w") d).2.
Definition published : db := publish 5 (JObj []) 1 claimed.
Definition raced_read : db := read_act (Read 7 (u "blocks")) (between (act (Invalidate 6 (u "blocks"))) id) published.

Lemma raced_history : history {[u "blocks"]} empty_db raced_read.
Proof.
  unfold raced_read. apply history_read.
  - unfold published, publish. apply history_commit; [apply claimed_history|apply history_start].
  - apply history_act; [apply history_start|exact I].
  - apply history_start.
  - reflexivity.
Qed.

Lemma ledger_consistent_witness :
  has_task raced_read (u "blocks") (fun r => bool_decide (t_state r = PENDING) && bool_decide (t_receipt_hash r <> None))
    = true /\
  (forall id r, tasks raced_read !! id = Some r -> t_state r <> SUCCEEDED -> t_receipt_json r = None) /\
  forall id r, tasks claimed !! id = Some r -> t_state r = RUNNING -> is_Some (t_lease_owner r).
Proof.
  split; [vm_compute; reflexivity|]. split.
  - intros id r Hr Hs. destruct (ledger_consistent {[u "blocks"]} raced_read raced_history) as (_ & _ & Hrows).
    destruct (Hrows id r Hr) as (Hrec & _ & _). by apply Hrec.
  - intros id r Hr Hs. destruct (ledger_consistent {[u "blocks"]} claimed claimed_history) as (_ & _ & Hrows).
    destruct (Hrows id r Hr) as (_ & _ & Hrun). by apply Hrun.
Defined.

Lemma stale_claim_fenced_witness :
  claim_is_current (u "blocks") 2 (u "w") reclaimed = true /\
  exists e, _commit_success 5 id (fun _ => Ok tt) (u "blocks") (JObj []) 1 (u "w") reclaimed = (Err e, reclaimed).
Proof.
  split; [vm_compute; reflexivity|].
  apply (stale_claim_fenced {[u "blocks"]} (u "blocks") 1 (u "w") claimed cancelled reclaimed) with (error := []).
  - by apply elem_of_singleton.
  - vm_compute; reflexivity.
  - apply history_act; [apply history_start|exact I].
  - vm_compute; reflexivity.
  - apply history_act; [apply history_start|exact I].
Defined.

Lemma commit_success_spec_witness :
  exists d', _commit_success 5 id (fun _ => Ok tt) (u "blocks") (JObj []) 1 (u "w") claimed = (Ok tt, d') /\
    is_ok (_commit_success 6 id (fun _ => Ok tt) (u "blocks") (JObj []) 1 (u "w") d').1 = false.
Proof.
  assert (Hc : is_ok (_commit_success 5 id (fun _ => Ok tt) (u "blocks") (JObj []) 1 (u "w") claimed).1 = true)
    by (vm_compute; reflexivity).
  destruct (_commit_success 5 id (fun _ => Ok tt) (u "blocks") (JObj []) 1 (u "w") claimed) as [[[]|e] d'] eqn:E;
    [|discriminate].
  exists d'. split; [reflexivity|].
  assert (Hk : u "blocks" ∈ ({[u "blocks"]} : gset pystr)) by by apply elem_of_singleton.
  destruct (commit_success_spec {[u "blocks"]} 5 id (fun _ => Ok tt) (u "blocks") (JObj []) 1 (u "w") claimed d' Hk E)
    as (_ & _ & _ & _ & Honce).
  apply Honce, history_start.
Defined.

(** [retry] reads the state and then updates without looking at it again.  When
    another worker retries, runs and completes the task in between, a success is
    queued again, with its receipt still stored. *)
Definition failed_check : db := (fail_tx 1 id (u "check") (u "boom") false checking).2.

Definition other_worker (d : db) : db :=
  (succeed 4 id (u "check") (JObj check_receipt) []
     (begin_tx 3 (u "check") (u "other") (retry_tx 2 id (u "check") d).2).2).2.

Lemma retry_race :
  has_task (other_worker failed_check) (u "check") (fun r => bool_decide (t_state r = SUCCEEDED)) = true /\
  has_task (retry_tx 5 other_worker (u "check") failed_check).2 (u "check")
    (fun r => bool_decide (t_state r = PENDING) && bool_decide (t_receipt_json r <> None)) = true.
Proof. split; vm_compute; reflexivity. Qed.

(** A read stores a missing receipt digest without looking at the state again
    ([raced_read]).  The digest that it leaves on the pending task is taken for the one of
    the next result: that result is published, and the next read resets it. *)
Definition rerun : db := act (ClaimLane 8 (u "w") lanes true [] 900) raced_read.
Definition republished : db := publish 9 (JObj [(u "n", JInt 2)]) 2 rerun.

Lemma stale_digest_resets_success :
  has_task republished (u "blocks") (fun r => bool_decide (t_state r = SUCCEEDED)) = true /\
  has_task (read_act (Read 10 (u "blocks")) alone republished) (u "blocks")
    (fun r => bool_decide (t_state r = PENDING)) = true.
Proof. split; vm_compute; reflexivity. Qed.

(** The dependents of a damaged receipt are selected before the write lock is taken.  When
    another worker adds a dependent to the plan and claims it in between, it goes on running
    while the task that it depends on is reset. *)
Definition damaged : db :=
  set_tasks (update_where (is_node (u "blocks")) (hashed_row (u "sha256:00")) (tasks published)) published.

Definition longer_plan : WorkGraphPlan := Plan _ (u "sha256:p") (u "sha256:h") 1
  (nodes example_plan ++
   [Node _ (u "late") (u "generate:late") (u "sha256:05") [u "blocks"] [] (JStr (u "cpu_io"))]).

Definition replan_and_run (d : db) : db :=
  act (Begin 7 (u "late") (u "other")) (act (SyncPlan 6 longer_plan example_ledger) d).

Lemma replan_race :
  let d := read_act (Read 8 (u "blocks")) (between id replan_and_run) damaged in
  bool_decide ((u "late", u "blocks") ∈ edges d) = true /\
  has_task d (u "late") (fun r => bool_decide (t_state r = RUNNING)) = true /\
  has_task d (u "blocks") (fun r => bool_decide (t_state r = PENDING)) = true.
Proof. split_and!; vm_compute; reflexivity. Qed.

(** A plan that drops a running task forgets its attempts.  When a later plan brings the task
    back and its owner claims it again, the attempt is the same one, and a result that was
    computed under the claim that was lost is published. *)
Definition pruned_plan : WorkGraphPlan := Plan _ (u "sha256:p") (u "sha256:h") 1
  [Node _ (u "items") (u "generate:content") (u "sha256:02") [] [(u "resource_class", JStr (u "llm"))] (JStr (u "llm"))].

Definition pruned : db := act (SyncPlan 2 pruned_plan example_ledger) claimed.
Definition returned : db :=
  act (ClaimLane 4 (u "w") lanes true [] 900) (act (SyncPlan 3 example_plan example_ledger) pruned).

Lemma pruned_claim_returns :
  claim_is_current (u "blocks") 1 (u "w") claimed = true /\
  claim_is_current (u "blocks") 1 (u "w") pruned = false /\
  is_ok (_commit_success 5 id (fun _ => Ok tt) (u "blocks") (JObj []) 1 (u "w") returned).1 = true.
Proof. split_and!; vm_compute; reflexivity. Qed.
