(* ===== verification/Kahn.v ===== *)
(** * Kahn: counting down dependencies

    The two orderings of the work plan ([_topological_modules] by module,
    [_module_shards] by shard) keep the number of dependencies of each node that
    have not been emitted, and queue a node when it reaches zero.  [release] is
    the inner loop they share, and [counts] the invariant it keeps. *)

From stdpp Require Import prelude gmap sets fin_sets fin_map_dom list.
From S2P Require Import Prelude.

Open Scope Z_scope.

Section kahn.
Context {K : Type} `{Countable K}.

Definition count (k : K) (l : list K) : nat := length (filter (fun x => x = k) l).

(** [for dependent in outgoing: indegree[dependent] -= 1; if it is 0: push] *)
Definition release (indegree : gmap K Z) (outgoing : list K) : gmap K Z * list K :=
  fold_left (fun '(deg, new) d =>
    let v := default 0 (deg !! d) - 1 in
    (<[d := v]> deg, if v =? 0 then new ++ [d] else new)) outgoing (indegree, []).

(** [outgoing[dependency].append(node)] for every node and dependency. *)
Definition outgoing_of (nodes : list K) (deps : K -> list K) (k : K) : list K :=
  n ← nodes; d ← deps n; if decide (d = k) then [n] else [].

(** The dependencies of [n] that are not emitted, with repetitions. *)
Definition remaining (deps : K -> list K) (D : gset K) (n : K) : nat :=
  length (filter (fun d => d ∉ D) (deps n)).

(** ** Lemmas *)

Lemma count_cons k x l : count k (x :: l) = ((if decide (x = k) then 1 else 0) + count k l)%nat.
Proof. unfold count. rewrite filter_cons. by case_decide. Qed.

Lemma count_app k l1 l2 : count k (l1 ++ l2) = (count k l1 + count k l2)%nat.
Proof. unfold count. by rewrite filter_app, length_app. Qed.

Lemma count_pos k l : (0 < count k l)%nat <-> k ∈ l.
Proof.
  induction l as [|x l IH]; [split; [unfold count; simpl; lia|intros Hk; by apply elem_of_nil in Hk]|].
  rewrite count_cons, elem_of_cons. case_decide; naive_solver lia.
Qed.

Definition release_step (p : gmap K Z * list K) (d : K) : gmap K Z * list K :=
  let v := default 0 (p.1 !! d) - 1 in (<[d := v]> p.1, if v =? 0 then p.2 ++ [d] else p.2).

Lemma release_steps deg l : release deg l = fold_left release_step l (deg, []).
Proof.
  unfold release. generalize (deg, @nil K). induction l as [|d l IH]; intros [dg new]; simpl; [done|]. apply IH.
Qed.

Lemma release_fold l deg new :
  (forall n, n ∈ l -> exists v, deg !! n = Some v /\ Z.of_nat (count n l) <= v) ->
  exists deg' extra, fold_left release_step l (deg, new) = (deg', new ++ extra) /\
    (forall n, deg' !! n = (fun v => v - Z.of_nat (count n l)) <$> deg !! n) /\
    NoDup extra /\ (forall n, n ∈ extra <-> n ∈ l /\ deg !! n = Some (Z.of_nat (count n l))).
Proof.
  revert deg new; induction l as [|d l IH]; intros deg new Hl; cbn [fold_left].
  - exists deg, []. split_and!; [by rewrite app_nil_r| |constructor|].
    + intros n. destruct (deg !! n); simpl; [|done]. f_equal. change (count n []) with 0%nat. lia.
    + intros n. split; [intros Hn; by apply elem_of_nil in Hn|intros [Hn _]; by apply elem_of_nil in Hn].
  - destruct (Hl d) as (v & Hv & Hc); [by left|]. rewrite count_cons, decide_True in Hc by done.
    destruct (IH (<[d := v - 1]> deg) (if v - 1 =? 0 then new ++ [d] else new)) as (deg' & extra & Hf & Hd & Hnd & Hin).
    { intros n Hn. destruct (decide (n = d)) as [->|Hne].
      - exists (v - 1). rewrite lookup_insert_eq. split; [done|lia].
      - rewrite lookup_insert_ne by done. destruct (Hl n) as (w & Hw & Hcw); [by right|].
        exists w. split; [done|]. rewrite count_cons, decide_False in Hcw by done. done. }
    assert (Hdeg : forall n, deg' !! n = (fun w => w - Z.of_nat (count n (d :: l))) <$> deg !! n).
    { intros n. rewrite Hd, count_cons. destruct (decide (d = n)) as [<-|Hne].
      - rewrite lookup_insert_eq, Hv. simpl. f_equal. lia.
      - rewrite lookup_insert_ne by done. simpl. done. }
    assert (Hout : d ∈ extra <-> d ∈ l /\ v - 1 = Z.of_nat (count d l)).
    { rewrite Hin, lookup_insert_eq. split; intros [? Hx]; split; [done|congruence|done|congruence]. }
    assert (Hrest : forall n, n <> d -> (n ∈ extra <-> n ∈ d :: l /\ deg !! n = Some (Z.of_nat (count n (d :: l))))).
    { intros n Hne. rewrite Hin, lookup_insert_ne, elem_of_cons, count_cons, decide_False by done.
      split; intros [Hx Hy]; (split; [|done]); [by right|by destruct Hx]. }
    unfold release_step at 2. cbn [fst snd]. rewrite Hv. simpl default. destruct (v - 1 =? 0) eqn:E.
    + apply Z.eqb_eq in E. assert (count d l = 0%nat) as Hz by lia.
      assert (d ∉ l) as Hdl by (intros Hx; apply count_pos in Hx; lia).
      exists deg', (d :: extra). split_and!; [by rewrite Hf, <- (assoc_L (++))|done| |].
      * constructor; [tauto|done].
      * intros n. destruct (decide (n = d)) as [->|Hne].
        -- rewrite count_cons, decide_True, Hv, Hz by done. split; [|intros _; by left].
           intros _. split; [by left|]. f_equal. lia.
        -- rewrite <- Hrest by done. rewrite elem_of_cons. naive_solver.
    + apply Z.eqb_neq in E. exists deg', extra. split_and!; [done|done|done|].
      intros n. destruct (decide (n = d)) as [->|Hne]; [|by apply Hrest].
      rewrite Hout, count_cons, decide_True, Hv by done. split.
      * intros [? ?]. split; [by left|]. f_equal. lia.
      * intros [_ [= He]]. split; [|lia]. apply count_pos. lia.
Qed.
(** ** The invariant of the orderings *)

Section ordering.
Context (nodes : list K) (deps : K -> list K).
Hypothesis nodes_NoDup : NoDup nodes.

(** [D] is the set of the nodes emitted so far. *)
Definition counts (D : gset K) (deg : gmap K Z) : Prop :=
  forall n, n ∈ nodes -> deg !! n = Some (Z.of_nat (remaining deps D n)).

Definition queue (D : gset K) (ready : list K) : Prop :=
  NoDup ready /\ (forall n, n ∈ ready <-> n ∈ nodes /\ n ∉ D /\ remaining deps D n = 0%nat) /\
  (forall n, n ∈ D -> remaining deps D n = 0%nat).

Lemma remaining_zero D n : remaining deps D n = 0%nat <-> forall d, d ∈ deps n -> d ∈ D.
Proof.
  unfold remaining. rewrite length_zero_iff_nil. split.
  - intros Hn d Hd. destruct (decide (d ∈ D)) as [|Hx]; [done|]. exfalso.
    assert (d ∈ filter (fun d => d ∉ D) (deps n)) as Hin by by apply list_elem_of_filter.
    rewrite Hn in Hin. by apply elem_of_nil in Hin.
  - intros Hall. destruct (filter _ _) as [|d l] eqn:E; [done|]. exfalso.
    assert (d ∈ filter (fun d => d ∉ D) (deps n)) as Hin by (rewrite E; by left).
    apply list_elem_of_filter in Hin as [Hd Hin]. by apply Hd, Hall.
Qed.

Lemma remaining_emit D k n :
  k ∉ D -> remaining deps D n = (remaining deps ({[k]} ∪ D) n + count k (deps n))%nat.
Proof.
  intros Hk. unfold remaining, count. induction (deps n) as [|d l IH]; [done|].
  rewrite !filter_cons. destruct (decide (d = k)) as [->|Hne].
  - rewrite (decide_True (P := k ∉ D)) by done. rewrite decide_False by set_solver. simpl. lia.
  - destruct (decide (d ∉ D)).
    + rewrite (decide_True (P := d ∉ {[k]} ∪ D)) by set_solver. simpl. lia.
    + rewrite (decide_False (P := d ∉ {[k]} ∪ D)) by set_solver. lia.
Qed.

Lemma count_outgoing k n :
  count n (outgoing_of nodes deps k) = if decide (n ∈ nodes) then count k (deps n) else 0%nat.
Proof.
  unfold outgoing_of. revert nodes_NoDup. induction nodes as [|m l IH]; intros Hnd.
  { by rewrite decide_False by apply not_elem_of_nil. }
  inversion Hnd as [|? ? Hm Hl]; subst. rewrite bind_cons, count_app, (IH Hl).
  assert (Hrow : forall ds, count n (d ← ds; if decide (d = k) then [m] else []) =
    if decide (m = n) then count k ds else 0%nat).
  { intros ds. induction ds as [|d ds IHd]; [by destruct (decide (m = n))|]. rewrite bind_cons.
    rewrite count_app, IHd, count_cons. destruct (decide (d = k)); rewrite ?count_cons;
      change (count n []) with 0%nat; destruct (decide (m = n)); lia. }
  rewrite Hrow. destruct (decide (m = n)) as [->|Hne].
  - rewrite (decide_True (P := n ∈ n :: l)) by by left. by rewrite decide_False; [lia|].
  - destruct (decide (n ∈ l)).
    + by rewrite decide_True by by right.
    + by rewrite decide_False by (rewrite elem_of_cons; naive_solver).
Qed.

Lemma emit_step D deg ready k rest deg' new :
  counts D deg -> queue D ready -> ready ≡ₚ k :: rest ->
  release deg (outgoing_of nodes deps k) = (deg', new) ->
  counts ({[k]} ∪ D) deg' /\ queue ({[k]} ∪ D) (rest ++ new).
Proof.
  intros Hc (Hnd & Hq & HD) Hp Hrel.
  assert (k ∈ nodes /\ k ∉ D /\ remaining deps D k = 0%nat) as (Hk & HkD & Hk0).
  { apply Hq. rewrite Hp. by left. }
  assert (Hout : forall n, n ∈ outgoing_of nodes deps k <-> n ∈ nodes /\ (0 < count k (deps n))%nat).
  { intros n. rewrite <- count_pos, count_outgoing. case_decide; [tauto|]. split; [lia|tauto]. }
  rewrite release_steps in Hrel.
  destruct (release_fold (outgoing_of nodes deps k) deg []) as (dg & extra & Hf & Hd & Hnd' & Hin).
  { intros n Hn. apply Hout in Hn as [Hn _]. exists (Z.of_nat (remaining deps D n)). split; [by apply Hc|].
    rewrite count_outgoing, decide_True, (remaining_emit D k n) by done. lia. }
  rewrite Hf in Hrel. injection Hrel as <- <-. simpl.
  assert (Hc' : counts ({[k]} ∪ D) dg).
  { intros n Hn. rewrite Hd, count_outgoing, decide_True, (Hc n Hn) by done. simpl. f_equal.
    rewrite (remaining_emit D k n) by done. lia. }
  assert (Hex : forall n, n ∈ extra <-> n ∈ nodes /\ remaining deps ({[k]} ∪ D) n = 0%nat /\ remaining deps D n <> 0%nat).
  { intros n. rewrite Hin, Hout, count_outgoing. split.
    - intros [[Hn Hpos] Hdeg]. rewrite decide_True, (Hc n Hn) in Hdeg by done. injection Hdeg as Hdeg.
      pose proof (remaining_emit D k n HkD). split_and!; [done|lia|lia].
    - intros (Hn & Hz & Hnz). pose proof (remaining_emit D k n HkD).
      rewrite decide_True, (Hc n Hn) by done. split_and!; [done|lia|]. f_equal. lia. }
  assert (Hnd2 : NoDup (k :: rest)) by by rewrite <- Hp. apply NoDup_cons in Hnd2 as [Hkr Hrest].
  split; [done|]. split_and!.
  - apply NoDup_app. split_and!; [done| |done]. intros n Hn Hn'. apply Hex in Hn' as (_ & _ & Hnz).
    assert (n ∈ ready) as Hr by (rewrite Hp; by right). apply Hq in Hr as (_ & _ & Hz). done.
  - intros n. rewrite elem_of_app, Hex. pose proof (remaining_emit D k n HkD) as Hrem.
    assert (n ∈ rest <-> n ∈ ready /\ n <> k) as ->.
    { rewrite Hp, elem_of_cons. split; [|naive_solver]. intros Hn. split; [by right|]. by intros ->. }
    rewrite Hq. split.
    + intros [[(? & ? & ?) ?]|(? & ? & ?)]; split_and!; try done; [set_solver|lia|].
      intros Hx. apply elem_of_union in Hx as [->%elem_of_singleton|Hx]; [done|].
      pose proof (HD n Hx). lia.
    + intros (Hn & HnD & Hz). destruct (decide (remaining deps D n = 0%nat)); [left|right; done].
      set_solver.
  - intros n Hn. pose proof (remaining_emit D k n HkD). apply elem_of_union in Hn as [->%elem_of_singleton|Hn]; [lia|].
    pose proof (HD n Hn). lia.
Qed.
End ordering.
End kahn.
