(* ===== verification/Paths.v ===== *)
(** * Paths: [pathlib.PurePosixPath] *)

From stdpp Require Import prelude strings list.
From S2P Require Import Prelude Text.

Open Scope Z_scope.

(** [s.split("/")], and the parts [PurePosixPath] keeps. *)
Fixpoint split_slash (s : pystr) : list pystr :=
  match s with
  | [] => [[]]
  | c :: s =>
      if c =? 47 then [] :: split_slash s
      else match split_slash s with p :: ps => (c :: p) :: ps | [] => [[c]] end
  end.

Fixpoint join_slash (parts : list pystr) : pystr :=
  match parts with [] => [] | [p] => p | p :: ps => p ++ 47 :: join_slash ps end.

Definition path_parts (s : pystr) : list pystr := filter (fun p => p <> [] /\ p <> u ".") (split_slash s).

Definition as_posix (parts : list pystr) : pystr := match parts with [] => u "." | _ => join_slash parts end.

(** [str(value).replace("\\", "/")] *)
Definition forward_slashes (s : pystr) : pystr := map (fun c => if c =? 92 then 47 else c) s.

(** The root that [parts] begins with: two leading slashes stay two, more are one. *)
Definition path_root (s : pystr) : list pystr :=
  if starts_with (u "//") s && negb (starts_with (u "///") s) then [u "//"]
  else if starts_with (u "/") s then [u "/"] else [].

(** [path.parts] *)
Definition all_parts (s : pystr) : list pystr := path_root s ++ path_parts s.

(** [path.name] of a path given by its parts, and [path.suffix] of a name. *)
Definition path_name (parts : list pystr) : pystr := default [] (last parts).

Definition name_suffix (name : pystr) : pystr :=
  let ext := after_last 46 name in
  if contains 46 name && negb (bool_decide (ext = [])) && (Z.of_nat (length ext) + 1 <? Z.of_nat (length name))
  then 46 :: ext else [].
