(* ===== verification/ScalePolicy.v ===== *)
(** * ScalePolicy: [scale_policy.py]

    The resource limits of a run, read from the environment and validated. *)

From stdpp Require Import prelude gmap strings list sorting.
From S2P Require Import Prelude Text Json PyJson.

Open Scope Z_scope.
Open Scope py_scope.

Record ScalePolicy : Type := Policy {
  java_shard_size : Z; entity_shard_size : Z; function_shard_size : Z; world_placements_per_tick : Z;
  model_context_bytes : Z; mcp_page_bytes : Z; max_patch_bytes : Z; max_single_file_bytes : Z;
  max_texture_dimension : Z; repair_attempts : Z; nbt_piece_axis : Z; nbt_piece_volume : Z;
  gradle_min_heap_mb : Z; gradle_max_heap_mb : Z; runtime_min_heap_mb : Z; runtime_max_heap_mb : Z
}.

(** The fields in the order of the dictionary [positive]. *)
Definition policy_fields (p : ScalePolicy) : list Z :=
  [java_shard_size p; entity_shard_size p; function_shard_size p; world_placements_per_tick p;
   model_context_bytes p; mcp_page_bytes p; max_patch_bytes p; max_single_file_bytes p;
   max_texture_dimension p; repair_attempts p; nbt_piece_axis p; nbt_piece_volume p;
   gradle_min_heap_mb p; gradle_max_heap_mb p; runtime_min_heap_mb p; runtime_max_heap_mb p].

Definition policy_error {A} (why : string) : res A := Err (ScalePolicyError why).

Definition validate (p : ScalePolicy) : res unit :=
  if existsb (fun v => v <? 1) (policy_fields p) then policy_error "must be a positive integer"
  else if gradle_max_heap_mb p <? gradle_min_heap_mb p
  then policy_error "Gradle minimum heap exceeds maximum heap"
  else if runtime_max_heap_mb p <? runtime_min_heap_mb p
  then policy_error "Runtime minimum heap exceeds maximum heap"
  else if 48 <? nbt_piece_axis p
  then policy_error "nbt_piece_axis may not exceed the reviewed vanilla structure-template axis of 48"
  else if nbt_piece_volume p <? nbt_piece_axis p ^ 3
  then policy_error "nbt_piece_axis creates pieces larger than nbt_piece_volume"
  else Ok tt.

Definition default_policy : ScalePolicy :=
  Policy 48 24 128 4 1500000 (256 * 1024) (32 * 1024 * 1024) (64 * 1024 * 1024) 8192 8 32 32768
    2048 12288 3072 16384.

Section environment.
Context `{PyUnicode}.

(** [env] is [os.environ.get]. *)
Definition _env_int (env : pystr -> option pystr) (name : pystr) (default minimum : Z) : res Z :=
  let* value := match env name with
                | None => Ok default
                | Some raw => match strip raw with [] => Ok default | _ => int_of_str raw end
                end in
  if value <? minimum then policy_error "must be >= minimum" else Ok value.

Definition from_environment (env : pystr -> option pystr) : res ScalePolicy :=
  let* java_shard_size := _env_int env (u "MMM_JAVA_SHARD_SIZE") 48 1 in
  let* entity_shard_size := _env_int env (u "MMM_ENTITY_SHARD_SIZE") 24 1 in
  let* function_shard_size := _env_int env (u "MMM_FUNCTION_SHARD_SIZE") 128 1 in
  let* world_placements_per_tick := _env_int env (u "MMM_WORLD_PLACEMENTS_PER_TICK") 4 1 in
  let* model_context_bytes := _env_int env (u "MMM_MODEL_CONTEXT_BYTES") 1500000 1 in
  let* mcp_page_bytes := _env_int env (u "MMM_MCP_PAGE_BYTES") (256 * 1024) 1 in
  let* max_patch_bytes := _env_int env (u "MMM_MAX_PATCH_BYTES") (32 * 1024 * 1024) 1 in
  let* max_single_file_bytes := _env_int env (u "MMM_MAX_SINGLE_FILE_BYTES") (64 * 1024 * 1024) 1 in
  let* max_texture_dimension := _env_int env (u "MMM_MAX_TEXTURE_DIMENSION") 8192 1 in
  let* repair_attempts := _env_int env (u "MMM_REPAIR_ATTEMPTS") 8 1 in
  let* nbt_piece_axis := _env_int env (u "MMM_NBT_PIECE_AXIS") 32 1 in
  let* nbt_piece_volume := _env_int env (u "MMM_NBT_PIECE_VOLUME") 32768 1 in
  let* gradle_min_heap_mb := _env_int env (u "MMM_GRADLE_MIN_HEAP_MB") 2048 1 in
  let* gradle_max_heap_mb := _env_int env (u "MMM_GRADLE_MAX_HEAP_MB") 12288 1 in
  let* runtime_min_heap_mb := _env_int env (u "MMM_RUNTIME_MIN_HEAP_MB") 3072 1 in
  let* runtime_max_heap_mb := _env_int env (u "MMM_RUNTIME_MAX_HEAP_MB") 16384 1 in
  let policy := Policy java_shard_size entity_shard_size function_shard_size world_placements_per_tick
    model_context_bytes mcp_page_bytes max_patch_bytes max_single_file_bytes max_texture_dimension
    repair_attempts nbt_piece_axis nbt_piece_volume gradle_min_heap_mb gradle_max_heap_mb
    runtime_min_heap_mb runtime_max_heap_mb in
  let* _ := validate policy in
  Ok policy.
End environment.

Definition gradle_heap_mb (p : ScalePolicy) (module_count source_file_count : Z) : Z :=
  Z.max (gradle_min_heap_mb p)
    (Z.min (gradle_max_heap_mb p) (gradle_min_heap_mb p + module_count * 6 + source_file_count * 2)).

Definition runtime_heap_mb (p : ScalePolicy) (module_count entity_count structure_count : Z) : Z :=
  Z.max (runtime_min_heap_mb p)
    (Z.min (runtime_max_heap_mb p)
       (runtime_min_heap_mb p + module_count * 3 + entity_count * 24 + structure_count * 16)).

(** ** Properties *)

Lemma validate_ok p :
  validate p = Ok tt <->
  (Forall (fun v => 1 <= v) (policy_fields p) /\ gradle_min_heap_mb p <= gradle_max_heap_mb p /\
   runtime_min_heap_mb p <= runtime_max_heap_mb p /\ nbt_piece_axis p <= 48 /\
   nbt_piece_axis p ^ 3 <= nbt_piece_volume p).
Proof.
  assert (Hf : existsb (fun v => v <? 1) (policy_fields p) = false <-> Forall (fun v => 1 <= v) (policy_fields p)).
  { rewrite <- not_true_iff_false, existsb_exists, Forall_forall. setoid_rewrite Z.ltb_lt. split.
    - intros Hn v Hv. apply Z.nlt_ge. intros Hlt. apply Hn. exists v. by rewrite <- list_elem_of_In.
    - intros Hall (v & Hv & Hlt). apply list_elem_of_In, Hall in Hv. lia. }
  unfold validate, policy_error. destruct (existsb _ _); [split; [done|]; intros [Ha _]; by apply Hf in Ha|].
  rewrite <- Hf. repeat case_goal; rewrite ?Z.ltb_lt, ?Z.ltb_ge in *; split; try done; lia.
Qed.

(** A policy read from the environment is within its bounds whatever the
    variables say: every limit is positive, a structure piece fits its volume,
    and the heap it gives Gradle or the game stays between its minimum and its
    maximum and does not shrink when the project grows. *)
Theorem from_environment_bounds `{PyUnicode} env p :
  from_environment env = Ok p ->
  Forall (fun v => 1 <= v) (policy_fields p) /\ nbt_piece_axis p ^ 3 <= nbt_piece_volume p /\
  (forall m f, gradle_min_heap_mb p <= gradle_heap_mb p m f <= gradle_max_heap_mb p) /\
  (forall m e s, runtime_min_heap_mb p <= runtime_heap_mb p m e s <= runtime_max_heap_mb p) /\
  (forall m m' f f', m <= m' -> f <= f' -> gradle_heap_mb p m f <= gradle_heap_mb p m' f') /\
  (forall m m' e e' s s', m <= m' -> e <= e' -> s <= s' ->
     runtime_heap_mb p m e s <= runtime_heap_mb p m' e' s').
Proof.
  unfold from_environment. do 16 (rewrite res_bind_ok; intros (? & _ & Hp); revert Hp).
  rewrite res_bind_ok. intros ([] & Hv & [= <-]).
  apply validate_ok in Hv as (Hf & Hg & Hr & _ & Hn). simpl in *. unfold gradle_heap_mb, runtime_heap_mb; simpl.
  split_and!; try done; intros; lia.
Qed.
