(* ===== verification/Backend.v ===== *)
(** * Backend: [platform_backend_contract.py] and [production_routing_contract.py]

    Which deterministic backend produces a module, the capabilities it needs, and
    the one route each module of a plan takes. *)

From stdpp Require Import prelude gmap sets fin_sets strings list sorting.
From S2P Require Import Prelude Text Json StdJson PyJson Sha256.

Open Scope Z_scope.
Open Scope py_scope.

Section backend.
Context `{PyFloat, !PyRepr}.

(** [ProductionModule] of [complete_spec.py]. *)
Record ProductionModule : Type := Module_ {
  module_id : pystr; kind : pystr; config : list (pystr * json);
  depends_on : list pystr; required_gates : list pystr
}.

(** ** The tables *)

Definition EXTENDED_CONTENT_KINDS : list pystr :=
  map u ["item"; "block"; "tool"; "weapon"; "armor"; "food"; "crop"; "machine"; "block_entity"; "effect";
         "enchantment"; "command"; "recipe"; "advancement"; "loot"; "tag"]%string.

Definition SYSTEM_KIND_TO_PACK : list (pystr * pystr) :=
  map (fun p => (u p.1, u p.2))
    [("quest", "quest-system"); ("class", "class-skill-system"); ("skill", "class-skill-system");
     ("economy", "economy-shop"); ("shop", "economy-shop"); ("gui", "gui-networking");
     ("networking", "gui-networking"); ("party", "party-guild"); ("guild", "party-guild")]%string.

Definition SYSTEM_PACK_KINDS : list (pystr * list pystr) :=
  [(u "quest-system", [u "quest"]); (u "class-skill-system", [u "class"; u "skill"]);
   (u "economy-shop", [u "economy"; u "shop"]); (u "gui-networking", [u "gui"; u "networking"]);
   (u "party-guild", [u "party"; u "guild"])].

Definition ENTITY_PIPELINE_KINDS : list pystr := [u "entity"; u "boss"; u "npc"].
Definition DEFAULT_GECKOLIB_VERSION : pystr := u "4.8.2".

Definition NATIVE_PRODUCTION_STAGE_BY_KIND : list (pystr * pystr) :=
  map (fun k => (k, u "content")) EXTENDED_CONTENT_KINDS ++
  map (fun kp => (kp.1, u "system")) SYSTEM_KIND_TO_PACK ++
  map (fun k => (k, u "entity")) ENTITY_PIPELINE_KINDS ++ [(u "typed_host", u "host")].

Definition NATIVE_INTEGRATION_STAGE_BY_TYPE : list (pystr * pystr) :=
  [(u "mmm_local_ai_sidecar", u "content"); (u "mmm_research_shard", u "content")].

Definition NATIVE_INTEGRATION_TYPES : list pystr := map fst NATIVE_INTEGRATION_STAGE_BY_TYPE.

(** ** Stages and capabilities *)

Definition native_production_stage (kind : pystr) (config : list (pystr * json)) : res (option pystr) :=
  let normalized := strip kind in
  match dict_get normalized NATIVE_PRODUCTION_STAGE_BY_KIND with
  | Some stage => Ok (Some stage)
  | None =>
      if decide (normalized <> u "integration") then Ok None
      else let* t := str_or_empty (get config (u "integration_type")) in
           Ok (dict_get (strip t) NATIVE_INTEGRATION_STAGE_BY_TYPE)
  end.

Definition normalize_capabilities (values : list pystr) : gset pystr :=
  list_to_set (filter (fun v => v <> []) (map strip values)).

Definition system_pack_capabilities (pack_id : pystr) : gset pystr :=
  let normalized := strip pack_id in
  match dict_get normalized SYSTEM_PACK_KINDS with
  | None => ∅
  | Some semantic => list_to_set (semantic ++ [u "system-pack:" ++ normalized])
  end.

Definition geckolib_entity_capabilities (version : pystr) : gset pystr :=
  match strip version with
  | [] => ∅
  | normalized => list_to_set [u "entity"; u "geckolib:entity"; u "geckolib:version:" ++ normalized]
  end.

Definition production_module_backend_capabilities (kind : pystr) : gset pystr :=
  let normalized := strip kind in
  if bool_decide (normalized ∈ EXTENDED_CONTENT_KINDS) then {[normalized]}
  else match dict_get normalized SYSTEM_KIND_TO_PACK with
  | Some pack_id => system_pack_capabilities pack_id
  | None =>
      if bool_decide (normalized ∈ ENTITY_PIPELINE_KINDS)
      then geckolib_entity_capabilities DEFAULT_GECKOLIB_VERSION
      else ∅
  end.

Definition missing_production_backend_capabilities (available : list pystr) (kind : pystr) : gset pystr :=
  production_module_backend_capabilities kind ∖ normalize_capabilities available.

Definition production_backend_is_supported (available : list pystr) (kind : pystr) : bool :=
  bool_decide (production_module_backend_capabilities kind <> ∅) &&
  bool_decide (missing_production_backend_capabilities available kind = ∅).

Definition supported_extended_content_kinds (available : list pystr) : gset pystr :=
  list_to_set (filter (fun k => k ∈ normalize_capabilities available) EXTENDED_CONTENT_KINDS).

Definition bootstrap_content_capabilities (kind : pystr) (recipe : bool) : gset pystr :=
  let normalized := strip kind in
  let extra : list pystr := if recipe then [u "recipe"] else [] in
  if decide (normalized = u "item") then list_to_set (u "item" :: extra)
  else if decide (normalized = u "block") then list_to_set (u "block" :: u "loot" :: u "tag" :: extra)
  else ∅.

(** [target_semantic_capabilities] of a target given as a mapping. *)
Definition add_supported (name : pystr) (supported : json) (result : gset pystr) : res (gset pystr) :=
  match supported with
  | JBool b => Ok (match strip name with [] => result | n => if b then {[n]} ∪ result else result end)
  | _ => Err ValueError
  end.

Fixpoint add_capabilities (items : list (pystr * json)) (result : gset pystr) : res (gset pystr) :=
  match items with
  | [] => Ok result
  | (name, supported) :: items => let* r := add_supported name supported result in add_capabilities items r
  end.

Definition target_semantic_capabilities (raw_deterministic : list pystr) (host_facts_json : pystr)
    : res (gset pystr) :=
  let result := normalize_capabilities raw_deterministic in
  match strip host_facts_json with
  | [] => Ok result
  | raw =>
      match json_loads raw with
      | Err JSONDecodeError | Err ValueError | Err TypeError => Err ValueError
      | Err e => Err e
      | Ok (JObj facts) =>
          match dict_get (u "capabilities") facts with
          | None => Ok result
          | Some (JObj capabilities) => add_capabilities capabilities result
          | Some _ => Err ValueError
          end
      | Ok _ => Err ValueError
      end
  end.

(** ** Routes *)

Record ModuleProductionRoute : Type := Route {
  r_module_id : pystr; r_kind : pystr; r_owner : pystr; r_stage : pystr; r_required_capabilities : list pystr
}.

Definition routing_error {A} (why : string) : res A := Err (ProductionRoutingError why).

Definition has_typed_plan (m : ProductionModule) : bool := is_mapping (get (config m) (u "typed_plan_ir")).

(** One turn of the loop of [compile_production_routing]. *)
Definition route_of (artifact_owners : gset pystr) (available : list pystr) (m : ProductionModule)
    : res ModuleProductionRoute :=
  if decide (module_id m ∈ artifact_owners)
  then Ok (Route (module_id m) (kind m) (u "artifact_graph") (u "content") [])
  else if bool_decide (kind m = u "typed_host") && negb (has_typed_plan m)
  then routing_error "TYPED_HOST_PLAN_REQUIRED"
  else if bool_decide (kind m <> u "typed_host") && has_typed_plan m
  then routing_error "TYPED_HOST_KIND_REQUIRED"
  else
    let* stage := native_production_stage (kind m) (config m) in
    match stage with
    | None => routing_error "DETERMINISTIC_BACKEND_REQUIRED: unsupported production route"
    | Some stage =>
        if decide (missing_production_backend_capabilities available (kind m) <> ∅)
        then routing_error "DETERMINISTIC_BACKEND_REQUIRED: missing backend capabilities"
        else Ok (Route (module_id m) (kind m) (u "native_host") stage
                   (sorted_set (production_module_backend_capabilities (kind m))))
    end.

Record ProductionRoutingSnapshot : Type := Routing {
  rt_deterministic_module_kinds : list pystr; rt_artifact_owner_module_ids : list pystr;
  rt_artifact_client_entrypoints : list pystr; rt_routes : list ModuleProductionRoute;
  rt_contract_sha256 : pystr
}.

Definition strs (l : list pystr) : json := JArr (map JStr l).

Definition route_to_dict (r : ModuleProductionRoute) : json :=
  JObj [(u "module_id", JStr (r_module_id r)); (u "kind", JStr (r_kind r)); (u "owner", JStr (r_owner r));
        (u "stage", JStr (r_stage r)); (u "required_capabilities", strs (r_required_capabilities r))].

Definition routing_schema : pystr := u "mmm/production-routing-contract-v1".

Definition routing_body (available : list pystr) (owners entrypoints : list pystr)
    (routes : list ModuleProductionRoute) : list (pystr * json) :=
  [(u "schema_version", JStr routing_schema); (u "deterministic_module_kinds", strs available);
   (u "artifact_owner_module_ids", strs owners); (u "artifact_client_entrypoints", strs entrypoints);
   (u "routes", JArr (map route_to_dict routes))].

(** [compile_production_routing], with what the artifact jobs and the platform
    adapter of the proposal give: the modules that own artifacts, the client
    entrypoints, and the kinds of the adapter. *)
Definition compile_production_routing (all_owners : gset pystr) (entrypoints adapter_kinds : list pystr)
    (selected : list ProductionModule) : res ProductionRoutingSnapshot :=
  let ids := map module_id selected in
  if decide (~ NoDup ids) then routing_error "PRODUCTION_ROUTING_DUPLICATE_MODULE_ID"
  else
    let owners := all_owners ∩ list_to_set ids in
    let native := filter (fun m => module_id m ∉ owners) selected in
    let available := match native with [] => [] | _ => sorted_set (normalize_capabilities adapter_kinds) end in
    let* routes := res_map_list (route_of owners available) selected in
    let owner_ids := sorted_set owners in
    let* text := canonical_json (JObj (routing_body available owner_ids entrypoints routes)) in
    let* digest := sha256_text text in
    Ok (Routing available owner_ids entrypoints routes digest).

(** [route_by_module_id]: the last route of an id. *)
Definition route_by_module_id (s : ProductionRoutingSnapshot) : gmap pystr ModuleProductionRoute :=
  fold_left (fun m r => <[r_module_id r := r]> m) (rt_routes s) ∅.

(** ** Lemmas *)

Lemma missing_empty available kind :
  missing_production_backend_capabilities available kind = ∅ <->
  production_module_backend_capabilities kind ⊆ normalize_capabilities available.
Proof. unfold missing_production_backend_capabilities. split; [apply empty_difference_subseteq_L|apply subseteq_empty_difference_L]. Qed.

Lemma route_of_ok owners available m r :
  route_of owners available m = Ok r ->
  r_module_id r = module_id m /\ r_kind r = kind m /\
  if decide (module_id m ∈ owners)
  then r_owner r = u "artifact_graph" /\ r_stage r = u "content"
  else r_owner r = u "native_host" /\
       native_production_stage (kind m) (config m) = Ok (Some (r_stage r)) /\
       (kind m = u "typed_host" <-> has_typed_plan m = true) /\
       production_module_backend_capabilities (kind m) ⊆ normalize_capabilities available.
Proof.
  unfold route_of. destruct (decide (module_id m ∈ owners)) as [Ho|Ho].
  { by intros [= <-]. }
  destruct (bool_decide (kind m = u "typed_host") && _) eqn:E1; [done|].
  destruct (bool_decide (kind m <> u "typed_host") && _) eqn:E2; [done|].
  rewrite res_bind_ok. intros ([stage|] & Hs & Hr); [|done].
  destruct (decide (_ <> ∅)) as [|Hm]; [done|]. injection Hr as <-. simpl.
  apply dec_stable, missing_empty in Hm. split_and!; try done.
  destruct (has_typed_plan m); simpl in *; rewrite ?andb_true_r, ?bool_decide_eq_false in *.
  - apply dec_stable in E2. done.
  - split; [intros ?; contradiction|discriminate].
Qed.
End backend.

Arguments Module_ {_}. Arguments Route. Arguments Routing.
