(* ===== verification/WorkPlan.v ===== *)
(** * WorkPlan: the ordering of modules and the shards of [work_graph.py]

    [_topological_modules] and [_validate_acyclic] (of [complete_spec.py]) by
    module, [_module_shards] by shard, and the nodes of the work graph. *)

From stdpp Require Import prelude gmap sets fin_sets fin_map_dom strings list sorting.
From S2P Require Import Prelude Text Json StdJson PyJson Sha256 Kahn Ledger ScalePolicy Backend.

Open Scope Z_scope.
Open Scope py_scope.

(** A dictionary built from pairs: the last value of a key. *)
Definition dict_of {K A} `{Countable K} (l : list (K * A)) : gmap K A :=
  fold_left (fun m kv => <[kv.1 := kv.2]> m) l ∅.

(** ** Topological order *)

(** [while ready: node = heappop(ready); ..]: the heap is the multiset [ready],
    the least string is popped. *)
Fixpoint topo_loop (fuel : nat) (outgoing : pystr -> list pystr) (ready : list pystr)
    (indegree : gmap pystr Z) (ordered : list pystr) : res (list pystr * gmap pystr Z) :=
  match sort_strs ready with
  | [] => Ok (ordered, indegree)
  | id :: rest =>
      match fuel with
      | O => Err OutOfFuel
      | S fuel =>
          let '(indegree, new) := release indegree (outgoing id) in
          topo_loop fuel outgoing (rest ++ new) indegree (ordered ++ [id])
      end
  end.

Definition zero_keys (indegree : gmap pystr Z) : list pystr :=
  map fst (filter (fun kv => kv.2 = 0) (map_to_list indegree)).

Section modules.
Context `{PyFloat}.

Definition deps_table (modules : list ProductionModule) : list (pystr * list pystr) :=
  map (fun m => (module_id m, depends_on m)) modules.

(** [outgoing[dependency].append(module_id)] *)
Definition outgoing_table (table : list (pystr * list pystr)) (k : pystr) : list pystr :=
  p ← table; d ← p.2; if decide (d = k) then [p.1] else [].

Definition run_kahn (table : list (pystr * list pystr)) : res (list pystr * gmap pystr Z) :=
  let indegree : gmap pystr Z := dict_of (map (fun p => (p.1, Z.of_nat (length p.2))) table) in
  topo_loop (length table) (outgoing_table table) (zero_keys indegree) indegree [].

Definition _topological_modules (modules : list ProductionModule) : res (list ProductionModule) :=
  let table := deps_table modules in
  let lookup : gmap pystr ProductionModule := dict_of (map (fun m => (module_id m, m)) modules) in
  if decide (Exists (fun d => d ∉ map fst table) (concat (map snd table))) then Err KeyError
  else
    let* run := run_kahn table in
    if decide (length run.1 <> length modules)
    then graph_error "Production module graph contains a cycle."
    else Ok (omap (fun id => lookup !! id) run.1).

(** [_validate_acyclic]: dependencies on unknown modules are left out. *)
Definition _validate_acyclic (modules : list ProductionModule) : res unit :=
  let ids := map module_id modules in
  let table := map (fun m => (module_id m, filter (fun d => d ∈ ids) (depends_on m))) modules in
  let* run := run_kahn table in
  if decide (length run.1 <> length modules)
  then Err (SpecValidationError "Production module dependency cycle detected")
  else Ok tt.

(** The checks of [build_production_work_plan] before it orders the modules. *)
Definition selected_modules (modules : list ProductionModule) : res (list ProductionModule) :=
  let ids := map module_id modules in
  if decide (~ NoDup ids) then graph_error "Production work modules contain duplicate IDs."
  else if decide (Exists (fun d => d ∉ ids) (concat (map depends_on modules)))
  then graph_error "Production work module references missing dependencies"
  else _topological_modules modules.

(** ** Shards *)

Record shard_group : Type := Group {
  g_stage : pystr; g_batch_key : pystr; g_members : list ProductionModule;
  g_external : gset nat; g_first_order : nat; g_sealed : bool
}.

Record shard_state : Type := Shards {
  groups : list shard_group;
  module_group : gmap pystr nat;
  open_by_key : gmap (pystr * pystr * gset nat) nat
}.

Definition _module_batch_key (m : ProductionModule) (stage : pystr) : pystr :=
  if decide (stage = u "system") then default (kind m) (dict_get (kind m) SYSTEM_KIND_TO_PACK) else [].

Definition _is_typed_host_module (m : ProductionModule) : bool :=
  bool_decide (kind m = u "typed_host") && has_typed_plan m.

Section sizes.
Context `{PyUnicode}.

(** [os.environ.get(name, '').strip()] *)
Definition _pipeline_shard_size (env : pystr -> option pystr) (name : pystr) (default_ upper : Z) : res Z :=
  let* value := match strip (default [] (env name)) with
                | [] => Ok default_
                | raw => match int_of_str raw with
                         | Err ValueError => graph_error "WORK_GRAPH_SHARD_SIZE_INVALID"
                         | r => r
                         end
                end in
  if (value <? 1) || (Z.max 1 upper <? value) then graph_error "WORK_GRAPH_SHARD_SIZE_OUT_OF_RANGE"
  else Ok value.

Definition shard_size_for (env : pystr -> option pystr) (policy : ScalePolicy) (stage : pystr) : res Z :=
  let java := Z.max 1 (java_shard_size policy) in
  if decide (stage = u "content") then Ok java
  else if decide (stage = u "system") then _pipeline_shard_size env (u "MMM_SYSTEM_PIPELINE_SHARD_SIZE") java java
  else if decide (stage = u "entity")
  then _pipeline_shard_size env (u "MMM_ENTITY_PIPELINE_SHARD_SIZE") 2 (Z.max 1 (entity_shard_size policy))
  else if decide (stage = u "host") then Ok 1
  else Ok java.

Definition group_key (g : shard_group) : pystr * pystr * gset nat := (g_stage g, g_batch_key g, g_external g).

Definition add_member (m : ProductionModule) (g : shard_group) : shard_group :=
  Group (g_stage g) (g_batch_key g) (g_members g ++ [m]) (g_external g) (g_first_order g) (g_sealed g).

Definition member_count (g : shard_group) : Z := Z.of_nat (length (g_members g)).

(** May a module of this stage join group [i], given the groups it depends on? *)
Definition joinable (st : shard_state) (limit : Z) (stage : pystr) (dependency_groups : gset nat) (i : nat) : bool :=
  match groups st !! i with
  | Some g => negb (g_sealed g) && bool_decide (g_stage g = stage) && (member_count g <? limit) &&
              bool_decide (dependency_groups ∖ {[i]} ⊆ g_external g)
  | None => false
  end.

Definition exact_candidate (st : shard_state) (limit : Z) (stage batch_key : pystr)
    (dependency_groups : gset nat) : gset nat :=
  match open_by_key st !! (stage, batch_key, dependency_groups) with
  | Some i => match groups st !! i with
              | Some g => if member_count g <? limit then {[i]} else ∅
              | None => ∅
              end
  | None => ∅
  end.

Definition candidates (st : shard_state) (limit : Z) (stage batch_key : pystr) (dependency_groups : gset nat)
    : gset nat :=
  exact_candidate st limit stage batch_key dependency_groups ∪
  filter (fun i => joinable st limit stage dependency_groups i = true) dependency_groups.

Definition max_index (s : gset nat) : option nat :=
  match elements s with [] => None | l => Some (max_list l) end.

(** A group is open under its key while it has room; the newest one wins. *)
Definition reopen (limit : Z) (chosen : nat) (g : shard_group) (open : gmap (pystr * pystr * gset nat) nat)
    : gmap (pystr * pystr * gset nat) nat :=
  let key := group_key g in
  if limit <=? member_count g
  then if decide (open !! key = Some chosen) then delete key open else open
  else match open !! key with
       | None => <[key := chosen]> open
       | Some previous => if (previous <? chosen)%nat then <[key := chosen]> open else open
       end.

(** One turn of the loop over [staged]. *)
Definition place_module (env : pystr -> option pystr) (policy : ScalePolicy) (st : shard_state)
    (m : ProductionModule) (stage : pystr) : res shard_state :=
  if decide (Exists (fun d => module_group st !! d = None) (depends_on m))
  then graph_error "Module sharding requires topological order"
  else
    let* limit := shard_size_for env policy stage in
    let batch_key := _module_batch_key m stage in
    let dependency_groups : gset nat := list_to_set (omap (fun d => module_group st !! d) (depends_on m)) in
    let order := size (module_group st) in
    if bool_decide (stage = u "host") && _is_typed_host_module m then
      Ok (Shards (groups st ++ [Group stage batch_key [m] dependency_groups order true])
            (<[module_id m := length (groups st)]> (module_group st)) (open_by_key st))
    else
      let '(chosen, gs, open) :=
        match max_index (candidates st limit stage batch_key dependency_groups) with
        | Some i => (i, groups st, open_by_key st)
        | None =>
            let i := length (groups st) in
            (i, groups st ++ [Group stage batch_key [] dependency_groups order false],
             <[(stage, batch_key, dependency_groups) := i]> (open_by_key st))
        end in
      match gs !! chosen with
      | None => Err KeyError
      | Some g =>
          let g := add_member m g in
          Ok (Shards (<[chosen := g]> gs) (<[module_id m := chosen]> (module_group st)) (reopen limit chosen g open))
      end.
Fixpoint place_all (env : pystr -> option pystr) (policy : ScalePolicy) (st : shard_state)
    (staged : list (ProductionModule * pystr)) : res shard_state :=
  match staged with
  | [] => Ok st
  | (m, stage) :: staged => let* st := place_module env policy st m stage in place_all env policy st staged
  end.

(** *** Emission in waves *)

Definition externals (gs : list shard_group) (i : nat) : list nat :=
  match gs !! i with Some g => merge_sort (≤)%nat (elements (g_external g)) | None => [] end.

Definition first_order (gs : list shard_group) (i : nat) : nat :=
  match gs !! i with Some g => g_first_order g | None => 0%nat end.

Definition order_le (gs : list shard_group) : relation nat := fun i j =>
  (first_order gs i < first_order gs j)%nat \/ (first_order gs i = first_order gs j /\ (i <= j)%nat).

#[local] Instance order_le_dec gs : RelDecision (order_le gs).
Proof. intros i j. unfold order_le. apply _. Defined.

(** [for index in ready: yield ..; release its dependents] *)
Definition run_wave (gs : list shard_group) (ready : list nat) (indegree : gmap nat Z) : gmap nat Z * list nat :=
  fold_left (fun '(deg, next) i =>
    let '(deg, new) := release deg (outgoing_of (seq 0 (length gs)) (externals gs) i) in
    (deg, next ++ new)) ready (indegree, []).

Fixpoint waves (fuel : nat) (gs : list shard_group) (ready : list nat) (indegree : gmap nat Z)
    (emitted : list nat) : res (list nat) :=
  match ready with
  | [] => Ok emitted
  | _ =>
      match fuel with
      | O => Err OutOfFuel
      | S fuel =>
          let '(indegree, next) := run_wave gs ready indegree in
          waves fuel gs (merge_sort (order_le gs) (elements (list_to_set next : gset nat))) indegree (emitted ++ ready)
      end
  end.

Definition emission (gs : list shard_group) : res (list nat) :=
  let all := seq 0 (length gs) in
  let indegree : gmap nat Z := dict_of (map (fun i => (i, Z.of_nat (length (externals gs i)))) all) in
  let ready := merge_sort (order_le gs) (filter (fun i => externals gs i = []) all) in
  let* emitted := waves (length gs) gs ready indegree [] in
  if decide (length emitted <> length gs) then graph_error "Module shard dependency graph contains a cycle."
  else Ok emitted.

Definition shards_of (gs : list shard_group) : res (list (pystr * list ProductionModule)) :=
  let* emitted := emission gs in
  Ok (omap (fun i => g ← gs !! i; Some (g_stage g, g_members g)) emitted).

Context `{!PyRepr}.

(** [_module_stage], for callers without a routing snapshot. *)
Definition _module_stage (deterministic : option (list pystr)) (m : ProductionModule) : res pystr :=
  if bool_decide (kind m = u "typed_host") && negb (has_typed_plan m) then graph_error "TYPED_HOST_PLAN_REQUIRED"
  else if bool_decide (kind m <> u "typed_host") && has_typed_plan m
  then graph_error "TYPED_HOST_KIND_REQUIRED"
  else
    let* stage := native_production_stage (kind m) (config m) in
    match stage with
    | None => graph_error "DETERMINISTIC_BACKEND_REQUIRED: unsupported production route"
    | Some stage =>
        match deterministic with
        | Some kinds =>
            if decide (missing_production_backend_capabilities kinds (kind m) <> ∅)
            then graph_error "DETERMINISTIC_BACKEND_REQUIRED: missing backend capabilities"
            else Ok stage
        | None => Ok stage
        end
    end.

Definition staged_modules (routes : option (gmap pystr ModuleProductionRoute)) (deterministic : option (list pystr))
    (artifact_owners : gset pystr) (modules : list ProductionModule) : res (list (ProductionModule * pystr)) :=
  match routes with
  | Some routes =>
      if decide (Exists (fun m => routes !! module_id m = None) modules)
      then graph_error "PRODUCTION_ROUTING_MISSING_MODULE"
      else Ok (omap (fun m => r ← routes !! module_id m; Some (m, r_stage r)) modules)
  | None =>
      res_map_list (fun m =>
        let* stage := if decide (module_id m ∈ artifact_owners) then Ok (u "content")
                      else _module_stage deterministic m in
        Ok (m, stage)) modules
  end.

Definition _module_shards (env : pystr -> option pystr) (policy : ScalePolicy)
    (routes : option (gmap pystr ModuleProductionRoute)) (deterministic : option (list pystr))
    (artifact_owners : gset pystr) (modules : list ProductionModule)
    : res (list (pystr * list ProductionModule)) :=
  let* staged := staged_modules routes deterministic artifact_owners modules in
  let* st := place_all env policy (Shards [] ∅ ∅) staged in
  shards_of (groups st).
End sizes.
End modules.
