(* ===== verification/Topological.v ===== *)
(** * Topological: the order of the modules

    [_topological_modules] computes the lexicographically least order in which
    every module comes after the modules it depends on, and fails exactly when
    there is no order at all.  [least_first] says what the order is without
    saying how it is computed, and determines it. *)

From stdpp Require Import prelude gmap sets fin_sets fin_map_dom strings list sorting.
From S2P Require Import Prelude Text Json StdJson PyJson Kahn Tables Ledger Backend WorkPlan.

Open Scope Z_scope.
Open Scope py_scope.

Section order.
Context (nodes : list pystr) (deps : pystr -> list pystr).

(** The nodes that may come next after [done]. *)
Definition available (done : list pystr) (id : pystr) : Prop :=
  id ∈ nodes /\ id ∉ done /\ forall d, d ∈ deps id -> d ∈ done.

Definition least_first (ordered : list pystr) : Prop :=
  forall pre id post, ordered = pre ++ id :: post ->
    available pre id /\ forall id', available pre id' -> str_le id id'.

(** Nothing can follow. *)
Definition complete (ordered : list pystr) : Prop := forall id, ~ available ordered id.

Lemma least_first_snoc ordered id :
  least_first ordered -> available ordered id -> (forall id', available ordered id' -> str_le id id') ->
  least_first (ordered ++ [id]).
Proof.
  intros Hl Ha Hm pre x post Hx. destruct post as [|y post] using rev_ind.
  - apply app_inj_tail in Hx as [<- <-]. done.
  - rewrite app_comm_cons, (assoc_L (++)) in Hx. apply app_inj_tail in Hx as [-> _]. by eapply Hl.
Qed.

Lemma least_first_prefix pre post : least_first (pre ++ post) -> least_first pre.
Proof.
  intros Hl p x q ->. apply (Hl p x (q ++ post)). by rewrite <- (assoc_L (++)).
Qed.

(** There is at most one such order. *)
Lemma least_first_unique l1 l2 :
  least_first l1 -> complete l1 -> least_first l2 -> complete l2 -> l1 = l2.
Proof.
  intros H1 C1 H2 C2.
  assert (forall pre r1 r2, l1 = pre ++ r1 -> l2 = pre ++ r2 -> r1 = r2) as Hg; [|by apply (Hg [])].
  intros pre r1. revert pre. induction r1 as [|x r1 IH]; intros pre [|y r2] E1 E2; [done| | |].
  - rewrite app_nil_r in E1. subst l1. exfalso. apply (C1 y). by apply (H2 pre y r2).
  - rewrite app_nil_r in E2. subst l2. exfalso. apply (C2 x). by apply (H1 pre x r1).
  - destruct (H1 pre x r1 E1) as [Ax Mx], (H2 pre y r2 E2) as [Ay My].
    assert (x = y) as -> by (apply str_leb_antisym; [by apply Mx|by apply My]). f_equal.
    apply (IH (pre ++ [y])); by rewrite <- (assoc_L (++)).
Qed.

Lemma least_first_NoDup l : least_first l -> NoDup l /\ forall id, id ∈ l -> id ∈ nodes.
Proof.
  induction l as [|id l IH] using rev_ind; intros Hl; [split; [constructor|intros ? Hn; by apply elem_of_nil in Hn]|].
  destruct (Hl l id [] eq_refl) as [(Hid & Hnew & _) _].
  destruct (IH (least_first_prefix l [id] Hl)) as [Hnd Hin]. split.
  - apply NoDup_app. split_and!; [done| |apply NoDup_singleton]. by intros x Hx ->%list_elem_of_singleton.
  - intros x [Hx| ->%list_elem_of_singleton]%elem_of_app; auto.
Qed.

Hypothesis nodes_NoDup : NoDup nodes.

Lemma queue_available D ordered ready id :
  D = list_to_set ordered -> queue nodes deps D ready -> id ∈ ready <-> available ordered id.
Proof.
  intros -> (_ & Hq & _). rewrite Hq, remaining_zero. unfold available.
  setoid_rewrite elem_of_list_to_set. tauto.
Qed.

Lemma topo_loop_spec fuel ready deg ordered :
  counts nodes deps (list_to_set ordered) deg -> queue nodes deps (list_to_set ordered) ready ->
  least_first ordered -> (length nodes <= fuel + length ordered)%nat ->
  exists result deg', topo_loop fuel (outgoing_of nodes deps) ready deg ordered = Ok (result, deg') /\
    least_first result /\ complete result /\ counts nodes deps (list_to_set result) deg'.
Proof.
  revert ready deg ordered; induction fuel as [|fuel IH]; intros ready deg ordered Hc Hq Hl Hf.
  all: assert (Hp : sort_strs ready ≡ₚ ready) by (unfold sort_strs; apply merge_sort_Permutation).
  all: cbn [topo_loop]; destruct (sort_strs ready) as [|id rest] eqn:Es.
  1, 3: exists ordered, deg; split_and!; try done; intros id Hid;
    apply (queue_available _ _ _ _ eq_refl Hq) in Hid; rewrite <- Hp in Hid; by apply elem_of_nil in Hid.
  all: assert (Ha : available ordered id) by
    (apply (queue_available _ _ _ _ eq_refl Hq); rewrite <- Hp; by left).
  - exfalso. destruct (least_first_NoDup ordered Hl) as [Hnd Hin].
    assert (length (id :: ordered) <= length nodes)%nat as Hlen; [|simpl in Hlen; lia].
    apply submseteq_length, NoDup_submseteq.
    + constructor; [by apply Ha|done].
    + intros x [->|Hx]%elem_of_cons; [by apply Ha|auto].
  - destruct (release deg (outgoing_of nodes deps id)) as [deg' new] eqn:Er.
    destruct (emit_step nodes deps nodes_NoDup _ _ _ _ _ _ _ Hc Hq (symmetry Hp) Er) as [Hc' Hq'].
    assert (({[id]} ∪ list_to_set ordered : gset pystr) = list_to_set (ordered ++ [id])) as Eset
      by (rewrite list_to_set_app_L; set_solver).
    rewrite Eset in *. apply IH; [done|done| |rewrite length_app; simpl; lia].
    apply least_first_snoc; [done|done|]. intros id' Hid'.
    apply (queue_available _ _ _ _ eq_refl Hq) in Hid'. rewrite <- Hp in Hid'.
    eapply sort_strs_head; [exact Es|]. by rewrite Hp in Hid' || by rewrite <- Hp.
Qed.

(** If something is left, it is a set of nodes each of which waits for another. *)
Lemma complete_stuck ordered :
  complete ordered -> (forall n d, n ∈ nodes -> d ∈ deps n -> d ∈ nodes) ->
  forall n, n ∈ nodes -> n ∉ ordered -> exists d, d ∈ deps n /\ d ∈ nodes /\ d ∉ ordered.
Proof.
  intros Hc Hd n Hn Hno. destruct (decide (Exists (fun d => d ∉ ordered) (deps n))) as [He|He].
  - apply Exists_exists in He as (d & Hin & Hout). eauto.
  - exfalso. apply (Hc n). split_and!; [done|done|]. intros d Hin.
    destruct (decide (d ∈ ordered)) as [|Hout]; [done|]. exfalso. apply He, Exists_exists. eauto.
Qed.
End order.

(** ** Dictionaries *)

Lemma dict_of_snoc {K A} `{Countable K} (l : list (K * A)) kv : dict_of (l ++ [kv]) = <[kv.1 := kv.2]> (dict_of l).
Proof. unfold dict_of. by rewrite fold_left_app. Qed.

Lemma dict_of_lookup {K A} `{Countable K} (l : list (K * A)) k v :
  NoDup (map fst l) -> dict_of l !! k = Some v <-> (k, v) ∈ l.
Proof.
  induction l as [|[k' v'] l IH] using rev_ind; intros Hnd.
  { unfold dict_of. simpl. rewrite lookup_empty. split; [done|]. intros Hn. by apply elem_of_nil in Hn. }
  rewrite map_app in Hnd. apply NoDup_app in Hnd as (Hl & Hd & _).
  rewrite dict_of_snoc, elem_of_app, list_elem_of_singleton, lookup_insert_Some, (IH Hl). simpl. split.
  - intros [[-> ->]|[_ ?]]; auto.
  - intros [Hin|[= -> ->]]; [|by left]. right. split; [|done]. intros <-.
    apply (Hd k'); [by apply (list_elem_of_fmap_2' fst _ (k', v))|by left].
Qed.

(** ** The loop on a table of modules *)

Section table.
Context (table : list (pystr * list pystr)).
Hypothesis ids_NoDup : NoDup (map fst table).

Definition deps_of (id : pystr) : list pystr := default [] ((dict_of table : gmap pystr (list pystr)) !! id).

Lemma deps_of_in p : p ∈ table -> deps_of p.1 = p.2.
Proof. intros Hp. unfold deps_of. destruct p as [k v]. by rewrite (proj2 (dict_of_lookup table k v ids_NoDup) Hp). Qed.

Lemma outgoing_table_spec k : outgoing_table table k = outgoing_of (map fst table) deps_of k.
Proof.
  unfold outgoing_table, outgoing_of.
  assert (forall l, l ⊆ table -> (p ← l; d ← p.2; if decide (d = k) then [p.1] else []) =
    (n ← map fst l; d ← deps_of n; if decide (d = k) then [n] else [])) as Hg; [|by apply Hg].
  induction l as [|p l IH]; intros Hl; [done|]. rewrite map_cons, !bind_cons, IH by set_solver.
  by rewrite (deps_of_in p) by set_solver.
Qed.

Lemma topo_loop_ext fuel out out' ready deg ordered :
  (forall k, out k = out' k) -> topo_loop fuel out ready deg ordered = topo_loop fuel out' ready deg ordered.
Proof.
  intros He. revert ready deg ordered; induction fuel as [|fuel IH]; intros ready deg ordered; simpl; [done|].
  destruct (sort_strs ready); [done|]. rewrite He. by destruct (release _ _).
Qed.

Lemma run_kahn_spec :
  exists result deg, run_kahn table = Ok (result, deg) /\
    least_first (map fst table) deps_of result /\ complete (map fst table) deps_of result.
Proof.
  set (indegree := dict_of (map (fun p => (p.1, Z.of_nat (length p.2))) table) : gmap pystr Z).
  assert (Hnd : NoDup (map fst (map (fun p : pystr * list pystr => (p.1, Z.of_nat (length p.2))) table)))
    by by rewrite map_map.
  assert (Hdeg : forall n v, indegree !! n = Some v <-> n ∈ map fst table /\ v = Z.of_nat (length (deps_of n))).
  { intros n v. unfold indegree. rewrite dict_of_lookup by done. split.
    - intros (p & [= -> ->] & Hp)%list_elem_of_fmap. rewrite (deps_of_in p Hp). split; [by apply list_elem_of_fmap_2|done].
    - intros [(p & -> & Hp)%list_elem_of_fmap ->]. apply list_elem_of_fmap. exists p. by rewrite (deps_of_in p Hp). }
  assert (Hall : forall n, remaining deps_of ∅ n = length (deps_of n)).
  { intros n. unfold remaining. induction (deps_of n) as [|d l IH]; [done|].
    rewrite filter_cons, decide_True by set_solver. simpl. by rewrite IH. }
  assert (Hc : counts (map fst table) deps_of (list_to_set []) indegree).
  { intros n Hn. rewrite Hall. by apply Hdeg. }
  assert (Hq : queue (map fst table) deps_of (list_to_set []) (zero_keys indegree)).
  { split_and!.
    - unfold zero_keys. apply (NoDup_fmap_fst _); [|apply NoDup_filter, NoDup_map_to_list].
      intros x y1 y2 Hy1 Hy2. apply list_elem_of_filter in Hy1 as [Hz1 _], Hy2 as [Hz2 _]. simpl in *. congruence.
    - intros n. unfold zero_keys. rewrite list_elem_of_fmap, Hall. split.
      + intros ([n' v] & -> & [Hz Hv]%list_elem_of_filter). simpl in *. subst v.
        apply elem_of_map_to_list, Hdeg in Hv as [Hn Hz]. split_and!; [done|set_solver|lia].
      + intros (Hn & _ & Hz). exists (n, 0). split; [done|]. apply list_elem_of_filter. split; [done|].
        apply elem_of_map_to_list, Hdeg. split; [done|lia].
    - intros n Hn. set_solver. }
  destruct (topo_loop_spec (map fst table) deps_of ids_NoDup (length table) (zero_keys indegree) indegree [] Hc Hq)
    as (result & deg & Hr & Hl & Hcomp & _).
  - intros pre id post Hx. by destruct pre.
  - rewrite length_map. simpl. lia.
  - exists result, deg. split_and!; try done. unfold run_kahn. fold indegree.
    rewrite (topo_loop_ext _ _ _ _ _ _ outgoing_table_spec). done.
Qed.

(** A complete order has everything, or leaves nodes that wait for each other. *)
Lemma run_kahn_stuck result :
  (forall d, d ∈ concat (map snd table) -> d ∈ map fst table) ->
  least_first (map fst table) deps_of result -> complete (map fst table) deps_of result ->
  length result <> length table ->
  exists C : gset pystr, C <> ∅ /\ forall n, n ∈ C -> n ∈ map fst table /\ exists d, d ∈ deps_of n /\ d ∈ C.
Proof.
  intros Hd Hl Hc Hlen. destruct (least_first_NoDup _ _ _ Hl) as [Hnd Hin].
  exists (list_to_set (map fst table) ∖ list_to_set result). split.
  - intros He. apply Hlen.
    assert (result ≡ₚ map fst table) as Hp; [|by rewrite Hp, length_map].
    apply NoDup_Permutation; [done|done|]. intros x. split; [apply Hin|]. intros Hx.
    destruct (decide (x ∈ result)) as [|Hn]; [done|]. exfalso.
    assert (x ∈ (list_to_set (map fst table) ∖ list_to_set result : gset pystr)) as Hx'; [|set_solver].
    apply elem_of_difference. by rewrite !elem_of_list_to_set.
  - intros n [Hn Hr]%elem_of_difference. rewrite elem_of_list_to_set in Hn, Hr. split; [done|].
    destruct (complete_stuck (map fst table) deps_of result Hc) with n as (d & H1 & H2 & H3); try done.
    + intros k d Hk Hkd. apply Hd, elem_of_concat. apply list_elem_of_fmap in Hk as (p & -> & Hp).
      rewrite (deps_of_in p Hp) in Hkd. exists p.2. split; [by apply list_elem_of_fmap_2|done].
    + exists d. split; [done|]. apply elem_of_difference. by rewrite !elem_of_list_to_set.
Qed.
End table.

(** ** Modules *)

Section modules.
Context `{PyFloat}.

Lemma deps_table_fst ms : map fst (deps_table ms) = map module_id ms.
Proof. unfold deps_table. by rewrite map_map. Qed.

Lemma deps_table_snd ms : map snd (deps_table ms) = map depends_on ms.
Proof. unfold deps_table. by rewrite map_map. Qed.

Lemma module_deps_of ms m :
  NoDup (map module_id ms) -> m ∈ ms -> deps_of (deps_table ms) (module_id m) = depends_on m.
Proof.
  intros Hnd Hm. rewrite <- deps_table_fst in Hnd.
  apply (deps_of_in (deps_table ms) Hnd (module_id m, depends_on m)). by apply (list_elem_of_fmap_2 (fun m => (module_id m, depends_on m))).
Qed.

Lemma lookup_module ms m :
  NoDup (map module_id ms) -> m ∈ ms ->
  (dict_of (map (fun m => (module_id m, m)) ms) : gmap pystr ProductionModule) !! module_id m = Some m.
Proof.
  intros Hnd Hm. apply dict_of_lookup; [by rewrite map_map|]. by apply (list_elem_of_fmap_2 (fun m => (module_id m, m))).
Qed.

(** The modules of a list of their ids. *)
Lemma omap_lookup_ids ms ids :
  NoDup (map module_id ms) -> (forall id, id ∈ ids -> id ∈ map module_id ms) ->
  map module_id (omap (fun id => (dict_of (map (fun m => (module_id m, m)) ms) : gmap pystr _) !! id) ids) = ids /\
  forall m, m ∈ omap (fun id => (dict_of (map (fun m => (module_id m, m)) ms) : gmap pystr _) !! id) ids -> m ∈ ms.
Proof.
  intros Hnd. induction ids as [|id ids IH]; intros Hin; [split; [done|]; intros m Hm; by apply elem_of_nil in Hm|].
  destruct IH as [IH1 IH2]; [intros; apply Hin; by right|].
  assert (id ∈ map module_id ms) as (m & -> & Hm)%list_elem_of_fmap by (apply Hin; by left).
  simpl. rewrite (lookup_module ms m Hnd Hm). simpl. split; [f_equal; exact IH1|].
  intros x [->|Hx]%elem_of_cons; [done|by apply IH2].
Qed.

Lemma module_id_inj ms m m' :
  NoDup (map module_id ms) -> m ∈ ms -> m' ∈ ms -> module_id m = module_id m' -> m = m'.
Proof.
  intros Hnd Hm Hm' Hid. pose proof (lookup_module ms m Hnd Hm) as E. rewrite Hid, (lookup_module ms m' Hnd Hm') in E.
  by injection E.
Qed.

Lemma ids_Permutation ms ordered result :
  NoDup (map module_id ms) -> map module_id ordered = result -> NoDup result ->
  (forall m, m ∈ ordered -> m ∈ ms) -> length result = length ms -> ordered ≡ₚ ms.
Proof.
  intros Hnd Hids Hrnd Hsub Hlen. assert (NoDup ordered) as Hond.
  { apply (NoDup_fmap_1 module_id). change (NoDup (map module_id ordered)). by rewrite Hids. }
  apply submseteq_length_Permutation; [by apply NoDup_submseteq|].
  rewrite <- Hlen, <- Hids. by rewrite length_map.
Qed.

Lemma topological_ok ms ordered :
  NoDup (map module_id ms) -> _topological_modules ms = Ok ordered ->
  ordered ≡ₚ ms /\ least_first (map module_id ms) (deps_of (deps_table ms)) (map module_id ordered) /\
  complete (map module_id ms) (deps_of (deps_table ms)) (map module_id ordered).
Proof.
  intros Hnd. unfold _topological_modules. destruct (decide (Exists _ _)); [done|].
  pose proof Hnd as Hnd'. rewrite <- deps_table_fst in Hnd'.
  destruct (run_kahn_spec (deps_table ms) Hnd') as (result & deg & -> & Hl & Hc). cbn [res_bind fst].
  rewrite deps_table_fst in Hl, Hc.
  cbv zeta.
  destruct (decide (length result <> length ms)) as [|Hlen]; [done|]. apply dec_stable in Hlen. intros [= <-].
  destruct (least_first_NoDup _ _ _ Hl) as [Hrnd Hin].
  destruct (omap_lookup_ids ms result Hnd Hin) as [Hids Hsub].
  set (ordered := omap _ result) in *. rewrite Hids. split_and!; [|done|done].
  by apply (ids_Permutation ms ordered result).
Qed.

Lemma topological_stuck ms e :
  NoDup (map module_id ms) -> (forall d, d ∈ concat (map depends_on ms) -> d ∈ map module_id ms) ->
  _topological_modules ms = Err e ->
  e = WorkGraphError "Production module graph contains a cycle." /\
  exists C : gset pystr, C <> ∅ /\
    forall n, n ∈ C -> exists m d, m ∈ ms /\ module_id m = n /\ d ∈ depends_on m /\ d ∈ C.
Proof.
  intros Hnd Hd. unfold _topological_modules. rewrite deps_table_fst, deps_table_snd.
  destruct (decide (Exists _ _)) as [He|_].
  { exfalso. apply Exists_exists in He as (d & Hin & Hn). by apply Hn, Hd. }
  pose proof Hnd as Hnd'. rewrite <- deps_table_fst in Hnd'.
  destruct (run_kahn_spec (deps_table ms) Hnd') as (result & deg & -> & Hl & Hc). cbn [res_bind fst].
  destruct (decide (length result <> length ms)) as [Hlen|]; [|done]. intros [= <-]. split; [done|].
  destruct (run_kahn_stuck (deps_table ms) Hnd' result) as (C & Hne & HC); try done.
  - by rewrite deps_table_fst, deps_table_snd.
  - unfold deps_table. by rewrite length_map.
  - exists C. split; [done|]. intros n Hn. destruct (HC n Hn) as (Hids & d & Hdn & HdC).
    rewrite deps_table_fst in Hids. apply list_elem_of_fmap in Hids as (m & -> & Hm).
    exists m, d. by rewrite <- (module_deps_of ms m).
Qed.

(** Why a selection is refused. *)
Definition refused (ms : list ProductionModule) : Prop :=
  ~ NoDup (map module_id ms) \/
  (exists m d, m ∈ ms /\ d ∈ depends_on m /\ d ∉ map module_id ms) \/
  (exists C : gset pystr, C <> ∅ /\
     forall n, n ∈ C -> exists m d, m ∈ ms /\ module_id m = n /\ d ∈ depends_on m /\ d ∈ C).

Lemma selected_modules_cases ms :
  match selected_modules ms with
  | Ok ordered => NoDup (map module_id ms) /\ _topological_modules ms = Ok ordered
  | Err e => refused ms
  end.
Proof.
  unfold selected_modules. destruct (decide (~ NoDup _)) as [Hd|Hnd]; [by left|].
  apply dec_stable in Hnd. destruct (decide (Exists _ _)) as [He|He].
  { right; left. apply Exists_exists in He as (d & Hin & Hn).
    apply elem_of_concat in Hin as (l & (m & -> & Hm)%list_elem_of_fmap & Hd). by exists m, d. }
  assert (Hdeps : forall d, d ∈ concat (map depends_on ms) -> d ∈ map module_id ms).
  { intros d Hd. destruct (decide (d ∈ map module_id ms)) as [|Hn]; [done|]. exfalso. apply He, Exists_exists. eauto. }
  destruct (_topological_modules ms) as [ordered|e] eqn:Et; [done|].
  destruct (topological_stuck ms e Hnd Hdeps Et) as [_ HC]. by right; right.
Qed.

(** C32: the modules of a plan are put in an order in which every module comes
    after those it depends on, and at each point the least id that may come next
    comes next.  They are refused only when two have the same id, one depends on
    a module that is not there, or some of them wait for each other. *)
Theorem selected_modules_spec ms :
  match selected_modules ms with
  | Ok ordered =>
      ordered ≡ₚ ms /\
      forall pre m post, ordered = pre ++ m :: post ->
        (forall d, d ∈ depends_on m -> d ∈ map module_id pre) /\
        (forall m', m' ∈ post -> (forall d, d ∈ depends_on m' -> d ∈ map module_id pre) ->
           str_le (module_id m) (module_id m'))
  | Err e =>
      ~ NoDup (map module_id ms) \/
      (exists m d, m ∈ ms /\ d ∈ depends_on m /\ d ∉ map module_id ms) \/
      (exists C : gset pystr, C <> ∅ /\
         forall n, n ∈ C -> exists m d, m ∈ ms /\ module_id m = n /\ d ∈ depends_on m /\ d ∈ C)
  end.
Proof.
  pose proof (selected_modules_cases ms) as Hcases. destruct (selected_modules ms) as [ordered|e]; [|done].
  destruct Hcases as [Hnd Et]. destruct (topological_ok ms ordered Hnd Et) as (Hp & Hl & _). split; [done|].
  intros pre m post ->. rewrite map_app in Hl. simpl in Hl.
  assert (forall x, x ∈ pre ++ m :: post -> x ∈ ms) as Hin by (intros x; by rewrite Hp).
  assert (NoDup (map module_id (pre ++ m :: post))) as Hnd2 by by rewrite Hp.
  destruct (Hl (map module_id pre) (module_id m) (map module_id post) eq_refl) as [(_ & _ & Hbefore) Hleast].
  rewrite (module_deps_of ms m Hnd) in Hbefore by (apply Hin; set_solver). split; [done|].
  intros m' Hm' Hready. apply Hleast. split_and!.
  - apply list_elem_of_fmap_2, Hin. set_solver.
  - rewrite map_app in Hnd2. apply NoDup_app in Hnd2 as (_ & Hdis & _). intros Hx. apply (Hdis _ Hx).
    simpl. right. by apply list_elem_of_fmap_2.
  - rewrite (module_deps_of ms m' Hnd); [done|]. apply Hin. set_solver.
Qed.

(** ** The order of the input does not matter *)

Lemma dict_of_perm {A} (l1 l2 : list (pystr * A)) :
  NoDup (map fst l1) -> l1 ≡ₚ l2 -> (dict_of l1 : gmap pystr A) = dict_of l2.
Proof.
  intros Hnd Hp. apply map_eq. intros k. apply option_eq. intros v.
  rewrite !dict_of_lookup; [by rewrite Hp| |done]. by rewrite <- Hp.
Qed.

Lemma run_kahn_perm t1 t2 :
  NoDup (map fst t1) -> t1 ≡ₚ t2 ->
  exists r d1 d2, run_kahn t1 = Ok (r, d1) /\ run_kahn t2 = Ok (r, d2).
Proof.
  intros Hnd Hp. assert (Hnd2 : NoDup (map fst t2)) by by rewrite <- Hp.
  destruct (run_kahn_spec t1 Hnd) as (r1 & d1 & E1 & L1 & C1).
  destruct (run_kahn_spec t2 Hnd2) as (r2 & d2 & E2 & L2 & C2).
  assert (Hdeps : forall id, deps_of t1 id = deps_of t2 id).
  { intros id. unfold deps_of. by rewrite (dict_of_perm t1 t2). }
  assert (Hav : forall done id, available (map fst t1) (deps_of t1) done id <-> available (map fst t2) (deps_of t2) done id).
  { intros d id. unfold available. by rewrite Hdeps, Hp. }
  assert (r1 = r2) as ->; [|by eauto 6].
  apply (least_first_unique (map fst t1) (deps_of t1)); [done|done| |].
  - intros pre id post Hr. destruct (L2 pre id post Hr) as [Ha Hm]. split; [by apply Hav|].
    intros id' Hid'. by apply Hm, Hav.
  - intros id Hid. by apply (C2 id), Hav.
Qed.

(** Planning is deterministic: the order computed for the modules, or the
    error, does not depend on the order in which they are listed. *)
Theorem selected_modules_order_independent ms1 ms2 :
  ms1 ≡ₚ ms2 -> selected_modules ms1 = selected_modules ms2.
Proof.
  intros Hp. unfold selected_modules.
  assert (Hids : map module_id ms1 ≡ₚ map module_id ms2) by by rewrite Hp.
  destruct (decide (~ NoDup (map module_id ms1))) as [Hn|Hnd].
  { rewrite decide_True; [done|]. by rewrite <- Hids. }
  rewrite (decide_False (P := ~ NoDup (map module_id ms2))) by by rewrite <- Hids.
  apply dec_stable in Hnd.
  assert (Hex : forall ds1 ds2 ids1 ids2 : list pystr, ds1 ≡ₚ ds2 -> ids1 ≡ₚ ids2 ->
    Exists (fun d => d ∉ ids1) ds1 <-> Exists (fun d => d ∉ ids2) ds2).
  { intros ds1 ds2 ids1 ids2 H1 H2. rewrite !Exists_exists. setoid_rewrite H2. by setoid_rewrite H1. }
  assert (Hcat : forall (ls1 ls2 : list (list pystr)), ls1 ≡ₚ ls2 -> concat ls1 ≡ₚ concat ls2).
  { induction 1; simpl; [done|by f_equiv| |by etransitivity]. by rewrite !(assoc_L (++)), (Permutation_app_comm y x). }
  assert (Hdt : deps_table ms1 ≡ₚ deps_table ms2) by (unfold deps_table; by rewrite Hp).
  destruct (decide (Exists _ _)) as [He|He].
  { rewrite decide_True; [done|]. eapply Hex; [| |exact He]; [apply Hcat; by rewrite Hp|done]. }
  rewrite decide_False.
  2: { intros He2. apply He. eapply Hex; [| |exact He2]; [apply Hcat; by rewrite Hp|done]. }
  unfold _topological_modules. cbv zeta.
  destruct (decide (Exists _ _)) as [Hk|Hk].
  { rewrite decide_True; [done|]. eapply Hex; [| |exact Hk]; [apply Hcat; by rewrite Hdt|by rewrite Hdt]. }
  rewrite decide_False.
  2: { intros Hk2. apply Hk. eapply Hex; [| |exact Hk2]; [apply Hcat; by rewrite Hdt|by rewrite Hdt]. }
  assert (Hnd1 : NoDup (map fst (deps_table ms1))) by by rewrite deps_table_fst.
  destruct (run_kahn_perm _ _ Hnd1 Hdt) as (r & d1 & d2 & -> & ->). cbn [res_bind fst].
  assert ((dict_of (map (fun m => (module_id m, m)) ms1) : gmap pystr ProductionModule) =
    dict_of (map (fun m => (module_id m, m)) ms2)) as ->.
  { apply dict_of_perm; [by rewrite map_map|by rewrite Hp]. }
  by rewrite (Permutation_length Hp).
Qed.

(** ** [_validate_acyclic] *)

Definition known_deps (ids : list pystr) (m : ProductionModule) : list pystr := filter (fun d => d ∈ ids) (depends_on m).

(** An order that puts every module after those of its dependencies that exist. *)
Definition dependency_order (ms ordered : list ProductionModule) : Prop :=
  ordered ≡ₚ ms /\
  forall pre m post, ordered = pre ++ m :: post ->
    forall d, d ∈ depends_on m -> d ∈ map module_id ms -> d ∈ map module_id pre.

Lemma dependency_order_unstuck (ms ordered : list ProductionModule) (C : gset pystr) :
  NoDup (map module_id ms) ->
  dependency_order ms ordered -> C <> ∅ ->
  ~ (forall n, n ∈ C -> exists m d, m ∈ ms /\ module_id m = n /\ d ∈ depends_on m /\ d ∈ C).
Proof.
  intros Hnd [Hp Ho] Hne HC. apply set_choose_L in Hne as [n Hn].
  assert (forall pre post, ordered = pre ++ post -> forall x, x ∈ C -> x ∉ map module_id pre) as Hout.
  { induction pre as [|m pre IH] using rev_ind; intros post E x Hx; [apply not_elem_of_nil|].
    rewrite <- (assoc_L (++)) in E. simpl in E. rewrite map_app, elem_of_app. intros [Hin|Hin]; [by eapply (IH _ E x Hx)|].
    apply list_elem_of_singleton in Hin as ->.
    destruct (HC _ Hx) as (m' & d & Hm' & Hid & Hd & HdC).
    destruct (HC _ HdC) as (md & _ & Hmd & Hmdid & _).
    assert (d ∈ map module_id ms) as Hdms by (rewrite <- Hmdid; by apply list_elem_of_fmap_2).
    assert (m' = m) as ->.
    { apply (module_id_inj ms); [done|done| |done]. rewrite <- Hp, E. set_solver. }
    by apply (IH _ E d HdC), (Ho pre m post E). }
  destruct (HC n Hn) as (m & d & Hm & <- & _). rewrite <- Hp in Hm.
  apply (Hout ordered [] ltac:(by rewrite app_nil_r) _ Hn). by apply list_elem_of_fmap_2.
Qed.

Lemma validate_acyclic_table ms :
  NoDup (map module_id ms) ->
  let table := map (fun m => (module_id m, known_deps (map module_id ms) m)) ms in
  map fst table = map module_id ms /\
  (forall m, m ∈ ms -> deps_of table (module_id m) = known_deps (map module_id ms) m) /\
  exists result, _validate_acyclic ms =
      (if decide (length result <> length ms)
       then Err (SpecValidationError "Production module dependency cycle detected") else Ok tt) /\
    least_first (map module_id ms) (deps_of table) result /\ complete (map module_id ms) (deps_of table) result.
Proof.
  intros Hnd table. assert (Hfst : map fst table = map module_id ms) by (unfold table; by rewrite map_map).
  assert (Hnd' : NoDup (map fst table)) by by rewrite Hfst.
  split; [done|]. split.
  - intros m Hm. apply (deps_of_in table Hnd' (module_id m, known_deps (map module_id ms) m)).
    by apply (list_elem_of_fmap_2 (fun m => (module_id m, known_deps (map module_id ms) m))).
  - destruct (run_kahn_spec table Hnd') as (result & deg & Hr & Hl & Hc). rewrite Hfst in Hl, Hc.
    exists result. split_and!; [|done|done]. unfold _validate_acyclic. fold table.
    change (map _ ms) with table. by rewrite Hr.
Qed.

(** [_validate_acyclic] accepts exactly the modules that can be ordered, and
    a proposal it accepts can be planned: when every dependency is known, ordering
    its modules never fails. *)
Theorem validate_acyclic_iff ms :
  NoDup (map module_id ms) ->
  (_validate_acyclic ms = Ok tt <-> exists ordered, dependency_order ms ordered) /\
  (_validate_acyclic ms = Ok tt ->
   (forall m d, m ∈ ms -> d ∈ depends_on m -> d ∈ map module_id ms) ->
   exists ordered, selected_modules ms = Ok ordered).
Proof.
  intros Hnd. destruct (validate_acyclic_table ms Hnd) as (Hfst & Hdeps & result & Hv & Hl & Hc). cbv zeta in *.
  set (table := map (fun m => (module_id m, known_deps (map module_id ms) m)) ms) in *.
  assert (Hiff : _validate_acyclic ms = Ok tt <-> exists ordered, dependency_order ms ordered).
  { rewrite Hv. destruct (decide _) as [Hlen|Hlen]; (split; [try done|try done]).
    - intros [ordered Ho]. exfalso.
      destruct (run_kahn_stuck table) with result as (C & Hne & HC); rewrite ?Hfst; try done.
      + intros d Hd. apply elem_of_concat in Hd as (l & Hl' & Hd).
        unfold table in Hl'. rewrite map_map in Hl'. apply list_elem_of_fmap in Hl' as (m & -> & _).
        by apply list_elem_of_filter in Hd as [? _].
      + unfold table. by rewrite length_map.
      + apply (dependency_order_unstuck ms ordered C Hnd Ho Hne). intros n Hn.
        destruct (HC n Hn) as (Hids & d & Hd & HdC). rewrite Hfst in Hids.
        apply list_elem_of_fmap in Hids as (m & -> & Hm). rewrite (Hdeps m Hm) in Hd.
        apply list_elem_of_filter in Hd as [_ Hd]. by exists m, d.
    - intros _. apply dec_stable in Hlen. destruct (least_first_NoDup _ _ _ Hl) as [Hrnd Hin].
      destruct (omap_lookup_ids ms result Hnd Hin) as [Hids Hsub]. set (ordered := omap _ result) in *.
      exists ordered. split; [by apply (ids_Permutation ms ordered result)|].
      intros pre m post E d Hd Hdk. rewrite E, map_app in Hids. simpl in Hids.
      destruct (Hl _ _ _ (eq_sym Hids)) as [(_ & _ & Hb) _]. apply Hb.
      rewrite Hdeps; [by apply list_elem_of_filter|]. apply Hsub. rewrite E. set_solver. }
  split; [done|]. intros Hok Hknown. apply Hiff in Hok as [ordered Ho].
  pose proof (selected_modules_cases ms) as Hcases. destruct (selected_modules ms) as [o|e]; [by exists o|]. exfalso.
  destruct Hcases as [?|[(m & d & Hm & Hd & Hn)|(C & Hne & HC)]]; [done|by apply Hn, (Hknown m)|].
  by apply (dependency_order_unstuck ms ordered C Hnd Ho Hne).
Qed.
End modules.
