(* ===== verification/ShardProps.v ===== *)
(** * ShardProps: what [_module_shards] guarantees

    Every module is in exactly one shard, of its stage and within the size of the
    stage, and comes after the modules it depends on, in its shard or an earlier
    one.  The last error of the function is unreachable. *)

From stdpp Require Import prelude gmap sets fin_sets fin_map_dom strings list sorting.
From S2P Require Import Prelude Text Json StdJson PyJson Kahn Tables Ledger ScalePolicy Backend.
From S2P Require Import WorkPlan Topological.

Open Scope Z_scope.
Open Scope py_scope.

(** ** Emission in waves *)

Section emission.
Context `{PyFloat}.
Context (gs : list shard_group).

Abbreviation all := (seq 0 (length gs)).
Abbreviation ext := (externals gs).

(** The groups a group waits for were opened before it. *)
Hypothesis earlier : forall i j, j ∈ ext i -> (j < i)%nat.

(** Every group comes after those it waits for. *)
Definition waited (emitted : list nat) : Prop :=
  forall pre i post, emitted = pre ++ i :: post -> forall j, j ∈ ext i -> j ∈ pre.

Lemma waited_app emitted ready :
  waited emitted -> (forall i j, i ∈ ready -> j ∈ ext i -> j ∈ emitted) -> waited (emitted ++ ready).
Proof.
  intros Hw Hr. induction ready as [|i ready IH] using rev_ind; [by rewrite app_nil_r|].
  rewrite (assoc_L (++)). intros pre k post E j Hj. destruct post as [|x post] using rev_ind.
  - apply app_inj_tail in E as [<- <-]. apply elem_of_app. left. apply (Hr i); [set_solver|done].
  - rewrite app_comm_cons, (assoc_L (++)) in E. apply app_inj_tail in E as [E _].
    apply (IH ltac:(intros; eapply Hr; set_solver) pre k post E j Hj).
Qed.

Lemma run_wave_spec ready next (emitted : list nat) deg deg' next' :
  counts all ext (list_to_set emitted) deg -> queue all ext (list_to_set emitted) (ready ++ next) ->
  fold_left (fun '(deg, next) i =>
    let '(deg, new) := release deg (outgoing_of all ext i) in (deg, next ++ new)) ready (deg, next) = (deg', next') ->
  counts all ext (list_to_set (emitted ++ ready)) deg' /\ queue all ext (list_to_set (emitted ++ ready)) next'.
Proof.
  revert next emitted deg. induction ready as [|i ready IH]; intros next emitted deg Hc Hq.
  - intros [= <- <-]. by rewrite app_nil_r.
  - cbn [fold_left]. destruct (release deg (outgoing_of all ext i)) as [deg1 new] eqn:Er. intros Hf.
    destruct (emit_step all ext (NoDup_seq _ _) _ _ _ i (ready ++ next) _ _ Hc Hq ltac:(done) Er) as [Hc1 Hq1].
    assert (({[i]} ∪ list_to_set emitted : gset nat) = list_to_set (emitted ++ [i])) as Eset
      by (rewrite list_to_set_app_L; set_solver).
    rewrite Eset in *. rewrite <- (assoc_L (++)) in Hq1.
    replace (emitted ++ i :: ready) with ((emitted ++ [i]) ++ ready) by by rewrite <- (assoc_L (++)).
    by apply (IH (next ++ new) (emitted ++ [i]) deg1).
Qed.

Lemma queue_perm emitted l l' :
  l ≡ₚ l' -> queue all ext (list_to_set emitted) l -> queue all ext (list_to_set emitted) l'.
Proof. intros Hp (Hnd & Hq & Hd). split_and!; [by rewrite <- Hp| |done]. intros n. by rewrite <- Hp. Qed.

Lemma queue_deps emitted ready i j :
  queue all ext (list_to_set emitted) ready -> i ∈ ready -> j ∈ ext i -> j ∈ emitted.
Proof.
  intros (_ & Hq & _) Hi Hj. apply Hq in Hi as (_ & _ & Hz). rewrite remaining_zero in Hz.
  by apply Hz, elem_of_list_to_set in Hj.
Qed.

Lemma queue_empty emitted i :
  queue all ext (list_to_set emitted) [] -> i ∈ all -> i ∈ emitted.
Proof.
  intros (_ & Hq & _). induction i as [i IH] using lt_wf_ind. intros Hi.
  destruct (decide (i ∈ emitted)) as [|Hn]; [done|]. exfalso.
  assert (i ∈ ([] : list nat)) as Hx; [|by apply elem_of_nil in Hx].
  apply Hq. split_and!; [done|by rewrite elem_of_list_to_set|]. apply remaining_zero. intros j Hj.
  apply elem_of_list_to_set. pose proof (earlier _ _ Hj). apply IH; [done|].
  apply elem_of_seq in Hi. apply elem_of_seq. lia.
Qed.

Lemma waves_spec fuel ready deg emitted :
  counts all ext (list_to_set emitted) deg -> queue all ext (list_to_set emitted) ready ->
  NoDup emitted -> emitted ⊆ all -> waited emitted -> (length gs <= fuel + length emitted)%nat ->
  exists result, waves fuel gs ready deg emitted = Ok result /\ result ≡ₚ all /\ waited result.
Proof.
  revert ready deg emitted; induction fuel as [|fuel IH]; intros ready deg emitted Hc Hq Hnd Hsub Hw Hf.
  all: destruct ready as [|i ready];
    [exists emitted; split_and!; try done; apply NoDup_Permutation; [done|apply NoDup_seq|];
     intros k; split; [apply Hsub|by apply queue_empty]|].
  - exfalso. destruct Hq as (_ & Hq & _). destruct (proj1 (Hq i)) as (Hi & Hn & _); [by left|].
    assert (length (i :: emitted) <= length all)%nat as Hlen.
    { apply submseteq_length, NoDup_submseteq.
      - constructor; [by rewrite elem_of_list_to_set in Hn|done].
      - intros x [->|Hx]%elem_of_cons; [done|by apply Hsub]. }
    rewrite length_seq in Hlen. simpl in Hlen. lia.
  - cbn [waves]. set (rdy := i :: ready) in *. unfold run_wave.
    destruct (fold_left _ rdy (deg, [])) as [deg' next] eqn:Er.
    destruct (run_wave_spec rdy [] emitted deg deg' next Hc ltac:(by rewrite app_nil_r) Er) as [Hc' Hq'].
    pose proof Hq as (Hrnd & Hrq & _). apply IH; [done| | | | |].
    + eapply queue_perm; [|exact Hq']. rewrite merge_sort_Permutation. symmetry. apply elements_list_to_set, Hq'.
    + apply NoDup_app. split_and!; [done| |done]. intros x Hx Hxr. apply Hrq in Hxr as (_ & Hn & _).
      by apply Hn, elem_of_list_to_set.
    + intros x [Hx|Hx]%elem_of_app; [by apply Hsub|by apply Hrq in Hx as [? _]].
    + apply waited_app; [done|]. intros k j. by apply queue_deps.
    + rewrite length_app. simpl. lia.
Qed.

Lemma emission_spec : exists emitted, emission gs = Ok emitted /\ emitted ≡ₚ all /\ waited emitted.
Proof.
  unfold emission. set (deg := dict_of _ : gmap nat Z). set (ready := merge_sort _ _).
  assert (Hall : forall n, remaining ext ∅ n = length (ext n)).
  { intros n. unfold remaining. induction (ext n) as [|d l IH]; [done|].
    rewrite filter_cons, decide_True by set_solver. simpl. by rewrite IH. }
  destruct (waves_spec (length gs) ready deg []) as (emitted & Hw & Hp & Hwait).
  - intros n Hn. apply dict_of_lookup; [by rewrite map_map, map_id; apply NoDup_seq|].
    rewrite Hall. by apply (list_elem_of_fmap_2 (fun i => (i, Z.of_nat (length (ext i))))).
  - assert (Hr : forall n, n ∈ ready <-> n ∈ all /\ ext n = []).
    { intros n. unfold ready. rewrite merge_sort_Permutation, list_elem_of_filter. tauto. }
    split_and!.
    + unfold ready. rewrite merge_sort_Permutation. apply NoDup_filter, NoDup_seq.
    + intros n. rewrite Hr, Hall, length_zero_iff_nil. set_solver.
    + intros n Hn. simpl in Hn. set_solver.
  - constructor.
  - intros x Hx. by apply elem_of_nil in Hx.
  - intros pre i post E. by destruct pre.
  - simpl. lia.
  - exists emitted. rewrite Hw. cbn [res_bind]. split_and!; try done.
    rewrite decide_False; [done|]. rewrite Hp, length_seq. tauto.
Qed.
End emission.

(** ** Placement *)

Section placement.
Context `{PyFloat, PyUnicode}.
Context (env : pystr -> option pystr) (policy : ScalePolicy).

(** What holds of the members of group [i] when [done] has been placed. *)
Definition members_ok (done : list (ProductionModule * pystr)) (st : shard_state) (i : nat) (g : shard_group) : Prop :=
  (forall j, j ∈ g_external g -> (j < i)%nat) /\
  (forall m, m ∈ g_members g -> (m, g_stage g) ∈ done /\ module_group st !! module_id m = Some i) /\
  (forall p m q, g_members g = p ++ m :: q -> forall d, d ∈ depends_on m ->
     d ∈ map module_id p \/ exists j, module_group st !! d = Some j /\ j ∈ g_external g).

Definition group_ok (done : list (ProductionModule * pystr)) (st : shard_state) (i : nat) (g : shard_group) : Prop :=
  g_members g <> [] /\
  (exists limit, shard_size_for env policy (g_stage g) = Ok limit /\ member_count g <= limit) /\
  members_ok done st i g.

Definition placed (done : list (ProductionModule * pystr)) (st : shard_state) : Prop :=
  (forall i g, groups st !! i = Some g -> group_ok done st i g) /\
  concat (map g_members (groups st)) ≡ₚ map fst done /\
  (forall k, is_Some (module_group st !! k) <-> k ∈ map module_id (map fst done)) /\
  (forall k i, module_group st !! k = Some i ->
     exists g m, groups st !! i = Some g /\ m ∈ g_members g /\ module_id m = k) /\
  (forall key i, open_by_key st !! key = Some i -> exists g, groups st !! i = Some g /\ group_key g = key).

Lemma shard_size_pos stage limit : shard_size_for env policy stage = Ok limit -> 1 <= limit.
Proof.
  assert (forall name d up v, _pipeline_shard_size env name d up = Ok v -> 1 <= v) as Hp.
  { intros name d up v. unfold _pipeline_shard_size. rewrite res_bind_ok. intros (x & _ & Hx).
    destruct ((x <? 1) || _) eqn:E; [done|]. injection Hx as <-.
    apply orb_false_iff in E as [E _]. apply Z.ltb_ge in E. done. }
  unfold shard_size_for. repeat case_decide; intros Hx; try by eapply Hp.
  all: injection Hx as <-; lia.
Qed.

(** More modules are placed, and the groups of the old ones stay. *)
Definition keeps_groups (st st' : shard_state) : Prop :=
  forall k j, module_group st !! k = Some j -> module_group st' !! k = Some j.

Lemma members_ok_mono done st st' i g x :
  members_ok done st i g -> keeps_groups st st' -> members_ok (done ++ [x]) st' i g.
Proof.
  intros (H3 & H4 & H5) Hk. split_and!; [done| |].
  - intros y Hy. destruct (H4 y Hy) as [Hd Hgr]. split; [apply elem_of_app; by left|by apply Hk].
  - intros p y q E d Hd. destruct (H5 p y q E d Hd) as [?|(j & Hj & Hje)]; [by left|]. right. exists j. split; [by apply Hk|done].
Qed.

Lemma members_ok_add done st st' i g m :
  members_ok done st i g -> keeps_groups st st' -> module_group st' !! module_id m = Some i ->
  (forall d, d ∈ depends_on m -> d ∈ map module_id (g_members g) \/ exists j, module_group st !! d = Some j /\ j ∈ g_external g) ->
  members_ok (done ++ [(m, g_stage g)]) st' i (add_member m g).
Proof.
  intros Hok Hk Hm Hdeps. destruct (members_ok_mono done st st' i g (m, g_stage g) Hok Hk) as (H3 & H4 & H5).
  split_and!; simpl; [done| |].
  - intros x [Hx| ->%list_elem_of_singleton]%elem_of_app; [by apply H4|]. split; [apply elem_of_app; right; by left|done].
  - intros p x q E d Hd. destruct q as [|y q] using rev_ind.
    + apply app_inj_tail in E as [<- <-]. destruct (Hdeps d Hd) as [?|(j & Hj & Hje)]; [by left|].
      right. exists j. split; [by apply Hk|done].
    + rewrite app_comm_cons, (assoc_L (++)) in E. apply app_inj_tail in E as [E _]. by apply (H5 p x q E d Hd).
Qed.

(** The state after one more module: it is the last member of group [i], which
    is a new group or one it may join. *)
Lemma placed_step done st m stage limit i g gs open :
  placed done st -> module_id m ∉ map module_id (map fst done) ->
  shard_size_for env policy stage = Ok limit ->
  gs !! i = Some g -> g_stage g = stage -> member_count g < limit ->
  (forall k g', gs !! k = Some g' -> k <> i -> groups st !! k = Some g') ->
  (groups st !! i = Some g \/ (i = length (groups st) /\ g_members g = [] /\
     (forall j, j ∈ g_external g -> (j < i)%nat))) ->
  concat (map g_members gs) ≡ₚ concat (map g_members (groups st)) ->
  (forall k g', groups st !! k = Some g' -> gs !! k = Some g') ->
  (forall d, d ∈ depends_on m -> exists j, module_group st !! d = Some j /\ (j ∈ g_external g \/ (j = i /\ groups st !! i = Some g))) ->
  (forall key j, open !! key = Some j -> exists g', gs !! j = Some g' /\ group_key g' = key) ->
  placed (done ++ [(m, stage)]) (Shards (<[i := add_member m g]> gs) (<[module_id m := i]> (module_group st)) open).
Proof.
  intros (Hg & Hp & Hk & Hb & Ho) Hnew Hsize Hi Hst Hlim Hother Hcase Hcat Hmono Hdeps Hopen.
  assert (Hnone : module_group st !! module_id m = None).
  { apply eq_None_not_Some. by rewrite Hk. }
  set (st' := Shards _ _ _).
  assert (Hmg : keeps_groups st st').
  { intros k j Hj. simpl. rewrite lookup_insert_ne; [done|]. intros <-. congruence. }
  assert (Hlen : (i < length gs)%nat) by by eapply lookup_lt_Some.
  assert (Hold : members_ok done st i g).
  { destruct Hcase as [Hin|(-> & Hnil & Hext)]; [by destruct (Hg i g Hin) as (_ & _ & ?)|].
    split_and!; [done|rewrite Hnil; intros x Hx; by apply elem_of_nil in Hx|]. rewrite Hnil. intros p x q E. by destruct p. }
  split_and!; simpl.
  - intros k g' Hk'. apply list_lookup_insert_Some in Hk' as [(<- & <- & _)|[Hne Hk']].
    + split_and!; simpl; [by destruct (g_members g)| |].
      * exists limit. unfold member_count in *. simpl. rewrite length_app. simpl. rewrite Hst. split; [done|lia].
      * rewrite <- Hst. apply (members_ok_add done st); [done..|by apply lookup_insert_eq|].
        intros d Hd. destruct (Hdeps d Hd) as (j & Hj & [Hje|[-> Hin]]); [right; eauto|]. left.
        destruct (Hb d i Hj) as (g' & x & Hg' & Hx & <-). assert (g' = g) as -> by congruence. by apply list_elem_of_fmap_2.
    + apply Hother in Hk'; [|done]. destruct (Hg k g' Hk') as (H1 & H2 & H3). split_and!; [done|done|].
      by apply (members_ok_mono done st).
  - rewrite map_app. simpl. rewrite <- Hp, <- Hcat. rewrite <- (take_drop_middle gs i g Hi) at 2.
    rewrite insert_take_drop by done. rewrite !map_app, !concat_app. simpl.
    rewrite <- !(assoc_L (++)). apply Permutation_app_head, Permutation_app_head. apply Permutation_app_comm.
  - intros k. rewrite !map_app, elem_of_app, <- Hk. simpl. rewrite list_elem_of_singleton.
    destruct (decide (k = module_id m)) as [->|Hne].
    + rewrite lookup_insert_eq. split; [by right|by eexists].
    + rewrite lookup_insert_ne by done. naive_solver.
  - intros k j. rewrite lookup_insert_Some. intros [[<- <-]|[Hne Hj]].
    + exists (add_member m g), m. rewrite list_lookup_insert_eq by done. split_and!; [done| |done].
      simpl. apply elem_of_app. right. by left.
    + destruct (Hb k j Hj) as (g' & x & Hg' & Hx & Hid). destruct (decide (j = i)) as [->|Hji].
      * exists (add_member m g), x. rewrite list_lookup_insert_eq by done. split_and!; [done| |done].
        simpl. apply elem_of_app. left. pose proof (Hmono i g' Hg'). congruence.
      * exists g', x. rewrite list_lookup_insert_ne by done. split_and!; [by apply Hmono|done|done].
  - intros key j Hj. destruct (Hopen key j Hj) as (g' & Hg' & Hkey). destruct (decide (j = i)) as [->|Hji].
    + exists (add_member m g). rewrite list_lookup_insert_eq by done. split; [done|]. by assert (g' = g) as <- by congruence.
    + exists g'. by rewrite list_lookup_insert_ne.
Qed.
Lemma max_list_in (l : list nat) : l <> [] -> max_list l ∈ l.
Proof.
  induction l as [|x l IH]; [done|]. intros _. simpl. destruct l as [|y l]; [simpl; rewrite Nat.max_0_r; by left|].
  destruct (Nat.max_spec x (max_list (y :: l))) as [[_ ->]|[_ ->]]; [right; by apply IH|by left].
Qed.

Lemma max_index_in (s : gset nat) i : max_index s = Some i -> i ∈ s.
Proof.
  unfold max_index. destruct (elements s) as [|x l] eqn:E; [done|]. intros [= <-].
  apply elem_of_elements. rewrite E. by apply (max_list_in (x :: l)).
Qed.

(** The group that [candidates] allows. *)
Lemma candidate_ok done st limit stage batch_key D i :
  placed done st -> i ∈ candidates st limit stage batch_key D ->
  exists g, groups st !! i = Some g /\ g_stage g = stage /\ member_count g < limit /\
    (forall j, j ∈ D -> j ∈ g_external g \/ j = i).
Proof.
  intros (_ & _ & _ & _ & Ho). unfold candidates, exact_candidate, joinable. rewrite elem_of_union. intros [Hi|Hi].
  - destruct (open_by_key st !! _) as [k|] eqn:Ek; [|set_solver].
    destruct (Ho _ _ Ek) as (g & Hg & Hkey). rewrite Hg in Hi. destruct (member_count g <? limit) eqn:El; [|set_solver].
    apply elem_of_singleton in Hi as ->. apply Z.ltb_lt in El. unfold group_key in Hkey. injection Hkey as Hs _ He.
    exists g. split_and!; [done|done|done|]. intros j Hj. left. by rewrite He.
  - apply elem_of_filter in Hi as [Hj Hi]. destruct (groups st !! i) as [g|]; [|done].
    rewrite !andb_true_iff, !bool_decide_eq_true, Z.ltb_lt in Hj. destruct Hj as [[[_ Hs] Hl] Hsub].
    exists g. split_and!; [done|done|done|]. intros j Hj. destruct (decide (j = i)); [by right|left; set_solver].
Qed.

Lemma reopen_ok (gs : list shard_group) i g m limit open :
  gs !! i = Some g ->
  (forall key j, open !! key = Some j -> exists g', gs !! j = Some g' /\ group_key g' = key) ->
  forall key j, reopen limit i (add_member m g) open !! key = Some j -> exists g', gs !! j = Some g' /\ group_key g' = key.
Proof.
  intros Hi Hopen key j. unfold reopen. change (group_key (add_member m g)) with (group_key g). cbv zeta.
  assert (Hins : <[group_key g := i]> open !! key = Some j -> exists g', gs !! j = Some g' /\ group_key g' = key).
  { rewrite lookup_insert_Some. intros [[<- <-]|[_ Hj]]; [by exists g|by apply Hopen]. }
  destruct (limit <=? _).
  - case_decide; [|apply Hopen]. rewrite lookup_delete_Some. intros [_ Hj]. by apply Hopen.
  - destruct (open !! group_key g) as [previous|]; [destruct (previous <? i)%nat; [done|apply Hopen]|done].
Qed.

(** A new group of the stage, with no member yet, takes the module. *)
Lemma placed_fresh done st m stage limit (D : gset nat) :
  placed done st -> module_id m ∉ map module_id (map fst done) -> shard_size_for env policy stage = Ok limit ->
  (forall d, d ∈ depends_on m -> exists j, module_group st !! d = Some j /\ j ∈ D) ->
  (forall j, j ∈ D -> (j < length (groups st))%nat) ->
  forall g open, g_members g = [] -> g_stage g = stage -> g_external g = D ->
    (forall key j, open !! key = Some j -> exists g', (groups st ++ [g]) !! j = Some g' /\ group_key g' = key) ->
    placed (done ++ [(m, stage)]) (Shards (<[length (groups st) := add_member m g]> (groups st ++ [g]))
      (<[module_id m := length (groups st)]> (module_group st)) open).
Proof.
  intros Hpl Hnew Hsize HD Hlt g open Hnil Hst Hext Hopen. pose proof (shard_size_pos _ _ Hsize) as Hpos.
  assert (Hlast : (groups st ++ [g]) !! length (groups st) = Some g) by by rewrite lookup_app_r, Nat.sub_diag.
  apply (placed_step done st m stage limit (length (groups st)) g (groups st ++ [g]) open Hpl Hnew Hsize Hlast Hst).
  - unfold member_count. rewrite Hnil. simpl. lia.
  - intros k g' Hk' Hne. assert (k < length (groups st))%nat.
    { apply lookup_lt_Some in Hk'. rewrite length_app in Hk'. simpl in Hk'. lia. }
    by rewrite lookup_app_l in Hk'.
  - right. rewrite Hext. done.
  - rewrite map_app, concat_app. simpl. by rewrite Hnil, !app_nil_r.
  - intros k g' Hk'. by apply lookup_app_l_Some.
  - intros d Hd. destruct (HD d Hd) as (j & Hj & HjD). exists j. split; [done|]. left. by rewrite Hext.
  - done.
Qed.

Lemma place_module_spec done st m stage :
  placed done st -> module_id m ∉ map module_id (map fst done) ->
  (forall d, d ∈ depends_on m -> d ∈ map module_id (map fst done)) ->
  match place_module env policy st m stage with
  | Ok st' => placed (done ++ [(m, stage)]) st'
  | Err e => shard_size_for env policy stage = Err e
  end.
Proof.
  intros Hpl Hnew Hdeps. pose proof Hpl as (Hg & _ & Hk & Hb & Ho). unfold place_module.
  assert (Hgr : forall d, d ∈ depends_on m -> exists j, module_group st !! d = Some j).
  { intros d Hd. by apply Hdeps, Hk in Hd as [j Hj]; exists j. }
  rewrite decide_False.
  2: { intros He. apply Exists_exists in He as (d & Hd & Hn). destruct (Hgr d Hd) as [j Hj]. congruence. }
  destruct (shard_size_for env policy stage) as [limit|e] eqn:Hsize; [|done]. cbn [res_bind]. cbv zeta.
  set (D := list_to_set (omap (fun d => module_group st !! d) (depends_on m)) : gset nat).
  assert (HD : forall d, d ∈ depends_on m -> exists j, module_group st !! d = Some j /\ j ∈ D).
  { intros d Hd. destruct (Hgr d Hd) as [j Hj]. exists j. split; [done|]. unfold D.
    apply elem_of_list_to_set, list_elem_of_omap. eauto. }
  assert (Hlt : forall j, j ∈ D -> (j < length (groups st))%nat).
  { unfold D. intros j Hj. apply elem_of_list_to_set, list_elem_of_omap in Hj as (d & _ & Hj).
    destruct (Hb d j Hj) as (g & x & Hgj & _). by eapply lookup_lt_Some. }
  assert (Hfresh := placed_fresh done st m stage limit D Hpl Hnew Hsize HD Hlt).
  assert (Hopen_app : forall g key j, open_by_key st !! key = Some j ->
    exists g', (groups st ++ [g]) !! j = Some g' /\ group_key g' = key).
  { intros g key j Hj. destruct (Ho key j Hj) as (g' & Hg' & Hkey). exists g'. split; [by apply lookup_app_l_Some|done]. }
  destruct (bool_decide (stage = u "host") && _).
  { pose proof (Hfresh (Group stage (_module_batch_key m stage) [] D (size (module_group st)) true) (open_by_key st)
      eq_refl eq_refl eq_refl (Hopen_app _)) as Hf.
    rewrite insert_app_r_alt, Nat.sub_diag in Hf by done. exact Hf. }
  destruct (max_index _) as [i|] eqn:Em.
  - apply max_index_in in Em. destruct (candidate_ok _ _ _ _ _ _ _ Hpl Em) as (g & Hi & Hst & Hlim & HDe).
    rewrite Hi.
    apply (placed_step done st m stage limit i g (groups st)); try done.
    + by left.
    + intros d Hd. destruct (HD d Hd) as (j & Hj & HjD). exists j. split; [done|].
      destruct (HDe j HjD); [by left|right; done].
    + by apply reopen_ok.
  - rewrite lookup_app_r, Nat.sub_diag by done. cbn [lookup list_lookup].
    set (g := Group stage (_module_batch_key m stage) [] D (size (module_group st)) false).
    apply Hfresh; [done..|]. apply reopen_ok; [by rewrite lookup_app_r, Nat.sub_diag|].
    intros key j. rewrite lookup_insert_Some. intros [[<- <-]|[_ Hj]]; [|by apply Hopen_app].
    exists g. by rewrite lookup_app_r, Nat.sub_diag.
Qed.

Lemma place_all_spec done st staged :
  placed done st -> NoDup (map module_id (map fst (done ++ staged))) ->
  (forall pre m s post, done ++ staged = pre ++ (m, s) :: post ->
     forall d, d ∈ depends_on m -> d ∈ map module_id (map fst pre)) ->
  match place_all env policy st staged with
  | Ok st' => placed (done ++ staged) st'
  | Err e => exists s, s ∈ map snd staged /\ shard_size_for env policy s = Err e
  end.
Proof.
  revert done st; induction staged as [|[m s] staged IH]; intros done st Hpl Hnd Hdeps; simpl.
  - by rewrite app_nil_r.
  - assert (Hnew : module_id m ∉ map module_id (map fst done)).
    { rewrite !map_app in Hnd. simpl in Hnd. apply NoDup_app in Hnd as (_ & Hdis & _). intros Hx. apply (Hdis _ Hx). by left. }
    pose proof (place_module_spec done st m s Hpl Hnew (Hdeps done m s staged eq_refl)) as Hm.
    destruct (place_module env policy st m s) as [st'|e]; cbn [res_bind]; [|exists s; split; [by left|done]].
    replace (done ++ (m, s) :: staged) with ((done ++ [(m, s)]) ++ staged) in * by by rewrite <- (assoc_L (++)).
    pose proof (IH (done ++ [(m, s)]) st' Hm Hnd Hdeps) as Hall.
    destruct (place_all env policy st' staged) as [st2|e]; [done|].
    destruct Hall as (s' & Hs' & He). exists s'. split; [by right|done].
Qed.
End placement.

(** ** The shards *)

Section shards.
Context `{PyFloat, PyUnicode, !PyRepr}.

Lemma staged_modules_fst routes deterministic owners ms staged :
  staged_modules routes deterministic owners ms = Ok staged -> map fst staged = ms.
Proof.
  unfold staged_modules. destruct routes as [routes|].
  - destruct (decide (Exists _ _)) as [|He]; [done|]. intros [= <-].
    induction ms as [|m ms IH]; [done|]. simpl.
    destruct (routes !! module_id m) as [r|] eqn:Er.
    + simpl. f_equal. apply IH. intros Hx. apply He. by right.
    + exfalso. apply He. by left.
  - rewrite res_map_list_ok. induction 1 as [|m p ms staged Hm Hall IH]; [done|].
    rewrite res_bind_ok in Hm. destruct Hm as (s & _ & [= <-]). simpl. by rewrite IH.
Qed.

Lemma externals_spec gs i g j : gs !! i = Some g -> j ∈ externals gs i <-> j ∈ g_external g.
Proof. intros Hg. unfold externals. by rewrite Hg, merge_sort_Permutation, elem_of_elements. Qed.

Lemma shards_of_spec env policy done st :
  placed env policy done st ->
  exists emitted, emission (groups st) = Ok emitted /\ emitted ≡ₚ seq 0 (length (groups st)) /\
    waited (groups st) emitted /\
    shards_of (groups st) = Ok (map (fun i => match groups st !! i with
                                            | Some g => (g_stage g, g_members g)
                                            | None => ([], [])
                                            end) emitted).
Proof.
  intros (Hg & _). destruct (emission_spec (groups st)) as (emitted & He & Hp & Hw).
  { intros i j Hj. destruct (groups st !! i) as [g|] eqn:E.
    - apply (externals_spec _ _ g) in Hj; [|done]. destruct (Hg i g E) as (_ & _ & Hlt & _). by apply Hlt.
    - unfold externals in Hj. rewrite E in Hj. by apply elem_of_nil in Hj. }
  exists emitted. split_and!; try done. unfold shards_of. rewrite He. cbn [res_bind]. f_equal.
  assert (Hlt : forall i, i ∈ emitted -> (i < length (groups st))%nat).
  { intros i Hi. rewrite Hp in Hi. apply elem_of_seq in Hi. lia. }
  clear He Hp Hw. induction emitted as [|i emitted IH]; [done|]. simpl.
  destruct (lookup_lt_is_Some_2 (groups st) i) as [g Hgi]; [apply Hlt; by left|]. rewrite Hgi. simpl.
  f_equal. apply IH. intros k Hk. apply Hlt. by right.
Qed.

(** Staged modules in their order: a module follows those it depends on. *)
Lemma staged_order ms ordered staged :
  NoDup (map module_id ms) -> ordered ≡ₚ ms ->
  least_first (map module_id ms) (deps_of (deps_table ms)) (map module_id ordered) ->
  map fst staged = ordered ->
  forall pre m (s : pystr) post, staged = pre ++ (m, s) :: post ->
    forall d, d ∈ depends_on m -> d ∈ map module_id (map fst pre).
Proof.
  intros Hnd Hp Hl <- pre m s post -> d Hd. rewrite map_app in Hl, Hp. simpl in Hl, Hp. rewrite map_app in Hl. simpl in Hl.
  destruct (Hl _ _ _ eq_refl) as [(_ & _ & Hb) _]. apply Hb. rewrite (module_deps_of ms m); [done|done|].
  rewrite <- Hp. set_solver.
Qed.

Lemma members_of_groups (gs : list shard_group) emitted :
  emitted ≡ₚ seq 0 (length gs) ->
  concat (map snd (map (fun i => match gs !! i with
                                 | Some g => (g_stage g, g_members g)
                                 | None => ([], [])
                                 end) emitted)) ≡ₚ concat (map g_members gs).
Proof.
  intros Hp. rewrite map_map. rewrite (concat_map_perm _ _ _ Hp).
  assert (forall off, map (fun i => (match gs !! (i - off)%nat with
      | Some g => (g_stage g, g_members g) | None => ([], []) end).2) (seq off (length gs)) = map g_members gs) as Hg.
  { clear Hp. induction gs as [|g gs IH]; intros off; [done|]. cbn [length seq map].
    rewrite Nat.sub_diag. simpl. f_equal. rewrite <- (IH (S off)). apply map_ext_in. intros i Hi.
    apply in_seq in Hi. replace (i - off)%nat with (S (i - S off)) by lia. done. }
  rewrite <- (Hg 0%nat). apply reflexive_eq. f_equal. apply map_ext. intros i. by rewrite Nat.sub_0_r.
Qed.

(** C31: sharding a plan loses nothing and respects the dependencies.  The shards
    hold every module once; each has modules of one stage, as many as the limit of
    the stage at most; and a module comes after those it depends on, in its own
    shard or in an earlier one.  Nothing fails but the staging of the modules and
    the shard sizes set in the environment: there is never a cycle of shards. *)
Theorem module_shards_spec env policy routes deterministic owners ms ordered :
  selected_modules ms = Ok ordered ->
  match _module_shards env policy routes deterministic owners ordered with
  | Ok shards =>
      concat (map snd shards) ≡ₚ ms /\
      (forall stage members, (stage, members) ∈ shards ->
         members <> [] /\
         (exists limit, shard_size_for env policy stage = Ok limit /\ Z.of_nat (length members) <= limit) /\
         exists staged, staged_modules routes deterministic owners ordered = Ok staged /\
           forall m, m ∈ members -> (m, stage) ∈ staged) /\
      (forall before stage members after, shards = before ++ (stage, members) :: after ->
         forall p m q, members = p ++ m :: q -> forall d, d ∈ depends_on m ->
           d ∈ map module_id p \/ d ∈ map module_id (concat (map snd before)))
  | Err e =>
      staged_modules routes deterministic owners ordered = Err e \/
      exists stage, shard_size_for env policy stage = Err e
  end.
Proof.
  intros Hsel. pose proof (selected_modules_cases ms) as Hcases. rewrite Hsel in Hcases.
  destruct Hcases as [Hnd Htop]. destruct (topological_ok ms ordered Hnd Htop) as (Hp & Hl & _).
  unfold _module_shards. destruct (staged_modules _ _ _ ordered) as [staged|e] eqn:Est; [|by left]. cbn [res_bind].
  pose proof (staged_modules_fst _ _ _ _ _ Est) as Hfst.
  assert (Hplaced : placed env policy [] (Shards [] ∅ ∅)).
  { split_and!; simpl; try done.
    - intros k. rewrite lookup_empty. split; [by intros [? ?]|intros Hk; by apply elem_of_nil in Hk]. }
  pose proof (place_all_spec env policy [] (Shards [] ∅ ∅) staged Hplaced) as Hall. simpl app in Hall.
  destruct (place_all env policy (Shards [] ∅ ∅) staged) as [st|e]; cbn [res_bind].
  2: { destruct Hall as (s & _ & He); [| |right; by exists s].
       - by rewrite Hfst, Hp.
       - by apply (staged_order ms ordered). }
  specialize (Hall ltac:(by rewrite Hfst, Hp) ltac:(by apply (staged_order ms ordered))).
  destruct (shards_of_spec _ _ _ _ Hall) as (emitted & _ & Hperm & Hw & ->).
  pose proof Hall as (Hg & Hcat & Hk & Hb & _). split_and!.
  - by rewrite (members_of_groups _ _ Hperm), Hcat, Hfst.
  - intros stage members (i & Hi & Hin)%list_elem_of_fmap. rewrite Hperm in Hin. apply elem_of_seq in Hin.
    destruct (lookup_lt_is_Some_2 (groups st) i) as [g Hgi]; [lia|]. rewrite Hgi in Hi. injection Hi as -> ->.
    destruct (Hg i g Hgi) as (H1' & H2' & _ & H4' & _). split_and!; [done|done|].
    exists staged. split; [done|]. intros m Hm. by apply H4'.
  - intros before stage members after E p m q Em d Hd.
    apply map_eq_app in E as (e1 & e2 & -> & <- & E). destruct e2 as [|i e2]; [done|]. injection E as Ei _.
    assert (i < length (groups st))%nat as Hlt.
    { assert (i ∈ e1 ++ i :: e2) as Hin by set_solver. rewrite Hperm in Hin. apply elem_of_seq in Hin. lia. }
    destruct (lookup_lt_is_Some_2 (groups st) i Hlt) as [g Hgi]. rewrite Hgi in Ei. injection Ei as _ Emem.
    destruct (Hg i g Hgi) as (_ & _ & _ & _ & H5'). rewrite <- Emem in Em.
    destruct (H5' p m q Em d Hd) as [?|(j & Hj & Hje)]; [by left|]. right.
    destruct (Hb d j Hj) as (g' & x & Hg' & Hx & <-). apply list_elem_of_fmap_2.
    apply elem_of_concat. exists (g_members g'). split; [|done].
    apply list_elem_of_fmap. exists (g_stage g', g_members g'). split; [done|].
    apply list_elem_of_fmap. exists j. rewrite Hg'. split; [done|].
    apply (Hw e1 i e2 eq_refl). by apply (externals_spec _ _ g).
Qed.
End shards.
