(* ===== verification/PlanNodes.v ===== *)
(** * PlanNodes: the nodes of [build_production_work_plan] of [work_graph.py]

    The hashed nodes, the loop over the shards with the node of each module and
    of each exclusive anchor, the fixed validation and packaging nodes, and the
    whole plan.  A proposal that passed [CompleteProposal.validate] has no assets,
    so the loop over asset shards does nothing and is left out. *)

From stdpp Require Import prelude gmap sets fin_sets strings list sorting.
From S2P Require Import Prelude Text Json StdJson PyJson Sha256 Ledger ScalePolicy Backend WorkPlan.

Open Scope Z_scope.
Open Scope py_scope.

(** [f'{n:08d}'] *)
Definition zero_padded (n : nat) : pystr :=
  let digits := dec_nat (Z.of_nat n) in replicate (8 - length digits) 48 ++ digits.

Section nodes.
Context `{PyFloat, PyUnicode, !PyRepr}.

Definition _hash_json (value : json) : res pystr :=
  let* text := canonical_json value in sha256_text text.

(** [config.get(key, '')], and its [str]. *)
Definition get_text (d : list (pystr * json)) (key : pystr) : res pystr :=
  py_str (default (JStr []) (dict_get key d)).

Fixpoint cpu_safe_members (members : list json) : res bool :=
  match members with
  | [] => Ok true
  | JObj member :: members =>
      let* kind := get_text member (u "kind") in
      if decide (kind <> u "integration") then cpu_safe_members members
      else match get member (u "config") with
           | JObj config =>
               let* type := get_text config (u "integration_type") in
               if decide (strip type ∉ NATIVE_INTEGRATION_TYPES) then Ok false else cpu_safe_members members
           | _ => Ok false
           end
  | _ :: _ => Ok false
  end.

Definition _content_node_is_cpu_safe (payload : list (pystr * json)) : res bool :=
  match get payload (u "members") with JArr members => cpu_safe_members members | _ => Ok true end.

Definition _resource_class (stage : pystr) (payload : list (pystr * json)) : res json :=
  let* kind := get_text payload (u "kind") in
  let* gen_stage := get_text payload (u "generation_stage") in
  match dict_get (u "resource_class") payload with
  | Some given => Ok given
  | None =>
      if decide (kind = u "asset-shard") then Ok (JStr (u "image_gpu"))
      else if decide (kind = u "module-shard" /\ gen_stage ∈ [u "content"; u "system"; u "entity"]) then
        if decide (gen_stage = u "content") then
          let* safe := _content_node_is_cpu_safe payload in
          Ok (JStr (if safe then u "cpu_io" else u "llm"))
        else Ok (JStr (u "cpu_io"))
      else if decide (kind = u "module-shard" /\ gen_stage = u "host") then Ok (JStr (u "cpu_io"))
      else if starts_with (u "validate:") stage then Ok (JStr (u "commit"))
      else Ok (JStr (u "cpu_io"))
  end.

Definition node_body (node_id stage : pystr) (dependencies : list pystr) (payload : list (pystr * json)) : json :=
  JObj [(u "node_id", JStr node_id); (u "stage", JStr stage); (u "dependencies", strs dependencies);
        (u "payload", JObj payload)].

Definition _node (node_id stage : pystr) (dependencies : list pystr) (payload : list (pystr * json))
    : res WorkNode :=
  let* res_class := _resource_class stage payload in
  let payload_copy := dict_set (u "resource_class") res_class payload in
  let normalized := sorted_set (list_to_set dependencies) in
  let* input_hash := _hash_json (node_body node_id stage normalized payload_copy) in
  Ok (Node _ node_id stage input_hash normalized payload_copy res_class).

Definition _module_payload (m : ProductionModule) : json :=
  JObj [(u "module_id", JStr (module_id m)); (u "kind", JStr (kind m)); (u "config", JObj (config m));
        (u "depends_on", strs (depends_on m)); (u "required_gates", strs (required_gates m))].

(** The locators of the anchors a module owns exclusively. *)
Fixpoint anchor_locators (anchors : list json) : res (list pystr) :=
  match anchors with
  | [] => Ok []
  | JObj anchor :: anchors =>
      if is_text (get anchor (u "ownership")) (u "exclusive") then
        let* locator := str_or_empty (get anchor (u "locator")) in
        let* rest := anchor_locators anchors in
        Ok (match strip locator with [] => rest | l => l :: rest end)
      else anchor_locators anchors
  | _ :: anchors => anchor_locators anchors
  end.

Definition _exclusive_anchor_keys (m : ProductionModule) : res (list pystr) :=
  match get (config m) (u "owned_anchors") with
  | JArr raw => let* keys := anchor_locators raw in Ok (from_keys keys)
  | _ => Ok []
  end.

(** ** The loop over the shards *)

Record build_state : Type := Building {
  b_nodes : list WorkNode; b_generated : list pystr;
  b_module_node : gmap pystr pystr; b_anchor_node : gmap pystr pystr
}.

Definition shard_node_id (stage : pystr) (n : nat) : pystr :=
  u "generate-" ++ stage ++ u "-" ++ zero_padded n.

(** [module_node[dependency] for dependency in module.depends_on if ..] *)
Fixpoint module_nodes (module_node : gmap pystr pystr) (deps : list pystr) : res (list pystr) :=
  match deps with
  | [] => Ok []
  | d :: deps =>
      match module_node !! d with
      | None => Err KeyError
      | Some n => let* rest := module_nodes module_node deps in Ok (n :: rest)
      end
  end.

Definition module_dependencies (st : build_state) (member_ids : list pystr) (m : ProductionModule)
    : res (list pystr) :=
  let* nodes := module_nodes (b_module_node st) (filter (fun d => d ∉ member_ids) (depends_on m)) in
  let* keys := _exclusive_anchor_keys m in
  Ok (nodes ++ omap (fun a => b_anchor_node st !! a) keys).

Definition shard_dependencies (st : build_state) (node_id : pystr) (members : list ProductionModule)
    : res (list pystr) :=
  let* deps := res_map_list (module_dependencies st (map module_id members)) members in
  Ok (sorted_set (list_to_set (u "prepare-project" :: concat deps) ∖ {[node_id]})).

Definition set_keys (keys : list pystr) (v : pystr) (m : gmap pystr pystr) : gmap pystr pystr :=
  fold_left (fun m k => <[k := v]> m) keys m.

Fixpoint held_anchors (members : list ProductionModule) : res (list pystr) :=
  match members with
  | [] => Ok []
  | m :: members =>
      let* keys := _exclusive_anchor_keys m in
      let* rest := held_anchors members in
      Ok (keys ++ rest)
  end.

Fixpoint routes_of (routes : gmap pystr ModuleProductionRoute) (members : list ProductionModule)
    : res (list json) :=
  match members with
  | [] => Ok []
  | m :: members =>
      match routes !! module_id m with
      | None => Err KeyError
      | Some r => let* rest := routes_of routes members in Ok (route_to_dict r :: rest)
      end
  end.

Definition shard_payload (stage contract_sha256 fingerprint : pystr) (routes : list json)
    (members : list ProductionModule) : list (pystr * json) :=
  [(u "kind", JStr (u "module-shard")); (u "generation_stage", JStr stage);
   (u "production_routing_sha256", JStr contract_sha256); (u "production_implementation", JStr fingerprint);
   (u "production_routes", JArr routes); (u "members", JArr (map _module_payload members))].

(** One turn of [for stage, members in _module_shards(..)]. *)
Definition add_shard (fingerprint : pystr -> res pystr) (routing : ProductionRoutingSnapshot)
    (st : build_state) (stage : pystr) (members : list ProductionModule) : res build_state :=
  let node_id := shard_node_id stage (length (b_generated st)) in
  let* dependencies := shard_dependencies st node_id members in
  let* implementation := fingerprint stage in
  let* routes := routes_of (route_by_module_id routing) members in
  let* node := _node node_id (u "generate:" ++ stage) dependencies
                 (shard_payload stage (rt_contract_sha256 routing) implementation routes members) in
  let* anchors := held_anchors members in
  Ok (Building (b_nodes st ++ [node]) (b_generated st ++ [node_id])
        (set_keys (map module_id members) node_id (b_module_node st))
        (set_keys anchors node_id (b_anchor_node st))).

Fixpoint add_shards (fingerprint : pystr -> res pystr) (routing : ProductionRoutingSnapshot)
    (st : build_state) (shards : list (pystr * list ProductionModule)) : res build_state :=
  match shards with
  | [] => Ok st
  | s :: shards => let* st := add_shard fingerprint routing st s.1 s.2 in add_shards fingerprint routing st shards
  end.

(** ** Quality dimensions *)

(** [for x in value] and [value[key]] *)
Definition py_iter (value : json) : res (list json) :=
  match value with
  | JArr l => Ok l
  | JObj l => Ok (map (fun kv => JStr kv.1) l)
  | JStr s => Ok (map (fun c => JStr [c]) s)
  | _ => Err TypeError
  end.

Definition py_item (value : json) (key : pystr) : res json :=
  match value with
  | JObj l => match dict_get key l with Some v => Ok v | None => Err KeyError end
  | _ => Err TypeError
  end.

Definition dashes (s : pystr) : pystr := map (fun c => if c =? 95 then 45 else c) s.

Definition quality_node_id (dimension_id : pystr) : pystr := u "validate-quality-" ++ dashes dimension_id.

Definition quality_node (contract : list (pystr * json)) (dimension : json) : res WorkNode :=
  let* raw := py_item dimension (u "dimension_id") in
  let* dimension_id := py_str raw in
  let quality_dependency := if decide (dimension_id ∈ [u "correctness"; u "build"; u "research"])
                            then u "validate-jar" else u "runtime-playtest" in
  let* evidence := py_item dimension (u "evidence_route_ref") in
  let* sha := py_item (JObj contract) (u "contract_sha256") in
  _node (quality_node_id dimension_id) (u "validate:quality") [quality_dependency]
    [(u "kind", JStr (u "quality-validation")); (u "dimension_id", JStr dimension_id);
     (u "evidence_route_ref", evidence); (u "contract_sha256", sha)].

Definition quality_nodes (schema : pystr) (game_design : list (pystr * json)) : res (list WorkNode) :=
  match get game_design (u "_production_contract") with
  | JObj contract =>
      if decide (schema = u "mmm/complete-proposal-v2") then
        let* catalog := py_iter (default (JArr []) (dict_get (u "quality_dimension_catalog") contract)) in
        res_map_list (quality_node contract) catalog
      else Ok []
  | _ => Ok []
  end.

(** ** The plan *)

(** What the plan reads of a validated proposal. *)
Record plan_source : Type := PlanSource {
  ps_schema_version : pystr; ps_proposal_hash : pystr; ps_existing_input_sha256 : pystr;
  ps_game_design : list (pystr * json); ps_acceptance_tests : list pystr; ps_external_runtime_required : bool
}.

Definition validation_nodes (src : plan_source) (generated : list pystr) : res (list WorkNode) :=
  let validation_dependencies := match generated with [] => [u "prepare-project"] | _ => generated end in
  let* source := _node (u "validate-source") (u "validate:source") validation_dependencies
                   [(u "kind", JStr (u "validation")); (u "acceptance_tests", strs (ps_acceptance_tests src))] in
  let* build := _node (u "build-project") (u "build") [u "validate-source"] [(u "kind", JStr (u "gradle-build"))] in
  let* final := _node (u "validate-source-final") (u "validate:source-final") [u "build-project"]
                  [(u "kind", JStr (u "final-source-validation"))] in
  let* jar := _node (u "validate-jar") (u "validate:jar") [u "validate-source-final"]
                [(u "kind", JStr (u "jar-validation"))] in
  let* runtime := _node (u "runtime-playtest") (u "validate:runtime") [u "validate-jar"]
                    [(u "kind", JStr (u "runtime-playtest"));
                     (u "external_runtime_required", JBool (ps_external_runtime_required src))] in
  Ok [source; build; final; jar; runtime].

Definition packaging_nodes (quality : list pystr) : res (list WorkNode) :=
  let* artifact := _node (u "package-build-artifact") (u "package:build-artifact") [u "validate-jar"]
                     [(u "kind", JStr (u "build-artifact"))] in
  let* release := _node (u "package-release") (u "package")
                    (u "package-build-artifact" :: u "runtime-playtest" :: quality)
                    [(u "kind", JStr (u "release"))] in
  Ok [artifact; release].

Definition node_to_dict (n : WorkNode) : json :=
  JObj [(u "node_id", JStr (node_id n)); (u "stage", JStr (stage n)); (u "input_hash", JStr (input_hash n));
        (u "dependencies", strs (dependencies n)); (u "payload", JObj (payload n));
        (u "resource_class", resource_class n)].

Definition routing_to_dict (s : ProductionRoutingSnapshot) : json :=
  JObj (routing_body (rt_deterministic_module_kinds s) (rt_artifact_owner_module_ids s)
          (rt_artifact_client_entrypoints s) (rt_routes s) ++
        [(u "contract_sha256", JStr (rt_contract_sha256 s))]).

Definition graph_schema : pystr := u "mmm/production-work-graph-v1".

Definition graph_body (proposal_hash : pystr) (routing : ProductionRoutingSnapshot) (nodes : list WorkNode) : json :=
  JObj [(u "schema_version", JStr graph_schema); (u "proposal_hash", JStr proposal_hash);
        (u "production_routing", routing_to_dict routing); (u "nodes", JArr (map node_to_dict nodes))].

Definition prepare_node (src : plan_source) (fingerprint : pystr -> res pystr) : res WorkNode :=
  let* implementation := fingerprint (u "prepare") in
  _node (u "prepare-project") (u "prepare") []
    [(u "kind", JStr (u "prepare")); (u "proposal_hash", JStr (ps_proposal_hash src));
     (u "existing_input_sha256", JStr (ps_existing_input_sha256 src));
     (u "production_implementation", JStr implementation)].

(** The nodes, from the shards on. *)
Definition plan_nodes (src : plan_source) (fingerprint : pystr -> res pystr) (routing : ProductionRoutingSnapshot)
    (shards : list (pystr * list ProductionModule)) : res (list WorkNode) :=
  let* prepare := prepare_node src fingerprint in
  let* st := add_shards fingerprint routing (Building [prepare] [] ∅ ∅) shards in
  let* validation := validation_nodes src (b_generated st) in
  let* quality := quality_nodes (ps_schema_version src) (ps_game_design src) in
  let* packaging := packaging_nodes (map node_id quality) in
  Ok (b_nodes st ++ validation ++ quality ++ packaging).

Definition routing_for_plan (owners : gset pystr) (entrypoints adapter_kinds : list pystr)
    (ordered : list ProductionModule) : res ProductionRoutingSnapshot :=
  match compile_production_routing owners entrypoints adapter_kinds ordered with
  | Err (ProductionRoutingError why) => graph_error why
  | r => r
  end.

Definition build_production_work_plan (env : pystr -> option pystr) (policy : ScalePolicy)
    (fingerprint : pystr -> res pystr) (owners : gset pystr) (entrypoints adapter_kinds : list pystr)
    (src : plan_source) (modules : list ProductionModule) : res WorkGraphPlan :=
  let* ordered := selected_modules modules in
  let* routing := routing_for_plan owners entrypoints adapter_kinds ordered in
  let* shards := _module_shards env policy (Some (route_by_module_id routing)) None ∅ ordered in
  let* nodes := plan_nodes src fingerprint routing shards in
  let* digest := _hash_json (graph_body (ps_proposal_hash src) routing nodes) in
  Ok (Plan _ (ps_proposal_hash src) digest (Z.of_nat (length modules)) nodes).
End nodes.
