(* ===== verification/PlanProps.v ===== *)
(** * PlanProps: the plan that [build_production_work_plan] makes

    Its nodes come after those they depend on, its identifiers are distinct, the
    dependencies of modules become dependencies of nodes, nodes that own an anchor
    exclusively are ordered, and the ledger accepts it. *)

From stdpp Require Import prelude gmap sets fin_sets fin_map_dom strings list sorting.
From S2P Require Import Prelude Text Json StdJson PyJson Sha256 Tables Ledger ScalePolicy.
From S2P Require Import Backend WorkPlan PlanNodes.

Open Scope Z_scope.
Open Scope py_scope.

(** ** Identifiers *)

Lemma last_dash (a a' d d' : pystr) :
  45 ∉ d -> 45 ∉ d' -> a ++ 45 :: d = a' ++ 45 :: d' -> d = d'.
Proof.
  intros Hd Hd' E. apply app_eq_app in E as (l & [[-> E]|[-> E]]).
  all: destruct l as [|c l]; simpl in E; injection E as; subst; [done|set_solver].
Qed.

Lemma dec_value_zeros n s : dec_value (replicate n 48 ++ s) = dec_value s.
Proof. unfold dec_value. rewrite fold_left_app. f_equal. induction n as [|n IH]; [done|]. simpl. exact IH. Qed.

Lemma zero_padded_value n : dec_value (zero_padded n) = Z.of_nat n.
Proof. unfold zero_padded. rewrite dec_value_zeros. apply dec_nat_spec. lia. Qed.

Lemma zero_padded_no_dash n : 45 ∉ zero_padded n.
Proof.
  unfold zero_padded. rewrite not_elem_of_app. split.
  - intros Hin. apply elem_of_replicate in Hin as [? _]. done.
  - intros Hin. destruct (dec_nat_spec (Z.of_nat n)) as (_ & Hall & _); [lia|].
    rewrite Forall_forall in Hall. by apply Hall in Hin.
Qed.

Lemma shard_node_id_inj s s' n n' : shard_node_id s n = shard_node_id s' n' -> n = n'.
Proof.
  unfold shard_node_id. rewrite (assoc_L (++) (u "generate-") s), (assoc_L (++) (u "generate-") s'). intros E.
  assert (zero_padded n = zero_padded n') as Ez
    by (eapply (last_dash (u "generate-" ++ s) (u "generate-" ++ s')); [..|exact E]; apply zero_padded_no_dash).
  apply (f_equal dec_value) in Ez. rewrite !zero_padded_value in Ez. lia.
Qed.

(** The first letters of an identifier tell the groups of nodes apart. *)
Definition id_class (id : pystr) : pystr := take 10 id.

Lemma shard_not_fixed s n id :
  shard_node_id s n = id -> head id = Some 103.
Proof. by intros <-. Qed.

Lemma quality_class d id : quality_node_id d = id -> take 10 id = u "validate-q".
Proof. by intros <-. Qed.

(** ** Nodes in order *)

Section nodes.
Context `{PyFloat, PyUnicode, !PyRepr}.

(** A node that [_node] made. *)
Definition made (n : WorkNode) : Prop := exists id st deps pl, _node id st deps pl = Ok n.

Fixpoint deps_within (known : list pystr) (l : list WorkNode) : Prop :=
  match l with
  | [] => True
  | n :: l => (dependencies n ⊆ known /\ made n) /\ deps_within (node_id n :: known) l
  end.

Lemma deps_within_mono known known' l : known ⊆ known' -> deps_within known l -> deps_within known' l.
Proof.
  revert known known'; induction l as [|n l IH]; intros known known' Hs; [done|]. simpl. intros [[Hd Hm] Hw].
  split; [split; [set_solver|done]|]. apply (IH (node_id n :: known)); [set_solver|done].
Qed.

Lemma deps_within_app known l l' :
  deps_within known l -> deps_within (map node_id l ++ known) l' -> deps_within known (l ++ l').
Proof.
  revert known; induction l as [|n l IH]; intros known; [done|]. simpl. intros [Hd Hw] Hl'.
  split; [done|]. apply IH; [done|]. eapply deps_within_mono; [|exact Hl']. set_solver.
Qed.

Lemma deps_within_split known l before n after :
  deps_within known l -> l = before ++ n :: after -> dependencies n ⊆ map node_id before ++ known.
Proof.
  revert known before; induction l as [|n' l IH]; intros known before; [by destruct before|].
  simpl. intros [[Hd _] Hw]. destruct before as [|n2 before]; intros [= -> ->]; [done|].
  pose proof (IH _ before Hw eq_refl). set_solver.
Qed.

Lemma node_ok id st deps pl n :
  _node id st deps pl = Ok n ->
  node_id n = id /\ stage n = st /\ dependencies n = sorted_set (list_to_set deps) /\
  payload n = dict_set (u "resource_class") (resource_class n) pl /\
  _hash_json (node_body (node_id n) (stage n) (dependencies n) (payload n)) = Ok (input_hash n).
Proof.
  unfold _node. rewrite res_bind_ok. intros (c & _ & Hn). rewrite res_bind_ok in Hn.
  destruct Hn as (h & Hh & [= <-]). done.
Qed.

Lemma made_intro id st deps pl n : _node id st deps pl = Ok n -> made n.
Proof. intros Hn. by exists id, st, deps, pl. Qed.

Lemma made_nodup n : made n -> NoDup (dependencies n).
Proof. intros (id & st & deps & pl & (_ & _ & -> & _)%node_ok). apply sorted_set_NoDup. Qed.

Lemma deps_within_made known l n : deps_within known l -> n ∈ l -> made n.
Proof.
  revert known; induction l as [|n' l IH]; intros known; [by intros _ ?%elem_of_nil|].
  intros [[_ Hm] Hw] [->|Hn]%elem_of_cons; [done|]. by eapply IH.
Qed.

Lemma node_deps id st deps pl n d : _node id st deps pl = Ok n -> d ∈ dependencies n <-> d ∈ deps.
Proof. intros (_ & _ & -> & _)%node_ok. by rewrite sorted_set_elem, elem_of_list_to_set. Qed.

(** ** The loop over the shards *)

Implicit Types (done : list (pystr * list ProductionModule)) (gen : list WorkNode) (m : ProductionModule).

(** A member owns the anchor exclusively. *)
Definition holds (a : pystr) (members : list ProductionModule) : Prop :=
  exists m keys, m ∈ members /\ _exclusive_anchor_keys m = Ok keys /\ a ∈ keys.

Definition waits_on (l : list WorkNode) (x y : pystr) : Prop :=
  exists n, n ∈ l /\ node_id n = x /\ y ∈ dependencies n.

Definition node_of (s : pystr * list ProductionModule) (n : WorkNode) : Prop :=
  stage n = u "generate:" ++ s.1 /\ get (payload n) (u "members") = JArr (map _module_payload s.2).

(** The nodes [gen] made of the shards [done]: one each; dependencies between
    modules of two shards are dependencies of their nodes; and two nodes with a
    common exclusive anchor wait for each other. *)
Definition generated_for done gen : Prop :=
  Forall2 node_of done gen /\
  (forall i s n, done !! i = Some s -> gen !! i = Some n -> node_id n = shard_node_id s.1 i) /\
  (forall i s n, done !! i = Some s -> gen !! i = Some n -> forall m d, m ∈ s.2 -> d ∈ depends_on m ->
     d ∈ map module_id s.2 \/
     exists j s' n', (j < i)%nat /\ done !! j = Some s' /\ gen !! j = Some n' /\
       d ∈ map module_id s'.2 /\ node_id n' ∈ dependencies n) /\
  (forall i j s s' n n' a, (j < i)%nat -> done !! i = Some s -> gen !! i = Some n ->
     done !! j = Some s' -> gen !! j = Some n' -> holds a s.2 -> holds a s'.2 ->
     rtc (waits_on gen) (node_id n) (node_id n')).

Definition built (prepare : WorkNode) done gen (st : build_state) : Prop :=
  b_nodes st = prepare :: gen /\ b_generated st = map node_id gen /\ generated_for done gen /\
  node_id prepare = u "prepare-project" /\ deps_within [] (prepare :: gen) /\
  (forall d id, b_module_node st !! d = Some id ->
     exists j s n, done !! j = Some s /\ gen !! j = Some n /\ d ∈ map module_id s.2 /\ node_id n = id) /\
  (forall a id, b_anchor_node st !! a = Some id -> id ∈ map node_id gen) /\
  (forall a j s n, done !! j = Some s -> gen !! j = Some n -> holds a s.2 ->
     exists id, b_anchor_node st !! a = Some id /\ rtc (waits_on gen) id (node_id n)).

Lemma set_keys_lookup (keys : list pystr) (v : pystr) (t : gmap pystr pystr) (k : pystr) :
  set_keys keys v t !! k = if decide (k ∈ keys) then Some v else t !! k.
Proof.
  unfold set_keys. revert t; induction keys as [|k' keys IH]; intros t; cbn [fold_left].
  - by rewrite decide_False by apply not_elem_of_nil.
  - rewrite IH. destruct (decide (k ∈ keys)) as [Hk|Hk].
    + rewrite decide_True; [done|]. by right.
    + destruct (decide (k = k')) as [->|Hne].
      * rewrite decide_True by left. apply lookup_insert_eq.
      * rewrite decide_False by (rewrite not_elem_of_cons; done). by apply lookup_insert_ne.
Qed.

Lemma snoc_pair {A B} (l : list A) (k : list B) x y i a b :
  length l = length k -> (l ++ [x]) !! i = Some a -> (k ++ [y]) !! i = Some b ->
  ((i < length k)%nat /\ l !! i = Some a /\ k !! i = Some b) \/ (i = length k /\ a = x /\ b = y).
Proof.
  intros Hl Ha%lookup_snoc_Some Hb%lookup_snoc_Some. rewrite <- Hl in *.
  destruct Ha as [[? ?]|[? ?]], Hb as [[? ?]|[? ?]]; subst; [by left|lia|lia|by right].
Qed.

Lemma module_nodes_ok (t : gmap pystr pystr) deps ns :
  module_nodes t deps = Ok ns -> forall n, n ∈ ns <-> exists d, d ∈ deps /\ t !! d = Some n.
Proof.
  revert ns; induction deps as [|d deps IH]; intros ns; simpl.
  - intros [= <-] n. rewrite elem_of_nil. split; [done|]. by intros (? & ?%elem_of_nil & _).
  - destruct (t !! d) as [n'|] eqn:Ed; [|done]. rewrite res_bind_ok. intros (r & Hr & [= <-]) n.
    rewrite elem_of_cons, (IH r Hr). set_solver.
Qed.

Lemma module_nodes_known (t : gmap pystr pystr) deps ns :
  module_nodes t deps = Ok ns -> forall d, d ∈ deps -> is_Some (t !! d).
Proof.
  revert ns; induction deps as [|d deps IH]; intros ns; simpl; [intros _ d Hd; by apply elem_of_nil in Hd|].
  destruct (t !! d) as [n'|] eqn:Ed; [|done]. rewrite res_bind_ok. intros (r & Hr & _) d'.
  rewrite elem_of_cons. intros [->|Hd]; [by eexists|]. by apply (IH r).
Qed.

Lemma held_anchors_ok members anchors :
  held_anchors members = Ok anchors -> forall a, a ∈ anchors <-> holds a members.
Proof.
  revert anchors; induction members as [|m members IH]; intros anchors; simpl.
  - intros [= <-] a. rewrite elem_of_nil. split; [done|]. by intros (m & ? & ?%elem_of_nil & _).
  - rewrite res_bind_ok. intros (keys & Hk & Hr) a. rewrite res_bind_ok in Hr.
    destruct Hr as (rest & Hr & [= <-]). rewrite elem_of_app, (IH _ Hr). split.
    + intros [Ha|(m' & ks & Hm & ? & ?)]; [exists m, keys|exists m', ks]; split_and!; try done; set_solver.
    + intros (m' & ks & [->|Hm]%elem_of_cons & Hks & Ha); [left; congruence|right; by exists m', ks].
Qed.

(** What [shard_dependencies] holds. *)
Lemma shard_dependencies_ok st id members deps :
  shard_dependencies st id members = Ok deps ->
  id ∉ deps /\
  (forall x, x ∈ deps -> x = u "prepare-project" \/ (exists d, b_module_node st !! d = Some x) \/
                        exists a, b_anchor_node st !! a = Some x) /\
  (forall m d, m ∈ members -> d ∈ depends_on m -> d ∉ map module_id members ->
     exists x, b_module_node st !! d = Some x /\ (x = id \/ x ∈ deps)) /\
  (forall a x, holds a members -> b_anchor_node st !! a = Some x -> x = id \/ x ∈ deps).
Proof.
  unfold shard_dependencies. rewrite res_bind_ok. intros (per & Hper & [= <-]).
  apply res_map_list_ok in Hper. set (ids := map module_id members) in *.
  assert (Hd : forall x, x ∈ sorted_set (list_to_set (u "prepare-project" :: concat per) ∖ {[id]}) <->
                        x <> id /\ (x = u "prepare-project" \/ exists l, l ∈ per /\ x ∈ l)).
  { intros x. rewrite sorted_set_elem, elem_of_difference, elem_of_list_to_set, elem_of_cons, elem_of_concat.
    set_solver. }
  assert (Hm : forall m l, module_dependencies st ids m = Ok l ->
    (forall x, x ∈ l -> (exists d, b_module_node st !! d = Some x) \/ exists a, b_anchor_node st !! a = Some x) /\
    (forall d, d ∈ depends_on m -> d ∉ ids -> exists x, b_module_node st !! d = Some x /\ x ∈ l) /\
    (forall keys a x, _exclusive_anchor_keys m = Ok keys -> a ∈ keys -> b_anchor_node st !! a = Some x -> x ∈ l)).
  { intros m l. unfold module_dependencies. rewrite res_bind_ok. intros (ns & Hns & Hk). rewrite res_bind_ok in Hk.
    destruct Hk as (keys & Hk & [= <-]). split_and!.
    - intros x [Hx|Hx]%elem_of_app.
      + left. apply (module_nodes_ok _ _ _ Hns) in Hx as (d & _ & ?). by exists d.
      + right. apply list_elem_of_omap in Hx as (a & _ & ?). by exists a.
    - intros d Hdm Hdi. assert (Hf : d ∈ filter (fun d => d ∉ ids) (depends_on m)) by (by apply list_elem_of_filter).
      destruct (module_nodes_known _ _ _ Hns d Hf) as [x Hx]. exists x. split; [done|].
      apply elem_of_app. left. apply (module_nodes_ok _ _ _ Hns). by exists d.
    - intros keys' a x Hk' Ha Hx. rewrite Hk in Hk'. injection Hk' as <-. apply elem_of_app. right.
      apply list_elem_of_omap. by exists a. }
  split_and!.
  - rewrite Hd. tauto.
  - intros x. rewrite Hd. intros [_ [->|(l & Hl & Hx)]]; [by left|right].
    apply list_elem_of_lookup in Hl as [i Hl].
    destruct (Forall2_lookup_r _ _ _ _ _ Hper Hl) as (m & _ & Hml). by apply (Hm m l Hml).
  - intros m d Hmem Hdm Hdi. apply list_elem_of_lookup in Hmem as [i Hmem].
    destruct (Forall2_lookup_l _ _ _ _ _ Hper Hmem) as (l & Hl & Hml).
    destruct (Hm m l Hml) as (_ & H2' & _). destruct (H2' d Hdm Hdi) as (x & Hx & Hxl). exists x. split; [done|].
    destruct (decide (x = id)) as [|Hne]; [by left|right]. apply Hd. split; [done|right].
    exists l. split; [by eapply list_elem_of_lookup_2|done].
  - intros a x (m & keys & Hmem & Hk & Ha) Hx. destruct (decide (x = id)) as [|Hne]; [by left|right].
    apply list_elem_of_lookup in Hmem as [i Hmem].
    destruct (Forall2_lookup_l _ _ _ _ _ Hper Hmem) as (l & Hl & Hml).
    destruct (Hm m l Hml) as (_ & _ & H3'). apply Hd. split; [done|right].
    exists l. split; [by eapply list_elem_of_lookup_2|by eapply H3'].
Qed.

(** What one turn of the loop makes. *)
Lemma add_shard_ok fingerprint routing st stage_ members st' :
  add_shard fingerprint routing st stage_ members = Ok st' ->
  let id := shard_node_id stage_ (length (b_generated st)) in
  exists deps n anchors,
    shard_dependencies st id members = Ok deps /\ held_anchors members = Ok anchors /\
    node_id n = id /\ (forall d, d ∈ dependencies n <-> d ∈ deps) /\ node_of (stage_, members) n /\ made n /\
    st' = Building (b_nodes st ++ [n]) (b_generated st ++ [id])
            (set_keys (map module_id members) id (b_module_node st)) (set_keys anchors id (b_anchor_node st)).
Proof.
  unfold add_shard. cbv zeta. set (id := shard_node_id _ _). rewrite res_bind_ok. intros (deps & Hdeps & Hr).
  rewrite res_bind_ok in Hr. destruct Hr as (impl & _ & Hr). rewrite res_bind_ok in Hr.
  destruct Hr as (rts & _ & Hr). rewrite res_bind_ok in Hr. destruct Hr as (n & Hn & Hr).
  rewrite res_bind_ok in Hr. destruct Hr as (anchors & Ha & [= <-]). exists deps, n, anchors.
  pose proof Hn as (Hid & Hst & _ & Hpl & _)%node_ok. split_and!; try done.
  - intros d. by apply (node_deps _ _ _ _ _ d Hn).
  - split; [done|]. rewrite Hpl. reflexivity.
  - by eapply made_intro.
Qed.

Lemma waits_on_mono (l l' : list WorkNode) x y : l ⊆ l' -> rtc (waits_on l) x y -> rtc (waits_on l') x y.
Proof.
  intros Hs. apply rtc_subrel. intros a b (n & Hn & ? & ?). exists n. split_and!; [by apply Hs|done|done].
Qed.

Lemma waits_on_intro (l : list WorkNode) n y : n ∈ l -> y ∈ dependencies n -> waits_on l (node_id n) y.
Proof. intros ? ?. by exists n. Qed.

Lemma generated_snoc done gen s n deps anchors st prepare :
  built prepare done gen st ->
  let id := shard_node_id s.1 (length gen) in
  shard_dependencies st id s.2 = Ok deps -> held_anchors s.2 = Ok anchors ->
  node_id n = id -> (forall d, d ∈ dependencies n <-> d ∈ deps) -> node_of s n ->
  generated_for (done ++ [s]) (gen ++ [n]).
Proof.
  intros (_ & _ & (Hno & Hids & Hmods & Hanch) & _ & _ & Hmn & _ & Han) id Hdeps Hheld Hid Hdn Hnode.
  pose proof (Forall2_length _ _ _ Hno) as Hlen.
  destruct (shard_dependencies_ok _ _ _ _ Hdeps) as (_ & _ & Hm & Ha).
  assert (Hsub : gen ⊆ gen ++ [n]) by (intros x Hx; apply elem_of_app; by left).
  split_and!.
  - by apply Forall2_app; [|constructor].
  - intros i s' n' Hs Hn. destruct (snoc_pair _ _ _ _ _ _ _ Hlen Hs Hn) as [(_ & Hs' & Hn')|(-> & -> & ->)].
    + by apply Hids.
    + done.
  - intros i s' n' Hs Hn m d Hms Hd.
    destruct (snoc_pair _ _ _ _ _ _ _ Hlen Hs Hn) as [(Hi & Hs' & Hn')|(-> & -> & ->)].
    + destruct (Hmods i s' n' Hs' Hn' m d Hms Hd) as [?|(j & s2 & n2 & Hj & Hs2 & Hn2 & ? & ?)]; [by left|right].
      exists j, s2, n2. split_and!; try done; by apply lookup_app_l_Some.
    + destruct (decide (d ∈ map module_id s.2)) as [|Hni]; [by left|right].
      destruct (Hm m d Hms Hd Hni) as (x & Hx & Hor). destruct (Hmn d x Hx) as (j & s2 & n2 & Hs2 & Hn2 & Hd2 & <-).
      assert (j < length gen)%nat as Hj by (by eapply lookup_lt_Some).
      exists j, s2, n2. split_and!; try done; [by apply lookup_app_l_Some..|].
      apply Hdn. destruct Hor as [Heq|]; [|done]. exfalso.
      rewrite (Hids j s2 n2 Hs2 Hn2) in Heq. apply shard_node_id_inj in Heq. lia.
  - intros i j s1 s2 n1 n2 a Hji Hs1 Hn1 Hs2 Hn2 Ha1 Ha2.
    destruct (snoc_pair _ _ _ _ _ _ _ Hlen Hs2 Hn2) as [(Hj & Hs2' & Hn2')|(-> & -> & ->)].
    + destruct (snoc_pair _ _ _ _ _ _ _ Hlen Hs1 Hn1) as [(Hi & Hs1' & Hn1')|(-> & -> & ->)].
      * apply (waits_on_mono gen); [done|]. by apply (Hanch i j s1 s2 n1 n2 a).
      * destruct (Han a j s2 n2 Hs2' Hn2' Ha2) as (x & Hx & Hr).
        apply (waits_on_mono gen (gen ++ [n])) in Hr; [|done].
        destruct (Ha a x Ha1 Hx) as [->|Hxd]; [by rewrite Hid|].
        eapply rtc_l; [|exact Hr]. apply waits_on_intro; [apply elem_of_app; right; by left|by apply Hdn].
    + assert (i < length (gen ++ [n]))%nat as Hi by (by eapply lookup_lt_Some). rewrite length_app in Hi. simpl in Hi. lia.
Qed.

Lemma add_shard_built fingerprint routing prepare done gen st s st' :
  built prepare done gen st -> add_shard fingerprint routing st s.1 s.2 = Ok st' ->
  exists n, built prepare (done ++ [s]) (gen ++ [n]) st'.
Proof.
  intros Hb Hadd. destruct (add_shard_ok _ _ _ _ _ _ Hadd) as (deps & n & anchors & Hdeps & Hheld & Hid & Hdn & Hno & Hmade & ->).
  exists n. pose proof Hb as (Hn & Hg & Hgen & Hp & Hw & Hmn & Hav & Han).
  assert (length (b_generated st) = length gen) as Elen by (by rewrite Hg, length_map). rewrite Elen in *.
  set (id := shard_node_id s.1 (length gen)) in *. destruct s as [stg members]. cbn [fst snd] in *.
  destruct (shard_dependencies_ok _ _ _ _ Hdeps) as (Hni & Hkn & _ & Ha).
  pose proof (generated_snoc done gen (stg, members) n deps anchors st prepare Hb Hdeps Hheld Hid Hdn Hno) as Hgen'.
  destruct Hgen as (Hf2 & _). pose proof (Forall2_length _ _ _ Hf2) as Hlen.
  unfold built. cbn [b_nodes b_generated b_module_node b_anchor_node]. split_and!; try done.
  - by rewrite Hn.
  - rewrite Hg, map_app. simpl. by rewrite Hid.
  - apply (deps_within_app [] (prepare :: gen) [n]); [done|]. simpl. split; [split; [|done]|done]. rewrite app_nil_r.
    intros x Hx. apply Hdn, Hkn in Hx as [->|[(d & Hd)|(a & Hxa)]]; [rewrite <- Hp; by left| |].
    + destruct (Hmn d x Hd) as (j & s' & n' & _ & Hn' & _ & <-). right. apply list_elem_of_fmap_2.
      by eapply list_elem_of_lookup_2.
    + right. by apply (Hav a).
  - intros d x. rewrite set_keys_lookup. destruct (decide _) as [Hd|Hd].
    + intros [= <-]. exists (length gen), (stg, members), n. rewrite <- Hlen at 1.
      rewrite !list_lookup_middle by done. done.
    + intros Hx. destruct (Hmn d x Hx) as (j & s' & n' & Hs' & Hn' & ? & ?). exists j, s', n'.
      split_and!; try done; by apply lookup_app_l_Some.
  - intros a x. rewrite set_keys_lookup, map_app, elem_of_app. destruct (decide _) as [Hd|Hd].
    + intros [= <-]. right. rewrite <- Hid. by left.
    + intros Hx. left. by apply (Hav a).
  - intros a j s' n' Hs' Hn' Hh. rewrite set_keys_lookup.
    assert (Hsub : gen ⊆ gen ++ [n]) by (intros x Hx; apply elem_of_app; by left).
    destruct (decide (a ∈ anchors)) as [Hd|Hd].
    + exists id. split; [done|].
      destruct (snoc_pair _ _ _ _ _ _ _ Hlen Hs' Hn') as [(Hj & Hs2 & Hn2)|(-> & -> & ->)]; [|by rewrite Hid].
      destruct Hgen' as (_ & _ & _ & Hall). rewrite <- Hid.
      apply (Hall (length gen) j (stg, members) s' n n' a); try done.
      * rewrite <- Hlen. by apply list_lookup_middle.
      * by apply list_lookup_middle.
      * by apply (held_anchors_ok members anchors).
    + destruct (snoc_pair _ _ _ _ _ _ _ Hlen Hs' Hn') as [(Hj & Hs2 & Hn2)|(-> & -> & ->)].
      * destruct (Han a j s' n' Hs2 Hn2 Hh) as (x & Hx & Hr). exists x. split; [done|]. by apply (waits_on_mono gen).
      * exfalso. by apply Hd, (held_anchors_ok members anchors).
Qed.

Lemma add_shards_built fingerprint routing prepare done gen st shards st' :
  built prepare done gen st -> add_shards fingerprint routing st shards = Ok st' ->
  exists more, built prepare (done ++ shards) (gen ++ more) st'.
Proof.
  revert done gen st; induction shards as [|s shards IH]; intros done gen st Hb; simpl.
  - intros [= <-]. exists []. by rewrite !app_nil_r.
  - rewrite res_bind_ok. intros (st1 & H1' & Hr). destruct (add_shard_built _ _ _ _ _ _ _ _ Hb H1') as (n & Hb').
    destruct (IH _ _ _ Hb' Hr) as (more & Hm). exists (n :: more).
    by rewrite <- !(assoc_L (++)) in Hm.
Qed.

(** ** The fixed nodes *)

Definition validation_ids : list pystr :=
  [u "validate-source"; u "build-project"; u "validate-source-final"; u "validate-jar"; u "runtime-playtest"].

Definition packaging_ids : list pystr := [u "package-build-artifact"; u "package-release"].

Lemma validation_nodes_ok src gen_ids l known :
  validation_nodes src gen_ids = Ok l -> u "prepare-project" ∈ known -> gen_ids ⊆ known ->
  map node_id l = validation_ids /\ deps_within known l.
Proof.
  unfold validation_nodes. cbv zeta. intros Hl Hp Hg.
  repeat (rewrite res_bind_ok in Hl; destruct Hl as (? & ?Hn & Hl)). injection Hl as <-.
  cbn [map deps_within]. unfold validation_ids.
  repeat match goal with Hn : _node _ _ _ _ = Ok ?n |- _ =>
    let Hd := fresh "Hd" in let Hi := fresh "Hi" in let Hm := fresh "Hm" in
    pose proof (fun d => proj1 (node_deps _ _ _ _ n d Hn)) as Hd; pose proof (made_intro _ _ _ _ n Hn) as Hm;
    apply node_ok in Hn as (Hi & _) end.
  split; [congruence|].
  split_and!; try done; intros y Hy;
    repeat match goal with Hx : forall d, d ∈ dependencies ?n -> _, Hy : y ∈ dependencies ?n |- _ => apply Hx in Hy end.
  1: { destruct gen_ids; [apply list_elem_of_singleton in Hy as ->; done|by apply Hg]. }
  all: apply list_elem_of_singleton in Hy as ->.
  all: repeat match goal with E : node_id _ = _ |- _ => rewrite E end; rewrite !elem_of_cons; tauto.
Qed.

Lemma quality_node_ok contract dim n :
  quality_node contract dim = Ok n ->
  (exists d, node_id n = quality_node_id d) /\
  dependencies n ⊆ [u "validate-jar"; u "runtime-playtest"] /\ made n.
Proof.
  unfold quality_node. rewrite res_bind_ok. intros (raw & _ & Hr). rewrite res_bind_ok in Hr.
  destruct Hr as (d & _ & Hr). cbv zeta in Hr. rewrite res_bind_ok in Hr. destruct Hr as (ev & _ & Hr).
  rewrite res_bind_ok in Hr. destruct Hr as (sha & _ & Hn).
  split_and!; [| |by eapply made_intro].
  - exists d. by apply node_ok in Hn as (? & _).
  - intros x Hx. apply (node_deps _ _ _ _ _ x Hn), list_elem_of_singleton in Hx as ->. destruct (decide (d ∈ _)); rewrite !elem_of_cons; tauto.
Qed.

Lemma quality_nodes_ok schema design l :
  quality_nodes schema design = Ok l ->
  forall n, n ∈ l -> (exists d, node_id n = quality_node_id d) /\
                     dependencies n ⊆ [u "validate-jar"; u "runtime-playtest"] /\ made n.
Proof.
  unfold quality_nodes. intros Hl n Hn.
  destruct (get design _); try (injection Hl as <-; by apply elem_of_nil in Hn).
  destruct (decide (schema = _)); [|injection Hl as <-; by apply elem_of_nil in Hn].
  rewrite res_bind_ok in Hl. destruct Hl as (catalog & _ & Hl). apply res_map_list_ok in Hl.
  apply list_elem_of_lookup in Hn as [i Hi]. destruct (Forall2_lookup_r _ _ _ _ _ Hl Hi) as (dim & _ & Hd).
  by apply (quality_node_ok _ _ _ Hd).
Qed.

Lemma quality_within known l :
  (forall n : WorkNode, n ∈ l -> dependencies n ⊆ known /\ made n) -> deps_within known l.
Proof.
  revert known; induction l as [|n l IH]; intros known Hn; [done|]. split; [apply Hn; by left|].
  apply IH. intros n' Hn'. destruct (Hn n' ltac:(by right)) as [Hd Hm]. split; [set_solver|done].
Qed.

Lemma packaging_nodes_ok quality l known :
  packaging_nodes quality = Ok l -> quality ⊆ known -> validation_ids ⊆ known ->
  map node_id l = packaging_ids /\ deps_within known l.
Proof.
  unfold packaging_nodes. intros Hl Hq Hv. rewrite res_bind_ok in Hl. destruct Hl as (a & Ha & Hl).
  rewrite res_bind_ok in Hl. destruct Hl as (r & Hr & [= <-]). simpl.
  pose proof (fun d => proj1 (node_deps _ _ _ _ a d Ha)) as Hda.
  pose proof (fun d => proj1 (node_deps _ _ _ _ r d Hr)) as Hdr.
  pose proof (made_intro _ _ _ _ a Ha). pose proof (made_intro _ _ _ _ r Hr).
  apply node_ok in Ha as (Ia & _), Hr as (Ir & _). rewrite Ia, Ir. split; [done|].
  assert (u "validate-jar" ∈ known) by (apply Hv; unfold validation_ids; rewrite !elem_of_cons; tauto).
  assert (u "runtime-playtest" ∈ known) by (apply Hv; unfold validation_ids; rewrite !elem_of_cons; tauto).
  split_and!; [|done| |done|done].
  - intros d Hd. by apply Hda, list_elem_of_singleton in Hd as ->.
  - intros d Hd. apply Hdr in Hd. rewrite !elem_of_cons in Hd. destruct Hd as [->|[->|Hd]]; [by left|by right|].
    right. by apply Hq.
Qed.

(** ** All the nodes *)

Lemma plan_nodes_ok src fingerprint routing shards ns :
  plan_nodes src fingerprint routing shards = Ok ns ->
  exists prepare gen validation quality packaging,
    ns = prepare :: gen ++ validation ++ quality ++ packaging /\
    node_id prepare = u "prepare-project" /\ generated_for shards gen /\
    map node_id validation = validation_ids /\
    quality_nodes (ps_schema_version src) (ps_game_design src) = Ok quality /\
    map node_id packaging = packaging_ids /\ deps_within [] ns.
Proof.
  unfold plan_nodes. rewrite res_bind_ok. intros (prepare & Hp & Hr). rewrite res_bind_ok in Hr.
  destruct Hr as (st & Hst & Hr). rewrite res_bind_ok in Hr. destruct Hr as (validation & Hv & Hr).
  rewrite res_bind_ok in Hr. destruct Hr as (quality & Hq & Hr). rewrite res_bind_ok in Hr.
  destruct Hr as (packaging & Hpk & [= <-]).
  unfold prepare_node in Hp. rewrite res_bind_ok in Hp. destruct Hp as (impl & _ & Hp).
  pose proof Hp as (Hpid & _ & Hpd & _)%node_ok.
  assert (Hb : built prepare [] [] (Building [prepare] [] ∅ ∅)).
  { unfold built. split_and!; [done|done| |exact Hpid| | | |].
    - split_and!; [constructor|by intros ??? [=]..|]. by intros ?? ???? ? ? [=].
    - cbn [deps_within]. split; [split; [|by eapply made_intro]|done]. intros x Hx. by apply (node_deps _ _ _ _ _ x Hp) in Hx.
    - intros d id. cbn [b_module_node]. by rewrite lookup_empty.
    - intros a id. cbn [b_anchor_node]. by rewrite lookup_empty.
    - by intros ? ? ? ? [=]. }
  destruct (add_shards_built _ _ _ _ _ _ _ _ Hb Hst) as (gen & Hn & Hg & Hgen & _ & Hw & _). simpl app in *.
  rewrite Hn. simpl app. set (known := map node_id (prepare :: gen) ++ []).
  assert (Hpk' : u "prepare-project" ∈ known) by (unfold known; rewrite <- Hpid; by left).
  destruct (validation_nodes_ok _ _ _ known Hv Hpk') as [Hvi Hvw].
  { rewrite Hg. unfold known. intros x Hx. rewrite app_nil_r. by right. }
  set (known2 := map node_id validation ++ known). assert (Hsub : validation_ids ⊆ known2).
  { unfold known2. rewrite Hvi. intros x Hx. apply elem_of_app. by left. }
  assert (Hqw : deps_within known2 quality).
  { apply quality_within. intros n Hnq. destruct (quality_nodes_ok _ _ _ Hq n Hnq) as (_ & Hd & Hm). split; [|done].
    intros x Hx. apply Hsub. apply Hd in Hx. unfold validation_ids. rewrite !elem_of_cons in *. tauto. }
  destruct (packaging_nodes_ok _ _ (map node_id quality ++ known2) Hpk) as [Hki Hkw].
  { intros x Hx. apply elem_of_app. by left. }
  { intros x Hx. apply elem_of_app. right. by apply Hsub. }
  exists prepare, gen, validation, quality, packaging. do 6 (split; [first [assumption|reflexivity]|]).
  change (prepare :: gen ++ validation ++ quality ++ packaging)
    with ((prepare :: gen) ++ validation ++ quality ++ packaging).
  apply deps_within_app; [done|]. apply deps_within_app; [done|]. by apply deps_within_app.
Qed.

Lemma shard_ids_unique shards gen : generated_for shards gen -> NoDup (map node_id gen).
Proof.
  intros (Hf & Hids & _). pose proof (Forall2_length _ _ _ Hf) as Hlen. apply NoDup_alt. intros i j x Hi Hj.
  change (map node_id gen) with (node_id <$> gen) in *. rewrite !list_lookup_fmap in *.
  destruct (gen !! i) as [n|] eqn:En, (gen !! j) as [n'|] eqn:En'; try discriminate.
  injection Hi as <-. injection Hj as Hj.
  destruct (lookup_lt_is_Some_2 shards i) as [s Hs]; [rewrite Hlen; by eapply lookup_lt_Some|].
  destruct (lookup_lt_is_Some_2 shards j) as [s' Hs']; [rewrite Hlen; by eapply lookup_lt_Some|].
  rewrite (Hids _ _ _ Hs En), (Hids _ _ _ Hs' En') in Hj. by apply shard_node_id_inj in Hj.
Qed.

Lemma shard_ids_head shards gen x : generated_for shards gen -> x ∈ map node_id gen -> head x = Some 103.
Proof.
  intros (Hf & Hids & _) (n & -> & Hn)%list_elem_of_fmap. apply list_elem_of_lookup in Hn as [i Hn].
  destruct (Forall2_lookup_r _ _ _ _ _ Hf Hn) as (s & Hs & _). by rewrite (Hids _ _ _ Hs Hn).
Qed.

Lemma quality_ids_class schema design l x :
  quality_nodes schema design = Ok l -> x ∈ map node_id l -> take 10 x = u "validate-q".
Proof.
  intros Hq (n & -> & Hn)%list_elem_of_fmap. destruct (quality_nodes_ok _ _ _ Hq n Hn) as ([d ->] & _). done.
Qed.

(** The fixed identifiers are distinct, and of neither kind above. *)
Definition fixed_ids : list pystr := u "prepare-project" :: validation_ids ++ packaging_ids.

Lemma fixed_ids_apart :
  NoDup fixed_ids /\ Forall (fun x => head x <> Some 103 /\ take 10 x <> u "validate-q") fixed_ids.
Proof. by apply (bool_decide_unpack _). Qed.

Lemma plan_ids_unique shards gen schema design quality :
  generated_for shards gen -> quality_nodes schema design = Ok quality ->
  NoDup (u "prepare-project" :: map node_id gen ++ validation_ids ++ map node_id quality ++ packaging_ids) <->
  NoDup (map node_id quality).
Proof.
  intros Hg Hq. set (g := map node_id gen). set (q := map node_id quality).
  assert (Hp : u "prepare-project" :: g ++ validation_ids ++ q ++ packaging_ids ≡ₚ fixed_ids ++ g ++ q).
  { change (fixed_ids ++ g ++ q) with (u "prepare-project" :: (validation_ids ++ packaging_ids) ++ g ++ q).
    apply perm_skip. generalize validation_ids, packaging_ids. intros v k.
    rewrite (Permutation_app_comm (v ++ k)), <- (assoc_L (++)). apply Permutation_app_head.
    rewrite !(assoc_L (++)). apply Permutation_app_tail, Permutation_app_comm. }
  rewrite Hp, !NoDup_app. destruct fixed_ids_apart as [Hnd Hf]. rewrite Forall_forall in Hf. split; [tauto|].
  intros Hndq. split_and!; [done| |by apply (shard_ids_unique shards)| |done].
  - intros x Hx [Hxg|Hxq]%elem_of_app; apply Hf in Hx as [Hh Ht].
    + by apply Hh, (shard_ids_head shards gen).
    + by apply Ht, (quality_ids_class schema design quality).
  - intros x Hxg Hxq. apply (shard_ids_head shards gen) in Hxg; [|done].
    apply (quality_ids_class schema design quality) in Hxq; [|done]. by destruct x as [|c x]; simplify_eq/=.
Qed.

(** ** The plan *)

Definition quality_ids_distinct (src : plan_source) : Prop :=
  forall quality, quality_nodes (ps_schema_version src) (ps_game_design src) = Ok quality ->
    NoDup (map node_id quality).

Lemma build_plan_nodes env policy fingerprint owners entrypoints adapter_kinds src ms plan :
  build_production_work_plan env policy fingerprint owners entrypoints adapter_kinds src ms = Ok plan ->
  exists ordered routing shards prepare gen validation quality packaging,
    selected_modules ms = Ok ordered /\
    compile_production_routing owners entrypoints adapter_kinds ordered = Ok routing /\
    _module_shards env policy (Some (route_by_module_id routing)) None ∅ ordered = Ok shards /\
    quality_nodes (ps_schema_version src) (ps_game_design src) = Ok quality /\
    nodes plan = prepare :: gen ++ validation ++ quality ++ packaging /\
    generated_for shards gen /\
    (NoDup (map node_id (nodes plan)) <-> NoDup (map node_id quality)) /\
    deps_within [] (nodes plan) /\
    proposal_hash plan = ps_proposal_hash src /\
    _hash_json (graph_body (ps_proposal_hash src) routing (nodes plan)) = Ok (graph_hash plan).
Proof.
  unfold build_production_work_plan. rewrite res_bind_ok. intros (ordered & Ho & Hr). rewrite res_bind_ok in Hr.
  destruct Hr as (routing & Hrt & Hr). rewrite res_bind_ok in Hr. destruct Hr as (shards & Hs & Hr).
  rewrite res_bind_ok in Hr. destruct Hr as (ns & Hns & Hr). rewrite res_bind_ok in Hr.
  destruct Hr as (digest & Hdg & [= <-]). simpl.
  destruct (plan_nodes_ok _ _ _ _ _ Hns) as (prepare & gen & validation & quality & packaging & -> & Hp & Hg & Hv & Hq & Hk & Hw).
  exists ordered, routing, shards, prepare, gen, validation, quality, packaging.
  assert (compile_production_routing owners entrypoints adapter_kinds ordered = Ok routing) as Hc.
  { unfold routing_for_plan in Hrt. destruct (compile_production_routing _ _ _ _) as [r|e]; [done|].
    by destruct e. }
  repeat (split; [first [assumption|reflexivity]|]).
  split; [|repeat (split; [first [assumption|reflexivity]|]); assumption].
  cbn [map]. rewrite !map_app, Hp, Hv, Hk. by apply (plan_ids_unique shards _ _ _ _ Hg Hq).
Qed.

(** C30: the nodes of a plan are the shards of its modules between the fixed stages.
    A node only depends on nodes before it, so the graph is acyclic and names no
    unknown node; identifiers repeat only if the contract repeats a quality
    dimension; there is a node for each shard, it depends on the node of every module
    its own modules need, and two nodes that own an anchor exclusively wait for each
    other. *)
Theorem build_plan_spec env policy fingerprint owners entrypoints adapter_kinds src ms plan :
  build_production_work_plan env policy fingerprint owners entrypoints adapter_kinds src ms = Ok plan ->
  (forall before n after, nodes plan = before ++ n :: after -> dependencies n ⊆ map node_id before) /\
  (quality_ids_distinct src -> NoDup (map node_id (nodes plan))) /\
  exists ordered routing shards gen prepare rest,
    selected_modules ms = Ok ordered /\
    compile_production_routing owners entrypoints adapter_kinds ordered = Ok routing /\
    _module_shards env policy (Some (route_by_module_id routing)) None ∅ ordered = Ok shards /\
    nodes plan = prepare :: gen ++ rest /\ generated_for shards gen.
Proof.
  intros (ordered & routing & shards & prepare & gen & validation & quality & packaging & Ho & Hr & Hs & Hq &
    Hn & Hg & Hu & Hw & _)%build_plan_nodes. split_and!.
  - intros before n after E. rewrite <- (app_nil_r (map node_id before)). by eapply deps_within_split.
  - intros Hd. by apply Hu, Hd.
  - exists ordered, routing, shards, gen, prepare, (validation ++ quality ++ packaging).
    repeat (split; [assumption|]). assumption.
Qed.
End nodes.
