(* ===== verification/PlanLedger.v ===== *)
(** * PlanLedger: a plan in the ledger

    The plan that [build_production_work_plan] makes is one that [sync_plan]
    stores, and work on it cannot get stuck. *)

From stdpp Require Import prelude gmap sets fin_sets fin_map_dom strings list sorting.
From S2P Require Import Prelude Text Json JsonCanonical StdJson PyJson Sha256 ReceiptTruth Tables Ledger LedgerInv.
From S2P Require Import ScalePolicy Backend WorkPlan PlanNodes PlanProps.

Open Scope Z_scope.
Open Scope py_scope.

Section plan.
Context `{PyFloat, PyUnicode, !PyRepr, VerifierCode}.

(** ** A value with a canonical text has canonical parts *)

Lemma canonical_member l t k v :
  canonical_json (JObj l) = Ok t -> (k, v) ∈ l -> exists t', canonical_json v = Ok t'.
Proof.
  cbn [canonical_json]. rewrite res_bind_ok. intros (ts & Hts & _) Hin. apply res_map_list_ok in Hts.
  assert ((k, canonical_json v) ∈ sort_items (map (fun kv => (kv.1, canonical_json kv.2)) l)) as Hs.
  { unfold sort_items. rewrite merge_sort_Permutation.
    by apply (list_elem_of_fmap_2 (fun kv : pystr * json => (kv.1, canonical_json kv.2)) l (k, v)). }
  apply list_elem_of_lookup in Hs as [i Hi]. destruct (Forall2_lookup_l _ _ _ _ _ Hts Hi) as (t' & _ & Ht').
  unfold dumps_member in Ht'. cbn [fst snd] in Ht'. rewrite res_bind_ok in Ht'. destruct Ht' as (t2 & Ht2 & _).
  by exists t2.
Qed.

Lemma canonical_item l t v : canonical_json (JArr l) = Ok t -> v ∈ l -> exists t', canonical_json v = Ok t'.
Proof.
  cbn [canonical_json]. rewrite res_bind_ok. intros (ts & Hts & _) Hin. apply res_map_list_ok in Hts.
  apply list_elem_of_lookup in Hin as [i Hi]. destruct (Forall2_lookup_l _ _ _ _ _ Hts Hi) as (t' & _ & ?).
  by exists t'.
Qed.

Lemma payload_canonical proposal routing ns digest n :
  _hash_json (graph_body proposal routing ns) = Ok digest -> n ∈ ns ->
  exists t, canonical_json (JObj (payload n)) = Ok t.
Proof.
  unfold _hash_json. rewrite res_bind_ok. intros (t & Ht & _) Hn. unfold graph_body in Ht.
  destruct (canonical_member _ _ (u "nodes") (JArr (map node_to_dict ns)) Ht) as [t1 H1'].
  { rewrite !elem_of_cons. tauto. }
  destruct (canonical_item _ _ (node_to_dict n) H1') as [t2 H2'].
  { by apply (list_elem_of_fmap_2 node_to_dict). }
  apply (canonical_member _ _ (u "payload") (JObj (payload n)) H2'). rewrite !elem_of_cons. tauto.
Qed.

(** ** Synchronising *)

Lemma deps_known known (l : list WorkNode) d n :
  deps_within known l -> n ∈ l -> d ∈ dependencies n -> d ∈ map node_id l ++ known.
Proof.
  intros Hw (before & after & ->)%list_elem_of_split Hd.
  pose proof (deps_within_split _ _ before n after Hw eq_refl d Hd) as Hx.
  rewrite map_app, !elem_of_app in *. tauto.
Qed.

Lemma plan_edges_nodup (plan : WorkGraphPlan) :
  NoDup (map node_id (nodes plan)) -> (forall n, n ∈ nodes plan -> NoDup (dependencies n)) ->
  NoDup (plan_edges plan).
Proof.
  unfold plan_edges. induction (nodes plan) as [|n l IH]; intros Hnd Hd; [constructor|].
  cbn [map] in Hnd. apply NoDup_cons in Hnd as [Hn Hnd]. rewrite bind_cons. apply NoDup_app. split_and!.
  - apply NoDup_fmap_2; [by intros ?? [=]|]. apply Hd. by left.
  - intros [k d] (d' & [= -> ->] & _)%list_elem_of_fmap (n' & Hin & Hn')%list_elem_of_bind.
    apply list_elem_of_fmap in Hin as (d2 & [= Hk _] & _). apply Hn. rewrite Hk. by apply list_elem_of_fmap_2.
  - apply IH; [done|]. intros n' Hn'. apply Hd. by right.
Qed.

(** A plan whose quality dimensions are distinct is one the ledger stores:
    [sync_plan] raises nothing, and leaves a task for every node and an edge for
    every dependency. *)
Theorem plan_accepted env policy fingerprint owners entrypoints adapter_kinds src ms plan now l d :
  build_production_work_plan env policy fingerprint owners entrypoints adapter_kinds src ms = Ok plan ->
  quality_ids_distinct src -> l_proposal_hash l = ps_proposal_hash src ->
  exists view d', sync_plan now plan l d = (Ok (view, Ledger (l_proposal_hash l) (graph_hash plan)), d') /\
    dom (tasks d') = list_to_set (map node_id (nodes plan)) /\
    edges d' = list_to_set (plan_edges plan) /\ checkpoints d' = checkpoints d.
Proof.
  intros (ordered & routing & shards & prepare & gen & validation & quality & packaging & _ & _ & _ & Hq &
    Hn & _ & Hu & Hw & Hph & Hdg)%build_plan_nodes Hdis Hl.
  assert (Hnd : NoDup (map node_id (nodes plan))) by (by apply Hu, Hdis). unfold sync_plan.
  rewrite (decide_False (P := proposal_hash plan <> _)) by (rewrite Hph, Hl; tauto).
  rewrite (decide_False (P := ~ NoDup _)) by tauto.
  rewrite (decide_False (P := missing_dependencies plan <> [])).
  2: { intros Hm. apply Hm. unfold missing_dependencies. apply elem_of_nil_inv. intros x Hx.
       apply list_elem_of_filter in Hx as [Hx ((k & d0) & -> & (n & Hin & <- & Hdd)%plan_edges_spec)%list_elem_of_fmap].
       apply Hx. simpl. rewrite <- (app_nil_r (map node_id (nodes plan))). by eapply deps_known. }
  unfold op_bind, transaction, sync_plan_tx.
  destruct (res_map_list desired_task (nodes plan)) as [rows|e] eqn:Erows.
  2: { exfalso. apply res_map_list_err in Erows as (n & Hin & He).
       destruct (payload_canonical _ _ _ _ n Hdg Hin) as [t Ht]. unfold desired_task in He. by rewrite Ht in He. }
  rewrite decide_False.
  2: { intros Hx. apply Hx, plan_edges_nodup; [done|]. intros n Hin. by eapply made_nodup, deps_within_made. }
  eexists _, _. split; [reflexivity|]. cbn [tasks edges checkpoints put_meta set_metadata]. split; [|done].
  rewrite dom_update_where. apply set_eq. intros k. rewrite elem_of_dom, map_lookup_imap.
  rewrite elem_of_list_to_set. split.
  - intros [r Hr]. destruct (list_to_map rows !! k) as [v|] eqn:Ev; [|done].
    destruct (desired_dom _ _ _ _ Erows Ev) as (n & pj & Hin & <- & _). by apply list_elem_of_fmap_2.
  - intros (n & -> & Hin)%list_elem_of_fmap. destruct (desired_lookup plan rows n Hnd Erows Hin) as (pj & _ & ->).
    by eexists.
Qed.

(** The first element that satisfies a decidable property. *)
Lemma first_such {A} (P : A -> Prop) `{!forall x, Decision (P x)} (l : list A) :
  Exists P l -> exists pre x post, l = pre ++ x :: post /\ P x /\ forall y, y ∈ pre -> ~ P y.
Proof.
  induction l as [|x l IH]; [by inversion 1|]. intros Hx. destruct (decide (P x)) as [Hp|Hp].
  - exists [], x, l. split_and!; try done. by intros y ?%elem_of_nil.
  - destruct IH as (pre & y & post & -> & Hy & Hpre); [by inversion Hx|].
    exists (x :: pre), y, post. split_and!; try done. by intros z [->|Hz]%elem_of_cons; [|apply Hpre].
Qed.

Lemma NoDup_map_inv {A B} (f : A -> B) (l : list A) x y :
  NoDup (map f l) -> x ∈ l -> y ∈ l -> f x = f y -> x = y.
Proof.
  intros Hnd Hx Hy E. apply list_elem_of_lookup in Hx as [i Hi], Hy as [j Hj].
  assert (i = j) as ->; [|congruence].
  eapply (NoDup_lookup (f <$> l)); [done|by rewrite list_lookup_fmap, Hi|by rewrite list_lookup_fmap, Hj; simpl; rewrite E].
Qed.

(** C29: work on a plan cannot get stuck.  While every task of the plan is pending or
    has succeeded and one is pending, a worker that takes any stage gets a task. *)
Theorem plan_never_stuck env policy fingerprint owners entrypoints adapter_kinds src ms plan d now worker lease :
  build_production_work_plan env policy fingerprint owners entrypoints adapter_kinds src ms = Ok plan ->
  quality_ids_distinct src ->
  dom (tasks d) = list_to_set (map node_id (nodes plan)) -> edges d = list_to_set (plan_edges plan) ->
  (forall k r, tasks d !! k = Some r -> t_state r = PENDING \/ t_state r = SUCCEEDED) ->
  (exists k r, tasks d !! k = Some r /\ t_state r = PENDING) ->
  exists id d', claim_ready_tx now worker [] lease d = (Ok (Some id), d') /\
    id ∈ map node_id (nodes plan) /\ (t_state <$> tasks d' !! id) = Some RUNNING.
Proof.
  intros (ordered & routing & shards & prepare & gen & validation & quality & packaging & _ & _ & _ & Hq &
    Hn & _ & Hu & Hw & _)%build_plan_nodes Hdis Hdom Hed Hst (k & r & Hk & Hr).
  assert (Hnd : NoDup (map node_id (nodes plan))) by (by apply Hu, Hdis).
  assert (Hrec : reclaim_expired now d = d).
  { unfold reclaim_expired, set_tasks. destruct d as [md ts es cs]. simpl in *. f_equal. apply map_eq. intros i.
    rewrite lookup_update_where. destruct (ts !! i) as [ri|] eqn:Ei; [|done]. simpl. f_equal.
    by destruct (Hst i ri Ei) as [-> | ->]. }
  unfold claim_ready_tx. rewrite Hrec.
  set (P := fun n : WorkNode => exists r, tasks d !! node_id n = Some r /\ t_state r = PENDING).
  assert (HP : forall n, Decision (P n)).
  { intros n. unfold P. destruct (tasks d !! node_id n) as [rn|]; [|right; by intros (? & ? & _)].
    destruct (decide (t_state rn = PENDING)); [left; by exists rn|right; by intros (? & [= <-] & ?)]. }
  destruct (first_such P (nodes plan)) as (pre & n & post & E & (rn & Hrn & Hpn) & Hpre).
  { apply Exists_exists. assert (k ∈ dom (tasks d)) as Hkd by (by apply elem_of_dom).
    rewrite Hdom, elem_of_list_to_set in Hkd. apply list_elem_of_fmap in Hkd as (n & -> & Hin).
    exists n. split; [done|by exists r]. }
  assert (Hready : ready_task d [] (node_id n) rn = true).
  { unfold ready_task. rewrite Hpn, bool_decide_true by done. rewrite bool_decide_true; [done|].
    unfold blockers. apply elem_of_nil_inv. intros x (rx & Hx & Hb)%elem_of_select_ids.
    apply andb_true_iff in Hb as [He Hs]. apply bool_decide_eq_true in He, Hs.
    rewrite Hed, elem_of_list_to_set in He. apply plan_edges_spec in He as (n' & Hin & Hid & Hd).
    assert (n' = n) as ->. { apply (NoDup_map_inv node_id (nodes plan)); [done|done| |done]. rewrite E. set_solver. }
    pose proof (deps_within_split _ _ _ _ _ Hw E x Hd) as Hxp. rewrite app_nil_r in Hxp.
    apply list_elem_of_fmap in Hxp as (m & -> & Hm). destruct (Hst _ _ Hx) as [Hp|]; [|done].
    apply (Hpre m Hm). by exists rx. }
  destruct (head (select_ids (ready_task d []) (tasks d))) as [id|] eqn:Eh.
  2: { by rewrite (select_ids_nil _ _ _ _ Eh Hrn) in Hready. }
  destruct (select_ids_head _ _ _ Eh) as [(rid & Hrid & _) _]. eexists id, _. split; [reflexivity|]. split.
  - assert (id ∈ dom (tasks d)) as Hin by (by apply elem_of_dom). by rewrite Hdom, elem_of_list_to_set in Hin.
  - simpl. rewrite lookup_update_where, Hrid. simpl. unfold is_node. by rewrite bool_decide_true.
Qed.
End plan.
