(* ===== verification/WorkPlanExamples.v ===== *)
(** * WorkPlanExamples: the plan theorems on a small proposal

    Three modules, two of which own the same anchor, a contract with one quality
    dimension, and the plan made of them. *)

From stdpp Require Import prelude gmap sets fin_sets fin_map_dom strings list sorting.
From S2P Require Import Prelude Text Json JsonExamples StdJson PyJson Sha256 ReceiptTruth Tables Ledger.
From S2P Require Import LedgerExamples ScalePolicy Backend WorkPlan Topological ShardProps.
From S2P Require Import PlanNodes PlanProps PlanLedger.

Open Scope Z_scope.

Definition no_env : pystr -> option pystr := fun _ => None.

Lemma from_environment_bounds_witness :
  from_environment no_env = Ok default_policy /\ Forall (fun v => 1 <= v) (policy_fields default_policy).
Proof.
  split; [reflexivity|]. apply (from_environment_bounds no_env default_policy). reflexivity.
Defined.

Definition anchor (locator : string) : json :=
  JObj [(u "ownership", JStr (u "exclusive")); (u "locator", JStr (u locator))].

Definition ruby : ProductionModule := Module_ (u "ruby") (u "item") [(u "owned_anchors", JArr [anchor "registry"])] [] [].
Definition ruby_shop : ProductionModule :=
  Module_ (u "ruby_shop") (u "shop") [(u "owned_anchors", JArr [anchor "registry"])] [u "ruby_block"] [].
Definition ruby_block : ProductionModule := Module_ (u "ruby_block") (u "block") [] [u "ruby"] [].

Definition example_modules : list ProductionModule := [ruby_shop; ruby; ruby_block].

Lemma selected_modules_order_independent_witness :
  [ruby; ruby_block; ruby_shop] ≡ₚ example_modules /\
  selected_modules [ruby; ruby_block; ruby_shop] = selected_modules example_modules.
Proof.
  assert (Hp : [ruby; ruby_block; ruby_shop] ≡ₚ example_modules)
    by exact (Permutation_sym (Permutation_cons_append [ruby; ruby_block] ruby_shop)).
  split; [exact Hp|]. exact (selected_modules_order_independent _ _ Hp).
Defined.

Lemma validate_acyclic_iff_witness :
  _validate_acyclic example_modules = Ok tt /\ exists ordered, dependency_order example_modules ordered.
Proof.
  assert (Hnd : NoDup (map module_id example_modules)) by (apply (bool_decide_unpack _); vm_compute; exact I).
  assert (Hok : _validate_acyclic example_modules = Ok tt) by (vm_compute; reflexivity).
  split; [exact Hok|]. apply (proj1 (proj1 (validate_acyclic_iff example_modules Hnd)) Hok).
Defined.

Lemma module_shards_spec_witness :
  exists shards,
    _module_shards no_env default_policy None None ∅ [ruby; ruby_block; ruby_shop] = Ok shards /\
    concat (map snd shards) ≡ₚ example_modules.
Proof.
  assert (Hsel : selected_modules example_modules = Ok [ruby; ruby_block; ruby_shop]) by (vm_compute; reflexivity).
  pose proof (module_shards_spec no_env default_policy None None ∅ example_modules [ruby; ruby_block; ruby_shop] Hsel) as Hs.
  destruct (_module_shards no_env default_policy None None ∅ [ruby; ruby_block; ruby_shop]) as [shards|e] eqn:E.
  - exists shards. split; [reflexivity|]. apply Hs.
  - exfalso. assert (Hok : is_ok (_module_shards no_env default_policy None None ∅ [ruby; ruby_block; ruby_shop]) = true)
      by (vm_compute; reflexivity). rewrite E in Hok. discriminate.
Defined.

Definition example_kinds : list pystr :=
  concat (map (fun m : ProductionModule => elements (production_module_backend_capabilities (kind m))) example_modules).

Definition example_source : plan_source :=
  PlanSource (u "mmm/complete-proposal-v2") (u "sha256:p") []
    [(u "_production_contract", JObj
        [(u "quality_dimension_catalog", JArr [JObj [(u "dimension_id", JStr (u "game_feel")); (u "evidence_route_ref", JStr (u "r1"))]]);
         (u "contract_sha256", JStr (u "sha256:c"))])]
    [u "it builds"] true.

Definition example_build : res WorkGraphPlan :=
  build_production_work_plan no_env default_policy (fun s => Ok s) ∅ [] example_kinds example_source example_modules.

Definition example_ids : list pystr :=
  map u ["prepare-project"; "generate-content-00000000"; "generate-system-00000001"; "validate-source";
         "build-project"; "validate-source-final"; "validate-jar"; "runtime-playtest";
         "validate-quality-game-feel"; "package-build-artifact"; "package-release"]%string.

Lemma example_build_ids : ok_with (fun plan => bool_decide (map node_id (nodes plan) = example_ids)) example_build = true.
Proof. vm_compute. reflexivity. Qed.

Lemma example_quality_distinct : quality_ids_distinct example_source.
Proof.
  intros quality Hq.
  assert (Hc : ok_with (fun l => bool_decide (NoDup (map node_id l)))
    (quality_nodes (ps_schema_version example_source) (ps_game_design example_source)) = true) by (vm_compute; reflexivity).
  rewrite Hq in Hc. apply (bool_decide_unpack _). apply Is_true_true_2. exact Hc.
Qed.

Lemma build_plan_spec_witness :
  exists plan, example_build = Ok plan /\ NoDup (map node_id (nodes plan)).
Proof.
  destruct (ok_with_true _ _ example_build_ids) as (plan & Hp & _). exists plan. split; [exact Hp|].
  destruct (build_plan_spec _ _ _ _ _ _ _ _ _ Hp) as (_ & Hu & _). exact (Hu example_quality_distinct).
Defined.

Lemma plan_accepted_witness :
  exists plan view d', example_build = Ok plan /\
    sync_plan 0 plan (Ledger (u "sha256:p") []) empty_db = (Ok (view, Ledger (u "sha256:p") (graph_hash plan)), d').
Proof.
  destruct (ok_with_true _ _ example_build_ids) as (plan & Hp & _). exists plan.
  destruct (plan_accepted _ _ _ _ _ _ _ _ _ 0 (Ledger (u "sha256:p") []) empty_db Hp example_quality_distinct eq_refl)
    as (view & d' & Hs & _). exists view, d'. split; [exact Hp|exact Hs].
Defined.

(** The database just after [sync_plan] on an empty one, as a set of pending rows. *)
Definition pending_db (plan : WorkGraphPlan) : db :=
  Db ∅ (list_to_map (map (fun n => (node_id n, new_row (stage n) (input_hash n) [] 0)) (nodes plan)))
    (list_to_set (plan_edges plan)) ∅.

Lemma plan_never_stuck_witness :
  exists plan id d', example_build = Ok plan /\
    claim_ready_tx 1 (u "w") [] 900 (pending_db plan) = (Ok (Some id), d').
Proof.
  destruct (ok_with_true _ _ example_build_ids) as (plan & Hp & Hids). exists plan.
  assert (Hrow : forall k r, tasks (pending_db plan) !! k = Some r -> t_state r = PENDING).
  { intros k r Hr. apply elem_of_list_to_map_2 in Hr. apply list_elem_of_fmap in Hr as (n & E & _).
    injection E as _ ->. reflexivity. }
  assert (Hdom : dom (tasks (pending_db plan)) = list_to_set (map node_id (nodes plan))).
  { simpl. rewrite dom_list_to_map_L, <- list_fmap_compose. reflexivity. }
  destruct (plan_never_stuck _ _ _ _ _ _ _ _ _ (pending_db plan) 1 (u "w") 900 Hp example_quality_distinct Hdom eq_refl)
    as (id & d' & Hc & _).
  - intros k r Hr. left. exact (Hrow k r Hr).
  - assert (Hin : u "prepare-project" ∈ dom (tasks (pending_db plan))).
    { rewrite Hdom. apply elem_of_list_to_set. apply Is_true_true_2, bool_decide_unpack in Hids. rewrite Hids. left. }
    apply elem_of_dom in Hin as [r Hr]. exists (u "prepare-project"), r. split; [exact Hr|exact (Hrow _ r Hr)].
  - exists id, d'. split; [exact Hp|exact Hc].
Defined.

(** The batch key is not looked at when a module joins the group of one it depends
    on: modules of two shared writers end up in one shard. *)
Definition daily_quest : ProductionModule := Module_ (u "daily_quest") (u "quest") [] [] [].
Definition reward_shop : ProductionModule := Module_ (u "reward_shop") (u "shop") [] [u "daily_quest"] [].

Lemma shared_writers_mixed :
  _module_shards no_env default_policy None None ∅ [daily_quest; reward_shop] =
    Ok [(u "system", [daily_quest; reward_shop])] /\
  _module_batch_key daily_quest (u "system") <> _module_batch_key reward_shop (u "system").
Proof. split; [vm_compute; reflexivity|]. vm_compute. discriminate. Qed.
