(* ===== verification/RWLock.v ===== *)
(** * RWLock: [ReentrantReadWriteLock] of [model_concurrency.py]

    The lock's fields, its methods as functions on them, and the threads that wait
    on its condition.  A method runs under the condition's own lock up to its end or
    to a [wait]; a waiting thread sleeps until [notify_all], or, when its work unit
    has a deadline ([bounded]), until a short timeout; it then looks at its loop
    condition again, or gives up with an exception. *)

From stdpp Require Import prelude gmap fin_maps strings list.
From S2P Require Import Prelude.

Open Scope Z_scope.
Open Scope py_scope.

(** Thread identifiers are integers. *)
Record rwlock : Type := RW {
  writer_thread : option Z; writer_depth : Z; readers : gmap Z Z; suspended_reads : gmap Z Z;
  waiting_writers : Z
}.

Definition free_lock : rwlock := RW None 0 ∅ ∅ 0.

(** [d.get(t, 0)], and [d[t] = d.get(t, 0) + n] when [n] is not zero. *)
Definition depth_of (d : gmap Z Z) (t : Z) : Z := default 0 (d !! t).
Definition add_depth (d : gmap Z Z) (t n : Z) : gmap Z Z := if n =? 0 then d else <[t := depth_of d t + n]> d.

(** ** Methods

    The boolean says whether the condition is notified. *)

(** The loop test of [acquire] and, when it is left, the rest of the method. *)
Definition acquire_check (owner suspended : Z) (l : rwlock) : option rwlock :=
  if decide (writer_thread l = None /\ readers l = ∅)
  then Some (RW (Some owner) 1 (readers l) (add_depth (suspended_reads l) owner suspended) (waiting_writers l - 1))
  else None.

(** [acquire] up to its return or its first [wait]; a caller that waits remembers
    the reads it suspended. *)
Definition acquire (owner : Z) (l : rwlock) : option Z * rwlock * bool :=
  if decide (writer_thread l = Some owner)
  then (None, RW (writer_thread l) (writer_depth l + 1) (readers l) (suspended_reads l) (waiting_writers l), false)
  else
    let suspended := depth_of (readers l) owner in
    let l := RW (writer_thread l) (writer_depth l) (delete owner (readers l)) (suspended_reads l)
               (waiting_writers l + 1) in
    match acquire_check owner suspended l with
    | Some l => (None, l, negb (suspended =? 0))
    | None => (Some suspended, l, negb (suspended =? 0))
    end.

(** [except BaseException] and [finally] of [acquire]. *)
Definition acquire_abort (owner suspended : Z) (l : rwlock) : rwlock * bool :=
  (RW (writer_thread l) (writer_depth l) (add_depth (readers l) owner suspended) (suspended_reads l)
     (waiting_writers l - 1), negb (suspended =? 0)).

Definition release (owner : Z) (l : rwlock) : res (rwlock * bool) :=
  if decide (writer_thread l <> Some owner \/ writer_depth l <= 0)
  then Err (RuntimeError "cannot release unowned GPU write lock")
  else if decide (writer_depth l - 1 = 0) then
    Ok (RW None 0 (add_depth (readers l) owner (depth_of (suspended_reads l) owner))
          (delete owner (suspended_reads l)) (waiting_writers l), true)
  else Ok (RW (writer_thread l) (writer_depth l - 1) (readers l) (suspended_reads l) (waiting_writers l), false).

Definition read_check (owner : Z) (l : rwlock) : option rwlock :=
  if decide (writer_thread l <> None \/ 0 < waiting_writers l) then None
  else Some (RW (writer_thread l) (writer_depth l) (<[owner := depth_of (readers l) owner + 1]> (readers l))
               (suspended_reads l) (waiting_writers l)).

Definition acquire_read (owner : Z) (l : rwlock) : option rwlock :=
  if decide (writer_thread l = Some owner)
  then Some (RW (writer_thread l) (writer_depth l) (<[owner := depth_of (readers l) owner + 1]> (readers l))
               (suspended_reads l) (waiting_writers l))
  else read_check owner l.

Definition release_read (owner : Z) (l : rwlock) : res (rwlock * bool) :=
  let count := depth_of (readers l) owner in
  if count <=? 0 then Err (RuntimeError "cannot release unowned GPU read lock")
  else
    let rs := if count =? 1 then delete owner (readers l) else <[owner := count - 1]> (readers l) in
    Ok (RW (writer_thread l) (writer_depth l) rs (suspended_reads l) (waiting_writers l), bool_decide (rs = ∅)).

(** ** Threads *)

Inductive call : Type := WaitWrite (suspended : Z) | WaitRead.

Record waiter : Type := Waiter { w_call : call; w_bounded : bool; w_asleep : bool }.

Record system : Type := System { lock : rwlock; waiters : gmap Z waiter }.

Definition signal (notified : bool) (ws : gmap Z waiter) : gmap Z waiter :=
  if notified then (fun w => Waiter (w_call w) (w_bounded w) false) <$> ws else ws.

Inductive event : Type :=
  | Acquire (t : Z) (bounded : bool) | AcquireRead (t : Z) (bounded : bool)
  | Release (t : Z) | ReleaseRead (t : Z) | Wake (t : Z) | Abort (t : Z).

Definition free_to_call (s : system) (t : Z) : Prop := waiters s !! t = None.

(** A call that raises leaves the lock as it is; [None]: the event cannot happen. *)
Definition step (s : system) (e : event) : option system :=
  let l := lock s in
  let ws := waiters s in
  match e with
  | Acquire t bounded =>
      if decide (ws !! t <> None) then None
      else
        let '(wait, l, notified) := acquire t l in
        let ws := signal notified ws in
        Some (System l (match wait with
                        | None => ws
                        | Some suspended => <[t := Waiter (WaitWrite suspended) bounded true]> ws
                        end))
  | AcquireRead t bounded =>
      if decide (ws !! t <> None) then None
      else match acquire_read t l with
           | Some l => Some (System l ws)
           | None => Some (System l (<[t := Waiter WaitRead bounded true]> ws))
           end
  | Release t =>
      if decide (ws !! t <> None) then None
      else match release t l with
           | Ok (l, notified) => Some (System l (signal notified ws))
           | Err _ => Some s
           end
  | ReleaseRead t =>
      if decide (ws !! t <> None) then None
      else match release_read t l with
           | Ok (l, notified) => Some (System l (signal notified ws))
           | Err _ => Some s
           end
  | Wake t =>
      match ws !! t with
      | Some w =>
          if w_asleep w && negb (w_bounded w) then None
          else match (match w_call w with WaitWrite n => acquire_check t n l | WaitRead => read_check t l end) with
               | Some l => Some (System l (delete t ws))
               | None => Some (System l (<[t := Waiter (w_call w) (w_bounded w) true]> ws))
               end
      | None => None
      end
  | Abort t =>
      match ws !! t with
      | Some w =>
          if negb (w_bounded w) then None
          else match w_call w with
               | WaitWrite n =>
                   let '(l, notified) := acquire_abort t n l in
                   Some (System l (signal notified (delete t ws)))
               | WaitRead => Some (System l (delete t ws))
               end
      | None => None
      end
  end.

Fixpoint run (s : system) (es : list event) : option system :=
  match es with
  | [] => Some s
  | e :: es => s ← step s e; run s es
  end.

Definition initial : system := System free_lock ∅.

(** The states that events allowed by [ok] lead to. *)
Inductive reachable (ok : system -> event -> Prop) : system -> Prop :=
  | reachable_initial : reachable ok initial
  | reachable_step s e s' : reachable ok s -> ok s e -> step s e = Some s' -> reachable ok s'.
