(* ===== verification/RWLockProps.v ===== *)
(** * RWLockProps: exclusion, progress and bookkeeping of [ReentrantReadWriteLock]

    The lock excludes writers from everyone else and never strands a waiter, as long
    as no call is abandoned at a bad moment; an abandoned [acquire] can break both. *)

From stdpp Require Import prelude gmap fin_maps strings list.
From S2P Require Import Prelude RWLock.

Open Scope Z_scope.

(** ** Counters of a dictionary *)

Lemma depth_add_same d t n : depth_of (add_depth d t n) t = depth_of d t + n.
Proof.
  unfold add_depth. destruct (n =? 0) eqn:E; [apply Z.eqb_eq in E; lia|].
  unfold depth_of at 1. by rewrite lookup_insert_eq.
Qed.

Lemma depth_add_other d t n k : k <> t -> depth_of (add_depth d t n) k = depth_of d k.
Proof. intros Hk. unfold add_depth. case_match; [done|]. unfold depth_of. by rewrite lookup_insert_ne. Qed.

Definition positive_depths (d : gmap Z Z) : Prop := forall t n, d !! t = Some n -> 1 <= n.

Lemma positive_depth d t : positive_depths d -> 0 <= depth_of d t /\ (depth_of d t = 0 <-> d !! t = None).
Proof.
  intros Hp. unfold depth_of. destruct (d !! t) as [n|] eqn:E; simpl; [|by split; [lia|]]. apply Hp in E.
  split; [lia|]. split; [lia|done].
Qed.

Lemma positive_insert d t n : positive_depths d -> 1 <= n -> positive_depths (<[t := n]> d).
Proof.
  intros Hp Hn k m. destruct (decide (k = t)) as [->|Hk].
  - rewrite lookup_insert_eq. by intros [= <-].
  - rewrite lookup_insert_ne by done. apply Hp.
Qed.

Lemma positive_delete d t : positive_depths d -> positive_depths (delete t d).
Proof. intros Hp k m [_ Hk]%lookup_delete_Some. by eapply Hp. Qed.

Lemma positive_add d t n : positive_depths d -> 0 <= n -> positive_depths (add_depth d t n).
Proof.
  intros Hp Hn. unfold add_depth. destruct (n =? 0) eqn:E; [done|]. apply Z.eqb_neq in E.
  apply positive_insert; [done|]. destruct (positive_depth d t Hp). lia.
Qed.

(** ** The invariant *)

Definition is_write (w : waiter) : bool := match w_call w with WaitWrite _ => true | WaitRead => false end.
Definition write_waiters (ws : gmap Z waiter) : nat := size (filter (fun kw => is_write kw.2 = true) ws).

Definition lock_ok (l : rwlock) : Prop :=
  match writer_thread l with None => writer_depth l = 0 | Some _ => 1 <= writer_depth l end /\
  positive_depths (readers l) /\ positive_depths (suspended_reads l) /\
  (forall t, is_Some (suspended_reads l !! t) -> writer_thread l = Some t).

(** A waiter is not the writer; one that waits to write shows no reads. *)
Definition waiter_ok (l : rwlock) (t : Z) (w : waiter) : Prop :=
  writer_thread l <> Some t /\
  match w_call w with WaitWrite n => 0 <= n /\ readers l !! t = None | WaitRead => True end.

Definition inv (s : system) : Prop :=
  lock_ok (lock s) /\ (forall t w, waiters s !! t = Some w -> waiter_ok (lock s) t w) /\
  waiting_writers (lock s) = Z.of_nat (write_waiters (waiters s)).

Lemma write_waiters_signal b ws : write_waiters (signal b ws) = write_waiters ws.
Proof.
  unfold write_waiters, signal. destruct b; [|done]. rewrite map_filter_fmap, map_size_fmap. done.
Qed.

Lemma write_waiters_insert ws t w :
  ws !! t = None -> write_waiters (<[t := w]> ws) = ((if is_write w then 1 else 0) + write_waiters ws)%nat.
Proof.
  intros Ht. unfold write_waiters. destruct (is_write w) eqn:E.
  - rewrite map_filter_insert_True by done. rewrite map_size_insert_None; [done|].
    apply map_lookup_filter_None. by left.
  - rewrite map_filter_insert_False by (simpl; by rewrite E). by rewrite delete_id.
Qed.

Lemma write_waiters_delete ws t w :
  ws !! t = Some w -> write_waiters ws = ((if is_write w then 1 else 0) + write_waiters (delete t ws))%nat.
Proof.
  intros Ht. rewrite <- (insert_delete_id ws t w Ht) at 1. apply write_waiters_insert, lookup_delete_eq.
Qed.

Lemma write_waiters_again ws t w b a :
  ws !! t = Some w -> write_waiters (<[t := Waiter (w_call w) b a]> ws) = write_waiters ws.
Proof.
  intros Ht. rewrite <- insert_delete_eq, write_waiters_insert by apply lookup_delete_eq.
  by rewrite (write_waiters_delete ws t w Ht).
Qed.

Lemma signal_lookup b ws t w :
  signal b ws !! t = Some w -> exists w', ws !! t = Some w' /\ w_call w' = w_call w /\ w_bounded w' = w_bounded w /\
    (w_asleep w = true -> b = false /\ w_asleep w' = true).
Proof.
  unfold signal. destruct b; [|intros Hw; by exists w].
  rewrite lookup_fmap. destruct (ws !! t) as [w'|] eqn:E; simpl; [|done]. intros [= <-]. by exists w'.
Qed.

(** ** Each method keeps the invariant *)

Lemma lock_ok_intro w d rs ss n :
  match w with None => d = 0 | Some _ => 1 <= d end -> positive_depths rs -> positive_depths ss ->
  (forall t, is_Some (ss !! t) -> w = Some t) -> lock_ok (RW w d rs ss n).
Proof. by intros. Qed.

(** Nothing that concerns another thread than [t] got in its way. *)
Definition keeps (t : Z) (l l' : rwlock) : Prop :=
  (forall k, writer_thread l' = Some k -> writer_thread l = Some k \/ k = t) /\
  (forall k, k <> t -> readers l !! k = None -> readers l' !! k = None).

Lemma keeps_waiter_ok t l l' k w : keeps t l l' -> k <> t -> waiter_ok l k w -> waiter_ok l' k w.
Proof.
  intros [Hw Hr] Hk [Hwr Hc]. split; [intros [?|?]%Hw; contradiction|].
  destruct (w_call w); [|done]. destruct Hc. split; [done|]. by apply Hr.
Qed.

Lemma no_suspended l t : lock_ok l -> writer_thread l = None -> suspended_reads l !! t = None.
Proof.
  intros (_ & _ & _ & Hs) Hw. destruct (suspended_reads l !! t) eqn:E; [|done].
  rewrite (Hs t) in Hw; [done|by eexists].
Qed.

Lemma acquire_check_ok t n l l' :
  lock_ok l -> 0 <= n -> acquire_check t n l = Some l' ->
  lock_ok l' /\ keeps t l l' /\ waiting_writers l' = waiting_writers l - 1 /\ writer_thread l' = Some t.
Proof.
  intros Hl Hn. unfold acquire_check. destruct (decide _) as [[Hw Hr]|]; [|done]. intros [= <-].
  pose proof Hl as (_ & Hp & Hps & _). split_and!; try done; simpl.
  - apply lock_ok_intro; [lia|done|by apply positive_add|]. intros k. unfold add_depth. destruct (n =? 0).
    + by rewrite no_suspended by done; intros [? ?].
    + destruct (decide (k = t)) as [->|Hk]; [done|]. rewrite lookup_insert_ne, no_suspended by done. by intros [? ?].
  - split; simpl; [|done]. intros k [= ->]. by right.
Qed.

Lemma acquire_ok t l wait l' b :
  lock_ok l -> acquire t l = (wait, l', b) ->
  lock_ok l' /\ keeps t l l' /\
  match wait with
  | None => waiting_writers l' = waiting_writers l
  | Some n => waiting_writers l' = waiting_writers l + 1 /\ 0 <= n /\ writer_thread l' <> Some t /\
              readers l' !! t = None
  end.
Proof.
  intros Hl. pose proof Hl as (Hd & Hp & Hps & Hs). unfold acquire. destruct (decide _) as [Hw|Hw].
  { rewrite Hw in *. intros [= <- <- <-]. split_and!; try done; simpl in *.
    - apply lock_ok_intro; try done. lia.
    - split; [|done]. intros k [= <-]. by left. }
  set (n := depth_of (readers l) t). set (l1 := RW _ _ _ _ _).
  assert (Hn : 0 <= n) by (apply positive_depth, Hp).
  assert (Hl1 : lock_ok l1) by (split_and!; try done; by apply positive_delete).
  assert (Hk1 : keeps t l l1) by (split; [by left|]; intros k Hk; simpl; by rewrite lookup_delete_ne).
  destruct (acquire_check t n l1) as [l2|] eqn:E; intros [= <- <- <-].
  - destruct (acquire_check_ok t n l1 l2 Hl1 Hn E) as (Hl2 & [Hkw Hkr] & Hww & _). split_and!; [done| |simpl in Hww; lia].
    split; [intros k Hk; by apply Hkw in Hk as [Hk| ->]; [apply Hk1 in Hk|right]|].
    intros k Hk Hr. by apply Hkr, Hk1.
  - split_and!; try done. apply lookup_delete_eq.
Qed.

Lemma acquire_abort_ok t n l l' b :
  lock_ok l -> 0 <= n -> acquire_abort t n l = (l', b) ->
  lock_ok l' /\ keeps t l l' /\ waiting_writers l' = waiting_writers l - 1.
Proof.
  intros (Hd & Hp & Hps & Hs) Hn [= <- <-].
  split_and!; [by apply lock_ok_intro; [|apply positive_add|..]| |done].
  split; [by left|]. intros k Hk Hr. simpl. unfold add_depth. destruct (_ =? 0); [done|].
  by rewrite lookup_insert_ne.
Qed.

Lemma release_ok t l l' b :
  lock_ok l -> release t l = Ok (l', b) ->
  lock_ok l' /\ keeps t l l' /\ waiting_writers l' = waiting_writers l.
Proof.
  intros (Hd & Hp & Hps & Hs). unfold release. destruct (decide _) as [|Hno]; [done|].
  assert (writer_thread l = Some t /\ 1 <= writer_depth l) as [Hw Hdp].
  { destruct (decide (writer_thread l = Some t)) as [Hw|]; [|by destruct Hno; left]. split; [done|].
    rewrite Hw in Hd. done. }
  destruct (decide _) as [H0|H0]; intros [= <- <-]; split_and!; try done; simpl.
  - apply lock_ok_intro; [done| |by apply positive_delete|].
    { apply positive_add; [done|]. apply positive_depth, Hps. }
    intros k [n Hk]. apply lookup_delete_Some in Hk as [Hne Hk]. rewrite Hw in Hs.
    specialize (Hs k (mk_is_Some _ _ Hk)). congruence.
  - split; [done|]. intros k Hk Hr. simpl. unfold add_depth. destruct (_ =? 0); [done|].
  by rewrite lookup_insert_ne.
  - apply lock_ok_intro; try done. rewrite Hw. lia.
  - by split; [left|].
Qed.

Lemma read_granted t l :
  lock_ok l ->
  let l' := RW (writer_thread l) (writer_depth l) (<[t := depth_of (readers l) t + 1]> (readers l))
              (suspended_reads l) (waiting_writers l) in
  lock_ok l' /\ keeps t l l' /\ waiting_writers l' = waiting_writers l.
Proof.
  intros (Hd & Hp & Hps & Hs). split_and!; [apply lock_ok_intro; [done| |done|done]| |done].
  - apply positive_insert; [done|]. destruct (positive_depth _ t Hp). lia.
  - split; [by left|]. intros k Hk. simpl. by rewrite lookup_insert_ne.
Qed.

Lemma read_check_ok t l l' :
  lock_ok l -> read_check t l = Some l' -> lock_ok l' /\ keeps t l l' /\ waiting_writers l' = waiting_writers l.
Proof. intros Hl. unfold read_check. destruct (decide _); [done|]. intros [= <-]. by apply read_granted. Qed.

Lemma acquire_read_ok t l l' :
  lock_ok l -> acquire_read t l = Some l' -> lock_ok l' /\ keeps t l l' /\ waiting_writers l' = waiting_writers l.
Proof.
  intros Hl. unfold acquire_read. destruct (decide _); [|by apply read_check_ok]. intros [= <-]. by apply read_granted.
Qed.

Lemma release_read_ok t l l' b :
  lock_ok l -> release_read t l = Ok (l', b) ->
  lock_ok l' /\ keeps t l l' /\ waiting_writers l' = waiting_writers l.
Proof.
  intros (Hd & Hp & Hps & Hs). unfold release_read. destruct (depth_of (readers l) t <=? 0) eqn:E0; [done|].
  apply Z.leb_gt in E0. intros [= <- _].
  split_and!; [apply lock_ok_intro; [done| |done|done]| |done].
  - destruct (_ =? 1) eqn:E1; [by apply positive_delete|]. apply Z.eqb_neq in E1. apply positive_insert; [done|lia].
  - split; [by left|]. intros k Hk Hr. simpl.
    destruct (_ =? 1); [by rewrite lookup_delete_ne|by rewrite lookup_insert_ne].
Qed.

(** ** The invariant of the system *)

Lemma inv_next s t l' ws' :
  inv s -> lock_ok l' -> keeps t (lock s) l' ->
  (forall k w, ws' !! k = Some w -> k <> t -> exists w0, waiters s !! k = Some w0 /\ w_call w0 = w_call w) ->
  (forall w, ws' !! t = Some w -> waiter_ok l' t w) ->
  waiting_writers l' = Z.of_nat (write_waiters ws') -> inv (System l' ws').
Proof.
  intros (_ & Hws & _) Hl Hk Hother Hown Hc. split_and!; [done| |done]. simpl. intros k w Hw.
  destruct (decide (k = t)) as [->|Hne]; [by apply Hown|].
  destruct (Hother k w Hw Hne) as (w0 & Hw0 & E). apply Hws in Hw0.
  apply (keeps_waiter_ok _ _ _ _ _ Hk Hne) in Hw0. unfold waiter_ok in *. by rewrite <- E.
Qed.

Lemma signal_none b ws t : ws !! t = None -> signal b ws !! t = None.
Proof. intros Ht. unfold signal. destruct b; [|done]. by rewrite lookup_fmap, Ht. Qed.

(** A call that returns, by a thread that was not waiting. *)
Lemma inv_return s t l' b :
  inv s -> waiters s !! t = None -> lock_ok l' -> keeps t (lock s) l' ->
  waiting_writers l' = waiting_writers (lock s) -> inv (System l' (signal b (waiters s))).
Proof.
  intros Hi Ht Hl Hk Hw. apply (inv_next s t); try done.
  - intros k w (w' & Hw' & E & _)%signal_lookup _. by exists w'.
  - intros w Hs. by rewrite signal_none in Hs.
  - rewrite write_waiters_signal, Hw. apply Hi.
Qed.

(** A call that starts to wait. *)
Lemma rw_inv_wait s t l' b w :
  inv s -> waiters s !! t = None -> lock_ok l' -> keeps t (lock s) l' -> waiter_ok l' t w ->
  waiting_writers l' = (if is_write w then 1 else 0) + waiting_writers (lock s) ->
  inv (System l' (<[t := w]> (signal b (waiters s)))).
Proof.
  intros Hi Ht Hl Hk Hok Hw. apply (inv_next s t); try done.
  - intros k w'. intros Hs Hne. rewrite lookup_insert_ne in Hs by done.
    apply signal_lookup in Hs as (w0 & ? & ? & _). by exists w0.
  - intros w'. rewrite lookup_insert_eq. by intros [= <-].
  - rewrite write_waiters_insert by (by apply signal_none). rewrite write_waiters_signal, Hw.
    destruct Hi as (_ & _ & ->). destruct (is_write w); lia.
Qed.

(** A waiter that leaves. *)
Lemma inv_leave s t l' b w :
  inv s -> waiters s !! t = Some w -> lock_ok l' -> keeps t (lock s) l' ->
  waiting_writers l' = waiting_writers (lock s) - (if is_write w then 1 else 0) ->
  inv (System l' (signal b (delete t (waiters s)))).
Proof.
  intros Hi Ht Hl Hk Hw. apply (inv_next s t); try done.
  - intros k w' (w0 & Hw0 & E & _)%signal_lookup _. apply lookup_delete_Some in Hw0 as [_ Hw0]. by exists w0.
  - intros w' (w0 & Hw0 & _)%signal_lookup. by rewrite lookup_delete_eq in Hw0.
  - rewrite write_waiters_signal, Hw. destruct Hi as (_ & _ & ->).
    rewrite (write_waiters_delete _ _ _ Ht). destruct (is_write w); lia.
Qed.

Lemma inv_sleep s t w b :
  inv s -> waiters s !! t = Some w -> inv (System (lock s) (<[t := Waiter (w_call w) (w_bounded w) b]> (waiters s))).
Proof.
  intros Hi Ht. pose proof Hi as (Hl & Hws & Hc). apply (inv_next s t); try done.
  - split; [by left|done].
  - intros k w' Hk Hne. rewrite lookup_insert_ne in Hk by done. by exists w'.
  - intros w'. rewrite lookup_insert_eq. intros [= <-]. by apply (Hws t w).
  - by rewrite write_waiters_again.
Qed.

Lemma rw_step_inv s e s' : inv s -> step s e = Some s' -> inv s'.
Proof.
  intros Hi. pose proof Hi as (Hl & Hws & Hc). unfold step. destruct e as [t bd|t bd|t|t|t|t].
  - destruct (decide (waiters s !! t <> None)) as [|Ht]; [done|]. apply dec_stable in Ht.
    destruct (acquire t (lock s)) as [[[n|] l'] b] eqn:E; intros [= <-];
      destruct (acquire_ok t _ _ _ _ Hl E) as (Hl' & Hk & Hr).
    + destruct Hr as (Hww & Hn & Hnw & Hnr). apply rw_inv_wait; try done. simpl. lia.
    + by apply (inv_return s t).
  - destruct (decide (waiters s !! t <> None)) as [|Ht]; [done|]. apply dec_stable in Ht.
    destruct (acquire_read t (lock s)) as [l'|] eqn:E; intros [= <-].
    + destruct (acquire_read_ok t _ _ Hl E) as (Hl' & Hk & Hww). by apply (inv_return s t l' false).
    + apply (rw_inv_wait s t (lock s) false (Waiter WaitRead bd true)); try done; [by split; [left|]|].
      split; [|done]. intros Hw. unfold acquire_read in E. by rewrite decide_True in E.
  - destruct (decide (waiters s !! t <> None)) as [|Ht]; [done|]. apply dec_stable in Ht.
    destruct (release t (lock s)) as [[l' b]|] eqn:E; intros [= <-]; [|done].
    destruct (release_ok t _ _ _ Hl E) as (Hl' & Hk & Hww). by apply (inv_return s t).
  - destruct (decide (waiters s !! t <> None)) as [|Ht]; [done|]. apply dec_stable in Ht.
    destruct (release_read t (lock s)) as [[l' b]|] eqn:E; intros [= <-]; [|done].
    destruct (release_read_ok t _ _ _ Hl E) as (Hl' & Hk & Hww). by apply (inv_return s t).
  - destruct (waiters s !! t) as [w|] eqn:Ht; [|done]. destruct (w_asleep w && _); [done|].
    destruct (match w_call w with WaitWrite n => acquire_check t n (lock s) | WaitRead => read_check t (lock s) end)
      as [l'|] eqn:E; intros [= <-]; [|by apply inv_sleep].
    pose proof (Hws t w Ht) as [Hnw Hcall]. destruct (w_call w) as [n|] eqn:Ew.
    + destruct Hcall as [Hn _]. destruct (acquire_check_ok t n _ _ Hl Hn E) as (Hl' & Hk & Hww & _).
      apply (inv_leave s t l' false w); try done. unfold is_write. by rewrite Ew.
    + destruct (read_check_ok t _ _ Hl E) as (Hl' & Hk & Hww).
      apply (inv_leave s t l' false w); try done. unfold is_write. rewrite Ew. lia.
  - destruct (waiters s !! t) as [w|] eqn:Ht; [|done]. destruct (negb _); [done|].
    pose proof (Hws t w Ht) as [Hnw Hcall]. destruct (w_call w) as [n|] eqn:Ew.
    + destruct Hcall as [Hn _]. destruct (acquire_abort t n (lock s)) as [l' b] eqn:E. intros [= <-].
      destruct (acquire_abort_ok t n _ _ _ Hl Hn E) as (Hl' & Hk & Hww).
      apply (inv_leave s t l' b w); try done. unfold is_write. by rewrite Ew.
    + intros [= <-]. apply (inv_leave s t (lock s) false w); try done; [by split; [left|]|].
      unfold is_write. rewrite Ew. lia.
Qed.

Lemma inv_initial : inv initial.
Proof.
  split_and!; [|by intros t w; cbn [waiters initial]; rewrite lookup_empty|done].
  apply lock_ok_intro; [done|by intros t n; rewrite lookup_empty..|].
  intros t [n Hn]. by rewrite lookup_empty in Hn.
Qed.

Lemma rw_reachable_inv ok s : reachable ok s -> inv s.
Proof. induction 1; [apply inv_initial|by eapply rw_step_inv]. Qed.

(** ** Exclusion *)

Definition exclusive (l : rwlock) : Prop :=
  forall w t, writer_thread l = Some w -> is_Some (readers l !! t) -> t = w.

(** [t] gave its reads up to write, and someone else writes. *)
Definition lost_upgrade (s : system) (t : Z) : Prop :=
  exists w n, waiters s !! t = Some w /\ w_call w = WaitWrite n /\ 0 < n /\ writer_thread (lock s) <> None.

Definition keeps_upgrades (s : system) (e : event) : Prop :=
  match e with Abort t => ~ lost_upgrade s t | _ => True end.

Lemma exclusive_free l : writer_thread l = None -> exclusive l.
Proof. intros Hw w t Hw'. congruence. Qed.

Lemma exclusive_alone l : readers l = ∅ -> exclusive l.
Proof. intros Hr w t _ [n Hn]. by rewrite Hr, lookup_empty in Hn. Qed.

Lemma exclusive_subset l l' :
  exclusive l -> writer_thread l' = writer_thread l ->
  (forall k, is_Some (readers l' !! k) -> is_Some (readers l !! k)) -> exclusive l'.
Proof. intros He Hw Hr w t Hw' Ht. apply (He w t); [congruence|by apply Hr]. Qed.

Lemma acquire_check_alone t n l l' : acquire_check t n l = Some l' -> exclusive l'.
Proof. unfold acquire_check. destruct (decide _) as [[_ Hr]|]; [|done]. intros [= <-]. by apply exclusive_alone. Qed.

Lemma read_check_free t l l' : read_check t l = Some l' -> exclusive l'.
Proof.
  unfold read_check. destruct (decide _) as [|Hn]; [done|]. intros [= <-]. apply exclusive_free. simpl.
  destruct (writer_thread l); [destruct Hn; by left|done].
Qed.

Lemma step_exclusive s e s' :
  inv s -> keeps_upgrades s e -> exclusive (lock s) -> step s e = Some s' -> exclusive (lock s').
Proof.
  intros Hi Hup He. unfold step. destruct e as [t bd|t bd|t|t|t|t].
  - destruct (decide _) as [|_]; [done|]. destruct (acquire t (lock s)) as [[wait l'] b] eqn:E. intros [= <-]. simpl.
    unfold acquire in E. destruct (decide _) as [Hw|Hw]; [injection E as _ <- _; done|].
    destruct (acquire_check _ _ _) as [l2|] eqn:E2; injection E as _ <- _; [by eapply acquire_check_alone|].
    eapply exclusive_subset; [exact He|done|]. intros k [n Hk]. simpl in Hk.
    apply lookup_delete_Some in Hk as [_ Hk]. by eexists.
  - destruct (decide _) as [|_]; [done|]. destruct (acquire_read t (lock s)) as [l'|] eqn:E; intros [= <-]; [|done].
    unfold acquire_read in E. destruct (decide _) as [Hw|Hw]; [|by eapply read_check_free].
    injection E as <-. intros w k. simpl. rewrite Hw. intros [= ->] Hk. destruct (decide (k = w)) as [|Hne]; [done|].
    rewrite lookup_insert_ne in Hk by done. by apply (He w k).
  - destruct (decide _) as [|_]; [done|]. destruct (release t (lock s)) as [[l' b]|] eqn:E; intros [= <-]; [|done]. simpl.
    unfold release in E. destruct (decide _); [done|]. destruct (decide _); injection E as <- _; [|done].
    by apply exclusive_free.
  - destruct (decide _) as [|_]; [done|]. destruct (release_read t (lock s)) as [[l' b]|] eqn:E; intros [= <-]; [|done].
    unfold release_read in E. destruct (_ <=? 0) eqn:E0; [done|]. injection E as <- _.
    eapply exclusive_subset; [exact He|done|]. intros k [n Hk]. simpl in Hk. apply Z.leb_gt in E0.
    destruct (_ =? 1); [apply lookup_delete_Some in Hk as [_ Hk]; by eexists|].
    destruct (decide (k = t)) as [->|Hne]; [|rewrite lookup_insert_ne in Hk by done; by eexists].
    unfold depth_of in E0. destruct (readers (lock s) !! t); [by eexists|simpl in E0; lia].
  - destruct (waiters s !! t) as [w|] eqn:Ht; [|done]. destruct (w_asleep w && _); [done|].
    destruct (w_call w) as [n|].
    + destruct (acquire_check t n _) eqn:E; intros [= <-]; [by eapply acquire_check_alone|done].
    + destruct (read_check t _) eqn:E; intros [= <-]; [by eapply read_check_free|done].
  - destruct (waiters s !! t) as [w|] eqn:Ht; [|done]. destruct (negb _); [done|].
    destruct (w_call w) as [n|] eqn:Ew; [|by intros [= <-]]. intros [= <-]. simpl.
    destruct (writer_thread (lock s)) as [o|] eqn:Eo; [|by apply exclusive_free].
    destruct (decide (0 < n)) as [Hn|Hn].
    { destruct Hup. exists w, n. split_and!; try done. by rewrite Eo. }
    eapply exclusive_subset; [exact He|by rewrite Eo|]. simpl. intros k. unfold add_depth.
    destruct (n =? 0) eqn:En; [done|]. apply Z.eqb_neq in En. destruct Hi as (_ & Hws & _).
    apply Hws in Ht as [_ Hc]. rewrite Ew in Hc. lia.
Qed.

(** C36: the lock excludes.  As long as no upgrade is abandoned while another thread writes,
    in every state that calls, wake-ups and abandoned calls lead to, the thread that
    writes holds the lock at least once, waits for nothing, and nobody else reads. *)
Theorem rw_exclusion s w t :
  reachable keeps_upgrades s -> writer_thread (lock s) = Some w ->
  1 <= writer_depth (lock s) /\ (is_Some (readers (lock s) !! t) -> t = w) /\ waiters s !! w = None.
Proof.
  intros Hr Hw. assert (exclusive (lock s)) as He.
  { clear Hw. induction Hr as [|s e s' Hr IH Hok Hs]; [by apply exclusive_free|].
    by apply (step_exclusive s e s' (rw_reachable_inv _ _ Hr)). }
  destruct (rw_reachable_inv _ _ Hr) as ((Hd & _) & Hws & _). rewrite Hw in Hd. split_and!; [done|by apply He|].
  destruct (waiters s !! w) as [wt|] eqn:E; [|done]. by destruct (Hws w wt E).
Qed.


(** ** Progress *)

(** What the loop of a waiting call waits for has not happened. *)
Definition blocked (l : rwlock) (c : call) : Prop :=
  match c with
  | WaitWrite _ => ~ (writer_thread l = None /\ readers l = ∅)
  | WaitRead => writer_thread l <> None \/ 0 < waiting_writers l
  end.

Definition alert (s : system) : Prop :=
  forall t w, waiters s !! t = Some w -> w_asleep w = true -> blocked (lock s) (w_call w).

Definition not_abandoned (s : system) (e : event) : Prop := match e with Abort _ => False | _ => True end.

Lemma blocked_writer l c : writer_thread l <> None -> blocked l c.
Proof. intros Hw. destruct c; simpl; tauto. Qed.

(** The threads that stay asleep are still blocked, and so is one that falls asleep. *)
Lemma alert_next s l' b ws' t w :
  alert s -> (forall c, b = false -> blocked (lock s) c -> blocked l' c) ->
  (ws' = signal b (waiters s) \/ ws' = delete t (waiters s) /\ b = false \/
   ws' = <[t := w]> (signal b (waiters s)) /\ blocked l' (w_call w)) ->
  alert (System l' ws').
Proof.
  intros Ha Hb Hws k w' Hk Hs. simpl in *.
  assert (Hold : signal b (waiters s) !! k = Some w' -> blocked l' (w_call w')).
  { intros (w0 & H0 & Ec & _ & Hz)%signal_lookup. destruct (Hz Hs) as [Hbf Hs0]. rewrite <- Ec.
    by apply Hb, (Ha k w0). }
  destruct Hws as [->|[[-> ->]|[-> Hbl]]]; [by apply Hold| |].
  - apply lookup_delete_Some in Hk as [_ Hk]. by apply Hold.
  - destruct (decide (k = t)) as [->|Hne].
    + rewrite lookup_insert_eq in Hk. by injection Hk as <-.
    + rewrite lookup_insert_ne in Hk by done. by apply Hold.
Qed.

Lemma acquire_check_blocked t n l : acquire_check t n l = None -> forall m, blocked l (WaitWrite m).
Proof. unfold acquire_check. by destruct (decide _). Qed.

Lemma acquire_check_writer t n l l' : acquire_check t n l = Some l' -> writer_thread l' <> None.
Proof. unfold acquire_check. destruct (decide _); [|done]. by intros [= <-]. Qed.

Lemma read_check_blocked t l : read_check t l = None -> blocked l WaitRead.
Proof. unfold read_check. by destruct (decide _). Qed.

(** One more reader only keeps others out. *)
Lemma blocked_more l t n rs ss d c :
  blocked l c -> blocked (RW (writer_thread l) d (<[t := n]> rs) ss (waiting_writers l)) c.
Proof.
  destruct c; simpl; [|done]. intros _ [_ Hr]. by apply insert_non_empty in Hr.
Qed.

Lemma read_check_more t l l' c : read_check t l = Some l' -> blocked l c -> blocked l' c.
Proof. unfold read_check. destruct (decide _); [done|]. intros [= <-]. apply blocked_more. Qed.

Lemma step_alert s e s' : inv s -> not_abandoned s e -> alert s -> step s e = Some s' -> alert s'.
Proof.
  intros Hi Hna Ha. pose proof Hi as (Hl & Hws & Hc). unfold step. destruct e as [t bd|t bd|t|t|t|t]; [..|done].
  - destruct (decide _) as [|_]; [done|]. unfold acquire. destruct (decide _) as [Hw|Hw].
    { intros [= <-]. apply (alert_next s _ false _ t (Waiter WaitRead true true)); [done| |by left].
      intros c _ _. apply blocked_writer. simpl. by rewrite Hw. }
    set (n := depth_of (readers (lock s)) t). set (l1 := RW _ _ _ _ _).
    destruct (acquire_check t n l1) as [l2|] eqn:E; intros [= <-].
    + eapply (alert_next s _ _ _ t (Waiter WaitRead true true)); [done| |by left].
      intros c _ _. by eapply blocked_writer, acquire_check_writer.
    + eapply alert_next; [done| |right; right; split; [reflexivity|by eapply acquire_check_blocked]].
      intros c Hz Hbl. apply negb_false_iff, Z.eqb_eq in Hz. destruct c as [m|]; simpl in *.
      * apply (positive_depth (readers (lock s)) t) in Hz; [|apply Hl]. by rewrite delete_id.
      * destruct Hbl; [by left|right]. lia.
  - destruct (decide _) as [|_]; [done|]. unfold acquire_read. destruct (decide _) as [Hw|Hw].
    { intros [= <-]. apply (alert_next s _ false _ t (Waiter WaitRead true true)); [done| |by left].
      intros c _. apply blocked_more. }
    destruct (read_check t (lock s)) as [l'|] eqn:E; intros [= <-].
    + apply (alert_next s _ false _ t (Waiter WaitRead true true)); [done| |by left].
      intros c _. by eapply read_check_more.
    + eapply (alert_next s _ false); [done|done|right; right; split; [reflexivity|by eapply read_check_blocked]].
  - destruct (decide _) as [|_]; [done|]. destruct (release t (lock s)) as [[l' b]|] eqn:E; intros [= <-]; [|done].
    eapply (alert_next s _ b _ t (Waiter WaitRead true true)); [done| |by left]. intros c -> Hbl.
    unfold release in E. destruct (decide _); [done|]. by destruct (decide _); injection E as <-.
  - destruct (decide _) as [|_]; [done|].
    destruct (release_read t (lock s)) as [[l' b]|] eqn:E; intros [= <-]; [|done].
    eapply (alert_next s _ b _ t (Waiter WaitRead true true)); [done| |by left]. intros c -> Hbl.
    unfold release_read in E. destruct (_ <=? 0); [done|]. injection E as <- Hne.
    apply bool_decide_eq_false in Hne. destruct c; simpl in *; tauto.
  - destruct (waiters s !! t) as [w|] eqn:Ht; [|done]. destruct (w_asleep w && _); [done|].
    destruct (w_call w) as [n|] eqn:Ew.
    + destruct (acquire_check t n _) as [l'|] eqn:E; intros [= <-].
      * eapply (alert_next s _ false _ t w); [done| |by right; left]. intros c _ _.
        by eapply blocked_writer, acquire_check_writer.
      * eapply (alert_next s _ false); [done|done|right; right; split; [reflexivity|by eapply acquire_check_blocked]].
    + destruct (read_check t _) as [l'|] eqn:E; intros [= <-].
      * eapply (alert_next s _ false _ t w); [done| |by right; left]. intros c _. by eapply read_check_more.
      * eapply (alert_next s _ false); [done|done|right; right; split; [reflexivity|by eapply read_check_blocked]].
Qed.

(** C37: no waiter is stranded.  When no call is abandoned and nobody holds the lock, some
    waiting thread is awake (or wakes by its timeout), and when it runs its call returns
    with the lock. *)
Theorem rw_progress s :
  reachable not_abandoned s -> writer_thread (lock s) = None -> readers (lock s) = ∅ -> waiters s <> ∅ ->
  exists t s', step s (Wake t) = Some s' /\ is_Some (waiters s !! t) /\ waiters s' = delete t (waiters s) /\
    (writer_thread (lock s') = Some t \/ readers (lock s') !! t = Some 1).
Proof.
  intros Hr Hw Hrd Hne. pose proof (rw_reachable_inv _ _ Hr) as (Hl & Hws & Hc).
  assert (alert s) as Ha.
  { clear Hw Hrd Hne Hl Hws Hc. induction Hr as [|s e s' Hr IH Hok Hs]; [by intros t w|].
    by apply (step_alert s e s' (rw_reachable_inv _ _ Hr)). }
  assert (Hgo : forall t w, waiters s !! t = Some w -> ~ blocked (lock s) (w_call w) ->
            w_asleep w && negb (w_bounded w) = false).
  { intros t w Ht Hb. destruct (w_asleep w) eqn:E; [|done]. destruct Hb. by apply (Ha t w). }
  destruct (map_choose _ Hne) as (t0 & w0 & Ht0).
  destruct (decide (map_Exists (fun _ w => is_write w = true) (waiters s))) as [(t & w & Ht & Hiw)|Hno].
  - exists t. unfold step. rewrite Ht. unfold is_write in Hiw. destruct (w_call w) as [n|] eqn:Ew; [|done].
    rewrite (Hgo t w Ht) by (rewrite Ew; simpl; tauto). unfold acquire_check. rewrite decide_True by done.
    eexists. split; [done|]. split_and!; [by eexists|done|by left].
  - exists t0. unfold step. rewrite Ht0.
    assert (w_call w0 = WaitRead) as Ew.
    { destruct (w_call w0) as [n|] eqn:Ew; [|done]. destruct Hno. exists t0, w0. split; [done|].
      unfold is_write. by rewrite Ew. }
    assert (waiting_writers (lock s) = 0) as Hz.
    { rewrite Hc. unfold write_waiters. replace (filter _ (waiters s)) with (∅ : gmap Z waiter); [done|].
      apply map_eq. intros t. rewrite lookup_empty. symmetry. apply map_lookup_filter_None. right.
      intros w Ht Hiw. apply Hno. by exists t, w. }
    rewrite Ew. assert (~ blocked (lock s) WaitRead) as Hnb by (simpl; rewrite Hz; intros [?|?]; [done|lia]).
    rewrite (Hgo t0 w0 Ht0) by (by rewrite Ew). unfold read_check. rewrite decide_False by done.
    eexists. split; [done|]. split_and!; [by eexists|done|right]. simpl. rewrite lookup_insert_eq. unfold depth_of.
    by rewrite Hrd, lookup_empty.
Qed.

(** ** Bookkeeping *)

(** The reads a thread has acquired and not released, shown or suspended. *)
Definition reads_of (s : system) (t : Z) : Z :=
  depth_of (readers (lock s)) t + depth_of (suspended_reads (lock s)) t +
  match waiters s !! t with Some (Waiter (WaitWrite n) _ _) => n | _ => 0 end.

(** What the event grants thread [t], or takes back. *)
Definition read_delta (s : system) (e : event) (t : Z) : Z :=
  match e with
  | AcquireRead k _ => if decide (k = t) then (if acquire_read t (lock s) then 1 else 0) else 0
  | Wake k => if decide (k = t) then
                match waiters s !! t with
                | Some (Waiter WaitRead _ _) => if read_check t (lock s) then 1 else 0
                | _ => 0
                end
              else 0
  | ReleaseRead k => if decide (k = t) then (if is_ok (release_read t (lock s)) then -1 else 0) else 0
  | _ => 0
  end.

Lemma waiting_signal b ws t :
  match signal b ws !! t with Some (Waiter (WaitWrite n) _ _) => n | _ => 0 end =
  match ws !! t with Some (Waiter (WaitWrite n) _ _) => n | _ => 0 end.
Proof. unfold signal. destruct b; [|done]. rewrite lookup_fmap. by destruct (ws !! t) as [[[n|] ? ?]|]. Qed.

Lemma depth_insert d t n k : depth_of (<[t := n]> d) k = if decide (k = t) then n else depth_of d k.
Proof.
  unfold depth_of. destruct (decide (k = t)) as [->|Hk]; [by rewrite lookup_insert_eq|by rewrite lookup_insert_ne].
Qed.

Lemma depth_delete d t k : depth_of (delete t d) k = if decide (k = t) then 0 else depth_of d k.
Proof.
  unfold depth_of. destruct (decide (k = t)) as [->|Hk]; [by rewrite lookup_delete_eq|by rewrite lookup_delete_ne].
Qed.

Lemma depth_add d t n k : depth_of (add_depth d t n) k = depth_of d k + (if decide (k = t) then n else 0).
Proof. destruct (decide (k = t)) as [->|Hk]; [apply depth_add_same|rewrite depth_add_other; [lia|done]]. Qed.

(** [e] changes the reads of a thread as [read_delta] says. *)
Definition reads_change (s : system) (e : event) : Prop :=
  forall s' t, step s e = Some s' -> reads_of s' t = reads_of s t + read_delta s e t.

Lemma reads_acquire s k bd : reads_change s (Acquire k bd).
Proof.
  intros s' t. unfold step, read_delta, reads_of.
  destruct (decide _) as [|Hk]; [done|]. apply dec_stable in Hk. unfold acquire. destruct (decide _) as [Hw|Hw].
  { intros [= <-]. cbn [lock waiters readers suspended_reads]. rewrite ?waiting_signal. lia. }
  destruct (acquire_check _ _ _) as [l2|] eqn:E; intros [= <-]; cbn [lock waiters readers suspended_reads].
  + unfold acquire_check in E. destruct (decide _); [|done]. injection E as <-.
    cbn [readers suspended_reads]. rewrite ?waiting_signal, depth_delete, depth_add.
    destruct (decide (t = k)) as [->|]; rewrite ?Hk; lia.
  + destruct (decide (t = k)) as [->|Hne].
    * rewrite lookup_insert_eq, depth_delete, decide_True, Hk by done. lia.
    * rewrite lookup_insert_ne, ?waiting_signal, depth_delete, decide_False by done. lia.
Qed.

Lemma reads_acquire_read s k bd : reads_change s (AcquireRead k bd).
Proof.
  intros s' t. unfold step, read_delta, reads_of.
  destruct (decide _) as [|Hk]; [done|]. apply dec_stable in Hk.
  assert (Hg : forall l', acquire_read k (lock s) = Some l' ->
    readers l' = <[k := depth_of (readers (lock s)) k + 1]> (readers (lock s)) /\
    suspended_reads l' = suspended_reads (lock s)).
  { intros l'. unfold acquire_read, read_check. destruct (decide _); [by intros [= <-]|]. by destruct (decide _); [|intros [= <-]]. }
  destruct (acquire_read k (lock s)) as [l'|] eqn:E; intros [= <-]; cbn [lock waiters].
  + destruct (Hg l' eq_refl) as [-> ->]. rewrite depth_insert.
    destruct (decide (k = t)) as [->|Hne]; [rewrite decide_True, E by done|rewrite decide_False by congruence]; lia.
  + destruct (decide (k = t)) as [->|Hne]; [|rewrite lookup_insert_ne by done; lia].
    rewrite lookup_insert_eq, Hk, E. lia.
Qed.

Lemma reads_release s k : reads_change s (Release k).
Proof.
  intros s' t. unfold step, read_delta, reads_of.
  destruct (decide _) as [|Hk]; [done|]. destruct (release k (lock s)) as [[l' b]|] eqn:E; intros [= <-]; [|lia].
  cbn [lock waiters]. rewrite ?waiting_signal. unfold release in E. destruct (decide _); [done|].
  destruct (decide _); injection E as <- <-; cbn [readers suspended_reads]; [|lia].
  rewrite depth_add, depth_delete. destruct (decide (t = k)) as [->|]; lia.
Qed.

Lemma reads_release_read s k : reads_change s (ReleaseRead k).
Proof.
  intros s' t. unfold step, read_delta, reads_of.
  destruct (decide _) as [|Hk]; [done|].
  destruct (release_read k (lock s)) as [[l' b]|] eqn:E; intros [= <-].
  + cbn [lock waiters]. rewrite ?waiting_signal. unfold release_read in E.
    destruct (decide (k = t)) as [->|Hne].
    * unfold release_read. destruct (_ <=? 0) eqn:E0; [done|]. injection E as <- <-. cbn [readers suspended_reads is_ok].
      destruct (_ =? 1) eqn:E1; rewrite ?depth_delete, ?depth_insert, decide_True by done; [apply Z.eqb_eq in E1|]; lia.
    * destruct (_ <=? 0); [done|]. injection E as <- <-. cbn [readers suspended_reads].
      destruct (_ =? 1); rewrite ?depth_delete, ?depth_insert, decide_False by congruence; lia.
  + destruct (decide (k = t)) as [->|]; [rewrite E; simpl|]; lia.
Qed.

Lemma reads_wake s k : reads_change s (Wake k).
Proof.
  intros s' t. unfold step, read_delta, reads_of.
  destruct (waiters s !! k) as [[c bd a]|] eqn:Hk; [|done]. cbn [w_asleep w_bounded w_call].
  destruct (a && _); [done|]. destruct c as [n|].
  + destruct (acquire_check k n (lock s)) as [l'|] eqn:E; intros [= <-]; cbn [lock waiters].
    * unfold acquire_check in E. destruct (decide _); [|done]. injection E as <-. cbn [readers suspended_reads].
      rewrite depth_add. destruct (decide (t = k)) as [->|Hne].
      -- rewrite lookup_delete_eq, Hk, decide_True by done. lia.
      -- rewrite lookup_delete_ne, decide_False by congruence. lia.
    * destruct (decide (k = t)) as [->|Hne]; [rewrite lookup_insert_eq, Hk|rewrite lookup_insert_ne by done]; lia.
  + destruct (read_check k (lock s)) as [l'|] eqn:E; intros [= <-]; cbn [lock waiters].
    * pose proof E as E'. unfold read_check in E'. destruct (decide _); [done|]. injection E' as <-.
      cbn [readers suspended_reads]. rewrite depth_insert. destruct (decide (k = t)) as [->|Hne].
      -- rewrite lookup_delete_eq, Hk, E, decide_True by done. lia.
      -- rewrite lookup_delete_ne, decide_False by congruence. lia.
    * destruct (decide (k = t)) as [->|Hne]; [rewrite lookup_insert_eq, Hk, E|rewrite lookup_insert_ne by done]; lia.
Qed.

Lemma reads_abort s k : reads_change s (Abort k).
Proof.
  intros s' t. unfold step, read_delta, reads_of.
  destruct (waiters s !! k) as [[c bd a]|] eqn:Hk; [|done]. cbn [w_bounded w_call]. destruct (negb bd); [done|].
  destruct c as [n|]; intros [= <-]; cbn [lock waiters readers suspended_reads].
  + rewrite ?waiting_signal, depth_add. destruct (decide (t = k)) as [->|Hne].
    * rewrite lookup_delete_eq, Hk. lia.
    * rewrite lookup_delete_ne by done. lia.
  + destruct (decide (t = k)) as [->|Hne]; [rewrite lookup_delete_eq, Hk|rewrite lookup_delete_ne by done]; lia.
Qed.

(** No read claim is lost or made up.  In every reachable state, whatever was abandoned,
    the reads of a thread, those it suspended to write included, change only by the read
    calls of that thread itself, by one each. *)
Theorem rw_reads_kept s e s' t :
  reachable (fun _ _ => True) s -> step s e = Some s' -> reads_of s' t = reads_of s t + read_delta s e t.
Proof.
  intros _. destruct e; revert s' t; [apply reads_acquire|apply reads_acquire_read|apply reads_release|apply reads_release_read|
    apply reads_wake|apply reads_abort].
Qed.

(** ** Abandoned calls *)

(** An abandoned [acquire] is unsafe.  A thread whose deadline passes while it waits for
    an upgrade takes its reads back though another thread writes; and one that gives up
    after the lock was freed does not pass the notification on, so that a reader without
    a deadline sleeps for ever on a free lock. *)
Theorem abandoned_acquire_unsafe :
  (exists es s, run initial es = Some s /\ writer_thread (lock s) = Some 2 /\ readers (lock s) !! 1 = Some 1) /\
  (exists es s, run initial es = Some s /\ lock s = free_lock /\
     waiters s = {[3 := Waiter WaitRead false true]} /\ step s (Wake 3) = None).
Proof.
  split.
  - exists [AcquireRead 1 true; AcquireRead 3 true; Acquire 1 true; Acquire 2 true; ReleaseRead 3; Wake 2; Abort 1].
    eexists. split; [vm_compute; reflexivity|]. split; reflexivity.
  - exists [Acquire 1 true; Acquire 2 true; AcquireRead 3 false; Release 1; Wake 3; Abort 2].
    eexists. split; [vm_compute; reflexivity|]. split_and!; reflexivity.
Qed.
