(* ===== verification/CapacityGate.v ===== *)
(** * CapacityGate: [ReentrantCapacityGate] of [model_concurrency.py]

    The owners of the slots with the depth of each, the threads that wait, and what
    [capacity()] answers each time it is asked, which may change while the gate is in
    use. *)

From stdpp Require Import prelude gmap fin_maps strings list.
From S2P Require Import Prelude RWLock.

Open Scope Z_scope.
Open Scope py_scope.

Module Gate.

(** ** Methods *)

(** The loop test of [acquire], and the rest of the method. *)
Definition check (owner capacity : Z) (owners : gmap Z Z) : option (gmap Z Z) :=
  if Z.max 1 capacity <=? Z.of_nat (size owners) then None else Some (<[owner := 1]> owners).

Definition acquire (owner capacity : Z) (owners : gmap Z Z) : option (gmap Z Z) :=
  let depth := depth_of owners owner in
  if depth =? 0 then check owner capacity owners else Some (<[owner := depth + 1]> owners).

(** [release], and whether the condition is notified. *)
Definition release (owner : Z) (owners : gmap Z Z) : res (gmap Z Z * bool) :=
  let depth := depth_of owners owner in
  if depth <=? 0 then Err (RuntimeError "cannot release unowned llama inference slot")
  else if depth =? 1 then Ok (delete owner owners, true)
  else Ok (<[owner := depth - 1]> owners, false).

(** ** Threads *)

(** A waiting thread: has it a deadline, and is it asleep? *)
Record gate : Type := G { owners : gmap Z Z; waiting : gmap Z (bool * bool) }.

Inductive event : Type :=
  | Acquire (t : Z) (bounded : bool) (capacity : Z) | Release (t : Z) | Wake (t capacity : Z) | Abort (t : Z).

Definition wake_all (ws : gmap Z (bool * bool)) : gmap Z (bool * bool) := (fun w => (w.1, false)) <$> ws.

Definition step (g : gate) (e : event) : option gate :=
  match e with
  | Acquire t bounded capacity =>
      if decide (waiting g !! t <> None) then None
      else match acquire t capacity (owners g) with
           | Some o => Some (G o (waiting g))
           | None => Some (G (owners g) (<[t := (bounded, true)]> (waiting g)))
           end
  | Release t =>
      if decide (waiting g !! t <> None) then None
      else match release t (owners g) with
           | Ok (o, notified) => Some (G o (if notified then wake_all (waiting g) else waiting g))
           | Err _ => Some g
           end
  | Wake t capacity =>
      match waiting g !! t with
      | Some (bounded, asleep) =>
          if asleep && negb bounded then None
          else match check t capacity (owners g) with
               | Some o => Some (G o (delete t (waiting g)))
               | None => Some (G (owners g) (<[t := (bounded, true)]> (waiting g)))
               end
      | None => None
      end
  | Abort t =>
      match waiting g !! t with
      | Some (true, _) => Some (G (owners g) (delete t (waiting g)))
      | _ => None
      end
  end.

(** The capacity an event was told lies between the bounds. *)
Definition told (low high : Z) (e : event) : Prop :=
  match e with Acquire _ _ c | Wake _ c => low <= c <= high | _ => True end.

Inductive reachable (low high : Z) : gate -> Prop :=
  | reachable_initial : reachable low high (G ∅ ∅)
  | reachable_step g e g' : reachable low high g -> told low high e -> step g e = Some g' -> reachable low high g'.

(** ** Properties *)

Definition inv (low high : Z) (g : gate) : Prop :=
  Z.of_nat (size (owners g)) <= Z.max 1 high /\
  (forall t n, owners g !! t = Some n -> 1 <= n) /\
  (forall t b, waiting g !! t = Some (b, true) -> Z.max 1 low <= Z.of_nat (size (owners g))) /\
  (forall t, is_Some (waiting g !! t) -> owners g !! t = None).

Lemma check_some t c o o' :
  check t c o = Some o' -> Z.of_nat (size o) < Z.max 1 c /\ o' = <[t := 1]> o.
Proof. unfold check. destruct (_ <=? _) eqn:E; [done|]. intros [= <-]. apply Z.leb_gt in E. done. Qed.

Lemma check_none t c o : check t c o = None -> Z.max 1 c <= Z.of_nat (size o).
Proof. unfold check. destruct (_ <=? _) eqn:E; [|done]. by apply Z.leb_le in E. Qed.

Lemma size_insert_le (o : gmap Z Z) t n : (size o <= size (<[t := n]> o) <= S (size o))%nat.
Proof. rewrite map_size_insert. destruct (o !! t); simpl; lia. Qed.

Lemma depth_zero o t : (forall k n, o !! k = Some n -> 1 <= n) -> depth_of o t = 0 -> o !! t = None.
Proof. intros Hp. unfold depth_of. destruct (o !! t) as [n|] eqn:E; [|done]. apply Hp in E. simpl. lia. Qed.

(** A thread enters, or goes one deeper. *)
Lemma inv_enter low high g t n ws :
  inv low high g -> 1 <= n -> waiting g !! t = None \/ ws = delete t (waiting g) ->
  (is_Some (owners g !! t) \/ Z.of_nat (size (owners g)) < Z.max 1 high) ->
  ws = waiting g \/ ws = delete t (waiting g) -> inv low high (G (<[t := n]> (owners g)) ws).
Proof.
  intros (Hs & Hp & Hw & Hn) H1 Ht Ho Hws. pose proof (size_insert_le (owners g) t n) as Hsz.
  assert (Hsub : forall k w, ws !! k = Some w -> waiting g !! k = Some w /\ k <> t).
  { intros k w Hk. destruct Hws as [->| ->].
    - destruct Ht as [Ht|Ht]; [split; congruence|]. rewrite Ht in Hk. apply lookup_delete_Some in Hk as [? ?]. done.
    - apply lookup_delete_Some in Hk as [? ?]. done. }
  split_and!; simpl.
  - destruct Ho as [[m Hm]|Ho]; [rewrite map_size_insert, Hm; done|lia].
  - intros k m. destruct (decide (k = t)) as [->|Hne]; [rewrite lookup_insert_eq; by intros [= <-]|].
    rewrite lookup_insert_ne by done. apply Hp.
  - intros k b Hk. apply Hsub in Hk as [Hk _]. apply Hw in Hk. lia.
  - intros k [w Hk]. apply Hsub in Hk as [Hk Hne]. rewrite lookup_insert_ne by done. apply Hn. by eexists.
Qed.

Lemma gate_inv_wait low high g t b c :
  inv low high g -> low <= c -> owners g !! t = None -> check t c (owners g) = None ->
  inv low high (G (owners g) (<[t := (b, true)]> (waiting g))).
Proof.
  intros (Hs & Hp & Hw & Hn) Hc Ht E. apply check_none in E. split_and!; simpl; try done.
  - intros k b'. destruct (decide (k = t)) as [->|Hne]; [intros _; lia|]. rewrite lookup_insert_ne by done. apply Hw.
  - intros k. destruct (decide (k = t)) as [->|Hne]; [done|]. rewrite lookup_insert_ne by done. apply Hn.
Qed.

Lemma gate_step_inv low high g e g' : inv low high g -> told low high e -> step g e = Some g' -> inv low high g'.
Proof.
  intros Hi Ht. pose proof Hi as (Hs & Hp & Hw & Hn). unfold step. destruct e as [t b c|t|t c|t].
  - destruct (decide _) as [|Hwt]; [done|]. apply dec_stable in Hwt. unfold acquire.
    destruct (depth_of (owners g) t =? 0) eqn:E0.
    + apply Z.eqb_eq in E0. destruct (check t c (owners g)) as [o|] eqn:E; intros [= <-].
      * apply check_some in E as [Hlt ->]. apply inv_enter; try done; [by left|right; simpl in Ht; lia|by left].
      * apply (gate_inv_wait low high g t b c); [done|simpl in Ht; lia|by apply depth_zero|done].
    + intros [= <-]. apply Z.eqb_neq in E0. unfold depth_of in *. destruct (owners g !! t) as [n|] eqn:En; [|done].
      simpl in *. pose proof (Hp t n En). apply inv_enter; [done|lia|by left|left; by rewrite En|by left].
  - destruct (decide _) as [|Hwt]; [done|]. apply dec_stable in Hwt. unfold release.
    destruct (depth_of (owners g) t <=? 0) eqn:E0; [by intros [= <-]|]. apply Z.leb_gt in E0.
    unfold depth_of in *. destruct (owners g !! t) as [n|] eqn:En; [|simpl in E0; lia]. simpl in *.
    destruct (n =? 1) eqn:E1; intros [= <-].
    + split_and!; simpl.
      * rewrite map_size_delete, En. simpl. lia.
      * intros k m [_ Hk]%lookup_delete_Some. by eapply Hp.
      * intros k b Hk. unfold wake_all in Hk. rewrite lookup_fmap in Hk. by destruct (waiting g !! k).
      * intros k Hk. unfold wake_all in Hk. rewrite lookup_fmap, fmap_is_Some in Hk. apply Hn in Hk.
        by apply lookup_delete_None; right.
    + apply Z.eqb_neq in E1. apply inv_enter; [done|lia|by left|left; by rewrite En|by left].
  - destruct (waiting g !! t) as [[b a]|] eqn:Ew; [|done]. destruct (a && negb b); [done|].
    assert (owners g !! t = None) as Hto by (apply Hn; by eexists).
    destruct (check t c (owners g)) as [o|] eqn:E; intros [= <-].
    + apply check_some in E as [Hlt ->]. apply inv_enter; try done; [by right|right; simpl in Ht; lia|by right].
    + apply (gate_inv_wait low high g t b c); try done. simpl in Ht; lia.
  - destruct (waiting g !! t) as [[[] a]|] eqn:Ew; [|done..]. intros [= <-]. split_and!; simpl; try done.
    + intros k b [_ Hk]%lookup_delete_Some. by eapply Hw.
    + intros k [w [_ Hk]%lookup_delete_Some]. apply Hn. by eexists.
Qed.

Lemma gate_reachable_inv low high g : reachable low high g -> inv low high g.
Proof.
  induction 1 as [|g e g' _ IH Ht Hs]; [|by eapply gate_step_inv].
  split_and!; simpl; [rewrite map_size_empty; lia|intros t n|intros t b|intros t [w Hw]]; by rewrite lookup_empty in *.
Qed.

(** C38: the gate bounds its owners and admits whoever it can.  While [capacity()] answers
    between two bounds, at most the greater (and at least one) of threads hold a slot; a
    thread that holds one enters again at once; and when fewer threads than the smaller
    bound hold one, every waiting thread is awake or wakes by itself and then gets one,
    whatever calls were abandoned. *)
Theorem gate_admits low high g :
  reachable low high g ->
  Z.of_nat (size (owners g)) <= Z.max 1 high /\
  (forall t n b c, owners g !! t = Some n ->
     1 <= n /\ step g (Acquire t b c) = Some (G (<[t := n + 1]> (owners g)) (waiting g))) /\
  (Z.of_nat (size (owners g)) < Z.max 1 low ->
   forall t c, is_Some (waiting g !! t) -> low <= c ->
     step g (Wake t c) = Some (G (<[t := 1]> (owners g)) (delete t (waiting g)))).
Proof.
  intros (Hs & Hp & Hw & Hn)%gate_reachable_inv. split_and!; [done| |].
  - intros t n b c Ht. pose proof (Hp t n Ht). split; [done|]. unfold step, acquire, depth_of. rewrite Ht. simpl.
    rewrite (proj2 (Z.eqb_neq n 0)) by lia. rewrite decide_False; [done|]. intros Hwt.
    assert (owners g !! t = None) as Hno; [|congruence]. apply Hn. by destruct (waiting g !! t).
  - intros Hlt t c [[b a] Ht] Hc. unfold step. rewrite Ht. destruct a.
    { apply Hw in Ht. lia. }
    simpl. unfold check. destruct (Z.max 1 c <=? _) eqn:E; [apply Z.leb_le in E; lia|done].
Qed.
End Gate.
