(* ===== verification/RLocks.v ===== *)
(** * RLocks: a dictionary of re-entrant locks

    [threading.RLock]s by key: who has each and how often, what a thread takes and
    gives back. *)

From stdpp Require Import prelude gmap fin_maps strings list.
From S2P Require Import Prelude Kahn.

Open Scope Z_scope.

(** A [threading.RLock]: its owner and how many times it was taken. *)
Abbreviation rlock := (option (Z * Z)).

Section rlocks.
Context {K : Type} `{Countable K}.

Definition add_locks (keys : list K) (locks : gmap K rlock) : gmap K rlock :=
  fold_left (fun l k => match l !! k with None => <[k := None]> l | Some _ => l end) keys locks.

(** [lock.acquire()]: [None] when another thread holds it. *)
Definition take_lock (owner : Z) (key : K) (locks : gmap K rlock) : option (gmap K rlock) :=
  match locks !! key with
  | Some None => Some (<[key := Some (owner, 1)]> locks)
  | Some (Some (o, n)) => if decide (o = owner) then Some (<[key := Some (owner, n + 1)]> locks) else None
  | None => None
  end.

Definition drop_lock (key : K) (locks : gmap K rlock) : gmap K rlock :=
  match locks !! key with
  | Some (Some (o, n)) => <[key := if n =? 1 then None else Some (o, n - 1)]> locks
  | _ => locks
  end.

(** How often [t] holds the lock of [k]. *)
Definition holds (l : gmap K rlock) (t : Z) (k : K) : Z :=
  match l !! k with Some (Some (o, n)) => if decide (o = t) then n else 0 | _ => 0 end.

Definition locks_ok (l : gmap K rlock) : Prop := forall k o n, l !! k = Some (Some (o, n)) -> 1 <= n.

(** ** Lemmas *)

Lemma count_nil (k : K) : count k [] = 0%nat.
Proof. done. Qed.

Lemma count_single (k k' : K) : count k [k'] = if decide (k = k') then 1%nat else 0%nat.
Proof.
  unfold count. rewrite filter_cons. destruct (decide (k = k')) as [->|Hne]; [by rewrite decide_True|].
  by rewrite decide_False.
Qed.

Lemma count_reverse (k : K) l : count k (reverse l) = count k l.
Proof.
  induction l as [|k' l IH]; [done|]. rewrite reverse_cons, count_app, IH, count_single, count_cons. repeat case_decide; congruence || lia.
Qed.

Lemma count_zero (k : K) l : count k l = 0%nat <-> k ∉ l.
Proof.
  induction l as [|k' l IH]; [split; [intros _; apply not_elem_of_nil|done]|].
  rewrite count_cons, not_elem_of_cons, <- IH. destruct (decide (k' = k)); [split; [lia|intros [? _]; congruence]|]. split; [split; [congruence|lia]|lia].
Qed.

Lemma add_locks_lookup keys l k :
  add_locks keys l !! k = match l !! k with Some x => Some x | None => if decide (k ∈ keys) then Some None else None end.
Proof.
  unfold add_locks. revert l; induction keys as [|k' keys IH]; intros l; cbn [fold_left].
  - rewrite decide_False by apply not_elem_of_nil. by destruct (l !! k).
  - rewrite IH. destruct (l !! k') as [x|] eqn:E.
    + destruct (l !! k) as [y|] eqn:Ek; [done|]. destruct (decide (k ∈ keys)) as [Hin|Hin].
      * rewrite decide_True; [done|by right].
      * rewrite decide_False; [done|]. intros [->|?]%elem_of_cons; [|contradiction]. by pose proof (eq_trans (eq_sym E) Ek).
    + destruct (decide (k = k')) as [->|Hne].
      * rewrite lookup_insert_eq, E, decide_True by left. done.
      * rewrite lookup_insert_ne by done. destruct (l !! k); [done|].
        destruct (decide (k ∈ keys)) as [Hin|Hin]; [rewrite decide_True by (by right); done|].
        rewrite decide_False; [done|]. by intros [->|?]%elem_of_cons.
Qed.

Lemma holds_add_locks keys l t k : holds (add_locks keys l) t k = holds l t k.
Proof. unfold holds. rewrite add_locks_lookup. destruct (l !! k) as [[[o n]|]|]; [done|done|]. by case_decide. Qed.

Lemma add_locks_ok keys l : locks_ok l -> locks_ok (add_locks keys l).
Proof.
  intros Hl k o n. rewrite add_locks_lookup. destruct (l !! k) as [x|] eqn:E; [intros [= ->]; by eapply Hl|].
  by case_decide.
Qed.

Lemma take_lock_holds t k l l' u k' :
  take_lock t k l = Some l' -> holds l' u k' = holds l u k' + (if decide (u = t /\ k' = k) then 1 else 0).
Proof.
  unfold take_lock, holds. destruct (l !! k) as [[[o n]|]|] eqn:E; [|intros [= <-]|done].
  - destruct (decide (o = t)) as [->|]; [|done]. intros [= <-]. destruct (decide (k' = k)) as [->|Hk].
    + rewrite lookup_insert_eq, E. repeat case_decide; try lia; naive_solver.
    + rewrite lookup_insert_ne by done. rewrite (decide_False (P := u = t /\ k' = k)) by tauto. lia.
  - destruct (decide (k' = k)) as [->|Hk].
    + rewrite lookup_insert_eq, E. repeat case_decide; try lia; naive_solver.
    + rewrite lookup_insert_ne by done. rewrite (decide_False (P := u = t /\ k' = k)) by tauto. lia.
Qed.

Lemma take_lock_ok t k l l' :
  take_lock t k l = Some l' -> locks_ok l ->
  locks_ok l' /\ forall k', is_Some (l !! k') -> is_Some (l' !! k').
Proof.
  unfold take_lock. intros E Hl.
  assert (exists n, 1 <= n /\ l' = <[k := Some (t, n)]> l) as (n & Hn & ->).
  { destruct (l !! k) as [[[o n]|]|] eqn:Ek; [|injection E as <-; by exists 1|done].
    destruct (decide (o = t)); [|done]. injection E as <-. exists (n + 1). split; [|done]. apply Hl in Ek. lia. }
  split.
  - intros k' o m. destruct (decide (k' = k)) as [->|]; [rewrite lookup_insert_eq; by intros [= <- <-]|].
    rewrite lookup_insert_ne by done. apply Hl.
  - intros k' Hk'. destruct (decide (k' = k)) as [->|]; [rewrite lookup_insert_eq; by eexists|].
    by rewrite lookup_insert_ne.
Qed.

(** The locks after [t] gives back those of a list it holds. *)
Lemma drop_locks t ks l :
  locks_ok l -> (forall k, Z.of_nat (count k ks) <= holds l t k) ->
  let l' := fold_left (fun l k => drop_lock k l) ks l in
  locks_ok l' /\ (forall k, is_Some (l !! k) -> is_Some (l' !! k)) /\
  forall u k, holds l' u k = holds l u k - (if decide (u = t) then Z.of_nat (count k ks) else 0).
Proof.
  revert l; induction ks as [|k ks IH]; intros l Hl Hc; cbn [fold_left].
  { split_and!; try done. intros u k. unfold count. simpl. case_decide; lia. }
  assert (Hk : exists n, l !! k = Some (Some (t, n)) /\ 1 <= n).
  { specialize (Hc k). unfold count, holds in Hc. rewrite filter_cons, decide_True in Hc by done. simpl in Hc.
    destruct (l !! k) as [[[o n]|]|] eqn:E; [|lia..]. destruct (decide (o = t)) as [->|]; [|lia].
    exists n. split; [done|]. by apply Hl in E. }
  destruct Hk as (n & Ek & Hn).
  assert (Hd : forall u k', holds (drop_lock k l) u k' = holds l u k' - (if decide (u = t /\ k' = k) then 1 else 0)).
  { intros u k'. unfold drop_lock. rewrite Ek. unfold holds. destruct (decide (k' = k)) as [->|Hne].
    - rewrite lookup_insert_eq, Ek. destruct (n =? 1) eqn:E1; [apply Z.eqb_eq in E1 as ->|]; repeat case_decide;
        try lia; naive_solver.
    - rewrite lookup_insert_ne by done. rewrite (decide_False (P := u = t /\ k' = k)) by tauto. lia. }
  assert (Hok : locks_ok (drop_lock k l)).
  { unfold drop_lock. rewrite Ek. intros k' o m. destruct (decide (k' = k)) as [->|Hne].
    - rewrite lookup_insert_eq. destruct (n =? 1) eqn:E1; [done|]. apply Z.eqb_neq in E1. intros [= <- <-]. lia.
    - rewrite lookup_insert_ne by done. apply Hl. }
  assert (Hkeep : forall k', is_Some (l !! k') -> is_Some (drop_lock k l !! k')).
  { intros k' Hk'. unfold drop_lock. rewrite Ek. destruct (decide (k' = k)) as [->|]; [rewrite lookup_insert_eq; by eexists|].
    by rewrite lookup_insert_ne. }
  destruct (IH (drop_lock k l) Hok) as (H1 & H2 & H3).
  { intros k'. specialize (Hc k'). rewrite Hd. unfold count in *. rewrite filter_cons in Hc.
    destruct (decide (k = k')) as [->|Hne]; simpl in Hc; [rewrite decide_True by done|rewrite decide_False by naive_solver]; lia. }
  split_and!; [done|intros k' Hk'; by apply H2, Hkeep|].
  intros u k'. rewrite H3, Hd. unfold count. rewrite filter_cons.
  destruct (decide (u = t)) as [->|Hu].
  - destruct (decide (k = k')) as [->|Hne]; simpl; [rewrite decide_True by done|rewrite decide_False by naive_solver]; lia.
  - rewrite (decide_False (P := u = t /\ k' = k)) by tauto. lia.
Qed.

End rlocks.
