(* ===== verification/ProjectLock.v ===== *)
(** * ProjectLock: [project_write_lock.py] and [project_lock_state.py]

    The state of one project's locks, and the threads that enter and leave its two
    context managers: the coarse write lock, and the transactions that lock the
    paths they write.  A thread's stack holds the [with] blocks it is inside of. *)

From stdpp Require Import prelude gmap sets fin_sets fin_maps strings list sorting.
From S2P Require Import Prelude Text Paths Kahn RLocks RWLock.

Open Scope Z_scope.
Open Scope py_scope.

(** ** Path keys *)

Definition _path_key (value : pystr) : res pystr :=
  let rendered := map (fun c => if c =? 92 then 47 else c) (strip value) in
  if bool_decide (rendered = []) || starts_with (u "/") rendered ||
     bool_decide (u ".." ∈ path_parts rendered)
  then Err ValueError
  else Ok (as_posix (path_parts rendered)).

(** ** State *)

Record ProjectLockState : Type := LockState {
  writer_owner : option Z; writer_depth : Z; waiting_writers : Z; scoped_total : Z;
  scoped_depth : gmap Z Z; path_locks : gmap pystr rlock
}.

Definition new_state : ProjectLockState := LockState None 0 0 0 ∅ ∅.

Inductive frame : Type := CoarseFrame | ScopedFrame (owns_coarse : bool) (keys : list pystr).

Inductive activity : Type :=
  | Running
  | WaitCoarse (bounded : bool)
  | WaitScoped (keys : list pystr) (nested : bool)
  | Locking (owns_coarse : bool) (acquired remaining : list pystr).

Record thread : Type := Thread { stack : list frame; doing : activity }.

Record project : Type := Project { state : ProjectLockState; threads : gmap Z thread }.

Definition thread_of (p : project) (t : Z) : thread := default (Thread [] Running) (threads p !! t).

(** ** The coarse lock *)

Definition set_writer (owner : option Z) (depth waiting : Z) (s : ProjectLockState) : ProjectLockState :=
  LockState owner depth waiting (scoped_total s) (scoped_depth s) (path_locks s).

(** The loop test, and the rest of the entry. *)
Definition coarse_check (owner : Z) (s : ProjectLockState) : option ProjectLockState :=
  if decide (writer_owner s <> None \/ scoped_total s <> 0) then None
  else Some (set_writer (Some owner) 1 (waiting_writers s - 1) s).

Inductive entry (A : Type) : Type := Entered (a : A) | Waits (s : ProjectLockState) | Raises (e : exn).
Arguments Entered {A}. Arguments Waits {A}. Arguments Raises {A}.

Definition coarse_enter (owner : Z) (s : ProjectLockState) : entry ProjectLockState :=
  if decide (writer_owner s = Some owner)
  then Entered (set_writer (writer_owner s) (writer_depth s + 1) (waiting_writers s) s)
  else if decide (depth_of (scoped_depth s) owner <> 0)
  then Raises (RuntimeError "Cannot upgrade a path-scoped project write lock to the coarse project lock")
  else
    let s := set_writer (writer_owner s) (writer_depth s) (waiting_writers s + 1) s in
    match coarse_check owner s with Some s => Entered s | None => Waits s end.

(** [TimeoutError] in the loop: only the count of waiting writers is put back. *)
Definition coarse_timeout (s : ProjectLockState) : ProjectLockState :=
  set_writer (writer_owner s) (writer_depth s) (waiting_writers s - 1) s.

Definition coarse_exit (owner : Z) (s : ProjectLockState) : res ProjectLockState :=
  if decide (writer_owner s <> Some owner \/ writer_depth s < 1)
  then Err (RuntimeError "project write lock ownership was corrupted")
  else if decide (writer_depth s - 1 = 0) then Ok (set_writer None 0 (waiting_writers s) s)
  else Ok (set_writer (writer_owner s) (writer_depth s - 1) (waiting_writers s) s).

(** ** Transactions on paths *)

Definition scoped_begin (owner : Z) (owns_coarse : bool) (keys : list pystr) (s : ProjectLockState) : ProjectLockState :=
  if owns_coarse
  then LockState (writer_owner s) (writer_depth s) (waiting_writers s) (scoped_total s) (scoped_depth s)
         (add_locks keys (path_locks s))
  else LockState (writer_owner s) (writer_depth s) (waiting_writers s) (scoped_total s + 1)
         (<[owner := depth_of (scoped_depth s) owner + 1]> (scoped_depth s)) (add_locks keys (path_locks s)).

(** The loop of a transaction whose thread does not own the coarse lock. *)
Definition scoped_check (owner : Z) (keys : list pystr) (nested : bool) (s : ProjectLockState)
    : option ProjectLockState :=
  if decide (writer_owner s <> None \/ (waiting_writers s <> 0 /\ nested = false)) then None
  else Some (scoped_begin owner false keys s).

Definition set_locks (locks : gmap pystr rlock) (s : ProjectLockState) : ProjectLockState :=
  LockState (writer_owner s) (writer_depth s) (waiting_writers s) (scoped_total s) (scoped_depth s) locks.

(** The [finally] block, with the locks acquired. *)
Definition scoped_exit (owner : Z) (owns_coarse : bool) (acquired : list pystr) (s : ProjectLockState)
    : res ProjectLockState :=
  let s := set_locks (fold_left (fun l k => drop_lock k l) (reverse acquired) (path_locks s)) s in
  if owns_coarse then Ok s
  else
    let depth := depth_of (scoped_depth s) owner in
    let depths := if depth <=? 1 then delete owner (scoped_depth s) else <[owner := depth - 1]> (scoped_depth s) in
    let total := scoped_total s - 1 in
    if total <? 0 then Err (RuntimeError "project path write lock count was corrupted")
    else Ok (LockState (writer_owner s) (writer_depth s) (waiting_writers s) total depths (path_locks s)).

(** ** Threads *)

Inductive event : Type :=
  | EnterCoarse (t : Z) (bounded : bool) | EnterScoped (t : Z) (paths : list pystr)
  | Look (t : Z) | TimeOut (t : Z) | Take (t : Z) | Exit (t : Z).

Definition update (p : project) (t : Z) (s : ProjectLockState) (st : list frame) (a : activity) : project :=
  Project s (<[t := Thread st a]> (threads p)).

(** A call that raises leaves the project as it is. *)
Definition enter_scoped (p : project) (t : Z) (st : list frame) (paths : list pystr) : option project :=
  match (let* keys := res_map_list _path_key paths in
         match sorted_set (list_to_set keys) with [] => Err ValueError | keys => Ok keys end) with
  | Err _ => Some p
  | Ok keys =>
      let s := state p in
      if decide (writer_owner s = Some t) then Some (update p t (scoped_begin t true keys s) st (Locking true [] keys))
      else
        let nested := bool_decide (depth_of (scoped_depth s) t <> 0) in
        match scoped_check t keys nested s with
        | Some s => Some (update p t s st (Locking false [] keys))
        | None => Some (update p t s st (WaitScoped keys nested))
        end
  end.

Definition step (p : project) (e : event) : option project :=
  let s := state p in
  match e with
  | EnterCoarse t bounded =>
      match thread_of p t with
      | Thread st Running =>
          match coarse_enter t s with
          | Entered s => Some (update p t s (CoarseFrame :: st) Running)
          | Waits s => Some (update p t s st (WaitCoarse bounded))
          | Raises _ => Some p
          end
      | _ => None
      end
  | EnterScoped t paths =>
      match thread_of p t with
      | Thread st Running => enter_scoped p t st paths
      | _ => None
      end
  | Look t =>
      match thread_of p t with
      | Thread st (WaitCoarse _) =>
          match coarse_check t s with Some s => Some (update p t s (CoarseFrame :: st) Running) | None => Some p end
      | Thread st (WaitScoped keys nested) =>
          match scoped_check t keys nested s with
          | Some s => Some (update p t s st (Locking false [] keys))
          | None => Some p
          end
      | _ => None
      end
  | TimeOut t =>
      match thread_of p t with
      | Thread st (WaitCoarse true) => Some (update p t (coarse_timeout s) st Running)
      | _ => None
      end
  | Take t =>
      match thread_of p t with
      | Thread st (Locking owns acquired (k :: remaining)) =>
          match take_lock t k (path_locks s) with
          | Some locks =>
              let s := set_locks locks s in
              Some (match remaining with
                    | [] => update p t s (ScopedFrame owns (acquired ++ [k]) :: st) Running
                    | _ => update p t s st (Locking owns (acquired ++ [k]) remaining)
                    end)
          | None => None
          end
      | _ => None
      end
  | Exit t =>
      match thread_of p t with
      | Thread (CoarseFrame :: st) Running =>
          match coarse_exit t s with Ok s => Some (update p t s st Running) | Err _ => None end
      | Thread (ScopedFrame owns keys :: st) Running =>
          match scoped_exit t owns keys s with Ok s => Some (update p t s st Running) | Err _ => None end
      | _ => None
      end
  end.

Inductive reachable : project -> Prop :=
  | reachable_new : reachable (Project new_state ∅)
  | reachable_step p e p' : reachable p -> step p e = Some p' -> reachable p'.

(** * Exclusion and freedom from deadlock of the project locks *)

From S2P Require Import RWLockProps.

Open Scope Z_scope.

(** ** What a thread holds *)

Definition frame_keys (f : frame) : list pystr := match f with ScopedFrame _ ks => ks | CoarseFrame => [] end.
Definition acquired_of (a : activity) : list pystr := match a with Locking _ ks _ => ks | _ => [] end.
Definition held (th : thread) : list pystr := concat (map frame_keys (stack th)) ++ acquired_of (doing th).

Fixpoint coarse_depth (st : list frame) : Z :=
  match st with [] => 0 | CoarseFrame :: st => 1 + coarse_depth st | _ :: st => coarse_depth st end.

Fixpoint counted_frames (st : list frame) : Z :=
  match st with [] => 0 | ScopedFrame false _ :: st => 1 + counted_frames st | _ :: st => counted_frames st end.

Definition counted (th : thread) : Z :=
  counted_frames (stack th) + match doing th with Locking false _ _ => 1 | _ => 0 end.

(** A transaction that relies on the coarse lock is inside of a block that holds it. *)
Fixpoint nested_ok (st : list frame) : Prop :=
  match st with
  | [] => True
  | ScopedFrame true _ :: st => 0 < coarse_depth st /\ nested_ok st
  | _ :: st => nested_ok st
  end.

Definition lock_count (s : ProjectLockState) (t : Z) (k : pystr) : Z := holds (path_locks s) t k.

Definition locking_ok (s : ProjectLockState) (th : thread) : Prop :=
  match doing th with
  | Locking owns acquired remaining =>
      (owns = true -> 0 < coarse_depth (stack th)) /\ remaining <> [] /\
      (exists keys : gset pystr, acquired ++ remaining = sorted_set keys) /\
      forall k, k ∈ remaining -> is_Some (path_locks s !! k)
  | WaitScoped keys _ => keys <> [] /\ exists ks : gset pystr, keys = sorted_set ks
  | _ => True
  end.

Definition total (d : gmap Z Z) : Z := map_fold (fun _ n acc => n + acc) 0 d.

Definition state_inv (s : ProjectLockState) : Prop :=
  (writer_owner s <> None -> scoped_total s = 0) /\ positive_depths (scoped_depth s) /\
  scoped_total s = total (scoped_depth s) /\ (writer_owner s = None -> writer_depth s = 0) /\
  locks_ok (path_locks s).

Definition thread_inv (s : ProjectLockState) (t : Z) (th : thread) : Prop :=
  (writer_owner s = Some t <-> 0 < coarse_depth (stack th)) /\
  (writer_owner s = Some t -> writer_depth s = coarse_depth (stack th)) /\
  depth_of (scoped_depth s) t = counted th /\ nested_ok (stack th) /\
  (forall k, lock_count s t k = Z.of_nat (count k (held th))) /\ locking_ok s th.

Definition inv (p : project) : Prop :=
  state_inv (state p) /\ forall t, thread_inv (state p) t (thread_of p t).

(** ** Sums of depths *)

Lemma total_insert_new d t n : d !! t = None -> total (<[t := n]> d) = n + total d.
Proof. intros Ht. unfold total. apply map_fold_insert_L; [intros; lia|done]. Qed.

Lemma total_delete d t : total (delete t d) = total d - depth_of d t.
Proof.
  unfold depth_of. destruct (d !! t) as [n|] eqn:E; simpl; [|rewrite delete_id by done; lia].
  rewrite <- (insert_delete_id d t n E) at 2. rewrite total_insert_new by apply lookup_delete_eq. lia.
Qed.

Lemma total_insert d t n : total (<[t := n]> d) = total d - depth_of d t + n.
Proof. rewrite <- insert_delete_eq, total_insert_new by apply lookup_delete_eq. rewrite total_delete. lia. Qed.

Lemma total_nonneg d : positive_depths d -> 0 <= total d.
Proof.
  induction d as [|t n d Ht IH] using map_ind; intros Hp; [done|]. rewrite total_insert_new by done.
  assert (1 <= n) by (apply (Hp t), lookup_insert_eq).
  assert (0 <= total d); [|lia]. apply IH. intros k m Hk. apply (Hp k). rewrite lookup_insert_ne; [done|congruence].
Qed.

Lemma depth_le_total d t : positive_depths d -> depth_of d t <= total d.
Proof.
  intros Hp. pose proof (total_nonneg _ (positive_delete d t Hp)). rewrite total_delete in *. lia.
Qed.

(** ** Steps of one thread *)

Lemma thread_of_update p t s st a u :
  thread_of (update p t s st a) u = if decide (u = t) then Thread st a else thread_of p u.
Proof.
  unfold thread_of, update. simpl. destruct (decide (u = t)) as [->|Hu]; [by rewrite lookup_insert_eq|].
  by rewrite lookup_insert_ne.
Qed.

(** What [t] does leaves what the state says of the other threads. *)
Definition others (t : Z) (s s' : ProjectLockState) : Prop :=
  (forall u, u <> t -> writer_owner s' = Some u <-> writer_owner s = Some u) /\
  (forall u, u <> t -> writer_owner s = Some u -> writer_depth s' = writer_depth s) /\
  (forall u, u <> t -> depth_of (scoped_depth s') u = depth_of (scoped_depth s) u) /\
  (forall u k, u <> t -> lock_count s' u k = lock_count s u k) /\
  (forall k, is_Some (path_locks s !! k) -> is_Some (path_locks s' !! k)).

Lemma locking_ok_mono s s' th :
  (forall k, is_Some (path_locks s !! k) -> is_Some (path_locks s' !! k)) -> locking_ok s th -> locking_ok s' th.
Proof. unfold locking_ok. destruct (doing th); naive_solver. Qed.

Lemma project_inv_update p t s' st a :
  inv p -> state_inv s' -> others t (state p) s' -> thread_inv s' t (Thread st a) -> inv (update p t s' st a).
Proof.
  intros [_ Hth] Hs (Hw & Hd & Hsc & Hl & Hk) Ht. split; [done|]. intros u. rewrite thread_of_update.
  destruct (decide (u = t)) as [->|Hu]; [done|]. simpl.
  destruct (Hth u) as (H1 & H2 & H3 & H4 & H5 & H6). split_and!.
  - by rewrite Hw.
  - intros Hu'. apply Hw in Hu'; [|done]. rewrite (Hd u) by done. by apply H2.
  - by rewrite Hsc.
  - done.
  - intros k. by rewrite Hl.
  - by eapply locking_ok_mono.
Qed.

(** ** The coarse lock *)

Lemma others_writer t s w d n :
  (w = writer_owner s /\ d = writer_depth s) \/ ((w = None \/ w = Some t) /\ (writer_owner s = None \/ writer_owner s = Some t)) ->
  others t s (set_writer w d n s).
Proof.
  intros Hw. split_and!; simpl; try done.
  - intros u Hu. destruct Hw as [[-> _]|[[-> | ->] [-> | ->]]]; naive_solver.
  - intros u Hu Hw'. destruct Hw as [[_ ->]|[_ [E|E]]]; [done|congruence..].
Qed.

Lemma state_inv_writer s w d n :
  state_inv s -> (w <> None -> scoped_total s = 0) -> (w = None -> d = 0) -> state_inv (set_writer w d n s).
Proof. intros (H1 & H2 & H3 & H4 & H5) Hw Hd. done. Qed.

Definition idle (a : activity) : Prop := match a with Locking _ _ _ => False | _ => True end.

Lemma idle_counts st a : idle a -> counted (Thread st a) = counted_frames st /\ held (Thread st a) = concat (map frame_keys st).
Proof. unfold counted, held. destruct a; simpl; try done; intros _; by rewrite app_nil_r, Z.add_0_r. Qed.

Lemma coarse_depth_nonneg st : 0 <= coarse_depth st.
Proof. induction st as [|[|[] ks] st IH]; simpl; lia. Qed.

Lemma coarse_entered p t st a d n :
  inv p -> thread_of p t = Thread st a -> idle a ->
  (writer_owner (state p) = Some t /\ d = writer_depth (state p) + 1) \/
  (writer_owner (state p) = None /\ scoped_total (state p) = 0 /\ d = 1) ->
  inv (update p t (set_writer (Some t) d n (state p)) (CoarseFrame :: st) Running).
Proof.
  intros Hi Ht Ha Hc. pose proof Hi as [Hs Hth]. pose proof (Hth t) as (H1 & H2 & H3 & H4 & H5 & _).
  rewrite Ht in *. simpl in *. pose proof (coarse_depth_nonneg st) as Hcd.
  destruct (idle_counts st a Ha) as [Ec Eh]. rewrite Ec in H3. apply project_inv_update; [done| | |].
  - apply state_inv_writer; [done| |done]. intros _. destruct Hc as [[Hw _]|(_ & Ht0 & _)]; [|done].
    apply Hs. by rewrite Hw.
  - apply others_writer. right. split; [by right|]. destruct Hc as [[Hw _]|[Hw _]]; auto.
  - destruct (idle_counts (CoarseFrame :: st) Running I) as [Ec' Eh'].
    split_and!; simpl; [split; [lia|done]| |by rewrite Ec'|done| |done].
    + intros _. destruct Hc as [[Hw ->]|(Hw & _ & ->)]; [rewrite (H2 Hw); lia|].
      destruct (decide (0 < coarse_depth st)) as [Hp|]; [apply H1 in Hp; congruence|lia].
    + intros k. rewrite Eh'. simpl. rewrite <- Eh. apply H5.
Qed.

(** A thread starts or stops to wait: only the count of waiting writers changes. *)
Lemma waits p t st a a' n :
  inv p -> thread_of p t = Thread st a -> idle a -> idle a' -> (forall s, locking_ok s (Thread st a')) ->
  inv (update p t (set_writer (writer_owner (state p)) (writer_depth (state p)) n (state p)) st a').
Proof.
  intros Hi Ht Ha Ha' Hok. pose proof Hi as [Hs Hth]. pose proof (Hth t) as (H1 & H2 & H3 & H4 & H5 & _).
  rewrite Ht in *. simpl in *. destruct (idle_counts st a Ha) as [Ec Eh], (idle_counts st a' Ha') as [Ec' Eh'].
  apply project_inv_update; [done| | |].
  - destruct Hs as (? & ? & ? & ? & ?). by apply state_inv_writer.
  - apply others_writer. by left.
  - split_and!; simpl; [done|done|by rewrite Ec', <- Ec|done| |apply Hok].
    intros k. rewrite Eh', <- Eh. apply H5.
Qed.

Lemma coarse_left p t st s' :
  inv p -> thread_of p t = Thread (CoarseFrame :: st) Running -> coarse_exit t (state p) = Ok s' ->
  inv (update p t s' st Running).
Proof.
  intros Hi Ht. pose proof Hi as [Hs Hth]. pose proof (Hth t) as (H1 & H2 & H3 & H4 & H5 & _).
  rewrite Ht in *. unfold counted, held in *. simpl in *. unfold coarse_exit.
  destruct (decide _) as [|Hno]; [done|].
  destruct (decide (writer_owner (state p) = Some t)) as [Hw|]; [|by destruct Hno; left]. specialize (H2 Hw).
  destruct (decide (writer_depth (state p) - 1 = 0)) as [Hd|Hd]; intros [= <-]; (apply project_inv_update; [done| | |]).
  - apply state_inv_writer; [done|done|done].
  - apply others_writer. right. auto.
  - split_and!; simpl; [split; [done|lia]|done..].
  - apply state_inv_writer; [done| |congruence]. apply Hs.
  - apply others_writer. right. auto.
  - split_and!; simpl; [rewrite Hw; split; [intros _; lia|done]|intros _; lia|done..].
Qed.

(** ** Transactions *)

Lemma scoped_begin_others t owns keys s : others t s (scoped_begin t owns keys s).
Proof.
  unfold scoped_begin. destruct owns; split_and!; simpl; try done.
  1, 4: intros u k _; apply holds_add_locks.
  1, 3: intros k [x Hx]; rewrite add_locks_lookup, Hx; by eexists.
  intros u Hu. rewrite depth_insert. by rewrite decide_False.
Qed.

(** A transaction begins, under the coarse lock or when nobody holds it. *)
Lemma scoped_begun (p : project) (t : Z) (st : list frame) (a : activity) (owns : bool) (keys : list pystr) (ks : gset pystr) :
  inv p -> thread_of p t = Thread st a -> idle a -> keys = sorted_set ks -> keys <> [] ->
  (if owns : bool then writer_owner (state p) = Some t else writer_owner (state p) = None) ->
  inv (update p t (scoped_begin t owns keys (state p)) st (Locking owns [] keys)).
Proof.
  intros Hi Ht Ha -> Hne Hw. pose proof Hi as [Hs Hth]. pose proof (Hth t) as (H1 & H2 & H3 & H4 & H5 & _).
  rewrite Ht in *. simpl in *. destruct (idle_counts st a Ha) as [Ec Eh]. rewrite Ec in H3.
  destruct Hs as (S1 & S2 & S3 & S4 & S5). apply project_inv_update; [done| |apply scoped_begin_others|].
  - unfold scoped_begin. destruct owns; split_and!; simpl; try done; [by apply add_locks_ok| | |by apply add_locks_ok].
    + apply positive_insert; [done|]. destruct (positive_depth (scoped_depth (state p)) t S2). lia.
    + rewrite total_insert, S3. lia.
  - assert (Hlk : locking_ok (scoped_begin t owns (sorted_set ks) (state p)) (Thread st (Locking owns [] (sorted_set ks)))).
    { unfold locking_ok. simpl. split_and!; [|done|by exists ks|].
      - intros ->. by apply H1.
      - intros k Hk. unfold scoped_begin. destruct owns; simpl; rewrite add_locks_lookup;
          (destruct (path_locks (state p) !! k); [by eexists|]); rewrite decide_True by done; by eexists. }
    assert (Hheld : forall k, lock_count (scoped_begin t owns (sorted_set ks) (state p)) t k =
              Z.of_nat (count k (held (Thread st (Locking owns [] (sorted_set ks)))))).
    { intros k. unfold held. simpl. rewrite app_nil_r, <- Eh, <- H5. unfold lock_count, scoped_begin.
      destruct owns; simpl; apply holds_add_locks. }
    split_and!; try done; unfold scoped_begin, counted in *; destruct owns; simpl; try done; [lia|].
    rewrite depth_insert, decide_True by done. lia.
Qed.

(** ** Taking and dropping locks *)

Lemma set_locks_others t s l :
  (forall u k, u <> t -> holds l u k = holds (path_locks s) u k) ->
  (forall k, is_Some (path_locks s !! k) -> is_Some (l !! k)) -> others t s (set_locks l s).
Proof. intros Hh Hk. split_and!; try done. Qed.

Lemma taken p t st owns acquired k remaining l st' a' :
  inv p -> thread_of p t = Thread st (Locking owns acquired (k :: remaining)) ->
  take_lock t k (path_locks (state p)) = Some l ->
  (st', a') = (match remaining with
               | [] => (ScopedFrame owns (acquired ++ [k]) :: st, Running)
               | _ => (st, Locking owns (acquired ++ [k]) remaining)
               end) ->
  inv (update p t (set_locks l (state p)) st' a').
Proof.
  intros Hi Ht Hl Hst. pose proof Hi as [Hs Hth]. pose proof (Hth t) as (H1 & H2 & H3 & H4 & H5 & H6).
  rewrite Ht in *. unfold locking_ok in H6. unfold counted in H3. simpl in *.
  destruct Hs as (S1 & S2 & S3 & S4 & S5), H6 as (L1 & _ & (ks & L3) & L4).
  destruct (take_lock_ok _ _ _ _ Hl S5) as [Hok Hkeep]. apply project_inv_update; [done|done| |].
  - apply set_locks_others; [|done]. intros u k' Hu. rewrite (take_lock_holds _ _ _ _ u k' Hl).
    rewrite decide_False by tauto. lia.
  - assert (Hh : forall k', holds l t k' =
              Z.of_nat (count k' (concat (map frame_keys st) ++ acquired ++ [k]))).
    { intros k'. rewrite (take_lock_holds _ _ _ _ t k' Hl), (assoc_L (++)), count_app, count_single.
      specialize (H5 k'). unfold lock_count, held in H5. simpl in H5. rewrite H5.
      destruct (decide (k' = k)) as [->|Hne]; [rewrite decide_True by done|rewrite decide_False by tauto]; lia. }
    destruct remaining as [|k2 remaining]; injection Hst as -> ->.
    + split_and!; simpl; try done.
      * unfold counted. simpl. destruct owns; lia.
      * destruct owns; [|done]. split; [by apply L1|done].
      * intros k'. unfold lock_count, held. simpl. rewrite Hh, app_nil_r. f_equal. rewrite !count_app. lia.
    + split_and!; simpl; try done. unfold locking_ok. simpl. split_and!; [done|done| |].
      * exists ks. by rewrite <- L3, <- (assoc_L (++)).
      * intros k' Hk'. apply Hkeep, L4. by right.
Qed.

Lemma counted_nonneg st : 0 <= counted_frames st.
Proof. induction st as [|[|[] ks] st IH]; simpl; lia. Qed.

(** The counters never look corrupted: a transaction always ends well. *)
Lemma scoped_left p t st owns keys :
  inv p -> thread_of p t = Thread (ScopedFrame owns keys :: st) Running ->
  exists s', scoped_exit t owns keys (state p) = Ok s' /\ inv (update p t s' st Running).
Proof.
  intros Hi Ht. pose proof Hi as [Hs Hth]. pose proof (Hth t) as (H1 & H2 & H3 & H4 & H5 & _).
  rewrite Ht in *. unfold counted in H3. simpl in *. destruct Hs as (S1 & S2 & S3 & S4 & S5).
  destruct (drop_locks t (reverse keys) (path_locks (state p)) S5) as (Hok & Hkeep & Hh).
  { intros k. rewrite count_reverse. specialize (H5 k). unfold lock_count, held in H5. simpl in H5.
    rewrite H5, !count_app. lia. }
  unfold scoped_exit. set (l := fold_left _ _ _) in *.
  assert (Hheld : forall k, holds l t k = Z.of_nat (count k (held (Thread st Running)))).
  { intros k. rewrite Hh, decide_True, count_reverse by done. specialize (H5 k). unfold lock_count, held in *.
    simpl in *. rewrite H5, !count_app. lia. }
  assert (Hoth : forall u k, u <> t -> holds l u k = holds (path_locks (state p)) u k).
  { intros u k Hu. rewrite Hh, decide_False by done. lia. }
  destruct owns.
  { eexists. split; [done|]. apply project_inv_update; [done|done|by apply set_locks_others|].
    split_and!; simpl; try done; tauto. }
  pose proof (counted_nonneg st) as Hcn. pose proof (depth_le_total _ t S2) as Hle.
  cbn [set_locks scoped_total scoped_depth]. rewrite (proj2 (Z.ltb_ge (scoped_total (state p) - 1) 0)) by lia.
  eexists. split; [done|].
  set (ds := if depth_of (scoped_depth (state p)) t <=? 1 then _ else _).
  assert (Hds : positive_depths ds /\ total ds = total (scoped_depth (state p)) - 1 /\
                forall u, depth_of ds u = depth_of (scoped_depth (state p)) u - (if decide (u = t) then 1 else 0)).
  { unfold ds. destruct (depth_of (scoped_depth (state p)) t <=? 1) eqn:E.
    - apply Z.leb_le in E. split_and!; [by apply positive_delete|rewrite total_delete; lia|].
      intros u. rewrite depth_delete. destruct (decide (u = t)) as [->|]; lia.
    - apply Z.leb_gt in E. split_and!; [apply positive_insert; [done|lia]|rewrite total_insert; lia|].
      intros u. rewrite depth_insert. destruct (decide (u = t)) as [->|]; lia. }
  destruct Hds as (D1 & D2 & D3). apply project_inv_update; [done| | |].
  - split_and!; simpl; try done; [|lia]. intros Hw. specialize (S1 Hw). lia.
  - split_and!; simpl; try done. intros u Hu. rewrite D3, decide_False by done. lia.
  - split_and!; simpl; try done. rewrite D3, decide_True by done. unfold counted. simpl. lia.
Qed.

(** ** Every step *)

Lemma thread_of_cases p t st a : thread_of p t = Thread st a -> stack (thread_of p t) = st /\ doing (thread_of p t) = a.
Proof. by intros ->. Qed.

Lemma enter_scoped_inv p t st paths p' :
  inv p -> thread_of p t = Thread st Running -> enter_scoped p t st paths = Some p' -> inv p'.
Proof.
  intros Hi Ht. unfold enter_scoped. destruct (res_map_list _path_key paths) as [keys|e]; cbn [res_bind].
  2: { by intros [= <-]. }
  destruct (sorted_set (list_to_set keys)) as [|k ks] eqn:E; [by intros [= <-]|].
  destruct (decide (writer_owner (state p) = Some t)) as [Hw|Hw].
  - intros [= <-]. by apply (scoped_begun p t st Running true (k :: ks) (list_to_set keys)).
  - unfold scoped_check. destruct (decide _) as [|Hno]; intros [= <-].
    + pose proof (waits p t st Running (WaitScoped (k :: ks) (bool_decide (depth_of (scoped_depth (state p)) t <> 0)))
        (waiting_writers (state p)) Hi Ht I I) as Hw'.
      destruct (state p). apply Hw'. intros s. split; [done|]. by exists (list_to_set keys).
    + apply (scoped_begun p t st Running false (k :: ks) (list_to_set keys)); try done.
      destruct (writer_owner (state p)); [destruct Hno; by left|done].
Qed.

Lemma not_owned (w : option Z) (P : Prop) : ~ (w <> None \/ P) -> w = None.
Proof. destruct w; [|done]. intros Hn. destruct Hn. by left. Qed.

Lemma not_counted (w : option Z) (n : Z) : ~ (w <> None \/ n <> 0) -> n = 0.
Proof. intros Hn. destruct (decide (n = 0)); [done|]. destruct Hn. by right. Qed.

Lemma project_step_inv p e p' : inv p -> step p e = Some p' -> inv p'.
Proof.
  intros Hi. unfold step. destruct e as [t b|t paths|t|t|t|t]; destruct (thread_of p t) as [st a] eqn:Ht.
  - destruct a; try done. unfold coarse_enter. destruct (decide _) as [Hw|Hw].
    { intros [= <-]. rewrite Hw. apply (coarse_entered p t st Running); [done|done|done|by left]. }
    destruct (decide _); [by intros [= <-]|]. unfold coarse_check. destruct (decide _) as [|Hno]; intros [= <-].
    + by apply (waits p t st Running).
    + apply (coarse_entered p t st Running _ (waiting_writers (state p) + 1 - 1)); [done..|right]. simpl in Hno.
      split_and!; [by eapply not_owned|by eapply not_counted|done].
  - destruct a; try done. by apply (enter_scoped_inv p t st paths).
  - destruct a as [|b|keys nested|]; try done.
    + unfold coarse_check. destruct (decide _) as [|Hno]; intros [= <-]; [done|].
      apply (coarse_entered p t st (WaitCoarse b)); [done..|right].
      split_and!; [by eapply not_owned|by eapply not_counted|done].
    + unfold scoped_check. destruct (decide _) as [|Hno]; intros [= <-]; [done|].
      destruct Hi as [Hs Hth]. destruct (Hth t) as (_ & _ & _ & _ & _ & Hok). rewrite Ht in Hok.
      destruct Hok as [Hne [ks Hks]]. apply (scoped_begun p t st (WaitScoped keys nested) false keys ks); try done.
      by eapply not_owned.
  - destruct a as [|[]| |]; try done. intros [= <-]. by apply (waits p t st (WaitCoarse true)).
  - destruct a as [| | |owns acquired [|k remaining]]; try done.
    destruct (take_lock t k (path_locks (state p))) as [l|] eqn:El; [|done]. intros [= <-].
    destruct remaining; by eapply taken.
  - destruct st as [|[|owns keys] st]; [done|..]; destruct a; try done.
    + destruct (coarse_exit t (state p)) as [s'|] eqn:E; [|done]. intros [= <-]. by eapply coarse_left.
    + destruct (scoped_left p t st owns keys Hi Ht) as (s' & -> & Hi'). by intros [= <-].
Qed.

Lemma inv_new : inv (Project new_state ∅).
Proof.
  split.
  - split_and!; simpl; try done.
  - intros t. unfold thread_of. cbn [threads]. rewrite lookup_empty. simpl. split_and!; simpl; try done.
Qed.

Lemma project_reachable_inv p : reachable p -> inv p.
Proof. induction 1; [apply inv_new|by eapply project_step_inv]. Qed.

(** ** The theorems *)

Definition in_coarse (p : project) (t : Z) : Prop := CoarseFrame ∈ stack (thread_of p t).

Lemma in_coarse_depth st : CoarseFrame ∈ st -> 0 < coarse_depth st.
Proof.
  induction st as [|f st IH]; [by intros ?%elem_of_nil|]. pose proof (coarse_depth_nonneg st).
  intros [<-|Hin]%elem_of_cons; [simpl; lia|]. apply IH in Hin. destruct f as [|[] ?]; simpl; lia.
Qed.

Lemma no_frames st : coarse_depth st = 0 -> counted_frames st = 0 -> nested_ok st -> st = [].
Proof.
  destruct st as [|[|[] ks] st]; simpl; [done|..]; pose proof (coarse_depth_nonneg st); pose proof (counted_nonneg st).
  - lia.
  - intros Hc _ [? _]. lia.
  - lia.
Qed.

(** C39: the project locks exclude.  While a thread is inside of the coarse lock, no other
    thread is inside of it or of a transaction, nor on its way into one; two threads
    never hold the lock of one path; and a block that was entered can be left: the
    errors for corrupted counters are never raised. *)
Theorem project_lock_exclusion p t :
  reachable p ->
  (in_coarse p t -> forall v, v <> t -> stack (thread_of p v) = [] /\ held (thread_of p v) = []) /\
  (forall v k, v <> t -> k ∈ held (thread_of p t) -> k ∉ held (thread_of p v)) /\
  (stack (thread_of p t) <> [] -> doing (thread_of p t) = Running -> exists p', step p (Exit t) = Some p').
Proof.
  intros Hr. pose proof (project_reachable_inv _ Hr) as [Hs Hth]. pose proof Hs as (S1 & S2 & S3 & _ & S5).
  destruct (Hth t) as (T1 & T2 & T3 & T4 & T5 & T6). split_and!.
  - intros Hc%in_coarse_depth v Hv. apply T1 in Hc. destruct (Hth v) as (V1 & _ & V3 & V4 & V5 & V6).
    assert (scoped_total (state p) = 0) as Hz by (apply S1; by rewrite Hc).
    pose proof (depth_le_total _ v S2) as Hle. rewrite <- S3, Hz, V3 in Hle.
    assert (coarse_depth (stack (thread_of p v)) = 0) as Hcv.
    { pose proof (coarse_depth_nonneg (stack (thread_of p v))).
      destruct (decide (0 < coarse_depth (stack (thread_of p v)))) as [Hp|]; [|lia]. apply V1 in Hp. congruence. }
    pose proof (counted_nonneg (stack (thread_of p v))). unfold counted in Hle. unfold locking_ok in V6. unfold held.
    destruct (doing (thread_of p v)) as [| | |[] a b] eqn:Ed.
    4: { destruct V6 as (V6 & _). specialize (V6 eq_refl). lia. }
    4: lia.
    all: rewrite (no_frames _ Hcv) by (lia || done); done.
  - intros v k Hv Ht Hk. destruct (Hth v) as (_ & _ & _ & _ & V5 & _). specialize (T5 k). specialize (V5 k).
    assert (count k (held (thread_of p t)) <> 0%nat) as Ct by (intros Hc; by apply count_zero in Hc).
    assert (count k (held (thread_of p v)) <> 0%nat) as Cv by (intros Hc; by apply count_zero in Hc).
    unfold lock_count, holds in *. destruct (path_locks (state p) !! k) as [[[o n]|]|]; [|lia..].
    destruct (decide (o = t)) as [->|]; [|lia]. rewrite decide_False in V5 by done. lia.
  - intros Hne Hrun. unfold step. destruct (thread_of p t) as [st a] eqn:Ht. simpl in *. subst a.
    destruct st as [|[|owns keys] st]; [done|..].
    + unfold coarse_exit. cbn [coarse_depth] in T1, T2. pose proof (coarse_depth_nonneg st). assert (writer_owner (state p) = Some t) as Hw by (apply T1; lia).
      specialize (T2 Hw). rewrite decide_False by (intros [?|?]; [contradiction|lia]).
      destruct (decide (writer_depth (state p) - 1 = 0)); by eexists.
    + destruct (scoped_left p t st owns keys (project_reachable_inv _ Hr) Ht) as (s' & -> & _). by eexists.
Qed.

(** The path a thread is about to lock. *)
Definition wanted (a : activity) : option pystr := match a with Locking _ _ (k :: _) => Some k | _ => None end.

Lemma greatest_wanted (l : list (Z * pystr)) :
  l <> [] -> exists x, x ∈ l /\ forall y, y ∈ l -> str_le y.2 x.2.
Proof.
  induction l as [|x l IH]; [done|]. intros _. destruct l as [|y l].
  { exists x. split; [by left|]. intros z ->%list_elem_of_singleton. apply str_leb_refl. }
  destruct IH as (m & Hm & Hmax); [done|]. destruct (str_leb_total x.2 m.2) as [Hle|Hle].
  - exists m. split; [by right|]. intros z [->|Hz]%elem_of_cons; [done|by apply Hmax].
  - exists x. split; [by left|]. intros z [->|Hz]%elem_of_cons; [apply str_leb_refl|].
    eapply str_leb_trans; [by apply Hmax|done].
Qed.

Lemma sorted_set_before (ks : gset pystr) l k r x :
  l ++ k :: r = sorted_set ks -> x ∈ l -> str_le x k /\ x <> k.
Proof.
  intros E Hx. split.
  - assert (StronglySorted str_le (l ++ k :: r)) as Hs.
    { rewrite E. apply Sorted_StronglySorted; [intros ???; apply str_leb_trans|].
      apply Sorted_merge_sort. intros a b. apply str_leb_total. }
    apply (StronglySorted_app_1_elem_of _ _ _ _ _ Hs Hx). by left.
  - intros ->. pose proof (sorted_set_NoDup ks) as Hnd. rewrite <- E in Hnd.
    apply NoDup_app in Hnd as (_ & Hd & _). apply (Hd k Hx). by left.
Qed.

(** C40: the paths cannot deadlock.  When no thread that still locks paths is inside of
    another transaction, some locking thread can take the lock it wants, or wants one
    that a thread holds which has all of its own locks: no cycle of threads waits. *)
Theorem path_locks_no_deadlock p :
  reachable p ->
  (forall t k, wanted (doing (thread_of p t)) = Some k -> forall f, f ∈ stack (thread_of p t) -> frame_keys f = []) ->
  (exists t k, wanted (doing (thread_of p t)) = Some k) ->
  exists t k, wanted (doing (thread_of p t)) = Some k /\
    ((exists p', step p (Take t) = Some p') \/
     exists o, k ∈ held (thread_of p o) /\ wanted (doing (thread_of p o)) = None).
Proof.
  intros Hr Hflat (t0 & k0 & Hw0). pose proof (project_reachable_inv _ Hr) as [(_ & _ & _ & _ & S5) Hth].
  set (l := omap (fun tt : Z * thread => k ← wanted (doing tt.2); Some (tt.1, k)) (map_to_list (threads p))).
  assert (Hl : forall t k, (t, k) ∈ l <-> wanted (doing (thread_of p t)) = Some k).
  { intros t k. unfold l. rewrite list_elem_of_omap. split.
    - intros ([t' th] & Hin & E). apply elem_of_map_to_list in Hin. simpl in E.
      destruct (wanted (doing th)) as [k'|] eqn:Ek; [|done]. injection E as -> ->.
      unfold thread_of. by rewrite Hin.
    - intros Hw. unfold thread_of in Hw. destruct (threads p !! t) as [th|] eqn:E; [|done]. exists (t, th).
      split; [by apply elem_of_map_to_list|]. simpl in *. by rewrite Hw. }
  destruct (greatest_wanted l) as ([t k] & Hin & Hmax).
  { intros E. apply Hl in Hw0. rewrite E in Hw0. by apply elem_of_nil in Hw0. }
  apply Hl in Hin. exists t, k. split; [done|]. destruct (Hth t) as (_ & _ & _ & _ & _ & Hlk).
  unfold step. destruct (thread_of p t) as [st a] eqn:Ht. simpl in Hin. unfold locking_ok in Hlk. simpl in Hlk.
  destruct a as [| | |owns acq [|k' rem]]; try done. injection Hin as ->. destruct Hlk as (_ & _ & _ & Hex).
  destruct (Hex k ltac:(by left)) as [x Hx]. unfold take_lock. rewrite Hx. destruct x as [[o n]|]; [|left; by eexists].
  destruct (decide (o = t)) as [->|Ho]; [left; by eexists|]. right. exists o.
  destruct (Hth o) as (_ & _ & _ & _ & Hc & Hok). specialize (Hc k). unfold lock_count, holds in Hc.
  rewrite Hx, decide_True in Hc by done. apply S5 in Hx.
  assert (k ∈ held (thread_of p o)) as Hheld.
  { destruct (decide (k ∈ held (thread_of p o))) as [|Hn]; [done|]. apply count_zero in Hn. lia. }
  split; [done|]. destruct (wanted (doing (thread_of p o))) as [k2|] eqn:Hw2; [|done]. exfalso.
  pose proof (Hmax (o, k2) (proj2 (Hl o k2) Hw2)) as Hle. simpl in Hle.
  pose proof (Hflat o k2 Hw2) as Hno. unfold held in Hheld.
  assert (concat (map frame_keys (stack (thread_of p o))) = []) as Hnil.
  { apply elem_of_nil_inv. intros x (ks & (f & -> & Hf)%list_elem_of_fmap & Hxk)%elem_of_concat.
    rewrite (Hno f Hf) in Hxk. by apply elem_of_nil in Hxk. }
  rewrite Hnil in Hheld. simpl in Hheld. unfold locking_ok in Hok.
  destruct (doing (thread_of p o)) as [| | |ow ac [|k3 re]]; try done. injection Hw2 as ->.
  destruct Hok as (_ & _ & (ks & Hks) & _). destruct (sorted_set_before ks ac k2 re k Hks Hheld) as [Hle2 Hne].
  apply Hne. by apply str_leb_antisym.
Qed.
