(* ===== verification/ExecutionBudget.v ===== *)
(** * ExecutionBudget: deadlines and cancellation of [model_concurrency.py]

    The tree of [ModelExecutionBudget]s, the functions that read and extend them, and
    the threads that publish results under the publication locks of their budget and
    all of its owners.  A budget is named by its position; a time is a number of
    microseconds. *)

From stdpp Require Import prelude gmap fin_maps strings list.
From S2P Require Import Prelude Kahn RLocks.

Open Scope Z_scope.
Open Scope py_scope.

Record ModelExecutionBudget : Type := Budget { deadline : Z; parent : option nat; cancelled : bool }.

(** [while budget is not None: ..; budget = budget.parent] *)
Fixpoint owners (fuel : nat) (bs : list ModelExecutionBudget) (current : option nat) : list nat :=
  match fuel, current with
  | S fuel, Some b => b :: owners fuel bs (x ← bs !! b; parent x)
  | _, _ => []
  end.

Definition owners_of (bs : list ModelExecutionBudget) (current : option nat) : list nat := owners (length bs) bs current.

Definition is_cancelled (bs : list ModelExecutionBudget) (b : nat) : bool :=
  match bs !! b with Some x => cancelled x | None => false end.

Definition raise_if_model_execution_cancelled (bs : list ModelExecutionBudget) (current : option nat) : res unit :=
  if existsb (is_cancelled bs) (owners_of bs current) then Err ModelExecutionCancelled else Ok tt.

Definition current_model_execution_deadline (bs : list ModelExecutionBudget) (current : option nat) : option Z :=
  b ← current; x ← bs !! b; Some (deadline x).

Definition remaining_model_execution_seconds (now : Z) (bs : list ModelExecutionBudget) (current : option nat)
    (given : option Z) : res (option Z) :=
  let* _ := raise_if_model_execution_cancelled bs current in
  Ok ((fun d => Z.max 0 (d - now)) <$>
        match given with None => current_model_execution_deadline bs current | Some _ => given end).

Definition extend (d : Z) (x : ModelExecutionBudget) : ModelExecutionBudget :=
  Budget (Z.max (deadline x) d) (parent x) (cancelled x).

Definition refresh_model_execution_deadline (now window : Z) (bs : list ModelExecutionBudget) (current : option nat)
    : res (option Z * list ModelExecutionBudget) :=
  match current_model_execution_deadline bs current with
  | None => Ok (None, bs)
  | Some existing =>
      if window <=? 0 then Err ValueError
      else
        let refreshed := Z.max existing (now + window) in
        let* _ := raise_if_model_execution_cancelled bs current in
        Ok (Some refreshed, fold_left (fun bs b => alter (extend refreshed) b bs) (owners_of bs current) bs)
  end.

(** [bind_model_execution_deadline] of a budget: its deadline becomes the earlier one. *)
Definition bind_deadline (bs : list ModelExecutionBudget) (current : option nat) (b : nat) : list ModelExecutionBudget :=
  match current_model_execution_deadline bs current with
  | None => bs
  | Some existing => alter (fun x => Budget (Z.min existing (deadline x)) (parent x) (cancelled x)) b bs
  end.

Definition set_cancelled (b : nat) (bs : list ModelExecutionBudget) : list ModelExecutionBudget :=
  alter (fun x => Budget (deadline x) (parent x) true) b bs.

(** ** Threads *)

Inductive phase : Type := Free | Acquiring (acquired remaining : list nat).

(** The budgets a thread has bound, the last one first, and the publications it is
    inside of, each with the budgets whose locks it took. *)
Record actor : Type := Actor { bound : list nat; publications : list (list nat); now_doing : phase }.

Record work : Type := Work {
  budgets : list ModelExecutionBudget; publication_lock : gmap nat rlock; actors : gmap Z actor
}.

Definition actor_of (w : work) (t : Z) : actor := default (Actor [] [] Free) (actors w !! t).

Definition set_actor (w : work) (bs : list ModelExecutionBudget) (locks : gmap nat rlock) (t : Z) (a : actor) : work :=
  Work bs locks (<[t := a]> (actors w)).

Definition drop_all (acquired : list nat) (locks : gmap nat rlock) : gmap nat rlock :=
  fold_left (fun l b => drop_lock b l) (reverse acquired) locks.

Inductive event : Type :=
  | Create (t requested : Z) | Bind (t : Z) (b : nat) | Unbind (t : Z) | Spawn (t child : Z)
  | Refresh (t now window : Z) | Begin (t : Z) | Take (t : Z) | Enter (t : Z) | End_ (t : Z) | Cancel (t : Z) (b : nat).

Definition step (w : work) (e : event) : option work :=
  let bs := budgets w in
  let locks := publication_lock w in
  match e with
  | Create t requested =>
      match actor_of w t with
      | Actor ctx ps Free =>
          Some (Work (bs ++ [Budget requested (head ctx) false]) (<[length bs := None]> locks) (actors w))
      | _ => None
      end
  | Bind t b =>
      match actor_of w t with
      | Actor ctx ps Free =>
          if decide (bs !! b = None) then None
          else
            let bs := bind_deadline bs (head ctx) b in
            Some (set_actor w bs locks t
                    (Actor (if is_ok (raise_if_model_execution_cancelled bs (Some b)) then b :: ctx else ctx) ps Free))
      | _ => None
      end
  | Unbind t =>
      match actor_of w t with
      | Actor (b :: ctx) ps Free => Some (set_actor w bs locks t (Actor ctx ps Free))
      | _ => None
      end
  | Spawn t child =>
      match actor_of w t, actors w !! child with
      | Actor ctx _ Free, None => Some (set_actor w bs locks child (Actor (take 1 ctx) [] Free))
      | _, _ => None
      end
  | Refresh t now window =>
      match actor_of w t with
      | Actor ctx ps Free =>
          match refresh_model_execution_deadline now window bs (head ctx) with
          | Ok (_, bs) => Some (Work bs locks (actors w))
          | Err _ => Some w
          end
      | _ => None
      end
  | Begin t =>
      match actor_of w t with
      | Actor ctx ps Free =>
          Some (set_actor w bs locks t (Actor ctx ps (Acquiring [] (reverse (owners_of bs (head ctx))))))
      | _ => None
      end
  | Take t =>
      match actor_of w t with
      | Actor ctx ps (Acquiring acquired (b :: remaining)) =>
          match take_lock t b locks with
          | Some locks => Some (set_actor w bs locks t (Actor ctx ps (Acquiring (acquired ++ [b]) remaining)))
          | None => None
          end
      | _ => None
      end
  | Enter t =>
      match actor_of w t with
      | Actor ctx ps (Acquiring acquired []) =>
          match raise_if_model_execution_cancelled bs (head ctx) with
          | Ok _ => Some (set_actor w bs locks t (Actor ctx (acquired :: ps) Free))
          | Err _ => Some (set_actor w bs (drop_all acquired locks) t (Actor ctx ps Free))
          end
      | _ => None
      end
  | End_ t =>
      match actor_of w t with
      | Actor ctx (acquired :: ps) Free => Some (set_actor w bs (drop_all acquired locks) t (Actor ctx ps Free))
      | _ => None
      end
  | Cancel t b =>
      match actor_of w t with
      | Actor ctx ps Free =>
          match take_lock t b locks with
          | Some _ => Some (Work (set_cancelled b bs) locks (actors w))
          | None => None
          end
      | _ => None
      end
  end.

Inductive reachable (ok : work -> event -> Prop) : work -> Prop :=
  | reachable_start : reachable ok (Work [] ∅ ∅)
  | reachable_step w e w' : reachable ok w -> ok w e -> step w e = Some w' -> reachable ok w'.

(** * A cancelled budget publishes nothing

    The invariant of the threads of [ExecutionBudget] and what it says about
    [cancel] and [model_execution_publication]. *)


Open Scope Z_scope.

(** ** The tree of budgets *)

(** A budget is created after its owner. *)
Definition tree_ok (bs : list ModelExecutionBudget) : Prop :=
  forall b x p, bs !! b = Some x -> parent x = Some p -> (p < b)%nat.

(** The later list has the budgets of the earlier one, with their owners. *)
Definition extends (bs bs' : list ModelExecutionBudget) : Prop :=
  forall b x, bs !! b = Some x -> exists x', bs' !! b = Some x' /\ parent x' = parent x.

(** A list of budgets with the owners of all of them. *)
Definition closed (bs : list ModelExecutionBudget) (l : list nat) : Prop :=
  forall b, b ∈ l -> exists x, bs !! b = Some x /\ forall p, parent x = Some p -> p ∈ l.

Lemma extends_refl bs : extends bs bs.
Proof. intros b x. by exists x. Qed.

Lemma extends_trans bs bs' bs'' : extends bs bs' -> extends bs' bs'' -> extends bs bs''.
Proof. intros H1 H2 b x (x' & (x'' & ? & ?)%H2 & ?)%H1. exists x''. split; congruence. Qed.

Lemma extends_app bs l : extends bs (bs ++ l).
Proof. intros b x Hx. exists x. split; [by apply lookup_app_l_Some|done]. Qed.

Lemma extends_alter f b bs : (forall x, parent (f x) = parent x) -> extends bs (alter f b bs).
Proof.
  intros Hf c x Hx. destruct (decide (b = c)) as [->|Hne].
  - exists (f x). by rewrite list_lookup_alter_eq, Hx.
  - exists x. by rewrite list_lookup_alter_ne.
Qed.

Lemma closed_extends bs bs' l : extends bs bs' -> closed bs l -> closed bs' l.
Proof. intros He Hl b (x & (x' & Hx' & Hp)%He & Hc)%Hl. exists x'. rewrite Hp. auto. Qed.

Lemma tree_ok_alter f b bs : (forall x, parent (f x) = parent x) -> tree_ok bs -> tree_ok (alter f b bs).
Proof.
  intros Hf Ht c x p Hx Hp. destruct (decide (b = c)) as [->|Hne].
  - rewrite list_lookup_alter_eq in Hx. destruct (bs !! c) eqn:E; [|done]. injection Hx as <-.
    rewrite Hf in Hp. by eapply Ht.
  - rewrite list_lookup_alter_ne in Hx by done. by eapply Ht.
Qed.

Lemma tree_ok_snoc bs d p c : tree_ok bs -> (forall q, p = Some q -> (q < length bs)%nat) -> tree_ok (bs ++ [Budget d p c]).
Proof.
  intros Ht Hp b x q [Hx|[Hl Hx]]%lookup_app_Some Hq; [by eapply Ht|].
  apply list_lookup_singleton_Some in Hx as [Hb <-]. apply Hp in Hq. lia.
Qed.

Lemma owners_mono fuel fuel' bs bs' c b :
  extends bs bs' -> (fuel <= fuel')%nat -> b ∈ owners fuel bs c -> b ∈ owners fuel' bs' c.
Proof.
  intros He. revert fuel' c; induction fuel as [|fuel IH]; intros fuel' c Hf; [by intros ?%elem_of_nil|].
  destruct fuel' as [|fuel']; [lia|]. destruct c as [c|]; [|by intros ?%elem_of_nil]. cbn [owners].
  intros [->|Hb]%elem_of_cons; [by left|]. right. apply IH; [lia|]. destruct (bs !! c) as [x|] eqn:E; simpl in Hb.
  - destruct (He _ _ E) as (x' & -> & Hp). simpl. by rewrite Hp.
  - destruct fuel; simpl in Hb; by apply elem_of_nil in Hb.
Qed.

(** The fuel of [owners_of] reaches every owner. *)
Lemma owners_closed fuel bs b :
  tree_ok bs -> (b < length bs)%nat -> (b < fuel)%nat -> closed bs (owners fuel bs (Some b)).
Proof.
  intros Ht. revert b; induction fuel as [|fuel IH]; intros b Hb Hf; [lia|].
  destruct (lookup_lt_is_Some_2 bs b Hb) as [x Hx].
  assert (Hrec : forall p, parent x = Some p -> closed bs (owners fuel bs (Some p)) /\ p ∈ owners fuel bs (Some p)).
  { intros p Hp. pose proof (Ht _ _ _ Hx Hp). split; [apply IH; lia|]. destruct fuel; [lia|]. by left. }
  cbn [owners]. rewrite Hx. cbn [mbind option_bind]. intros c [->|Hc]%elem_of_cons.
  - exists x. split; [done|]. intros p Hp. right. rewrite Hp. by apply Hrec.
  - destruct (parent x) as [p|] eqn:Ep; [|by destruct fuel; apply elem_of_nil in Hc].
    destruct (Hrec p eq_refl) as [Hcl _]. destruct (Hcl c Hc) as (y & Hy & Hp).
    exists y. split; [done|]. intros q Hq. right. by apply Hp.
Qed.

Lemma owners_of_closed bs c : tree_ok bs -> (forall b, c = Some b -> (b < length bs)%nat) -> closed bs (owners_of bs c).
Proof.
  intros Ht Hc. destruct c as [b|].
  - specialize (Hc b eq_refl). by apply owners_closed.
  - unfold owners_of. intros b Hb. by destruct (length bs); apply elem_of_nil in Hb.
Qed.

Lemma is_cancelled_snoc bs d p b : is_cancelled (bs ++ [Budget d p false]) b = is_cancelled bs b.
Proof.
  unfold is_cancelled. destruct (bs !! b) as [x|] eqn:E; [by rewrite (lookup_app_l_Some _ _ _ _ E)|].
  apply lookup_ge_None in E. rewrite lookup_app_r by done. by destruct (b - length bs)%nat as [|[|k]].
Qed.

Lemma raise_ok bs c : is_ok (raise_if_model_execution_cancelled bs c) = true -> forall b, b ∈ owners_of bs c -> is_cancelled bs b = false.
Proof.
  unfold raise_if_model_execution_cancelled. destruct (existsb _ _) eqn:E; [done|]. intros _ b Hb.
  destruct (is_cancelled bs b) eqn:Eb; [|done].
  assert (existsb (is_cancelled bs) (owners_of bs c) = true) as [=]%(eq_trans (eq_sym E)).
  apply existsb_exists. exists b. by rewrite <- list_elem_of_In.
Qed.

(** ** Deadlines *)

Definition same_shape (bs bs' : list ModelExecutionBudget) : Prop :=
  extends bs bs' /\ length bs' = length bs /\ forall b, is_cancelled bs' b = is_cancelled bs b.

Lemma alter_same_shape f b bs :
  (forall x, parent (f x) = parent x) -> (forall x, cancelled (f x) = cancelled x) -> same_shape bs (alter f b bs).
Proof.
  intros Hp Hc. split_and!; [by apply extends_alter|apply length_alter|]. intros c. unfold is_cancelled.
  destruct (decide (b = c)) as [->|Hne]; [rewrite list_lookup_alter_eq|by rewrite list_lookup_alter_ne].
  destruct (bs !! c); simpl; auto.
Qed.

Lemma bind_deadline_shape bs c b : same_shape bs (bind_deadline bs c b) /\ (tree_ok bs -> tree_ok (bind_deadline bs c b)).
Proof.
  unfold bind_deadline. destruct (current_model_execution_deadline bs c).
  - split; [by apply alter_same_shape|by apply tree_ok_alter].
  - split; [|done]. split_and!; [apply extends_refl|done|done].
Qed.

Lemma refresh_shape now window bs c d bs' :
  refresh_model_execution_deadline now window bs c = Ok (d, bs') -> same_shape bs bs' /\ (tree_ok bs -> tree_ok bs').
Proof.
  unfold refresh_model_execution_deadline. destruct (current_model_execution_deadline bs c) as [e|].
  2:{ intros [= <- <-]. split; [|done]. split_and!; [apply extends_refl|done|done]. }
  destruct (window <=? 0); [done|]. destruct (raise_if_model_execution_cancelled bs c); [|done].
  intros [= <- <-]. generalize (owners_of bs c). intros l. revert bs.
  induction l as [|b l IH]; intros bs; cbn [fold_left]; [split; [split_and!; [apply extends_refl|done|done]|done]|].
  destruct (IH (alter (extend (Z.max e (now + window))) b bs)) as [(He & Hl & Hc) Ht].
  destruct (alter_same_shape (extend (Z.max e (now + window))) b bs) as (He' & Hl' & Hc'); [done..|].
  split; [|intros Hw; by apply Ht, tree_ok_alter].
  split_and!; [by eapply extends_trans|congruence|]. intros k. by rewrite Hc.
Qed.

(** ** The invariant *)

Definition taken (a : actor) : list nat :=
  concat (publications a) ++ match now_doing a with Free => [] | Acquiring acquired _ => acquired end.

Definition doing_ok (bs : list ModelExecutionBudget) (a : actor) : Prop :=
  match now_doing a with
  | Free => True
  | Acquiring acquired remaining =>
      closed bs (acquired ++ remaining) /\ forall b, b ∈ acquired ++ remaining -> b ∈ owners_of bs (head (bound a))
  end.

Definition actor_ok (bs : list ModelExecutionBudget) (a : actor) : Prop :=
  (forall b, b ∈ bound a -> (b < length bs)%nat) /\ (forall l, l ∈ publications a -> closed bs l) /\ doing_ok bs a.

Definition live (bs : list ModelExecutionBudget) (a : actor) : Prop :=
  forall l b, l ∈ publications a -> b ∈ l -> is_cancelled bs b = false.

Definition budget_inv (w : work) : Prop :=
  tree_ok (budgets w) /\ locks_ok (publication_lock w) /\
  (forall b, is_Some (publication_lock w !! b) -> (b < length (budgets w))%nat) /\
  forall t, actor_ok (budgets w) (actor_of w t) /\ live (budgets w) (actor_of w t) /\
    forall b, holds (publication_lock w) t b = Z.of_nat (count b (taken (actor_of w t))).

Lemma actor_ok_extends bs bs' a : extends bs bs' -> (length bs <= length bs')%nat -> actor_ok bs a -> actor_ok bs' a.
Proof.
  intros He Hl (H1 & H2 & H3). split_and!.
  - intros b Hb. specialize (H1 b Hb). lia.
  - intros l Hin. by eapply closed_extends, H2.
  - unfold doing_ok in *. destruct (now_doing a); [done|]. destruct H3 as [H3 H4].
    split; [by eapply closed_extends|]. intros b Hb. eapply owners_mono; [done|done|auto].
Qed.

Lemma publication_held a l b : l ∈ publications a -> b ∈ l -> (1 <= count b (taken a))%nat.
Proof.
  intros Hl Hb. destruct (count b (taken a)) eqn:E; [|lia]. apply count_zero in E. destruct E.
  unfold taken. apply elem_of_app. left. apply list_elem_of_In, in_concat. exists l. by rewrite <- !list_elem_of_In.
Qed.

(** One thread and the budgets change; what the others hold stays as it is. *)
Lemma budget_inv_update w bs' locks' acts t :
  budget_inv w -> extends (budgets w) bs' -> (length (budgets w) <= length bs')%nat -> tree_ok bs' ->
  (forall u b, u <> t -> 1 <= holds (publication_lock w) u b -> is_cancelled bs' b = is_cancelled (budgets w) b) ->
  locks_ok locks' -> (forall b, is_Some (locks' !! b) -> (b < length bs')%nat) ->
  (forall u b, u <> t -> holds locks' u b = holds (publication_lock w) u b) ->
  (forall u, u <> t -> acts !! u = actors w !! u) ->
  let w' := Work bs' locks' acts in
  actor_ok bs' (actor_of w' t) -> live bs' (actor_of w' t) ->
  (forall b, holds locks' t b = Z.of_nat (count b (taken (actor_of w' t)))) ->
  budget_inv w'.
Proof.
  intros (_ & _ & _ & Ha) He Hlen Ht Hc Hl Hd Hh Hu w' Hok Hlive Hcount.
  split_and!; [done..|]. intros u. destruct (decide (u = t)) as [->|Hne]; [done|].
  assert (Ea : actor_of w' u = actor_of w u) by (unfold actor_of; cbn [actors w']; by rewrite Hu).
  destruct (Ha u) as (Hok' & Hlive' & Hcount'). rewrite Ea. split_and!.
  - by eapply actor_ok_extends.
  - intros l b Hin Hb. cbn [budgets w']. rewrite (Hc u b Hne); [by eapply Hlive'|].
    rewrite Hcount'. pose proof (publication_held _ _ _ Hin Hb). lia.
  - intros b. cbn [publication_lock w']. by rewrite Hh.
Qed.

Lemma budget_inv_start : budget_inv (Work [] ∅ ∅).
Proof.
  unfold budget_inv. split_and!; [by intros b x p ?|by intros k o n|by intros b [? ?]|]. intros t. unfold actor_of. simpl.
  unfold actor_ok. rewrite lookup_empty.
  split_and!; [intros b Hb; by apply elem_of_nil in Hb|intros l Hl; by apply elem_of_nil in Hl|done| |done].
  intros l b Hl. by apply elem_of_nil in Hl.
Qed.

Lemma actor_of_same acts bs locks t a : actor_of (Work bs locks (<[t := a]> acts)) t = a.
Proof. unfold actor_of. cbn [actors]. by rewrite lookup_insert_eq. Qed.

(** A step that leaves the locks and the flags alone and gives the thread [a]. *)
Lemma budget_inv_actor w bs' t a :
  budget_inv w -> same_shape (budgets w) bs' -> tree_ok bs' ->
  actor_ok bs' a -> publications a = publications (actor_of w t) -> taken a = taken (actor_of w t) ->
  budget_inv (set_actor w bs' (publication_lock w) t a).
Proof.
  intros Hw (He & Hlen & Hc) Ht Hok Hp Htk. pose proof Hw as (_ & Hl & Hd & Ha). destruct (Ha t) as (_ & Hlive & Hcount).
  eapply (budget_inv_update w bs' (publication_lock w) _ t); try done.
  - lia.
  - intros b Hb. rewrite Hlen. by apply Hd.
  - intros u Hu. by rewrite lookup_insert_ne.
  - by rewrite actor_of_same.
  - rewrite actor_of_same. intros l b Hin Hb. rewrite Hc. rewrite Hp in Hin. by eapply Hlive.
  - intros b. rewrite actor_of_same, Htk. apply Hcount.
Qed.

(** Giving back the locks of a publication, entered or not. *)
Lemma budget_inv_drop w t a acquired :
  budget_inv w -> actor_ok (budgets w) a -> live (budgets w) a ->
  (forall b, count b (taken (actor_of w t)) = (count b acquired + count b (taken a))%nat) ->
  budget_inv (set_actor w (budgets w) (drop_all acquired (publication_lock w)) t a).
Proof.
  intros Hw Hok Hlive Htk. pose proof Hw as (Ht & Hl & Hd & Ha). destruct (Ha t) as (_ & _ & Hcount).
  destruct (drop_locks t (reverse acquired) (publication_lock w)) as (Hl' & Hk & Hh); [done| |].
  { intros k. rewrite Hcount, Htk, count_reverse. lia. }
  eapply (budget_inv_update w (budgets w) _ _ t); try done.
  - apply extends_refl.
  - intros b Hb. apply Hd. destruct (publication_lock w !! b) eqn:E; [by eexists|]. exfalso.
    revert Hb. unfold drop_all. clear -E. generalize (reverse acquired) as ks. generalize dependent (publication_lock w).
    intros l E ks. revert l E. induction ks as [|k ks IH]; intros l E; cbn [fold_left]; [rewrite E; by intros [? ?]|].
    apply IH. unfold drop_lock. destruct (l !! k) as [[[o n]|]|] eqn:Ek; [|done..].
    rewrite lookup_insert_ne; [done|]. intros ->. congruence.
  - intros u b Hu. unfold drop_all. rewrite Hh, decide_False by done. lia.
  - intros u Hu. by rewrite lookup_insert_ne.
  - by rewrite actor_of_same.
  - by rewrite actor_of_same.
  - intros b. rewrite actor_of_same. unfold drop_all. rewrite Hh, decide_True, Hcount, Htk, count_reverse by done. lia.
Qed.

(** ** Every step keeps it *)

(** A cancel comes from outside the publications of the budget: the scheduler does not
    cancel what its own thread is publishing under. *)
Definition cancels_from_outside (w : work) (e : event) : Prop :=
  match e with Cancel t b => b ∉ concat (publications (actor_of w t)) | _ => True end.

Lemma head_bound bs a b : actor_ok bs a -> head (bound a) = Some b -> (b < length bs)%nat.
Proof. intros (H & _) Hh. apply H. destruct (bound a); [done|]. injection Hh as ->. by left. Qed.

Ltac bstep_start Hw t Es Hok :=
  pose proof Hw as (Ht & Hl & Hd & Ha); destruct (Ha t) as (Hok & Hlive & Hcount);
  simpl in Es; destruct (actor_of _ t) as [ctx ps ph] eqn:Ea.

Lemma budget_create w t d w' : budget_inv w -> step w (Create t d) = Some w' -> budget_inv w'.
Proof.
  intros Hw Es. bstep_start Hw t Es Hok. destruct ph; [|done]. injection Es as <-.
  assert (Hnone : publication_lock w !! length (budgets w) = None).
  { destruct (_ !! length _) eqn:E; [|done]. assert (is_Some (publication_lock w !! length (budgets w))) as Hb%Hd by by eexists. lia. }
  assert (Hh : forall u b, holds (<[length (budgets w) := None]> (publication_lock w)) u b = holds (publication_lock w) u b).
  { intros u b. unfold holds. destruct (decide (b = length (budgets w))) as [->|]; [by rewrite lookup_insert_eq, Hnone|].
    by rewrite lookup_insert_ne. }
  assert (Hsame : actor_of (Work (budgets w ++ [Budget d (head ctx) false]) (<[length (budgets w) := None]> (publication_lock w)) (actors w)) t
                  = Actor ctx ps Free) by apply Ea.
  eapply (budget_inv_update w _ _ _ t); try done.
  - apply extends_app.
  - rewrite length_app. lia.
  - apply tree_ok_snoc; [done|]. intros q Hq. by eapply head_bound.
  - intros u b _ _. apply is_cancelled_snoc.
  - intros k o n. destruct (decide (k = length (budgets w))) as [->|]; [by rewrite lookup_insert_eq|].
    rewrite lookup_insert_ne by done. apply Hl.
  - intros b. rewrite length_app. simpl. destruct (decide (b = length (budgets w))) as [->|]; [lia|].
    rewrite lookup_insert_ne by done. intros Hb%Hd. lia.
  - rewrite Hsame. eapply actor_ok_extends; [apply extends_app|rewrite length_app; lia|done].
  - rewrite Hsame. intros l b Hin Hb. rewrite is_cancelled_snoc. by eapply Hlive.
  - intros b. rewrite Hsame, Hh. apply Hcount.
Qed.

Lemma budget_bind w t b w' : budget_inv w -> step w (Bind t b) = Some w' -> budget_inv w'.
Proof.
  intros Hw Es. bstep_start Hw t Es Hok. destruct ph; [|done]. destruct (decide _) as [|Hb]; [done|]. injection Es as <-.
  destruct (bind_deadline_shape (budgets w) (head ctx) b) as [Hs Hk]. pose proof Hs as (He & Hlen & _).
  apply budget_inv_actor; try done; [by apply Hk| |by rewrite Ea|by rewrite Ea].
  destruct Hok as (H1 & H2 & H3). split_and!; [|intros l Hin; by eapply closed_extends, H2|done].
  cbn [bound] in *. rewrite Hlen. intros c Hc. destruct (is_ok _); [|auto]. apply elem_of_cons in Hc as [->|]; [|auto].
  apply lookup_lt_is_Some_1. by destruct (budgets w !! b); [eexists|].
Qed.

Lemma same_shape_refl bs : same_shape bs bs.
Proof. split_and!; [apply extends_refl|done|done]. Qed.

Lemma budget_unbind w t w' : budget_inv w -> step w (Unbind t) = Some w' -> budget_inv w'.
Proof.
  intros Hw Es. bstep_start Hw t Es Hok. destruct ctx as [|b ctx], ph; try done. injection Es as <-.
  apply budget_inv_actor; [done|apply same_shape_refl|done| |by rewrite Ea|by rewrite Ea].
  destruct Hok as (H1 & H2 & H3). split_and!; [|done|done]. intros c Hc. apply H1. by right.
Qed.

Lemma budget_spawn w t child w' : budget_inv w -> step w (Spawn t child) = Some w' -> budget_inv w'.
Proof.
  intros Hw Es. bstep_start Hw t Es Hok. destruct ph; [|done]. destruct (actors w !! child) eqn:Ec; [done|]. injection Es as <-.
  assert (Hnew : actor_of w child = Actor [] [] Free) by (unfold actor_of; by rewrite Ec).
  apply budget_inv_actor; [done|apply same_shape_refl|done| |by rewrite Hnew|by rewrite Hnew].
  destruct Hok as (H1 & H2 & H3). split_and!; [|intros l Hin; by apply elem_of_nil in Hin|done].
  intros c Hc. apply H1. destruct ctx; [by apply elem_of_nil in Hc|]. simpl in Hc. apply list_elem_of_singleton in Hc as ->. by left.
Qed.

Lemma budget_refresh w t now window w' : budget_inv w -> step w (Refresh t now window) = Some w' -> budget_inv w'.
Proof.
  intros Hw Es. bstep_start Hw t Es Hok. destruct ph; [|done].
  destruct (refresh_model_execution_deadline _ _ _ _) as [[d bs']|] eqn:Er; [|by injection Es as <-]. injection Es as <-.
  apply refresh_shape in Er as [(He & Hlen & Hc) Hk].
  assert (Hsame : actor_of (Work bs' (publication_lock w) (actors w)) t = Actor ctx ps Free) by apply Ea.
  eapply (budget_inv_update w _ _ _ t); rewrite ?Hsame; try done; [lia|by apply Hk|by rewrite Hlen| |].
  - eapply actor_ok_extends; [done|lia|done].
  - intros l b Hin Hb. rewrite Hc. by eapply Hlive.
Qed.

Lemma budget_begin w t w' : budget_inv w -> step w (Begin t) = Some w' -> budget_inv w'.
Proof.
  intros Hw Es. bstep_start Hw t Es Hok. destruct ph; [|done]. injection Es as <-.
  apply budget_inv_actor; [done|apply same_shape_refl|done| |by rewrite Ea|by rewrite Ea].
  pose proof Hok as (H1 & H2 & H3). split_and!; [done|done|]. simpl. split.
  - pose proof (owners_of_closed (budgets w) (head ctx) Ht) as Hcl. intros b Hb. cbn [app] in Hb. rewrite elem_of_reverse in Hb.
    destruct (Hcl ltac:(intros c Hc; by eapply head_bound) b Hb) as (x & Hx & Hp). exists x. split; [done|].
    intros p Hpp. cbn [app]. rewrite elem_of_reverse. auto.
  - intros b Hb. cbn [app] in Hb. by rewrite elem_of_reverse in Hb.
Qed.

Lemma budget_take w t w' : budget_inv w -> step w (Take t) = Some w' -> budget_inv w'.
Proof.
  intros Hw Es. bstep_start Hw t Es Hok. destruct ph as [|acq [|b rem]]; [done|done|].
  destruct (take_lock t b (publication_lock w)) as [locks'|] eqn:El; [|done]. injection Es as <-.
  destruct (take_lock_ok _ _ _ _ El Hl) as [Hl' _].
  destruct Hok as (H1 & H2 & [H3 H4]). rewrite cons_middle, app_assoc in H3, H4.
  eapply (budget_inv_update w _ _ _ t); rewrite ?actor_of_same; try done.
  - apply extends_refl.
  - intros k Hk. apply Hd. unfold take_lock in El. destruct (publication_lock w !! b) as [l|] eqn:Eb; [|done].
    destruct (decide (k = b)) as [->|Hne]; [rewrite Eb; by eexists|].
    destruct l as [[o n]|]; [destruct (decide _); [|done]|]; injection El as <-; by rewrite lookup_insert_ne in Hk.
  - intros u k Hu. rewrite (take_lock_holds _ _ _ _ _ _ El), decide_False by tauto. lia.
  - intros u Hu. by rewrite lookup_insert_ne.
  - intros k. rewrite (take_lock_holds _ _ _ _ _ _ El), Hcount. unfold taken. cbn [publications now_doing concat].
    rewrite !count_app, count_single. destruct (decide (k = b)) as [->|Hk]; [rewrite decide_True by done|rewrite decide_False by tauto]; lia.
Qed.

Lemma budget_enter w t w' : budget_inv w -> step w (Enter t) = Some w' -> budget_inv w'.
Proof.
  intros Hw Es. bstep_start Hw t Es Hok. destruct ph as [|acq [|b rem]]; [done| |done].
  destruct Hok as (H1 & H2 & [H3 H4]). rewrite app_nil_r in H3, H4.
  destruct (raise_if_model_execution_cancelled (budgets w) (head ctx)) as [[]|] eqn:Er; injection Es as <-.
  - eapply (budget_inv_update w _ _ _ t); rewrite ?actor_of_same; try done.
    + apply extends_refl.
    + intros u Hu. by rewrite lookup_insert_ne.
    + split_and!; [done| |done]. intros l [->|Hin]%elem_of_cons; [done|by apply H2].
    + intros l b [->|Hin]%elem_of_cons Hb; [|by eapply Hlive].
      eapply raise_ok; [by rewrite Er|by apply H4].
    + intros b. rewrite Hcount. unfold taken. cbn [publications now_doing concat]. rewrite !count_app, count_nil. lia.
  - apply budget_inv_drop; [done|by split_and!|done|]. rewrite Ea.
    intros b. unfold taken. cbn [publications now_doing concat]. rewrite !count_app, count_nil. lia.
Qed.

Lemma budget_end w t w' : budget_inv w -> step w (End_ t) = Some w' -> budget_inv w'.
Proof.
  intros Hw Es. bstep_start Hw t Es Hok. destruct ps as [|acq ps], ph; try done. injection Es as <-.
  destruct Hok as (H1 & H2 & H3). apply budget_inv_drop; [done| | |].
  - split_and!; [done| |done]. intros l Hin. apply H2. by right.
  - intros l b Hin. apply Hlive. by right.
  - rewrite Ea. intros b. unfold taken. cbn [publications now_doing concat]. rewrite !count_app. lia.
Qed.

Lemma budget_cancel w t b w' :
  budget_inv w -> cancels_from_outside w (Cancel t b) -> step w (Cancel t b) = Some w' -> budget_inv w'.
Proof.
  intros Hw Hout Es. simpl in Hout. bstep_start Hw t Es Hok. destruct ph; [|done].
  destruct (take_lock t b (publication_lock w)) as [locks'|] eqn:El; [|done]. injection Es as <-.
  assert (Hsame : actor_of (Work (set_cancelled b (budgets w)) (publication_lock w) (actors w)) t = Actor ctx ps Free) by apply Ea.
  assert (He : extends (budgets w) (set_cancelled b (budgets w))) by by apply extends_alter.
  assert (Hlen : length (set_cancelled b (budgets w)) = length (budgets w)) by apply length_alter.
  assert (Hother : forall c, c <> b -> is_cancelled (set_cancelled b (budgets w)) c = is_cancelled (budgets w) c).
  { intros c Hc. unfold is_cancelled, set_cancelled. by rewrite list_lookup_alter_ne. }
  eapply (budget_inv_update w _ _ _ t); rewrite ?Hsame; try done; [lia|by apply tree_ok_alter| |by rewrite Hlen| |].
  - intros u c Hu Hh. apply Hother. intros ->. unfold take_lock in El. unfold holds in Hh.
    destruct (publication_lock w !! b) as [[[o n]|]|]; [|lia|done].
    destruct (decide (o = t)); [|done]. rewrite decide_False in Hh by congruence. lia.
  - eapply actor_ok_extends; [done|lia|done].
  - intros l c Hin Hc. rewrite Hother; [by eapply Hlive|]. intros ->. apply Hout.
    apply list_elem_of_In, in_concat. exists l. by rewrite <- !list_elem_of_In.
Qed.

Lemma budget_inv_reachable w : reachable cancels_from_outside w -> budget_inv w.
Proof.
  induction 1 as [|w e w' _ IH Hok Es]; [apply budget_inv_start|].
  destruct e; eauto using budget_create, budget_bind, budget_unbind, budget_spawn, budget_refresh, budget_begin,
    budget_take, budget_enter, budget_end, budget_cancel.
Qed.

(** C35: [model_execution_publication] and [ModelExecutionBudget.cancel] exclude each other.
    In every state the threads reach by creating, binding and refreshing budgets,
    publishing and cancelling (a scheduler does not cancel a budget its own thread is
    publishing under), the budgets whose locks a thread took for a publication it is
    inside of include every owner of each of them, none of them is cancelled, and no
    other thread is inside a publication of one of them: once [cancel] has returned, no
    worker of the budget or of a budget below it is publishing. *)
Theorem publication_excludes_cancel (w : work) (t u : Z) (l l' : list nat) (b : nat)
    (Hr : reachable cancels_from_outside w)
    (Hl : l ∈ publications (actor_of w t)) (Hb : b ∈ l)
    (Hl' : l' ∈ publications (actor_of w u)) (Hb' : b ∈ l') :
  t = u /\ is_cancelled (budgets w) b = false /\
  exists x, budgets w !! b = Some x /\ forall p, parent x = Some p -> p ∈ l.
Proof.
  pose proof (budget_inv_reachable _ Hr) as (Ht & Hlo & Hd & Ha).
  destruct (Ha t) as ((_ & Hcl & _) & Hlive & Hcount), (Ha u) as (_ & _ & Hcount').
  split; [|split; [by eapply Hlive|by eapply Hcl]].
  pose proof (publication_held _ _ _ Hl Hb). pose proof (publication_held _ _ _ Hl' Hb').
  specialize (Hcount b). specialize (Hcount' b). unfold holds in *.
  destruct (publication_lock w !! b) as [[[o n]|]|]; [|lia..]. repeat case_decide; subst; lia || done.
Qed.
