(* ===== verification/ConcurrencyExamples.v ===== *)
(** * ConcurrencyExamples: the lock theorems on concrete schedules *)

From stdpp Require Import prelude gmap sets fin_sets fin_maps strings list sorting.
From S2P Require Import Prelude Text Kahn RWLock RWLockProps CapacityGate RLocks.
From S2P Require Import ExecutionBudget.
From S2P Require Import ProjectLock.

Open Scope Z_scope.

(** ** Schedules *)

Lemma rw_reachable_run ok es s s' :
  RWLock.reachable ok s -> (forall s e, e ∈ es -> ok s e) -> RWLock.run s es = Some s' -> RWLock.reachable ok s'.
Proof.
  revert s; induction es as [|e es IH]; intros s Hr Hok; simpl; [by intros [= <-]|].
  destruct (RWLock.step s e) as [s1|] eqn:E; [|done]. simpl. apply IH.
  - eapply RWLock.reachable_step; [exact Hr| |exact E]. apply Hok. by left.
  - intros s2 e2 He. apply Hok. by right.
Qed.

Fixpoint gate_run (g : Gate.gate) (es : list Gate.event) : option Gate.gate :=
  match es with [] => Some g | e :: es => g ← Gate.step g e; gate_run g es end.

Lemma gate_reachable_run low high es g g' :
  Gate.reachable low high g -> Forall (Gate.told low high) es -> gate_run g es = Some g' -> Gate.reachable low high g'.
Proof.
  revert g; induction es as [|e es IH]; intros g Hr Hok; simpl; [by intros [= <-]|].
  apply Forall_cons in Hok as [He Hok]. destruct (Gate.step g e) as [g1|] eqn:E; [|done]. simpl. apply IH; [|done].
  by eapply Gate.reachable_step.
Qed.

Fixpoint project_run (p : project) (es : list ProjectLock.event) : option project :=
  match es with [] => Some p | e :: es => p ← ProjectLock.step p e; project_run p es end.

Lemma project_reachable_run es p p' :
  ProjectLock.reachable p -> project_run p es = Some p' -> ProjectLock.reachable p'.
Proof.
  revert p; induction es as [|e es IH]; intros p Hr; simpl; [by intros [= <-]|].
  destruct (ProjectLock.step p e) as [p1|] eqn:E; [|done]. simpl. apply IH.
  by eapply ProjectLock.reachable_step.
Qed.

(** ** The readers-writer lock: one thread writes, one waits to write, one to read *)

Definition busy : RWLock.system :=
  System (RW (Some 1) 2 ∅ ∅ 1) {[2 := Waiter (WaitWrite 0) true true; 3 := Waiter WaitRead false true]}.

Definition busy_schedule : list RWLock.event :=
  [RWLock.Acquire 1 true; RWLock.Acquire 1 true; RWLock.Acquire 2 true; AcquireRead 3 false].

Lemma busy_run : RWLock.run initial busy_schedule = Some busy.
Proof. vm_compute. reflexivity. Qed.

Lemma busy_reachable ok : (forall s e, e ∈ busy_schedule -> ok s e) -> RWLock.reachable ok busy.
Proof. intros Hok. eapply rw_reachable_run; [apply reachable_initial|exact Hok|exact busy_run]. Qed.

Lemma busy_calm ok : (forall s e, match e with RWLock.Abort _ => False | _ => True end -> ok s e) -> RWLock.reachable ok busy.
Proof.
  intros Hok. apply busy_reachable. intros s e He. apply Hok. unfold busy_schedule in He.
  repeat (apply elem_of_cons in He as [->|He]; [exact I|]). by apply elem_of_nil in He.
Qed.

Lemma rw_exclusion_witness : writer_thread (lock busy) = Some 1 /\ waiters busy !! 1 = None.
Proof.
  split; [reflexivity|]. apply (rw_exclusion busy 1 1); [|reflexivity].
  apply busy_calm. intros s e He. destruct e; exact I || destruct He.
Defined.

Definition freed : RWLock.system :=
  System (RW None 0 ∅ ∅ 1) {[2 := Waiter (WaitWrite 0) true false; 3 := Waiter WaitRead false false]}.

Lemma rw_progress_witness : exists t s', RWLock.step freed (RWLock.Wake t) = Some s'.
Proof.
  assert (Hr : RWLock.reachable not_abandoned freed).
  { eapply rw_reachable_run; [apply busy_calm; intros s e He; destruct e; exact He| |].
    - instantiate (1 := [RWLock.Release 1; RWLock.Release 1]). intros s e He.
      repeat (apply elem_of_cons in He as [->|He]; [exact I|]). by apply elem_of_nil in He.
    - vm_compute. reflexivity. }
  destruct (rw_progress freed Hr eq_refl eq_refl) as (t & s' & Hs & _).
  - intros E. apply (f_equal (fun m => m !! 2)) in E. vm_compute in E. discriminate.
  - exists t, s'. exact Hs.
Defined.

Lemma rw_reads_kept_witness :
  exists s', RWLock.step busy (RWLock.Abort 2) = Some s' /\ reads_of s' 2 = reads_of busy 2 + 0.
Proof.
  eexists. split; [reflexivity|]. apply (rw_reads_kept busy (RWLock.Abort 2) _ 2); [|reflexivity].
  apply busy_calm. intros; exact I.
Defined.

(** ** The capacity gate: two slots, three threads *)

Definition full_gate : Gate.gate := Gate.G {[1 := 1; 2 := 1]} {[3 := (false, true)]}.

Lemma gate_admits_witness :
  Gate.reachable 2 2 full_gate /\ Z.of_nat (size (Gate.owners full_gate)) <= 2.
Proof.
  assert (Hr : Gate.reachable 2 2 full_gate).
  { eapply gate_reachable_run; [apply Gate.reachable_initial| |].
    - instantiate (1 := [Gate.Acquire 1 true 2; Gate.Acquire 2 true 2; Gate.Acquire 3 false 2]).
      repeat constructor; simpl; lia.
    - vm_compute. reflexivity. }
  split; [exact Hr|]. apply (Gate.gate_admits 2 2 full_gate Hr).
Defined.

(** ** The project locks *)

Definition empty_project : project := Project new_state ∅.

Definition state_after (es : list ProjectLock.event) : project := default empty_project (project_run empty_project es).

Lemma state_after_reachable es :
  bool_decide (is_Some (project_run empty_project es)) = true -> ProjectLock.reachable (state_after es).
Proof.
  intros Hs. apply bool_decide_eq_true in Hs as [p Hp]. unfold state_after. rewrite Hp. simpl.
  by apply (project_reachable_run es empty_project); [apply reachable_new|].
Qed.

Definition coarse_schedule : list ProjectLock.event := [EnterCoarse 1 false; EnterScoped 2 [u "src/A.java"]].

Lemma project_lock_exclusion_witness :
  in_coarse (state_after coarse_schedule) 1 /\ stack (thread_of (state_after coarse_schedule) 2) = [].
Proof.
  assert (Hr : ProjectLock.reachable (state_after coarse_schedule)) by (apply state_after_reachable; vm_compute; reflexivity).
  assert (Hc : in_coarse (state_after coarse_schedule) 1).
  { replace (state_after coarse_schedule) with (state_after coarse_schedule) by reflexivity.
    unfold in_coarse. replace (stack (thread_of (state_after coarse_schedule) 1)) with [CoarseFrame]
      by (vm_compute; reflexivity). by left. }
  split; [exact Hc|]. destruct (project_lock_exclusion (state_after coarse_schedule) 1 Hr) as (He & _).
  apply (He Hc 2). discriminate.
Defined.

(** Thread 1 has [a] and wants [b], which thread 2 has while it runs. *)
Definition crossing : list ProjectLock.event :=
  [EnterScoped 1 [u "b"; u "a"]; EnterScoped 2 [u "b"]; Take 2; Take 1].

Lemma path_locks_no_deadlock_witness :
  exists t k, wanted (doing (thread_of (state_after crossing) t)) = Some k.
Proof.
  assert (Hr : ProjectLock.reachable (state_after crossing)) by (apply state_after_reachable; vm_compute; reflexivity).
  destruct (path_locks_no_deadlock (state_after crossing) Hr) as (t & k & Hw & _).
  - intros t k Hw f Hf. destruct (decide (t = 1)) as [->|H1].
    { vm_compute in Hf. by apply elem_of_nil in Hf. }
    destruct (decide (t = 2)) as [->|H2]; [vm_compute in Hw; discriminate|].
    exfalso. unfold thread_of in Hw.
    assert (Hd : bool_decide (map_Forall (fun t (_ : thread) => t = 1 \/ t = 2) (threads (state_after crossing))) = true)
      by (vm_compute; reflexivity).
    apply bool_decide_eq_true in Hd. assert (Hn : threads (state_after crossing) !! t = None).
    { destruct (threads (state_after crossing) !! t) as [th|] eqn:E; [|reflexivity].
      destruct (Hd t th E); contradiction. }
    rewrite Hn in Hw. discriminate.
  - exists 1, (u "b"). vm_compute. reflexivity.
  - exists t, k. exact Hw.
Defined.

(** Lexical order does not help transactions inside of transactions: each of two threads
    has the path that the other one wants, and neither can go on. *)
Lemma nested_transactions_deadlock :
  let p := state_after [EnterScoped 1 [u "b"]; Take 1; EnterScoped 2 [u "a"]; Take 2;
                        EnterScoped 1 [u "a"]; EnterScoped 2 [u "b"]] in
  wanted (doing (thread_of p 1)) = Some (u "a") /\ ProjectLock.step p (Take 1) = None /\
  wanted (doing (thread_of p 2)) = Some (u "b") /\ ProjectLock.step p (Take 2) = None.
Proof. vm_compute. auto. Qed.

(** ** The budgets: a worker publishes under its own budget and its scheduler's *)

Fixpoint budget_run (w : work) (es : list ExecutionBudget.event) : option work :=
  match es with [] => Some w | e :: es => w ← ExecutionBudget.step w e; budget_run w es end.

Lemma budget_reachable_run ok es w w' :
  ExecutionBudget.reachable ok w -> (forall w e, e ∈ es -> ok w e) -> budget_run w es = Some w' -> ExecutionBudget.reachable ok w'.
Proof.
  revert w; induction es as [|e es IH]; intros w Hr Hok; simpl; [by intros [= <-]|].
  destruct (ExecutionBudget.step w e) as [w1|] eqn:E; [|done]. simpl. apply IH.
  - eapply ExecutionBudget.reachable_step; [exact Hr| |exact E]. apply Hok. by left.
  - intros w2 e2 He. apply Hok. by right.
Qed.

Definition publishing_schedule : list ExecutionBudget.event :=
  [Create 1 900; Bind 1 0; Create 1 600; Spawn 1 2; Bind 2 1; Refresh 2 500 300; Begin 2;
   ExecutionBudget.Take 2; ExecutionBudget.Take 2; Enter 2].

Definition publishing : work := default (Work [] ∅ ∅) (budget_run (Work [] ∅ ∅) publishing_schedule).

(** The refresh of the worker extends both budgets, but for the later one of the scheduler;
    the scheduler waits to cancel until the publication ends. *)
Lemma publishing_state :
  budgets publishing = [Budget 900 None false; Budget 800 (Some 0%nat) false] /\
  publications (actor_of publishing 2) = [[0%nat; 1%nat]] /\  ExecutionBudget.step publishing (Cancel 1 0) = None.
Proof. vm_compute. auto. Qed.

Lemma publication_excludes_cancel_witness : is_cancelled (budgets publishing) 0 = false.
Proof.
  assert (Hr : ExecutionBudget.reachable cancels_from_outside publishing).
  { eapply budget_reachable_run; [apply reachable_start| |].
    - instantiate (1 := publishing_schedule). intros w e He. unfold publishing_schedule in He.
      repeat (apply elem_of_cons in He as [->|He]; [exact I|]). by apply elem_of_nil in He.
    - vm_compute. reflexivity. }
  assert (Hl : [0%nat; 1%nat] ∈ publications (actor_of publishing 2)).
  { replace (publications (actor_of publishing 2)) with [[0%nat; 1%nat]] by (vm_compute; reflexivity). by left. }
  assert (Hb : 0%nat ∈ [0%nat; 1%nat]) by by left.
  destruct (publication_excludes_cancel publishing 2 2 _ _ 0 Hr Hl Hb Hl Hb) as (_ & Hc & _). exact Hc.
Defined.
