(* ===== verification/Tarjan.v ===== *)
(** * Tarjan: [compute_scc] of [artifact_dependency_graph.py]

    Tarjan's algorithm as the nested function [strongconnect] runs it, on the
    variables it shares with its enclosing method.  [succ] is
    [self.adjacency.get(vertex, ())], each set in the order it is iterated; the stack
    has its last element first. *)

From stdpp Require Import prelude gmap sets fin_sets fin_maps fin_map_dom strings list.
From S2P Require Import Prelude.

Open Scope Z_scope.
Open Scope py_scope.

Section tarjan.
Context {K : Type} `{Countable K}.
Context (succ : K -> list K).

Record scc_state : Type := SCC {
  index : Z; indices : gmap K Z; lowlink : gmap K Z; on_stack : gset K; stack : list K; sccs : list (list K)
}.

Definition visit (vertex : K) (s : scc_state) : scc_state :=
  SCC (index s + 1) (<[vertex := index s]> (indices s)) (<[vertex := index s]> (lowlink s))
    ({[vertex]} ∪ on_stack s) (vertex :: stack s) (sccs s).

(** [lowlink[vertex] = min(lowlink[vertex], other)] *)
Definition lower (vertex : K) (other : Z) (s : scc_state) : res scc_state :=
  match lowlink s !! vertex with
  | Some low => Ok (SCC (index s) (indices s) (<[vertex := Z.min low other]> (lowlink s)) (on_stack s) (stack s) (sccs s))
  | None => Err KeyError
  end.

Fixpoint targets (strongconnect : K -> scc_state -> res scc_state) (vertex : K) (ts : list K) (s : scc_state) : res scc_state :=
  match ts with
  | [] => Ok s
  | target :: ts =>
      let* s :=
        match indices s !! target with
        | None =>
            let* s := strongconnect target s in
            match lowlink s !! target with Some low => lower vertex low s | None => Err KeyError end
        | Some i => if decide (target ∈ on_stack s) then lower vertex i s else Ok s
        end in
      targets strongconnect vertex ts s
  end.

(** [while True: target = stack.pop(); ..]: the component, and what is left. *)
Fixpoint pop_component (vertex : K) (stack : list K) (on_stack : gset K) (component : list K)
    : res (list K * list K * gset K) :=
  match stack with
  | [] => Err (OtherException "pop from empty list")
  | target :: stack =>
      if decide (target ∈ on_stack) then
        if decide (target = vertex) then Ok (component ++ [target], stack, on_stack ∖ {[target]})
        else pop_component vertex stack (on_stack ∖ {[target]}) (component ++ [target])
      else Err KeyError
  end.

Definition finish (vertex : K) (s : scc_state) : res scc_state :=
  match lowlink s !! vertex, indices s !! vertex with
  | Some low, Some i =>
      if low =? i then
        let* (component, rest, on) := pop_component vertex (stack s) (on_stack s) [] in
        Ok (SCC (index s) (indices s) (lowlink s) on rest (sccs s ++ [component]))
      else Ok s
  | _, _ => Err KeyError
  end.

Fixpoint strongconnect (fuel : nat) (vertex : K) (s : scc_state) : res scc_state :=
  match fuel with
  | O => Err OutOfFuel
  | S fuel =>
      let* s := targets (strongconnect fuel) vertex (succ vertex) (visit vertex s) in
      finish vertex s
  end.

Fixpoint connect_all (fuel : nat) (nodes : list K) (s : scc_state) : res scc_state :=
  match nodes with
  | [] => Ok s
  | v :: nodes =>
      let* s := match indices s !! v with None => strongconnect fuel v s | Some _ => Ok s end in
      connect_all fuel nodes s
  end.

Definition compute_scc (nodes : list K) : res (list (list K)) :=
  let* s := connect_all (length nodes) nodes (SCC 0 ∅ ∅ ∅ [] []) in Ok (sccs s).

End tarjan.
