(* ===== verification/TarjanProps.v ===== *)
(** * TarjanProps: [compute_scc] finds the strongly connected components

    The invariant of the search: the vertices of the stack, the ones whose call is
    under way ([gray]), and the components found. *)

From stdpp Require Import prelude gmap sets fin_sets fin_maps fin_map_dom strings list sorting relations.
From S2P Require Import Prelude Tarjan.

Open Scope Z_scope.

Section props.
Context {K : Type} `{Countable K}.
Context (succ : K -> list K) (univ : gset K).
Context (univ_closed : forall x y, x ∈ univ -> y ∈ succ x -> y ∈ univ).

Definition edge (x y : K) : Prop := y ∈ succ x.
Abbreviation path := (rtc edge).

(** A strongly connected component: not empty, and with each vertex exactly the
    vertices on a cycle with it. *)
Definition is_scc (c : list K) : Prop := c <> [] /\ forall x y, x ∈ c -> (y ∈ c <-> path x y /\ path y x).

(** An edge that leaves a component leads to one found before. *)
Definition successors_first (cs : list (list K)) : Prop :=
  forall pre c post x y, cs = pre ++ c :: post -> x ∈ c -> edge x y -> y ∈ c \/ y ∈ concat pre.

Definition visited (s : scc_state (K:=K)) (x : K) : Prop := is_Some (indices s !! x).
Definition idx (s : scc_state (K:=K)) (x : K) : Z := default 0 (indices s !! x).

(** ** Lists *)

Lemma concat_snoc {A} (l : list (list A)) c : concat (l ++ [c]) = concat l ++ c.
Proof. rewrite concat_app. simpl. by rewrite app_nil_r. Qed.

Lemma StronglySorted_weaken {A} (R S : A -> A -> Prop) l :
  (forall x y, x ∈ l -> y ∈ l -> R x y -> S x y) -> StronglySorted R l -> StronglySorted S l.
Proof.
  intros HRS. induction 1 as [|a l Hl IH Ha]; constructor.
  - apply IH. intros x y Hx Hy. apply HRS; by right.
  - rewrite Forall_forall in *. intros x Hx. apply HRS; [by left|by right|by apply Ha].
Qed.

Lemma successors_first_closed cs x y : successors_first cs -> x ∈ concat cs -> edge x y -> y ∈ concat cs.
Proof.
  intros Ho Hx Hy. apply list_elem_of_In, in_concat in Hx as (c & Hc & Hx).
  apply list_elem_of_In, list_elem_of_split in Hc as (pre & post & ->). apply list_elem_of_In in Hx.
  rewrite concat_app, !elem_of_app. cbn [concat]. rewrite elem_of_app.
  destruct (Ho pre c post x y eq_refl Hx Hy); auto.
Qed.

Lemma successors_first_path cs x y : successors_first cs -> path x y -> x ∈ concat cs -> y ∈ concat cs.
Proof. intros Ho Hp. induction Hp as [x|x y z Hxy _ IH]; [done|]. intros Hx. apply IH. by apply (successors_first_closed cs x y). Qed.

Lemma successors_first_snoc cs c :
  successors_first cs -> (forall x y, x ∈ c -> edge x y -> y ∈ c \/ y ∈ concat cs) -> successors_first (cs ++ [c]).
Proof.
  intros Ho Hc pre d post x y E Hx Hy. destruct post as [|p post _] using rev_ind.
  - apply app_inj_tail in E as [-> ->]. by apply (Hc x y).
  - rewrite app_comm_cons, app_assoc in E. apply app_inj_tail in E as [-> _]. by apply (Ho pre d post x y).
Qed.

(** ** The invariant *)

Record inv (gray : gset K) (s : scc_state (K:=K)) : Prop := Inv {
  i_index : forall x, visited s x -> idx s x < index s;
  i_low : forall x, visited s x -> is_Some (lowlink s !! x);
  i_univ : forall x, visited s x -> x ∈ univ;
  i_on : forall x, x ∈ on_stack s <-> x ∈ stack s;
  i_nodup : NoDup (stack s ++ concat (sccs s));
  i_dom : forall x, visited s x <-> x ∈ stack s \/ x ∈ concat (sccs s);
  i_sorted : StronglySorted (fun x y => idx s y < idx s x) (stack s);
  i_gray : forall x, x ∈ gray -> x ∈ stack s;
  i_black : forall x y, x ∈ stack s -> x ∉ gray -> edge x y -> visited s y;
  i_order : successors_first (sccs s);
  i_sccs : forall c, c ∈ sccs s -> is_scc c;
  i_up : forall x, x ∈ stack s -> exists y, y ∈ gray /\ idx s y <= idx s x /\ path x y;
  i_down : forall y x, y ∈ gray -> x ∈ stack s -> idx s y <= idx s x -> path y x
}.

(** What a call adds: [L] on the stack, components, indices above those given before. *)
Definition grows (s s' : scc_state (K:=K)) (L : list K) : Prop :=
  stack s' = L ++ stack s /\ (exists new, sccs s' = sccs s ++ new) /\
  (forall x i, indices s !! x = Some i -> indices s' !! x = Some i) /\
  (forall x, visited s x -> lowlink s' !! x = lowlink s !! x) /\
  index s <= index s' /\ (forall x, visited s' x -> ~ visited s x -> index s <= idx s' x).

(** The bound [l] on the edges from the new vertices [L] to the old part of the stack. *)
Definition bounds (s s' : scc_state (K:=K)) (L : list K) (l : Z) : Prop :=
  forall y w, y ∈ L -> w ∈ stack s -> edge y w -> l <= idx s' w.

Definition witness (s' : scc_state (K:=K)) (v : K) (l : Z) : Prop :=
  exists x, x ∈ stack s' /\ idx s' x = l /\ path v x.

Definition connected (gray : gset K) (s s' : scc_state (K:=K)) (v : K) : Prop :=
  inv gray s' /\ visited s' v /\
  exists L l, grows s s' L /\ lowlink s' !! v = Some l /\ bounds s s' L l /\
    (v ∈ L /\ witness s' v l \/ v ∈ concat (sccs s') /\ idx s' v = l).

(** Inside of the call of [v] from [s]: the successors in [P] are done. *)
Definition searching (gray : gset K) (s s' : scc_state (K:=K)) (v : K) (P : list K) : Prop :=
  inv ({[v]} ∪ gray) s' /\
  exists L l, grows s s' (L ++ [v]) /\ lowlink s' !! v = Some l /\ bounds s s' L l /\ witness s' v l /\ l <= idx s' v /\
    forall t, t ∈ P -> visited s' t /\ (t ∈ stack s -> l <= idx s' t).

(** ** Lemmas *)

Lemma visited_grows s s' L x : grows s s' L -> visited s x -> visited s' x /\ idx s' x = idx s x.
Proof.
  intros (_ & _ & Hi & _ & _ & _) [i Hx]. unfold visited, idx. by rewrite Hx, (Hi x i Hx).
Qed.

Lemma grows_refl s : grows s s [].
Proof. split_and!; [done|exists []; by rewrite app_nil_r|done|done|done|done]. Qed.

Lemma grows_trans s s' s'' L L' : grows s s' L -> grows s' s'' L' -> grows s s'' (L' ++ L).
Proof.
  intros G1 G2. assert (Hv : forall x, visited s x -> visited s' x) by (intros x Hx; by apply (visited_grows s s' L x G1)).
  pose proof (visited_grows s' s'' L') as Hv'. specialize (fun x => Hv' x G2).
  destruct G1 as (E1 & [n1 C1] & I1 & L1 & X1 & N1), G2 as (E2 & [n2 C2] & I2 & L2 & X2 & N2). split_and!.
  - by rewrite E2, E1, app_assoc.
  - exists (n1 ++ n2). by rewrite C2, C1, app_assoc.
  - auto.
  - intros x Hx. rewrite L2; [by apply L1|]. by apply Hv.
  - lia.
  - intros x Hx Hn. destruct (decide (is_Some (indices s' !! x))) as [Hs|Hs].
    + destruct (Hv' x Hs) as [_ ->]. by apply N1.
    + pose proof (N2 x Hx Hs). lia.
Qed.

Lemma stack_visited gray s x : inv gray s -> x ∈ stack s -> visited s x.
Proof. intros Hi Hx. apply (i_dom _ _ Hi). by left. Qed.

Lemma idx_above gray s L x y r :
  inv gray s -> stack s = L ++ x :: r -> y ∈ r -> idx s y < idx s x.
Proof.
  intros Hi E Hy. pose proof (i_sorted _ _ Hi) as Hs. rewrite E in Hs.
  apply StronglySorted_app in Hs as (_ & _ & Hs). apply StronglySorted_inv in Hs as [_ Hs].
  rewrite Forall_forall in Hs. by apply Hs.
Qed.

Lemma idx_below gray s L x y r :
  inv gray s -> stack s = L ++ x :: r -> y ∈ L -> idx s x < idx s y.
Proof.
  intros Hi E Hy. pose proof (i_sorted _ _ Hi) as Hs. rewrite E in Hs.
  apply (StronglySorted_app_1_elem_of _ _ _ _ _ Hs Hy). by left.
Qed.

Lemma searching_start gray s v :
  inv gray s -> ~ visited s v -> v ∈ univ -> (forall y, y ∈ gray -> path y v) -> searching gray s (visit v s) v [].
Proof.
  intros Hi Hv Hu Hg.
  assert (Hidx : forall x, visited s x -> idx (visit v s) x = idx s x).
  { intros x Hx. unfold idx, visit. cbn [indices]. rewrite lookup_insert_ne; [done|]. intros ->. contradiction. }
  assert (Hiv : idx (visit v s) v = index s) by (unfold idx, visit; cbn [indices]; by rewrite lookup_insert_eq).
  assert (Hvis : forall x, visited (visit v s) x <-> x = v \/ visited s x).
  { intros x. unfold visited, visit. cbn [indices]. destruct (decide (x = v)) as [->|Hne].
    - rewrite lookup_insert_eq. split; [auto|by eexists].
    - rewrite lookup_insert_ne by done. tauto. }
  assert (Hns : v ∉ stack s /\ v ∉ concat (sccs s)) by (split; intros Hin; apply Hv, (i_dom _ _ Hi); auto).
  assert (Hlt : forall x, x ∈ stack s -> idx (visit v s) x < index s).
  { intros x Hx. pose proof (stack_visited _ _ _ Hi Hx). rewrite Hidx by done. by apply (i_index _ _ Hi). }
  assert (Hw : visited (visit v s) v) by (apply Hvis; by left).
  split.
  - split.
    + intros x [->|Hx]%Hvis; [rewrite Hiv; simpl; lia|]. rewrite Hidx by done. pose proof (i_index _ _ Hi x Hx). simpl; lia.
    + intros x Hx. unfold visit. cbn [lowlink]. destruct (decide (x = v)) as [->|]; [rewrite lookup_insert_eq; by eexists|].
      rewrite lookup_insert_ne by done. apply Hvis in Hx as [|Hx]; [done|]. by apply (i_low _ _ Hi).
    + intros x [->|Hx]%Hvis; [done|by apply (i_univ _ _ Hi)].
    + intros x. simpl. rewrite elem_of_union, elem_of_singleton, elem_of_cons, (i_on _ _ Hi). done.
    + simpl. apply NoDup_cons. split; [rewrite elem_of_app; tauto|apply (i_nodup _ _ Hi)].
    + intros x. rewrite Hvis, (i_dom _ _ Hi). simpl. rewrite elem_of_cons. tauto.
    + simpl. constructor; [|apply Forall_forall; intros x Hx; rewrite Hiv; by apply Hlt].
      eapply StronglySorted_weaken; [|apply (i_sorted _ _ Hi)]. intros x y Hx Hy Hxy.
      rewrite !Hidx by (by eapply stack_visited). done.
    + intros x. simpl. rewrite elem_of_union, elem_of_singleton, elem_of_cons. intros [->|Hx]; [by left|right; by apply (i_gray _ _ Hi)].
    + intros x y Hx Hng Hy. simpl in Hx. apply elem_of_cons in Hx as [->|Hx]; [set_solver|].
      apply Hvis. right. apply (i_black _ _ Hi x); [done|set_solver|done].
    + apply (i_order _ _ Hi).
    + apply (i_sccs _ _ Hi).
    + intros x Hx. simpl in Hx. apply elem_of_cons in Hx as [->|Hx]; [exists v; split_and!; [set_solver|lia|apply rtc_refl]|].
      destruct (i_up _ _ Hi x Hx) as (y & Hy & Hle & Hp). exists y. split_and!; [set_solver| |done].
      rewrite !Hidx; [done|by eapply stack_visited|eapply stack_visited; [done|by apply (i_gray _ _ Hi)]].
    + intros y x Hy Hx Hle. simpl in Hx. apply elem_of_union in Hy as [->%elem_of_singleton|Hy].
      * apply elem_of_cons in Hx as [->|Hx]; [apply rtc_refl|]. pose proof (Hlt x Hx). lia.
      * apply elem_of_cons in Hx as [->|Hx]; [by apply Hg|]. pose proof (i_gray _ _ Hi y Hy) as Hys.
        rewrite !Hidx in Hle by (by eapply stack_visited). by apply (i_down _ _ Hi).
  - exists [], (index s). split_and!.
    + split_and!; [done|exists []; by rewrite app_nil_r| | |simpl; lia|].
      * intros x i Hx. simpl. rewrite lookup_insert_ne; [done|]. intros ->. apply Hv. by eexists.
      * intros x Hx. simpl. rewrite lookup_insert_ne; [done|]. intros ->. contradiction.
      * intros x [->|Hx]%Hvis Hn; [lia|contradiction].
    + simpl. by rewrite lookup_insert_eq.
    + intros y w Hy. by apply elem_of_nil in Hy.
    + exists v. split_and!; [by left|done|apply rtc_refl].
    + lia.
    + intros t Ht. by apply elem_of_nil in Ht.
Qed.

Definition set_low (v : K) (l : Z) (s : scc_state (K:=K)) : scc_state (K:=K) :=
  SCC (index s) (indices s) (<[v := l]> (lowlink s)) (on_stack s) (stack s) (sccs s).

Lemma inv_set_low gray s v l : inv gray s -> inv gray (set_low v l s).
Proof.
  intros []. split; try done. intros x Hx. simpl. destruct (decide (x = v)) as [->|]; [rewrite lookup_insert_eq; by eexists|].
  rewrite lookup_insert_ne by done. auto.
Qed.

Lemma grows_set_low s s' L v l : grows s s' L -> ~ visited s v -> grows s (set_low v l s') L.
Proof.
  intros (H1 & H2 & H3 & H4 & H5 & H6) Hv. split_and!; try done.
  intros x Hx. simpl. rewrite lookup_insert_ne; [auto|]. intros ->. contradiction.
Qed.

(** A successor is done, with [o] the number [lowlink[v]] is compared with. *)
Lemma searching_lower gray s s' v P L l o t :
  ~ visited s v -> inv ({[v]} ∪ gray) s' -> grows s s' (L ++ [v]) -> lowlink s' !! v = Some l ->
  bounds s s' L (Z.min l o) -> witness s' v l -> l <= idx s' v ->
  (forall t, t ∈ P -> visited s' t /\ (t ∈ stack s -> l <= idx s' t)) ->
  witness s' v o \/ l <= o -> visited s' t -> (t ∈ stack s -> o <= idx s' t) ->
  searching gray s (set_low v (Z.min l o) s') v (t :: P).
Proof.
  intros Hv Hi Hg Hl Hb Hw Hle HP Ho Ht Hto. split; [by apply inv_set_low|]. exists L, (Z.min l o). split_and!.
  - by apply grows_set_low.
  - simpl. by rewrite lookup_insert_eq.
  - exact Hb.
  - destruct (Z.min_spec l o) as [[? ->]|[? ->]]; [done|]. destruct Ho; [done|]. by replace o with l by lia.
  - change (idx (set_low v (Z.min l o) s') v) with (idx s' v). lia.
  - intros t' [->|Ht']%elem_of_cons.
    + split; [done|]. intros Hin. change (Z.min l o <= idx s' t). specialize (Hto Hin). lia.
    + destruct (HP t' Ht') as [Hvt Hlt]. split; [done|]. intros Hin. change (Z.min l o <= idx s' t'). specialize (Hlt Hin). lia.
Qed.

Lemma lower_ok v o s l : lowlink s !! v = Some l -> lower v o s = Ok (set_low v (Z.min l o) s).
Proof. intros Hl. unfold lower. by rewrite Hl. Qed.

Lemma searching_target gray s s1 v P t rec :
  inv gray s -> ~ visited s v -> searching gray s s1 v P -> edge v t ->
  (~ visited s1 t -> exists s2, rec t s1 = Ok s2 /\ connected ({[v]} ∪ gray) s1 s2 t) ->
  exists s2, (match indices s1 !! t with
              | None => res_bind (rec t s1) (fun s => match lowlink s !! t with Some low => lower v low s | None => Err KeyError end)
              | Some i => if decide (t ∈ on_stack s1) then lower v i s1 else Ok s1
              end) = Ok s2 /\ searching gray s s2 v (t :: P).
Proof.
  intros Hs Hv (Hi & L & l & Hg & Hl & Hb & Hw & Hle & HP) Ht Hrec.
  pose proof (visited_grows s s1 (L ++ [v])) as Hvg. specialize (fun x => Hvg x Hg).
  assert (Hsub : forall x, x ∈ stack s -> x ∈ stack s1) by (destruct Hg as [-> _]; intros x Hx; apply elem_of_app; by right).
  assert (Hvs : visited s1 v) by (apply (stack_visited _ _ _ Hi); destruct Hg as [-> _]; rewrite !elem_of_app; left; right; by left).
  destruct (indices s1 !! t) as [i|] eqn:Et.
  - assert (Hvt : visited s1 t) by (unfold visited; by rewrite Et).
    assert (Hit : idx s1 t = i) by (unfold idx; by rewrite Et).
    destruct (decide (t ∈ on_stack s1)) as [Hon|Hon].
    + apply (i_on _ _ Hi) in Hon. eexists. split; [by apply lower_ok|]. eapply searching_lower; try done.
      * intros y w Hy Hw' He. specialize (Hb y w Hy Hw' He). lia.
      * left. exists t. split_and!; [done|done|by apply rtc_once].
      * intros _. lia.
    + eexists. split; [done|]. split; [done|]. exists L, l. split_and!; try done.
      intros t' [->|Ht']%elem_of_cons; [|by apply HP]. split; [done|]. intros Hin. exfalso. apply Hon, (i_on _ _ Hi), Hsub, Hin.
  - destruct Hrec as (s2 & Er & Hi2 & Hvt & L' & lt & Hg2 & Hlt & Hb2 & Hcase); [unfold visited; rewrite Et; by intros [? ?]|].
    rewrite Er. cbn [res_bind]. rewrite Hlt.
    pose proof (visited_grows s1 s2 L') as Hvg2. specialize (fun x => Hvg2 x Hg2).
    assert (Hl2 : lowlink s2 !! v = Some l) by (destruct Hg2 as (_ & _ & _ & -> & _); done).
    assert (Hsub2 : forall x, x ∈ stack s1 -> x ∈ stack s2) by (destruct Hg2 as [-> _]; intros x Hx; apply elem_of_app; by right).
    destruct (Hvg2 v Hvs) as [Hv2 Eiv].
    eexists. split; [by apply lower_ok|].
    pose proof (grows_trans _ _ _ _ _ Hg Hg2) as Hgg. rewrite app_assoc in Hgg.
    eapply searching_lower; [done|done|exact Hgg|done| | |lia| | |done|].
    + intros y w [Hy|Hy]%elem_of_app Hin He.
      * specialize (Hb2 y w Hy (Hsub w Hin) He). lia.
      * specialize (Hb y w Hy Hin He). destruct (Hvg2 w) as [_ ->]; [|lia]. apply (stack_visited _ _ _ Hi). auto.
    + destruct Hw as (x & Hx & Ex & Hp). exists x. split_and!; [auto| |done].
      destruct (Hvg2 x) as [_ ->]; [by eapply stack_visited|done].
    + intros t' Ht'. destruct (HP t' Ht') as [Hvt' Hlt']. destruct (Hvg2 t' Hvt') as [? ->]. done.
    + destruct Hcase as [[_ Hwt]|[_ Eit]].
      * left. destruct Hwt as (x & Hx & Ex & Hp). exists x. split_and!; [done|done|]. by eapply rtc_l.
      * right. destruct Hg2 as (_ & _ & _ & _ & _ & Hn). rewrite <- Eit.
        pose proof (Hn t Hvt ltac:(unfold visited; rewrite Et; by intros [? ?])) as Hlo.
        pose proof (i_index _ _ Hi v Hvs). lia.
    + intros Hin. exfalso. assert (visited s1 t) as [? Hc]; [|congruence]. eapply stack_visited; [done|auto].
Qed.

Lemma pop_component_spec (v : K) L r on comp :
  NoDup (L ++ [v]) -> (forall x, x ∈ L ++ [v] -> x ∈ on) ->
  pop_component v (L ++ v :: r) on comp = Ok (comp ++ L ++ [v], r, on ∖ list_to_set (L ++ [v])).
Proof.
  revert on comp; induction L as [|t L IH]; intros on comp Hnd Hon; cbn [app pop_component].
  - rewrite decide_True by (apply Hon; by left). rewrite decide_True by done. do 2 f_equal. set_solver.
  - apply NoDup_cons in Hnd as [Ht Hnd]. rewrite decide_True by (apply Hon; by left).
    rewrite decide_False by (intros ->; apply Ht, elem_of_app; right; by left).
    rewrite IH; [|done|].
    + rewrite <- (assoc_L (++)). do 2 f_equal. cbn [list_to_set]. set_solver.
    + intros x Hx. apply elem_of_difference. split; [apply Hon; by right|]. intros ->%elem_of_singleton. contradiction.
Qed.

Section component.
Context (gray : gset K) (s s1 : scc_state (K:=K)) (v : K) (L : list K).
Context (Hs : inv gray s) (Hi : inv ({[v]} ∪ gray) s1) (E : stack s1 = (L ++ [v]) ++ stack s).
Context (exits : forall x y, x ∈ L ++ [v] -> edge x y -> y ∈ L ++ [v] \/ y ∈ concat (sccs s1)).

Lemma component_apart x : x ∈ L ++ [v] -> x ∉ stack s /\ x ∉ concat (sccs s1).
Proof.
  intros Hx. pose proof (i_nodup _ _ Hi) as Hn. rewrite E, <- (assoc_L (++)) in Hn.
  apply NoDup_app in Hn as (_ & Hd & _). specialize (Hd x Hx). rewrite elem_of_app in Hd. tauto.
Qed.

Lemma component_path x y : path x y -> x ∈ L ++ [v] -> y ∈ L ++ [v] \/ y ∈ concat (sccs s1).
Proof.
  intros Hp. induction Hp as [x|x y z Hxy Hyz IH]; [by left|]. intros Hx.
  destruct (exits x y Hx Hxy) as [Hy|Hy]; [by apply IH|]. right.
  by apply (successors_first_path (sccs s1) y z); [apply (i_order _ _ Hi)| |].
Qed.

Lemma component_to_root x : x ∈ L ++ [v] -> path x v.
Proof.
  intros Hx. destruct (i_up _ _ Hi x) as (y & Hy & _ & Hp); [rewrite E; apply elem_of_app; by left|].
  apply elem_of_union in Hy as [->%elem_of_singleton|Hy]; [done|]. exfalso.
  pose proof (i_gray _ _ Hs y Hy) as Hys. destruct (component_path x y Hp Hx) as [Hin|Hin].
  - by destruct (component_apart y Hin).
  - pose proof (i_nodup _ _ Hi) as Hn. rewrite E in Hn. apply NoDup_app in Hn as (_ & Hd & _).
    apply (Hd y); [apply elem_of_app; by right|done].
Qed.

Lemma component_from_root x : x ∈ L ++ [v] -> path v x.
Proof.
  intros Hx. apply (i_down _ _ Hi); [set_solver|rewrite E; apply elem_of_app; by left|].
  apply elem_of_app in Hx as [Hx|Hx].
  - rewrite <- (assoc_L (++)) in E. pose proof (idx_below _ _ L v x _ Hi E Hx). lia.
  - apply list_elem_of_singleton in Hx as ->. lia.
Qed.

Lemma component_scc : is_scc (L ++ [v]).
Proof.
  split; [by destruct L|]. intros x y Hx. split.
  - intros Hy. split; (etrans; [by apply component_to_root|by apply component_from_root]).
  - intros [Hxy Hyx]. destruct (component_path x y Hxy Hx) as [Hy|Hy]; [done|]. exfalso.
    destruct (component_apart x Hx) as [_ Hc]. apply Hc. by apply (successors_first_path (sccs s1) y x); [apply (i_order _ _ Hi)| |].
Qed.

End component.

(** The edges of the vertices above and with [v], when its call has seen all of them. *)
Lemma searching_exits gray s s1 v L l :
  inv gray s -> inv ({[v]} ∪ gray) s1 -> stack s1 = (L ++ [v]) ++ stack s -> bounds s s1 L l ->
  (forall t, t ∈ succ v -> visited s1 t /\ (t ∈ stack s -> l <= idx s1 t)) ->
  forall x y, x ∈ L ++ [v] -> edge x y -> y ∈ L ++ [v] \/ y ∈ concat (sccs s1) \/ (y ∈ stack s /\ l <= idx s1 y).
Proof.
  intros Hs Hi E Hb HP x y Hx He.
  assert (Hy : visited s1 y).
  { apply elem_of_app in Hx as [Hx|Hx]; [|apply list_elem_of_singleton in Hx as ->; by apply HP].
    apply (i_black _ _ Hi x); [rewrite E, !elem_of_app; auto| |done].
    pose proof (i_nodup _ _ Hi) as Hn. rewrite E, <- !(assoc_L (++)) in Hn. apply NoDup_app in Hn as (_ & Hd & _).
    specialize (Hd x Hx). rewrite !elem_of_app, list_elem_of_singleton in Hd.
    intros [->%elem_of_singleton|Hg]%elem_of_union; [tauto|]. apply (i_gray _ _ Hs) in Hg. tauto. }
  apply (i_dom _ _ Hi) in Hy as [Hy|Hy]; [|auto]. rewrite E, elem_of_app in Hy. destruct Hy as [Hy|Hy]; [auto|].
  right. right. split; [done|]. apply elem_of_app in Hx as [Hx|Hx]; [by eapply Hb|].
  apply list_elem_of_singleton in Hx as ->. by apply HP.
Qed.

Lemma StronglySorted_tail {A} (R : A -> A -> Prop) l1 l2 : StronglySorted R (l1 ++ l2) -> StronglySorted R l2.
Proof. rewrite StronglySorted_app. tauto. Qed.

(** [lowlink[v] = indices[v]]: the component is taken off the stack. *)
Lemma inv_popped gray s s1 v L on :
  inv gray s -> inv ({[v]} ∪ gray) s1 -> stack s1 = (L ++ [v]) ++ stack s ->
  (forall x y, x ∈ L ++ [v] -> edge x y -> y ∈ L ++ [v] \/ y ∈ concat (sccs s1)) ->
  on = on_stack s1 ∖ list_to_set (L ++ [v]) ->
  inv gray (SCC (index s1) (indices s1) (lowlink s1) on (stack s) (sccs s1 ++ [L ++ [v]])).
Proof.
  intros Hs Hi E Hex ->. pose proof (component_scc gray s s1 v L Hs Hi E Hex) as Hscc.
  pose proof (i_nodup _ _ Hi) as Hn. rewrite E in Hn.
  assert (Hin : forall x, x ∈ stack s -> x ∈ stack s1) by (intros x Hx; rewrite E; apply elem_of_app; by right).
  assert (Hout : forall x, x ∈ stack s -> x ∉ L ++ [v]).
  { intros x Hx Hl. rewrite <- (assoc_L (++)) in Hn. apply NoDup_app in Hn as (_ & Hd & _).
    apply (Hd x Hl), elem_of_app. by left. }
  assert (Hlt : forall x, x ∈ stack s -> idx s1 x < idx s1 v).
  { intros x Hx. rewrite <- (assoc_L (++)) in E. by apply (idx_above _ _ L v x _ Hi E). }
  split; cbn [index indices lowlink on_stack stack sccs]; unfold visited, idx; cbn [indices].
  - apply (i_index _ _ Hi).
  - apply (i_low _ _ Hi).
  - apply (i_univ _ _ Hi).
  - intros x. rewrite elem_of_difference, elem_of_list_to_set, (i_on _ _ Hi), E, elem_of_app. split; [tauto|auto].
  - rewrite concat_snoc, (Permutation_app_comm (concat _)), (assoc_L (++)), (Permutation_app_comm (stack s)). done.
  - intros x. change (visited s1 x <-> x ∈ stack s \/ x ∈ concat (sccs s1 ++ [L ++ [v]])).
    rewrite concat_snoc, elem_of_app, (i_dom _ _ Hi), E, elem_of_app. tauto.
  - apply (StronglySorted_tail _ (L ++ [v])). rewrite <- E. apply (i_sorted _ _ Hi).
  - apply (i_gray _ _ Hs).
  - intros x y Hx Hg. apply (i_black _ _ Hi); [by apply Hin|]. intros [->%elem_of_singleton|?]%elem_of_union; [|done].
    apply (Hout v Hx), elem_of_app. right. by left.
  - apply successors_first_snoc; [apply (i_order _ _ Hi)|exact Hex].
  - intros c [Hc|Hc]%elem_of_app; [by apply (i_sccs _ _ Hi)|]. apply list_elem_of_singleton in Hc as ->. exact Hscc.
  - intros x Hx. destruct (i_up _ _ Hi x (Hin x Hx)) as (y & [->%elem_of_singleton|Hy]%elem_of_union & Hle & Hp); [|by exists y].
    specialize (Hlt x Hx). lia.
  - intros y x Hy Hx. apply (i_down _ _ Hi); [set_solver|by apply Hin].
Qed.

(** [lowlink[v] < indices[v]]: [v] stays on the stack. *)
Lemma inv_left gray s s1 v L l :
  inv gray s -> inv ({[v]} ∪ gray) s1 -> stack s1 = (L ++ [v]) ++ stack s ->
  (forall t, t ∈ succ v -> visited s1 t) -> witness s1 v l -> l < idx s1 v ->
  inv gray s1.
Proof.
  intros Hs Hi E Hv Hw Hlt. pose proof E as E'. rewrite <- (assoc_L (++)) in E'. destruct Hi. split; try done.
  - intros x Hx. apply i_gray0. set_solver.
  - intros x y Hx Hg He. destruct (decide (x = v)) as [->|Hne]; [by apply Hv|]. apply (i_black0 x y Hx); [set_solver|done].
  - assert (Hup : forall x, x ∈ stack s1 -> idx s1 x < idx s1 v -> exists y, y ∈ gray /\ idx s1 y <= idx s1 x /\ path x y).
    { intros x Hx Hxv. destruct (i_up0 x Hx) as (y & [->%elem_of_singleton|Hy]%elem_of_union & Hle & Hp); [lia|by exists y]. }
    intros x Hx. destruct (i_up0 x Hx) as (y & [->%elem_of_singleton|Hy]%elem_of_union & Hle & Hp); [|by exists y].
    destruct Hw as (x0 & Hx0 & Hl0 & Hp0). destruct (Hup x0 Hx0) as (y & Hy & Hle' & Hp'); [lia|].
    exists y. split_and!; [done|lia|]. etrans; [exact Hp|]. by etrans.
  - intros y x Hy. apply i_down0. set_solver.
Qed.

Lemma finish_spec gray s s1 v :
  inv gray s -> searching gray s s1 v (succ v) ->
  exists s2, finish v s1 = Ok s2 /\ connected gray s s2 v.
Proof.
  intros Hs (Hi & L & l & Hg & Hl & Hb & Hw & Hle & HP). pose proof Hg as (E & [new Ec] & Hid & Hlow & Hx & Hnew).
  assert (Hv : v ∈ stack s1) by (rewrite E, !elem_of_app; left; right; by left).
  pose proof (stack_visited _ _ _ Hi Hv) as Hvv. destruct (indices s1 !! v) as [i|] eqn:Ei; [|by destruct Hvv as [? ?]; congruence].
  assert (Eiv : idx s1 v = i) by (unfold idx; by rewrite Ei).
  pose proof (searching_exits gray s s1 v L l Hs Hi E Hb HP) as Hex.
  unfold finish. rewrite Hl, Ei. destruct (l =? i) eqn:Eli.
  - apply Z.eqb_eq in Eli. subst l.
    assert (Hex' : forall x y, x ∈ L ++ [v] -> edge x y -> y ∈ L ++ [v] \/ y ∈ concat (sccs s1)).
    { intros x y Hxl He. destruct (Hex x y Hxl He) as [|[|[Hy Hyi]]]; [by left|by right|]. exfalso.
      rewrite <- (assoc_L (++)) in E. pose proof (idx_above _ _ L v y _ Hi E Hy). lia. }
    pose proof (i_nodup _ _ Hi) as Hn. rewrite E, <- (assoc_L (++)) in Hn. apply NoDup_app in Hn as (Hn & _ & _).
    assert (Epop : pop_component v (stack s1) (on_stack s1) [] = Ok (L ++ [v], stack s, on_stack s1 ∖ list_to_set (L ++ [v]))).
    { rewrite E, <- (assoc_L (++)). apply (pop_component_spec v L (stack s) (on_stack s1) []); [done|].
      intros x Hxl. apply (i_on _ _ Hi). rewrite E. apply elem_of_app. by left. }
    rewrite Epop. eexists. split; [done|]. split; [by eapply inv_popped|]. split; [by eexists|].
    exists [], i. split_and!; try done.
    + split_and!; try done. exists (new ++ [L ++ [v]]). by rewrite Ec, <- (assoc_L (++)).
    + intros y w Hy. by apply elem_of_nil in Hy.
    + right. split; [|done]. cbn [sccs]. rewrite concat_snoc, !elem_of_app. right. right. by left.
  - apply Z.eqb_neq in Eli. eexists. split; [done|]. split.
    { eapply inv_left; [done|done|exact E| |exact Hw|lia]. intros t Ht. by apply HP. }
    split; [by eexists|]. exists (L ++ [v]), l. split_and!; try done.
    + intros y w Hy Hin He. destruct (Hex y w Hy He) as [Hbad|[Hbad|[_ ?]]]; [| |done]; exfalso;
        pose proof (i_nodup _ _ Hi) as Hn; rewrite E, <- (assoc_L (++)) in Hn; apply NoDup_app in Hn as (_ & Hd & Hn).
      * apply (Hd w Hbad), elem_of_app. by left.
      * apply NoDup_app in Hn as (_ & Hd' & _). by apply (Hd' w).
    + left. split; [|done]. apply elem_of_app. right. by left.
Qed.

(** ** The recursion *)

(** Vertices not seen yet: the recursion is not deeper. *)
Definition unseen (s : scc_state (K:=K)) : nat := size (univ ∖ dom (indices s)).

Lemma unseen_less gray s s1 v P :
  ~ visited s v -> v ∈ univ -> searching gray s s1 v P -> (unseen s1 < unseen s)%nat.
Proof.
  intros Hv Hu (Hi & L & l & Hg & _). unfold unseen. apply subset_size. pose proof Hg as (E & _ & Hid & _).
  assert (Hvv : visited s1 v) by (apply (stack_visited _ _ _ Hi); rewrite E, !elem_of_app; left; right; by left).
  split.
  - intros x. rewrite !elem_of_difference, !elem_of_dom. intros [Hx Hn]. split; [done|]. intros [i Hi']. apply Hn.
    exists i. by apply Hid.
  - intros Hsub. specialize (Hsub v). rewrite !elem_of_difference, !elem_of_dom in Hsub. unfold visited in *. tauto.
Qed.

Lemma searching_mono gray s s1 v P Q : (forall t, t ∈ Q -> t ∈ P) -> searching gray s s1 v P -> searching gray s s1 v Q.
Proof. intros Hq (Hi & L & l & Hg & Hl & Hb & Hw & Hle & HP). split; [done|]. exists L, l. split_and!; auto. Qed.

Lemma targets_spec gray s v rec ts s1 P :
  inv gray s -> ~ visited s v -> (forall t, t ∈ ts -> edge v t) -> searching gray s s1 v P ->
  (forall s1 P t, searching gray s s1 v P -> edge v t -> ~ visited s1 t ->
     exists s2, rec t s1 = Ok s2 /\ connected ({[v]} ∪ gray) s1 s2 t) ->
  exists s2, targets rec v ts s1 = Ok s2 /\ searching gray s s2 v (reverse ts ++ P).
Proof.
  intros Hs Hv. revert s1 P; induction ts as [|t ts IH]; intros s1 P Hts Hse Hrec; cbn [targets]; [by exists s1|].
  assert (Ht : edge v t) by (apply Hts; by left).
  destruct (searching_target gray s s1 v P t rec Hs Hv Hse Ht) as (s2 & Er & Hse2); [intros Hn; by apply (Hrec s1 P)|].
  rewrite Er. cbn [res_bind].
  destruct (IH s2 (t :: P)) as (s3 & E3 & H3); [intros t' Ht'; apply Hts; by right|done|done|].
  exists s3. split; [done|]. by rewrite reverse_cons, <- (assoc_L (++)).
Qed.

Lemma strongconnect_spec fuel gray v s :
  inv gray s -> ~ visited s v -> v ∈ univ -> (forall y, y ∈ gray -> path y v) -> (unseen s <= fuel)%nat ->
  exists s2, strongconnect succ fuel v s = Ok s2 /\ connected gray s s2 v.
Proof.
  revert gray v s; induction fuel as [|fuel IH]; intros gray v s Hs Hv Hu Hg Hf.
  { pose proof (searching_start gray s v Hs Hv Hu Hg) as Hse. pose proof (unseen_less _ _ _ _ _ Hv Hu Hse). lia. }
  pose proof (searching_start gray s v Hs Hv Hu Hg) as Hse.
  destruct (targets_spec gray s v (strongconnect succ fuel) (succ v) (visit v s) []) as (s1 & E1 & H1); try done.
  - intros s1 P t Hse1 He Hn. apply IH; [by destruct Hse1|done|by eapply univ_closed| |].
    + intros y Hy. eapply rtc_r; [|exact He]. apply elem_of_union in Hy as [->%elem_of_singleton|Hy]; [apply rtc_refl|by apply Hg].
    + pose proof (unseen_less _ _ _ _ _ Hv Hu Hse1). lia.
  - destruct (finish_spec gray s s1 v Hs) as (s2 & E2 & H2).
    + eapply searching_mono; [|exact H1]. intros t Ht. rewrite app_nil_r. by rewrite elem_of_reverse.
    + exists s2. cbn [strongconnect]. rewrite E1. done.
Qed.

(** ** All the vertices *)

Lemma inv_idle s x : inv ∅ s -> visited s x -> x ∈ concat (sccs s).
Proof.
  intros Hi [Hx|Hx]%(i_dom _ _ Hi); [|done]. apply (i_up _ _ Hi) in Hx as (y & Hy & _). by apply elem_of_empty in Hy.
Qed.

Lemma unseen_mono s s' : (forall x, visited s x -> visited s' x) -> (unseen s' <= unseen s)%nat.
Proof.
  intros Hm. unfold unseen. apply subseteq_size. intros x. rewrite !elem_of_difference, !elem_of_dom. intros [? Hn]. split; [done|].
  intros Hx. by apply Hn, Hm.
Qed.

Lemma connect_all_spec fuel nodes s :
  inv ∅ s -> (forall x, x ∈ nodes -> x ∈ univ) -> (unseen s <= fuel)%nat ->
  exists s2, connect_all succ fuel nodes s = Ok s2 /\ inv ∅ s2 /\
    forall x, x ∈ nodes \/ visited s x -> visited s2 x.
Proof.
  revert s; induction nodes as [|v nodes IH]; intros s Hs Hu Hf; cbn [connect_all].
  { exists s. split_and!; [done|done|]. intros x [Hx|]; [by apply elem_of_nil in Hx|done]. }
  assert (Hstep : exists s1, match indices s !! v with Some _ => Ok s | None => strongconnect succ fuel v s end = Ok s1 /\
    inv ∅ s1 /\ visited s1 v /\ forall x, visited s x -> visited s1 x).
  { destruct (indices s !! v) as [i|] eqn:E; [exists s; split_and!; [done|done|by eexists|done]|].
    destruct (strongconnect_spec fuel ∅ v s Hs) as (s1 & E1 & Hi & Hv & L & l & Hg & _); try done.
    - unfold visited. rewrite E. by intros [? ?].
    - apply Hu. by left.
    - exists s1. split_and!; [done|done|done|]. intros x Hx. by apply (visited_grows s s1 L x Hg). }
  destruct Hstep as (s1 & E1 & Hi1 & Hv1 & Hm).
  destruct (IH s1 Hi1) as (s2 & E2 & Hi2 & Hv2).
  - intros x Hx. apply Hu. by right.
  - pose proof (unseen_mono s s1 Hm). lia.
  - exists s2. split_and!; [|done|].
    + destruct (indices s !! v); simpl in E1 |- *; [by injection E1 as ->|]. rewrite E1. done.
    + intros x [[->|Hx]%elem_of_cons|Hx]; auto.
Qed.

Lemma inv_start : inv ∅ (SCC 0 ∅ ∅ ∅ [] [] : scc_state (K:=K)).
Proof.
  assert (Hn : forall x, ~ visited (SCC 0 ∅ ∅ ∅ [] [] : scc_state (K:=K)) x) by (intros x; unfold visited; simpl; rewrite lookup_empty; by intros [? ?]).
  split; simpl; try (intros x Hx; by destruct (Hn x Hx)).
  - intros x. split; [by intros ?%elem_of_empty|by intros ?%elem_of_nil].
  - constructor.
  - intros x. split; [intros Hx; by destruct (Hn x Hx)|by intros [?%elem_of_nil|?%elem_of_nil]].
  - constructor.
  - intros x Hx. by apply elem_of_empty in Hx.
  - intros x y Hx. by apply elem_of_nil in Hx.
  - intros pre c post x y E. by destruct pre.
  - intros c Hc. by apply elem_of_nil in Hc.
  - intros x Hx. by apply elem_of_nil in Hx.
  - intros y x Hy. by apply elem_of_empty in Hy.
Qed.
End props.

Lemma size_list_to_set_le {K} `{Countable K} (l : list K) : (size (list_to_set l : gset K) <= length l)%nat.
Proof.
  induction l as [|x l IH]; cbn [list_to_set length]; [by rewrite size_empty|].
  rewrite size_union_alt, size_singleton.
  assert (size ((list_to_set l : gset K) ∖ {[x]}) <= size (list_to_set l : gset K))%nat by (apply subseteq_size; set_solver). lia.
Qed.

(** The search ends with the components of the graph, each vertex in one, in an order in
    which every component comes after those its edges lead to. *)
Lemma compute_scc_correct {K} `{Countable K} (succ : K -> list K) (nodes : list K) :
  (forall x y, x ∈ nodes -> y ∈ succ x -> y ∈ nodes) ->
  exists cs, compute_scc succ nodes = Ok cs /\ NoDup (concat cs) /\ (forall x, x ∈ concat cs <-> x ∈ nodes) /\
    (forall c, c ∈ cs -> is_scc succ c) /\ successors_first succ cs.
Proof.
  intros Hc. set (univ := list_to_set nodes : gset K).
  assert (Hu : forall x, x ∈ univ <-> x ∈ nodes) by (intros x; apply elem_of_list_to_set).
  assert (Hcl : forall x y, x ∈ univ -> y ∈ succ x -> y ∈ univ) by (intros x y; rewrite !Hu; apply Hc).
  destruct (connect_all_spec succ univ Hcl (length nodes) nodes (SCC 0 ∅ ∅ ∅ [] [])) as (s & E & Hi & Hv).
  - apply inv_start.
  - intros x. by rewrite Hu.
  - unfold unseen. etrans; [|apply (size_list_to_set_le nodes)]. apply subseteq_size. fold univ. set_solver.
  - exists (sccs s). unfold compute_scc. rewrite E. split; [done|]. split.
    { pose proof (i_nodup _ _ _ _ Hi) as Hn. by apply NoDup_app in Hn as (_ & _ & Hn). }
    split; [|split; [apply (i_sccs _ _ _ _ Hi)|apply (i_order _ _ _ _ Hi)]].
    intros x. split.
    + intros Hx. apply Hu, (i_univ _ _ _ _ Hi), (i_dom _ _ _ _ Hi). by right.
    + intros Hx. apply (inv_idle succ univ); [done|]. apply Hv. by left.
Qed.
