(* ===== verification/ArtifactGraph.v ===== *)
(** * ArtifactGraph: [artifact_dependency_graph.py]

    The files of a mod as nodes, the references between them as edges, the
    references that could not be linked, and the directional closures.  A dictionary
    is a list of pairs in insertion order, a set of identifiers a list without
    duplicates in the order it is iterated.  What the regular expressions find in a
    file (its references) and say of its path (namespace and logical identifier) is
    given. *)

From stdpp Require Import prelude gmap sets fin_sets fin_maps strings list sorting fin_map_dom relations.
From S2P Require Import Prelude Text Json Tarjan.

Open Scope Z_scope.
Open Scope py_scope.

Inductive ArtifactKind : Type :=
  | JAVA_SOURCE | KOTLIN_SOURCE | REGISTRY_ENTRY | BLOCKSTATE_JSON | MODEL_JSON | TEXTURE_PNG | LOOT_TABLE_JSON
  | RECIPE_JSON | TAG_JSON | MIXIN_CONFIG | ACCESS_WIDENER | MOD_METADATA | BUILD_SCRIPT | OTHER.

#[export] Instance ArtifactKind_eq_dec : EqDecision ArtifactKind.
Proof. solve_decision. Defined.

Record ArtifactNode : Type := Node {
  id : pystr; kind : ArtifactKind; namespace : pystr; logical_id : pystr; environment : pystr; source_set : pystr;
  rel_path : pystr; symbols_defined : list pystr; symbols_referenced : list pystr
}.

Record ArtifactEdge : Type := Edge {
  e_source_id : pystr; e_target_id : pystr; e_dependency_type : pystr; e_is_unresolved : bool; e_is_mandatory : bool
}.

Record UnresolvedArtifactEdge : Type := Unresolved {
  source_id : pystr; requested_target : pystr; relation : pystr; reason : pystr
}.

Record ArtifactDependencyGraph : Type := Graph {
  nodes : list (pystr * ArtifactNode); adjacency : list (pystr * list pystr);
  unresolved_edges : list UnresolvedArtifactEdge; ambiguous_edges : list UnresolvedArtifactEdge;
  target_modid : pystr; target_package : pystr; owned_namespaces : gset pystr; owned_packages : list pystr
}.

(** ** Strings *)

(** [tuple(dict.fromkeys(l))] *)
Fixpoint fromkeys {A} `{EqDecision A} (l : list A) : list A :=
  match l with [] => [] | a :: l => a :: filter (fun b => b <> a) (fromkeys l) end.

Definition _simple_symbol (value : pystr) : pystr := after_last 36 (after_last 46 value).

Definition _classify_artifact_kind (lower : pystr -> pystr) (path_str : pystr) : ArtifactKind :=
  let p := map (fun c => if c =? 92 then 47 else c) (lower path_str) in
  let ends s := ends_with (u s) p in
  let has s := occurs (u s) p in
  if ends ".java" then JAVA_SOURCE
  else if ends ".kt" then KOTLIN_SOURCE
  else if has "/textures/" && ends ".png" then TEXTURE_PNG
  else if has "/models/" && ends ".json" then MODEL_JSON
  else if has "/blockstates/" && ends ".json" then BLOCKSTATE_JSON
  else if has "/loot_tables/" && ends ".json" then LOOT_TABLE_JSON
  else if has "/recipes/" && ends ".json" then RECIPE_JSON
  else if has "/tags/" && ends ".json" then TAG_JSON
  else if has "mixin" && ends ".json" then MIXIN_CONFIG
  else if ends ".accesswidener" then ACCESS_WIDENER
  else if ends "fabric.mod.json" || ends "mods.toml" || ends "neoforge.mods.toml" then MOD_METADATA
  else if ends ".gradle" || ends ".gradle.kts" || ends ".properties" || ends ".toml" then BUILD_SCRIPT
  else OTHER.

(** [_ALLOWED_TARGET_KINDS.get(relation)] *)
Definition allowed_kinds (relation : pystr) : option (list ArtifactKind) :=
  let named s := bool_decide (relation = u s) in
  if named "model_parent" then Some [MODEL_JSON]
  else if named "texture_ref" then Some [TEXTURE_PNG]
  else if named "blockstate_model" then Some [MODEL_JSON]
  else if named "mixin_target" then Some [JAVA_SOURCE; KOTLIN_SOURCE]
  else if named "entrypoint" then Some [JAVA_SOURCE; KOTLIN_SOURCE]
  else if named "tag_ref" then Some [TAG_JSON]
  else if named "import" then Some [JAVA_SOURCE; KOTLIN_SOURCE]
  else if named "registry" then Some [MODEL_JSON; TEXTURE_PNG; LOOT_TABLE_JSON; RECIPE_JSON; TAG_JSON; BLOCKSTATE_JSON]
  else if named "data_ref" then Some [LOOT_TABLE_JSON; RECIPE_JSON; TAG_JSON; MODEL_JSON]
  else None.

(** ** Nodes and edges *)

(** [__init__], of the texts of the context. *)
Definition new_graph (casefold : pystr -> pystr) (modid package : pystr) (namespaces packages : list pystr)
    : ArtifactDependencyGraph :=
  Graph [] [] [] [] (casefold (strip modid)) (strip package)
    (list_to_set (map (fun v => casefold (strip v)) (filter (fun v => strip v <> []) namespaces)))
    (fromkeys (map strip (filter (fun v => strip v <> []) packages))).

Definition with_edges (g : ArtifactDependencyGraph) (ns : list (pystr * ArtifactNode)) (adj : list (pystr * list pystr))
    (unresolved ambiguous : list UnresolvedArtifactEdge) : ArtifactDependencyGraph :=
  Graph ns adj unresolved ambiguous (target_modid g) (target_package g) (owned_namespaces g) (owned_packages g).

Definition add_node (node : ArtifactNode) (g : ArtifactDependencyGraph) : ArtifactDependencyGraph :=
  with_edges g (dict_set (id node) node (nodes g))
    (match dict_get (id node) (adjacency g) with Some _ => adjacency g | None => adjacency g ++ [(id node, [])] end)
    (unresolved_edges g) (ambiguous_edges g).

Definition has_node (g : ArtifactDependencyGraph) (x : pystr) : bool :=
  match dict_get x (nodes g) with Some _ => true | None => false end.

Definition set_add (x : pystr) (l : list pystr) : list pystr := if decide (x ∈ l) then l else l ++ [x].

Definition add_unresolved (e : UnresolvedArtifactEdge) (g : ArtifactDependencyGraph) : ArtifactDependencyGraph :=
  with_edges g (nodes g) (adjacency g) (unresolved_edges g ++ [e]) (ambiguous_edges g).

Definition add_ambiguous (e : UnresolvedArtifactEdge) (g : ArtifactDependencyGraph) : ArtifactDependencyGraph :=
  with_edges g (nodes g) (adjacency g) (unresolved_edges g) (ambiguous_edges g ++ [e]).

Definition add_edge (source target : pystr) (g : ArtifactDependencyGraph) : ArtifactDependencyGraph :=
  if has_node g source && has_node g target
  then with_edges g (nodes g)
         (dict_set source (set_add target (default [] (dict_get source (adjacency g)))) (adjacency g))
         (unresolved_edges g) (ambiguous_edges g)
  else if has_node g source then add_unresolved (Unresolved source target (u "reference") (u "TARGET_NODE_NOT_FOUND")) g
  else g.

(** ** Completeness *)

Definition external_prefixes : list pystr :=
  map u ["java."; "javax."; "jdk."; "kotlin."; "org."; "com.google."; "com.mojang."; "net.minecraft."; "net.fabricmc.";
         "net.minecraftforge."; "net.neoforged."]%string.

Definition is_mandatory_unresolved (casefold : pystr -> pystr) (g : ArtifactDependencyGraph) (edge : UnresolvedArtifactEdge)
    : bool :=
  let target := strip (requested_target edge) in
  let low := casefold target in
  let related names := bool_decide (relation edge ∈ map u names) in
  if bool_decide (target = []) then false
  else if related ["import"; "mixin_target"; "entrypoint"]%string then
    let owned := fromkeys ((if bool_decide (target_package g = []) then [] else [target_package g]) ++ owned_packages g) in
    if existsb (fun package => bool_decide (target = package) || starts_with (package ++ u ".") target) owned then true
    else negb (starts_with_any external_prefixes target) && negb (contains 46 target)
  else if starts_with (u "minecraft:") low then false
  else if bool_decide (relation edge = u "model_parent") && negb (contains 58 low) &&
          starts_with_any (map u ["item/"; "block/"; "builtin/"]%string) low then false
  else if contains 58 low then
    bool_decide (before_first 58 low ∈ owned_namespaces g) ||
    (negb (bool_decide (target_modid g = [])) && bool_decide (before_first 58 low = target_modid g))
  else if related ["model_parent"; "texture_ref"; "blockstate_model"; "registry"; "data_ref"; "tag_ref"]%string then
    negb (bool_decide (target_modid g = [])) || negb (bool_decide (owned_namespaces g = ∅))
  else false.

Definition is_closure_complete (casefold : pystr -> pystr) (g : ArtifactDependencyGraph) (node_ids : list pystr) : bool :=
  forallb (fun e => negb (bool_decide (source_id e ∈ node_ids) && is_mandatory_unresolved casefold g e)) (unresolved_edges g) &&
  forallb (fun e => negb (bool_decide (source_id e ∈ node_ids))) (ambiguous_edges g).

(** The property [edges]. *)
Definition edges (casefold : pystr -> pystr) (g : ArtifactDependencyGraph) : list ArtifactEdge :=
  concat (map (fun '(source, targets) =>
                 map (fun target => Edge source target (u "reference") false true) (sort_strs targets)) (adjacency g)) ++
  map (fun e => Edge (source_id e) (requested_target e) (relation e) true (is_mandatory_unresolved casefold g e))
    (unresolved_edges g ++ ambiguous_edges g).

(** ** Linking: [build_from_files] *)

Record link_tables : Type := Tables {
  fqcn_to_node : gmap pystr pystr; symbol_to_nodes : gmap pystr (list pystr);
  simple_symbol_to_nodes : gmap pystr (list pystr); logical_res_to_nodes : gmap pystr (list pystr)
}.

Definition no_tables : link_tables := Tables ∅ ∅ ∅ ∅.

(** [table.setdefault(key, []).append(value)] *)
Definition append_to (key value : pystr) (m : gmap pystr (list pystr)) : gmap pystr (list pystr) :=
  <[key := default [] (m !! key) ++ [value]]> m.

Definition is_code (k : ArtifactKind) : bool := bool_decide (k ∈ [JAVA_SOURCE; KOTLIN_SOURCE]).

Definition register_symbol (node : ArtifactNode) (t : link_tables) (symbol : pystr) : link_tables :=
  Tables (fqcn_to_node t) (append_to symbol (id node) (symbol_to_nodes t))
    (if bool_decide (_simple_symbol symbol = []) then simple_symbol_to_nodes t
     else append_to (_simple_symbol symbol) (id node) (simple_symbol_to_nodes t))
    (logical_res_to_nodes t).

Definition register_code (node : ArtifactNode) (t : link_tables) : link_tables :=
  if is_code (kind node) then
    fold_left (register_symbol node) (symbols_defined node)
      (Tables (<[logical_id node := id node]> (fqcn_to_node t)) (symbol_to_nodes t) (simple_symbol_to_nodes t)
         (logical_res_to_nodes t))
  else t.

Definition register_logical (lower : pystr -> pystr) (node : ArtifactNode) (t : link_tables) : link_tables :=
  if bool_decide (namespace node = []) || bool_decide (logical_id node = []) then t
  else
    let resources := append_to (lower (namespace node ++ u ":" ++ logical_id node)) (id node) (logical_res_to_nodes t) in
    Tables (fqcn_to_node t) (symbol_to_nodes t) (simple_symbol_to_nodes t)
      (append_to (lower (after_last 47 (logical_id node))) (id node) resources).

(** One file of the first loop, its node described. *)
Definition register (lower : pystr -> pystr) (node : ArtifactNode) (gt : ArtifactDependencyGraph * link_tables)
    : ArtifactDependencyGraph * link_tables :=
  (add_node node gt.1, register_logical lower node (register_code node gt.2)).

Definition kind_of (g : ArtifactDependencyGraph) (x : pystr) : res ArtifactKind :=
  match dict_get x (nodes g) with Some n => Ok (kind n) | None => Err KeyError end.

(** The candidates that are not the source and have an allowed kind. *)
Fixpoint valid_matches (g : ArtifactDependencyGraph) (source : pystr) (allowed : option (list ArtifactKind))
    (candidates : list pystr) : res (list pystr) :=
  match candidates with
  | [] => Ok []
  | x :: xs =>
      if decide (x = source) then valid_matches g source allowed xs
      else
        let* keep := match allowed with None => Ok true | Some ks => let* k := kind_of g x in Ok (bool_decide (k ∈ ks)) end in
        let* rest := valid_matches g source allowed xs in
        Ok (if keep : bool then x :: rest else rest)
  end.

Definition find_candidates (lower : pystr -> pystr) (t : link_tables) (ref : pystr) : option (list pystr) :=
  let low := lower ref in
  let path := after_last 58 low in
  let stem := after_last 47 path in
  match logical_res_to_nodes t !! low with
  | Some c => Some c
  | None => match logical_res_to_nodes t !! path with Some c => Some c | None => logical_res_to_nodes t !! stem end
  end.

Definition resolve_and_link (lower : pystr -> pystr) (t : link_tables) (source target_ref rel : pystr)
    (g : ArtifactDependencyGraph) : res ArtifactDependencyGraph :=
  let ref := strip target_ref in
  let failed why := Unresolved source ref rel (u why) in
  if bool_decide (ref = []) then Ok g
  else
    match fqcn_to_node t !! ref with
    | Some target => Ok (add_edge source target g)
    | None =>
        match find_candidates lower t ref with
        | Some candidates =>
            let* valid := valid_matches g source (allowed_kinds rel) candidates in
            match valid with
            | [] => Ok g
            | [x] => Ok (add_edge source x g)
            | _ =>
                let* kinds := res_map_list (kind_of g) valid in
                if bool_decide (rel ∈ map u ["registry"; "data_ref"]%string) && bool_decide (NoDup kinds)
                then Ok (fold_left (fun g x => add_edge source x g) valid g)
                else Ok (add_ambiguous (failed "AMBIGUOUS_REFERENCE_COLLISION"%string) g)
            end
        | None =>
            let key := after_last 46 ref in
            let found :=
              match symbol_to_nodes t !! key with
              | Some (x :: xs) => x :: xs
              | _ => default [] (simple_symbol_to_nodes t !! key)
              end in
            match filter (fun x => x <> source) found with
            | [] => Ok (add_unresolved (failed "TARGET_NODE_NOT_FOUND"%string) g)
            | [x] => Ok (add_edge source x g)
            | _ => Ok (add_ambiguous (failed "AMBIGUOUS_SYMBOL_COLLISION"%string) g)
            end
        end
    end.

(** What is found in a file: a reference and its relation, or the name of a symbol. *)
Inductive reference : Type := Reference (target rel : pystr) | Token (symbol : pystr).

Definition link (lower : pystr -> pystr) (t : link_tables) (source : pystr) (r : reference) (g : ArtifactDependencyGraph)
    : res ArtifactDependencyGraph :=
  match r with
  | Reference target rel => resolve_and_link lower t source target rel g
  | Token symbol =>
      Ok (fold_left (fun g target => if decide (target = source) then g else add_edge source target g)
            (default [] (simple_symbol_to_nodes t !! symbol)) g)
  end.

Fixpoint link_all (lower : pystr -> pystr) (t : link_tables) (source : pystr) (rs : list reference)
    (g : ArtifactDependencyGraph) : res ArtifactDependencyGraph :=
  match rs with [] => Ok g | r :: rs => let* g := link lower t source r g in link_all lower t source rs g end.

Fixpoint link_files (lower : pystr -> pystr) (t : link_tables) (files : list (ArtifactNode * list reference))
    (g : ArtifactDependencyGraph) : res ArtifactDependencyGraph :=
  match files with
  | [] => Ok g
  | (node, rs) :: files => let* g := link_all lower t (id node) rs g in link_files lower t files g
  end.

Definition build_from_files (lower : pystr -> pystr) (files : list (ArtifactNode * list reference))
    (g : ArtifactDependencyGraph) : res ArtifactDependencyGraph :=
  let '(g, t) := fold_left (fun gt f => register lower f.1 gt) files (g, no_tables) in
  link_files lower t files g.

(** ** Components and closures *)

Definition successors (g : ArtifactDependencyGraph) (x : pystr) : list pystr := default [] (dict_get x (adjacency g)).

Definition compute_scc (g : ArtifactDependencyGraph) : res (list (list pystr)) := Tarjan.compute_scc (successors g) (nodes g).*1.

(** [node_to_scc] *)
Definition scc_table (sccs : list (list pystr)) : gmap pystr nat :=
  fold_left (fun m e => fold_left (fun m x => <[x := e.1]> m) e.2 m) (imap pair sccs) ∅.

(** The edges between different components, and how many lead to each. *)
Record condensation : Type := Dag { scc_dag_adj : gmap nat (gset nat); incoming : gmap nat Z }.

Definition add_dag_edge (source target : nat) (d : condensation) : condensation :=
  let out := default ∅ (scc_dag_adj d !! source) in
  if decide (source <> target /\ target ∉ out)
  then Dag (<[source := {[target]} ∪ out]> (scc_dag_adj d)) (<[target := default 0 (incoming d !! target) + 1]> (incoming d))
  else d.

Definition condense (g : ArtifactDependencyGraph) (table : gmap pystr nat) : condensation :=
  fold_left (fun d e =>
      match table !! e.1 with
      | None => d
      | Some source =>
          fold_left (fun d target => match table !! target with Some t => add_dag_edge source t d | None => d end) e.2 d
      end) (adjacency g) (Dag ∅ ∅).

(** The breadth-first search; a queue takes at most one entry per component. *)
Fixpoint search (fuel : nat) (dag : gmap nat (gset nat)) (queue : list nat) (found : gset nat) : res (gset nat) :=
  match queue, fuel with
  | [], _ => Ok found
  | _, O => Err OutOfFuel
  | current :: queue, S fuel =>
      let new := elements (default ∅ (dag !! current) ∖ found) in
      search fuel dag (queue ++ new) (found ∪ list_to_set new)
  end.

Definition reachable_sccs (count : nat) (d : condensation) (start : nat) : res (gset nat) :=
  search count (scc_dag_adj d) [start] {[start]}.

Fixpoint closures_of (sccs : list (list pystr)) (d : condensation) (starts : list nat) (seen : list (list pystr))
    : res (list (list pystr)) :=
  match starts with
  | [] => Ok seen
  | start :: starts =>
      let* found := reachable_sccs (length sccs) d start in
      let closure := sort_strs (concat (map (fun i => default [] (sccs !! i)) (elements found))) in
      closures_of sccs d starts (if decide (closure ∈ seen) then seen else seen ++ [closure])
  end.

Definition compute_directional_closures (seed_nodes : option (list pystr)) (g : ArtifactDependencyGraph)
    : res (list (list pystr)) :=
  let* sccs := compute_scc g in
  let table := scc_table sccs in
  let d := condense g table in
  let starts :=
    match seed_nodes with
    | Some seeds => omap (fun seed => table !! seed) seeds
    | None => filter (fun i => default 0 (incoming d !! i) = 0) (seq 0 (length sccs))
    end in
  closures_of sccs d (fromkeys starts) [].

(** * The artifact graph, its components and closures

    Building never fails and keeps the graph well formed; [compute_scc] and
    [compute_directional_closures] compute what they are named after. *)

From S2P Require Import PyJson TarjanProps.

Open Scope Z_scope.
Open Scope py_scope.

(** ** Well-formed graphs *)

Definition node_ids (g : ArtifactDependencyGraph) : list pystr := (nodes g).*1.

Record graph_ok (g : ArtifactDependencyGraph) : Prop := GraphOk {
  ok_keys : NoDup (adjacency g).*1;
  ok_same : forall x, x ∈ (adjacency g).*1 <-> x ∈ node_ids g;
  ok_targets : forall x ts t, (x, ts) ∈ adjacency g -> t ∈ ts -> t ∈ node_ids g
}.

Definition in_values (m : gmap pystr (list pystr)) (ids : list pystr) : Prop :=
  forall k l x, m !! k = Some l -> x ∈ l -> x ∈ ids.

Record tables_ok (t : link_tables) (ids : list pystr) : Prop := TablesOk {
  ok_fqcn : forall k x, fqcn_to_node t !! k = Some x -> x ∈ ids;
  ok_symbol : in_values (symbol_to_nodes t) ids;
  ok_simple : in_values (simple_symbol_to_nodes t) ids;
  ok_logical : in_values (logical_res_to_nodes t) ids
}.

Lemma successors_in g x t : graph_ok g -> t ∈ successors g x -> t ∈ node_ids g.
Proof.
  intros Hg. unfold successors. destruct (dict_get x (adjacency g)) as [l|] eqn:E; [|by intros ?%elem_of_nil].
  apply dict_get_in in E. by apply (ok_targets _ Hg x).
Qed.

Lemma has_node_true g x : has_node g x = true <-> x ∈ node_ids g.
Proof. unfold has_node, node_ids. rewrite <- dict_get_keys. destruct (dict_get x (nodes g)); split; done || by intros [? ?]. Qed.

Lemma graph_ok_add_edge s t g :
  graph_ok g -> graph_ok (add_edge s t g) /\ nodes (add_edge s t g) = nodes g.
Proof.
  intros Hg. unfold add_edge. destruct (has_node g s) eqn:Es; [|done]. destruct (has_node g t) eqn:Et.
  2:{ split; [|done]. destruct Hg. by split. }
  apply has_node_true in Es, Et. split; [|done]. destruct Hg as [Hk Hs Ht]. split; cbn [andb with_edges adjacency nodes].
  - by apply dict_set_nodup.
  - intros x. rewrite dict_set_keys, Hs. unfold node_ids in *. cbn [nodes]. split; [intros [->|]; done|tauto].
  - intros x ts y Hin Hy. apply dict_get_nodup in Hin; [|by apply dict_set_nodup].
    destruct (decide (x = s)) as [->|Hne].
    + rewrite dict_get_set_eq in Hin. injection Hin as <-. unfold set_add in Hy.
      assert (Hold : forall z, z ∈ default [] (dict_get s (adjacency g)) -> z ∈ node_ids g).
      { intros z. destruct (dict_get s (adjacency g)) as [l|] eqn:E; [|by intros ?%elem_of_nil].
        apply dict_get_in in E. by apply (Ht s). }
      destruct (decide _); [by apply Hold|]. apply elem_of_app in Hy as [Hy|Hy]; [by apply Hold|].
      by apply list_elem_of_singleton in Hy as ->.
    + rewrite dict_get_set_ne in Hin by done. apply dict_get_in in Hin. by apply (Ht x ts).
Qed.

Lemma graph_ok_add_edges s ts g :
  graph_ok g -> let g' := fold_left (fun g t => add_edge s t g) ts g in graph_ok g' /\ nodes g' = nodes g.
Proof.
  revert g; induction ts as [|t ts IH]; intros g Hg; [done|]. cbn [fold_left].
  destruct (graph_ok_add_edge s t g Hg) as [H1 H2]. destruct (IH _ H1) as [H3 H4]. split; [done|]. by rewrite H4.
Qed.

Lemma graph_ok_add_node n g :
  graph_ok g -> graph_ok (add_node n g) /\ forall x, x ∈ node_ids (add_node n g) <-> x = id n \/ x ∈ node_ids g.
Proof.
  intros Hg. assert (Hids : forall x, x ∈ node_ids (add_node n g) <-> x = id n \/ x ∈ node_ids g).
  { intros x. unfold node_ids, add_node. cbn [with_edges nodes]. apply dict_set_keys. }
  split; [|done]. destruct Hg as [Hk Hs Ht]. unfold add_node in *.
  destruct (dict_get (id n) (adjacency g)) as [l|] eqn:E; split; cbn [with_edges adjacency].
  - done.
  - intros x. rewrite Hids, Hs. split; [tauto|]. intros [->|]; [|done]. apply Hs, dict_get_keys. by rewrite E.
  - intros x ts t Hin Hx. apply Hids. right. by eapply Ht.
  - apply dict_get_none in E. rewrite fmap_app. apply NoDup_app. split_and!; [done| |apply NoDup_singleton].
    intros x Hx Hn. apply list_elem_of_singleton in Hn as ->. contradiction.
  - intros x. rewrite Hids, fmap_app, elem_of_app, Hs. cbn. rewrite list_elem_of_singleton. tauto.
  - intros x ts t [Hin|Hin]%elem_of_app Hx; apply Hids; [right; by eapply Ht|].
    apply list_elem_of_singleton in Hin. injection Hin as -> ->. by apply elem_of_nil in Hx.
Qed.

(** ** Building *)

Lemma graph_ok_new casefold modid package ns ps : graph_ok (new_graph casefold modid package ns ps).
Proof.
  split; cbn.
  - constructor.
  - done.
  - intros x ts t Hin. by apply elem_of_nil in Hin.
Qed.

Lemma in_values_append k v m ids : in_values m ids -> v ∈ ids -> in_values (append_to k v m) ids.
Proof.
  intros Hm Hv k' l x. unfold append_to. destruct (decide (k' = k)) as [->|Hne].
  - rewrite lookup_insert_eq. intros [= <-] [Hx|Hx]%elem_of_app.
    + destruct (m !! k) as [l'|] eqn:E; [by eapply Hm|by apply elem_of_nil in Hx].
    + by apply list_elem_of_singleton in Hx as ->.
  - rewrite lookup_insert_ne by done. apply Hm.
Qed.

Lemma tables_ok_weaken t ids ids' : (forall x, x ∈ ids -> x ∈ ids') -> tables_ok t ids -> tables_ok t ids'.
Proof. intros Hi []. split; unfold in_values in *; eauto. Qed.

Lemma register_code_ok n t ids : id n ∈ ids -> tables_ok t ids -> tables_ok (register_code n t) ids.
Proof.
  intros Hn Ht. unfold register_code. destruct (is_code (kind n)); [|done].
  assert (H0 : tables_ok (Tables (<[logical_id n := id n]> (fqcn_to_node t)) (symbol_to_nodes t)
                            (simple_symbol_to_nodes t) (logical_res_to_nodes t)) ids).
  { destruct Ht as [Hf]. split; try done. intros k x. cbn. destruct (decide (k = logical_id n)) as [->|Hne].
    - rewrite lookup_insert_eq. by intros [= <-].
    - rewrite lookup_insert_ne by done. apply Hf. }
  revert H0. generalize (Tables (<[logical_id n := id n]> (fqcn_to_node t)) (symbol_to_nodes t)
                           (simple_symbol_to_nodes t) (logical_res_to_nodes t)).
  induction (symbols_defined n) as [|s ss IH]; intros t0 H0; [done|]. cbn [fold_left]. apply IH.
  destruct H0. split; cbn; try done; [by apply in_values_append|].
  destruct (bool_decide _); [done|]. by apply in_values_append.
Qed.

Lemma register_logical_ok lower n t ids : id n ∈ ids -> tables_ok t ids -> tables_ok (register_logical lower n t) ids.
Proof.
  intros Hn []. unfold register_logical. destruct (_ || _); [done|]. split; cbn; try done. apply in_values_append; [by apply in_values_append|done].
Qed.

Lemma register_ok lower n g t :
  graph_ok g -> tables_ok t (node_ids g) ->
  let '(g', t') := register lower n (g, t) in
  graph_ok g' /\ tables_ok t' (node_ids g') /\ forall x, x ∈ node_ids g' <-> x = id n \/ x ∈ node_ids g.
Proof.
  intros Hg Ht. destruct (graph_ok_add_node n g Hg) as [Hg' Hids]. unfold register. cbn [fst snd].
  assert (Hn : id n ∈ node_ids (add_node n g)) by (apply Hids; by left).
  split; [exact Hg'|]. split; [|exact Hids]. apply register_logical_ok, register_code_ok; [done|done|].
  eapply tables_ok_weaken; [|exact Ht]. intros x Hx. apply Hids. by right.
Qed.

Lemma register_all lower files g t :
  graph_ok g -> tables_ok t (node_ids g) ->
  let '(g', t') := fold_left (fun gt f => register lower f.1 gt) (files : list (ArtifactNode * list reference)) (g, t) in
  graph_ok g' /\ tables_ok t' (node_ids g') /\ forall x, x ∈ node_ids g' <-> x ∈ map (fun f => id f.1) files \/ x ∈ node_ids g.
Proof.
  revert g t; induction files as [|f files IH]; intros g t Hg Ht; cbn [fold_left map].
  { split_and!; [done|done|]. intros x. rewrite elem_of_nil. tauto. }
  pose proof (register_ok lower f.1 g t Hg Ht) as Hr. destruct (register lower f.1 (g, t)) as [g1 t1].
  destruct Hr as (Hg1 & Ht1 & H1). specialize (IH g1 t1 Hg1 Ht1).
  destruct (fold_left _ files (g1, t1)) as [g2 t2]. destruct IH as (Hg2 & Ht2 & H2). split_and!; [done|done|].
  intros x. rewrite H2, H1, elem_of_cons. tauto.
Qed.

Lemma kind_of_ok g x : x ∈ node_ids g -> exists k, kind_of g x = Ok k.
Proof. intros Hx%dict_get_keys. unfold kind_of. destruct Hx as [n ->]. by eexists. Qed.

Lemma valid_matches_ok g source allowed candidates :
  (forall x, x ∈ candidates -> x ∈ node_ids g) ->
  exists valid, valid_matches g source allowed candidates = Ok valid /\
    forall x, x ∈ valid -> x ∈ candidates /\ x <> source /\
      forall ks, allowed = Some ks -> exists k, kind_of g x = Ok k /\ k ∈ ks.
Proof.
  induction candidates as [|x xs IH]; intros Hc; cbn [valid_matches].
  { exists []. split; [done|]. intros x Hx. by apply elem_of_nil in Hx. }
  destruct IH as (valid & E & Hv); [intros y Hy; apply Hc; by right|].
  assert (Hv' : forall y, y ∈ valid -> y ∈ x :: xs /\ y <> source /\
                  forall ks, allowed = Some ks -> exists k, kind_of g y = Ok k /\ k ∈ ks).
  { intros y Hy. destruct (Hv y Hy) as (? & ? & ?). split_and!; [by right|done|done]. }
  destruct (decide (x = source)) as [->|Hne]; [by exists valid|].
  destruct allowed as [ks|]; cbn [res_bind].
  - destruct (kind_of_ok g x) as [k Hk]; [apply Hc; by left|]. rewrite Hk. cbn [res_bind]. rewrite E. cbn [res_bind].
    destruct (bool_decide (k ∈ ks)) eqn:Ek; [|by exists valid]. apply bool_decide_eq_true in Ek.
    eexists. split; [done|]. intros y [->|Hy]%elem_of_cons; [|by apply Hv']. split_and!; [by left|done|].
    intros ks' [= <-]. by exists k.
  - rewrite E. cbn [res_bind]. eexists. split; [done|]. intros y [->|Hy]%elem_of_cons; [|by apply Hv'].
    split_and!; [by left|done|done].
Qed.

Lemma kinds_ok g l : (forall x, x ∈ l -> x ∈ node_ids g) -> exists ks, res_map_list (kind_of g) l = Ok ks.
Proof.
  induction l as [|x l IH]; intros Hl; cbn [res_map_list]; [by exists []|].
  destruct (kind_of_ok g x) as [k ->]; [apply Hl; by left|]. destruct IH as [ks ->]; [intros y Hy; apply Hl; by right|].
  cbn [res_bind]. by eexists.
Qed.

Lemma find_candidates_in lower t ref ids c : tables_ok t ids -> find_candidates lower t ref = Some c -> forall x, x ∈ c -> x ∈ ids.
Proof.
  intros [_ _ _ Ht] E x Hx. unfold find_candidates in E.
  destruct (logical_res_to_nodes t !! lower ref) eqn:E1; [injection E as ->; by eapply Ht|].
  destruct (logical_res_to_nodes t !! after_last 58 (lower ref)) eqn:E2; [injection E as ->|]; by eapply Ht.
Qed.

Definition same_nodes (g g' : ArtifactDependencyGraph) : Prop := graph_ok g' /\ nodes g' = nodes g.

Lemma same_nodes_unresolved e g : graph_ok g -> same_nodes g (add_unresolved e g).
Proof. intros []. by split. Qed.

Lemma same_nodes_ambiguous e g : graph_ok g -> same_nodes g (add_ambiguous e g).
Proof. intros []. by split. Qed.

Lemma resolve_ok lower t source target rel g :
  graph_ok g -> tables_ok t (node_ids g) ->
  exists g', resolve_and_link lower t source target rel g = Ok g' /\ same_nodes g g'.
Proof.
  intros Hg Ht. unfold resolve_and_link. destruct (bool_decide (strip target = [])); [by exists g|].
  destruct (fqcn_to_node t !! strip target); [eexists; split; [done|by apply graph_ok_add_edge]|].
  destruct (find_candidates lower t (strip target)) as [c|] eqn:Ec.
  - destruct (valid_matches_ok g source (allowed_kinds rel) c) as (valid & -> & Hv).
    { by eapply find_candidates_in. }
    cbn [res_bind]. destruct valid as [|x [|y valid]]; [by exists g|eexists; split; [done|by apply graph_ok_add_edge]|].
    destruct (kinds_ok g (x :: y :: valid)) as [ks ->].
    { intros z Hz. apply (find_candidates_in _ _ _ _ _ Ht Ec). by apply Hv. }
    cbn [res_bind]. destruct (_ && _); (eexists; split; [done|]); [by apply graph_ok_add_edges|by apply same_nodes_ambiguous].
  - destruct (filter _ _) as [|x [|y l]]; (eexists; split; [done|]);
      [by apply same_nodes_unresolved|by apply graph_ok_add_edge|by apply same_nodes_ambiguous].
Qed.

Lemma link_ok lower t source r g :
  graph_ok g -> tables_ok t (node_ids g) -> exists g', link lower t source r g = Ok g' /\ same_nodes g g'.
Proof.
  intros Hg Ht. destruct r as [target rel|symbol]; cbn [link]; [by apply resolve_ok|]. eexists. split; [done|].
  generalize (default [] (simple_symbol_to_nodes t !! symbol)). intros l. clear Ht. revert g Hg.
  induction l as [|x l IH]; intros g Hg; [done|]. cbn [fold_left]. destruct (decide (x = source)); [by apply IH|].
  destruct (graph_ok_add_edge source x g Hg) as [H1 H2]. destruct (IH _ H1) as [H3 H4]. split; [done|]. by rewrite H4.
Qed.

Lemma link_all_ok lower t source rs g :
  graph_ok g -> tables_ok t (node_ids g) -> exists g', link_all lower t source rs g = Ok g' /\ same_nodes g g'.
Proof.
  revert g; induction rs as [|r rs IH]; intros g Hg Ht; cbn [link_all]; [by exists g|].
  destruct (link_ok lower t source r g Hg Ht) as (g1 & -> & Hg1 & E1). cbn [res_bind].
  destruct (IH g1 Hg1) as (g2 & -> & Hg2 & E2); [unfold node_ids; by rewrite E1|].
  exists g2. split; [done|]. split; [done|]. by rewrite E2.
Qed.

Lemma link_files_ok lower t files g :
  graph_ok g -> tables_ok t (node_ids g) -> exists g', link_files lower t files g = Ok g' /\ same_nodes g g'.
Proof.
  revert g; induction files as [|[n rs] files IH]; intros g Hg Ht; cbn [link_files]; [by exists g|].
  destruct (link_all_ok lower t (id n) rs g Hg Ht) as (g1 & -> & Hg1 & E1). cbn [res_bind].
  destruct (IH g1 Hg1) as (g2 & -> & Hg2 & E2); [unfold node_ids; by rewrite E1|].
  exists g2. split; [done|]. split; [done|]. by rewrite E2.
Qed.

(** A graph is built whatever the files hold, with a node for each. *)
Lemma build_ok lower casefold modid package ns ps files :
  exists g, build_from_files lower files (new_graph casefold modid package ns ps) = Ok g /\ graph_ok g /\
    forall x, x ∈ node_ids g <-> x ∈ map (fun f => id f.1) files.
Proof.
  unfold build_from_files. set (g0 := new_graph casefold modid package ns ps).
  pose proof (register_all lower files g0 no_tables) as Hr.
  destruct (fold_left _ files (g0, no_tables)) as [g t]. destruct Hr as (Hg & Ht & Hids).
  - apply graph_ok_new.
  - split; unfold in_values; cbn; intros; by rewrite lookup_empty in *.
  - destruct (link_files_ok lower t files g Hg Ht) as (g' & E & Hg' & En). exists g'. split_and!; [done|done|].
    intros x. unfold node_ids in *. rewrite En, Hids. cbn. rewrite elem_of_nil. tauto.
Qed.

(** C33: [compute_scc] computes the strongly connected components.  For every set of files
    the graph is built and the search ends; each file is in exactly one component; a
    component is not empty and holds, with a file, exactly the files that reach it and
    are reached from it; and a file outside of its component that a file requires is in
    an earlier one. *)
Theorem compute_scc_spec lower casefold modid package ns ps files :
  exists g cs, build_from_files lower files (new_graph casefold modid package ns ps) = Ok g /\ compute_scc g = Ok cs /\
    NoDup (concat cs) /\ (forall x, x ∈ concat cs <-> x ∈ map (fun f => id f.1) files) /\
    (forall c, c ∈ cs -> c <> [] /\
       forall x y, x ∈ c -> (y ∈ c <-> rtc (edge (successors g)) x y /\ rtc (edge (successors g)) y x)) /\
    forall pre c post x y, cs = pre ++ c :: post -> x ∈ c -> y ∈ successors g x -> y ∈ c \/ y ∈ concat pre.
Proof.
  destruct (build_ok lower casefold modid package ns ps files) as (g & E & Hg & Hids).
  destruct (compute_scc_correct (successors g) (node_ids g)) as (cs & Ecs & Hn & Hin & Hscc & Ho).
  { intros x y _. by apply successors_in. }
  exists g, cs. split_and!; [done|done|done| |done|done]. intros x. by rewrite Hin.
Qed.
