(* ===== verification/ArtifactClosures.v ===== *)
(** * ArtifactClosures: [compute_directional_closures] computes the reachable sets

    The condensation has the edges between the components, the search finds what is
    reachable in it, and a component without incoming edges is a maximal one. *)

From stdpp Require Import prelude gmap sets fin_sets fin_maps fin_map_dom strings list sorting relations.
From S2P Require Import Prelude Text Json PyJson Tarjan TarjanProps ArtifactGraph.

Open Scope Z_scope.
Open Scope py_scope.

(** ** The table of components *)

Lemma imap_snoc {A B} (f : nat -> A -> B) l x : imap f (l ++ [x]) = imap f l ++ [f (length l) x].
Proof. rewrite imap_app. simpl. by rewrite Nat.add_0_r. Qed.

Lemma insert_all_lookup (c : list pystr) (i : nat) (m : gmap pystr nat) x :
  fold_left (fun m x => <[x := i]> m) c m !! x = if decide (x ∈ c) then Some i else m !! x.
Proof.
  revert m; induction c as [|y c IH]; intros m; cbn [fold_left].
  - rewrite decide_False; [done|]. apply not_elem_of_nil.
  - rewrite IH. destruct (decide (x ∈ c)) as [Hx|Hx].
    + rewrite decide_True; [done|by right].
    + destruct (decide (x = y)) as [->|Hne].
      * rewrite decide_True by left. by rewrite lookup_insert_eq.
      * rewrite decide_False by (rewrite elem_of_cons; tauto). by rewrite lookup_insert_ne.
Qed.

Lemma scc_table_spec cs x i :
  NoDup (concat cs) -> scc_table cs !! x = Some i <-> exists c, cs !! i = Some c /\ x ∈ c.
Proof.
  unfold scc_table. induction cs as [|c cs IH] using rev_ind; intros Hn.
  { cbn. rewrite lookup_empty. split; [done|]. intros (c & Hc & _). by destruct i. }
  rewrite concat_snoc in Hn. apply NoDup_app in Hn as (Hn & Hd & _). specialize (IH Hn).
  rewrite imap_snoc, fold_left_app. cbn [fold_left fst snd]. rewrite insert_all_lookup.
  destruct (decide (x ∈ c)) as [Hx|Hx].
  - split; [intros [= <-]; exists c; split; [|done]; by rewrite lookup_app_r, Nat.sub_diag|].
    intros (d & [Hd'|[Hle Hd']]%lookup_app_Some & Hxd).
    + exfalso. apply (Hd x); [|done]. apply list_elem_of_In, in_concat. exists d.
      rewrite <- !list_elem_of_In. split; [by eapply list_elem_of_lookup_2|done].
    + apply list_lookup_singleton_Some in Hd' as [? _]. f_equal. lia.
  - rewrite IH. split.
    + intros (d & Hd' & Hxd). exists d. split; [by apply lookup_app_l_Some|done].
    + intros (d & [Hd'|[Hle Hd']]%lookup_app_Some & Hxd); [by exists d|].
      apply list_lookup_singleton_Some in Hd' as [_ <-]. contradiction.
Qed.

(** ** The condensation *)

Definition dag_edge (d : condensation) (i j : nat) : Prop := j ∈ default ∅ (scc_dag_adj d !! i).

#[export] Instance dag_edge_dec d i j : Decision (dag_edge d i j).
Proof. unfold dag_edge. apply _. Defined.

(** The counts are zero where no edge leads. *)
Definition counts_ok (d : condensation) : Prop :=
  forall j, 0 <= default 0 (incoming d !! j) /\ (default 0 (incoming d !! j) = 0 <-> forall i, ~ dag_edge d i j).

Lemma add_dag_edge_spec s t d i j :
  dag_edge (add_dag_edge s t d) i j <-> dag_edge d i j \/ (i = s /\ j = t /\ s <> t).
Proof.
  unfold add_dag_edge, dag_edge. destruct (decide _) as [[Hne Hnin]|Hno]; cbn [scc_dag_adj].
  - destruct (decide (i = s)) as [->|Hi].
    + rewrite lookup_insert_eq. cbn. rewrite elem_of_union, elem_of_singleton. tauto.
    + rewrite lookup_insert_ne by done. tauto.
  - split; [by left|]. intros [|(-> & -> & Hne)]; [done|].
    destruct (decide (t ∈ default ∅ (scc_dag_adj d !! s))); [done|tauto].
Qed.

Lemma add_dag_edge_counts s t d : counts_ok d -> counts_ok (add_dag_edge s t d).
Proof.
  intros Hd j. setoid_rewrite add_dag_edge_spec. destruct (Hd j) as [H0 Hz].
  unfold add_dag_edge. destruct (decide _) as [[Hne Hnin]|Hno]; cbn [incoming].
  - destruct (decide (j = t)) as [->|Hj].
    + rewrite lookup_insert_eq. cbn. split; [lia|]. split; [lia|]. intros Hno. exfalso. apply (Hno s). by right.
    + rewrite lookup_insert_ne by done. split; [done|]. rewrite Hz.
      split; intros Hi i; specialize (Hi i); [intros [?|(_ & ? & _)]; done|tauto].
  - split; [done|]. rewrite Hz. split; intros Hi i; specialize (Hi i); [|tauto].
    intros [?|(-> & -> & Hne)]; [done|]. apply Hno. done.
Qed.

Section condense.
Context (table : gmap pystr nat).

Definition from_targets (i : nat) (ts : list pystr) (d : condensation) : condensation :=
  fold_left (fun d target => match table !! target with Some t => add_dag_edge i t d | None => d end) ts d.

Lemma from_targets_spec s ts d :
  (forall i j, dag_edge (from_targets s ts d) i j <->
     dag_edge d i j \/ (i = s /\ s <> j /\ exists y, y ∈ ts /\ table !! y = Some j)) /\
  (counts_ok d -> counts_ok (from_targets s ts d)).
Proof.
  unfold from_targets. revert d; induction ts as [|t ts IH]; intros d; cbn [fold_left].
  { split; [|done]. intros i j. split; [by left|]. intros [|(_ & _ & y & Hy & _)]; [done|]. by apply elem_of_nil in Hy. }
  destruct (table !! t) as [k|] eqn:Et.
  - destruct (IH (add_dag_edge s k d)) as [H1 H2]. split; [|intros Hc; by apply H2, add_dag_edge_counts].
    intros i j. rewrite H1, add_dag_edge_spec. setoid_rewrite elem_of_cons. split.
    + intros [[?|(-> & -> & ?)]|(-> & ? & y & ? & ?)]; [by left|right; split_and!; [done|done|]; exists t; auto|].
      right. split_and!; [done|done|]. exists y. auto.
    + intros [?|(-> & Hne & y & [->|Hy] & Hyj)]; [auto| |right; split_and!; [done|done|by exists y]].
      rewrite Et in Hyj. injection Hyj as ->. auto.
  - destruct (IH d) as [H1 H2]. split; [|done]. intros i j. rewrite H1. setoid_rewrite elem_of_cons. split.
    + intros [?|(-> & ? & y & ? & ?)]; [by left|]. right. split_and!; [done|done|]. exists y. auto.
    + intros [?|(-> & Hne & y & [->|Hy] & Hyj)]; [by left|congruence|]. right. split_and!; [done|done|by exists y].
Qed.

Lemma condense_spec g :
  (forall i j, dag_edge (condense g table) i j <->
     i <> j /\ exists x ts y, (x, ts) ∈ adjacency g /\ y ∈ ts /\ table !! x = Some i /\ table !! y = Some j) /\
  counts_ok (condense g table).
Proof.
  unfold condense.
  assert (Hgen : forall adj d,
    let d' := fold_left (fun d e => match table !! e.1 with None => d | Some source => from_targets source e.2 d end) adj d in
    (forall i j, dag_edge d' i j <-> dag_edge d i j \/
       (i <> j /\ exists x ts y, (x, ts) ∈ adj /\ y ∈ ts /\ table !! x = Some i /\ table !! y = Some j)) /\
    (counts_ok d -> counts_ok d')).
  { induction adj as [|[x ts] adj IH]; intros d; cbn [fold_left fst snd].
    { split; [|done]. intros i j. split; [by left|]. intros [|(_ & x & ts & y & Hin & _)]; [done|]. by apply elem_of_nil in Hin. }
    destruct (table !! x) as [k|] eqn:Ex.
    - destruct (IH (from_targets k ts d)) as [H1 H2]. destruct (from_targets_spec k ts d) as [H3 H4].
      split; [|auto]. intros i j. rewrite H1, H3. setoid_rewrite elem_of_cons. split.
      + intros [[?|(-> & ? & y & ? & ?)]|(? & x' & ts' & y & ? & ? & ? & ?)]; [by left| |].
        * right. split; [done|]. exists x, ts, y. auto.
        * right. split; [done|]. exists x', ts', y. auto.
      + intros [?|(Hne & x' & ts' & y & [[= -> ->]|Hin] & Hy & Hx & Hyj)]; [auto| |].
        * rewrite Ex in Hx. injection Hx as ->. left. right. split_and!; [done|done|by exists y].
        * right. split; [done|]. by exists x', ts', y.
    - destruct (IH d) as [H1 H2]. split; [|done]. intros i j. rewrite H1. setoid_rewrite elem_of_cons. split.
      + intros [?|(? & x' & ts' & y & ? & ? & ? & ?)]; [by left|]. right. split; [done|]. exists x', ts', y. auto.
      + intros [?|(Hne & x' & ts' & y & [[= -> ->]|Hin] & Hy & Hx & Hyj)]; [by left|congruence|].
        right. split; [done|]. by exists x', ts', y. }
  destruct (Hgen (adjacency g) (Dag ∅ ∅)) as [H1 H2]. split.
  - intros i j. rewrite (H1 i j). unfold dag_edge at 1. cbn. rewrite lookup_empty. cbn. rewrite elem_of_empty. tauto.
  - apply H2. intros j. unfold dag_edge. cbn. rewrite lookup_empty. cbn. split; [done|]. split; [|done].
    intros _ i. rewrite lookup_empty. cbn. apply not_elem_of_empty.
Qed.

End condense.

(** ** The search *)

Lemma search_spec (dag : gmap nat (gset nat)) (n : nat) start fuel queue found :
  let step i j := j ∈ default ∅ (dag !! i) in
  (forall i j, step i j -> (j < n)%nat) -> (forall i, i ∈ found -> (i < n)%nat /\ rtc step start i) ->
  (forall i, i ∈ queue -> i ∈ found) ->
  (forall i j, i ∈ found -> i ∉ queue -> step i j -> j ∈ found) ->
  (length queue + (n - size found) <= fuel)%nat ->
  exists result, search fuel dag queue found = Ok result /\ found ⊆ result /\
    (forall i, i ∈ result -> (i < n)%nat /\ rtc step start i) /\ (forall i j, i ∈ result -> step i j -> j ∈ result).
Proof.
  intros step Hn. revert queue found; induction fuel as [|fuel IH]; intros queue found Hf Hq He Hfuel.
  { destruct queue; [|simpl in Hfuel; lia]. exists found. split_and!; try done. intros i j Hi. apply He; [done|apply not_elem_of_nil]. }
  destruct queue as [|c queue]; cbn [search].
  { exists found. split_and!; try done. intros i j Hi. apply He; [done|apply not_elem_of_nil]. }
  set (fresh := default ∅ (dag !! c) ∖ found).
  assert (Hc : c ∈ found) by (apply Hq; by left).
  assert (Hnew : forall i, i ∈ fresh <-> step c i /\ i ∉ found) by (intros i; unfold fresh; by rewrite elem_of_difference).
  assert (Hset : (list_to_set (elements fresh) : gset nat) = fresh) by apply list_to_set_elements_L.
  rewrite Hset.
  assert (Hsub : found ∪ fresh ⊆ list_to_set (seq 0 n)).
  { intros i [Hi|Hi]%elem_of_union; apply elem_of_list_to_set, elem_of_seq.
    - destruct (Hf i Hi). lia.
    - apply Hnew in Hi as [Hi _]. apply Hn in Hi. lia. }
  assert (Hsize : size (found ∪ fresh) = (size found + size fresh)%nat) by (apply size_union; set_solver).
  apply subseteq_size in Hsub. rewrite size_list_to_set, length_seq in Hsub by apply NoDup_seq.
  destruct (IH (queue ++ elements fresh) (found ∪ fresh)) as (result & E & H1 & H2 & H3).
  - intros i [Hi|Hi]%elem_of_union; [by apply Hf|]. apply Hnew in Hi as [Hi _]. split; [by eapply Hn|].
    eapply rtc_r; [by apply Hf|done].
  - intros i [Hi|Hi]%elem_of_app; [apply elem_of_union_l, Hq; by right|by apply elem_of_union_r, elem_of_elements].
  - intros i j Hi Hni Hs. rewrite elem_of_app, elem_of_elements in Hni. apply elem_of_union in Hi as [Hi|Hi]; [|tauto].
    destruct (decide (j ∈ found)) as [Hj|Hj]; [by apply elem_of_union_l|].
    destruct (decide (i = c)) as [->|Hic]; [by apply elem_of_union_r, Hnew|].
    apply elem_of_union_l, (He i); [done| |done]. rewrite elem_of_cons. tauto.
  - rewrite length_app, Hsize. change (length (elements fresh)) with (size fresh). simpl in Hfuel. lia.
  - exists result. split_and!; [done|set_solver|done|done].
Qed.

Lemma reachable_sccs_spec n d start :
  (forall i j, dag_edge d i j -> (j < n)%nat) -> (start < n)%nat ->
  exists result, reachable_sccs n d start = Ok result /\ forall i, i ∈ result <-> rtc (dag_edge d) start i.
Proof.
  intros Hn Hs. unfold reachable_sccs.
  destruct (search_spec (scc_dag_adj d) n start n [start] {[start]}) as (result & E & H1 & H2 & H3).
  - exact Hn.
  - intros i ->%elem_of_singleton. split; [done|apply rtc_refl].
  - intros i ->%list_elem_of_singleton. set_solver.
  - intros i j ->%elem_of_singleton Hni. destruct Hni. by left.
  - rewrite size_singleton. simpl. lia.
  - exists result. split; [done|]. intros i. split; [apply H2|]. intros Hr.
    assert (Hst : start ∈ result) by set_solver. clear -Hr Hst H3. induction Hr as [|i j k Hij _ IH]; [done|]. apply IH. by eapply H3.
Qed.

(** ** Closures *)

(** The reachable files of a node, in order and once each. *)
Definition is_closure (g : ArtifactDependencyGraph) (s : pystr) (c : list pystr) : Prop :=
  StronglySorted str_le c /\ NoDup c /\ forall x, x ∈ c <-> rtc (edge (successors g)) s x.

Lemma is_closure_unique g s c c' : is_closure g s c -> is_closure g s c' -> c = c'.
Proof.
  intros (Hs & Hn & Hc) (Hs' & Hn' & Hc'). apply (StronglySorted_unique str_le); [done|done|].
  apply NoDup_Permutation; [done|done|]. intros x. by rewrite Hc, Hc'.
Qed.

Lemma elem_of_fromkeys {A} `{EqDecision A} (l : list A) x : x ∈ fromkeys l <-> x ∈ l.
Proof.
  induction l as [|y l IH]; cbn [fromkeys]; [done|]. rewrite !elem_of_cons, list_elem_of_filter, IH.
  destruct (decide (x = y)); tauto.
Qed.

Lemma picked_elem (cs : list (list pystr)) (ks : list nat) x :
  x ∈ concat (map (fun i => default [] (cs !! i)) ks) <-> exists i c, i ∈ ks /\ cs !! i = Some c /\ x ∈ c.
Proof.
  rewrite list_elem_of_In, in_concat. setoid_rewrite in_map_iff. split.
  - intros (l & (i & <- & Hi) & Hx). apply list_elem_of_In in Hi, Hx. destruct (cs !! i) as [c|] eqn:E; [by exists i, c|].
    by apply elem_of_nil in Hx.
  - intros (i & c & Hi & Hc & Hx). exists c. split; [|by apply list_elem_of_In]. exists i. rewrite Hc.
    split; [done|by apply list_elem_of_In].
Qed.

Lemma picked_NoDup (cs : list (list pystr)) (ks : list nat) :
  NoDup (concat cs) -> NoDup ks -> NoDup (concat (map (fun i => default [] (cs !! i)) ks)).
Proof.
  intros Hcs. induction 1 as [|i ks Hi Hks IH]; cbn [map concat]; [constructor|]. apply NoDup_app. split_and!; [| |done].
  - destruct (cs !! i) as [c|] eqn:E; [|constructor]. apply list_elem_of_lookup_2, list_elem_of_split in E as (l1 & l2 & ->).
    rewrite concat_app in Hcs. apply NoDup_app in Hcs as (_ & _ & Hcs). cbn in Hcs. by apply NoDup_app in Hcs as [? _].
  - intros x Hx (j & c & Hj & Hc & Hxc)%picked_elem. destruct (cs !! i) as [c'|] eqn:E; [|by apply elem_of_nil in Hx].
    assert (scc_table cs !! x = Some i) as E1 by (apply scc_table_spec; [done|by exists c']).
    assert (scc_table cs !! x = Some j) as E2 by (apply scc_table_spec; [done|by exists c]). congruence.
Qed.

Section closures.
Context (g : ArtifactDependencyGraph) (cs : list (list pystr)).
Context (Hg : graph_ok g) (Hnodup : NoDup (concat cs)) (Hall : forall x, x ∈ concat cs <-> x ∈ node_ids g).
Context (Hscc : forall c, c ∈ cs -> is_scc (successors g) c) (Horder : successors_first (successors g) cs).

Abbreviation path := (rtc (edge (successors g))).
Abbreviation table := (scc_table cs).
Abbreviation dag := (condense g table).

Lemma table_spec x i : table !! x = Some i <-> exists c, cs !! i = Some c /\ x ∈ c.
Proof. by apply scc_table_spec. Qed.

Lemma table_lt x i : table !! x = Some i -> (i < length cs)%nat.
Proof. intros (c & Hc & _)%table_spec. by apply lookup_lt_is_Some_1; eexists. Qed.

Lemma table_total x : x ∈ node_ids g <-> is_Some (table !! x).
Proof.
  rewrite <- Hall. split.
  - intros Hx%list_elem_of_In. apply in_concat in Hx as (c & Hc & Hx). rewrite <- !list_elem_of_In in *.
    apply list_elem_of_lookup in Hc as [i Hc]. exists i. apply table_spec. by exists c.
  - intros (i & (c & Hc & Hx)%table_spec). apply list_elem_of_In, in_concat. exists c. rewrite <- !list_elem_of_In.
    split; [by eapply list_elem_of_lookup_2|done].
Qed.

Lemma same_component x y i : table !! x = Some i -> (table !! y = Some i <-> path x y /\ path y x).
Proof.
  intros (c & Hc & Hx)%table_spec. pose proof (Hscc c ltac:(by eapply list_elem_of_lookup_2)) as [_ Hs].
  rewrite <- (Hs x y Hx), table_spec. split; [|by exists c]. intros (c' & Hc' & Hy). congruence.
Qed.

Lemma edge_adjacency x y : edge (successors g) x y <-> exists ts, (x, ts) ∈ adjacency g /\ y ∈ ts.
Proof.
  unfold edge, successors. split.
  - destruct (dict_get x (adjacency g)) as [ts|] eqn:E; [|by intros ?%elem_of_nil]. intros Hy. exists ts. split; [by apply dict_get_in|done].
  - intros (ts & Hin & Hy). apply dict_get_nodup in Hin; [|apply (ok_keys _ Hg)]. by rewrite Hin.
Qed.

Lemma dag_edge_spec i j :
  dag_edge dag i j <-> i <> j /\ exists x y, edge (successors g) x y /\ table !! x = Some i /\ table !! y = Some j.
Proof.
  rewrite (proj1 (condense_spec table g)). setoid_rewrite edge_adjacency. split.
  - intros (Hne & x & ts & y & ? & ? & ? & ?). split; [done|]. exists x, y. split_and!; [by exists ts|done|done].
  - intros (Hne & x & y & (ts & ? & ?) & ? & ?). split; [done|]. by exists x, ts, y.
Qed.

Lemma dag_edge_lt i j : dag_edge dag i j -> (j < length cs)%nat.
Proof. intros (_ & x & y & _ & _ & Hy)%dag_edge_spec. by eapply table_lt. Qed.

Lemma path_in x y : path x y -> x ∈ node_ids g -> y ∈ node_ids g.
Proof. intros Hp. induction Hp as [|x y z Hxy _ IH]; [done|]. intros _. apply IH. by apply (successors_in g x). Qed.

Lemma path_dag x y i j : path x y -> table !! x = Some i -> table !! y = Some j -> rtc (dag_edge dag) i j.
Proof.
  intros Hp. revert i; induction Hp as [x|x z y Hxz Hzy IH]; intros i Hi Hj.
  - rewrite Hi in Hj. injection Hj as ->. apply rtc_refl.
  - assert (Hz : z ∈ node_ids g) by (by apply (successors_in g x)). apply table_total in Hz as [k Hk].
    destruct (decide (i = k)) as [->|Hne]; [by apply IH|]. eapply rtc_l; [|by apply IH].
    apply dag_edge_spec. split; [done|]. by exists x, z.
Qed.

Lemma dag_path i j x y : rtc (dag_edge dag) i j -> table !! x = Some i -> table !! y = Some j -> path x y.
Proof.
  intros Hr. revert x; induction Hr as [i|i k j Hik _ IH]; intros x Hx Hy.
  - by apply (same_component x y i).
  - apply dag_edge_spec in Hik as (_ & x' & z & He & Hx' & Hz).
    etrans; [by apply (same_component x x' i)|]. eapply rtc_l; [exact He|]. by apply IH.
Qed.

(** An edge leads to a component found before. *)
Lemma dag_edge_before i j : dag_edge dag i j -> (j < i)%nat.
Proof.
  intros (Hne & x & y & He & (c & Hc & Hx)%table_spec & Hy)%dag_edge_spec.
  pose proof (take_drop_middle cs i c Hc) as Hsplit. destruct (Horder (take i cs) c (drop (S i) cs) x y (eq_sym Hsplit) Hx He) as [Hyc|Hyp].
  - destruct Hne. assert (table !! y = Some i) as Hyi by (apply table_spec; by exists c). congruence.
  - apply list_elem_of_In, in_concat in Hyp as (c' & Hc' & Hyc'). rewrite <- !list_elem_of_In in *.
    apply list_elem_of_lookup in Hc' as [k Hk]. apply lookup_take_Some in Hk as [Hk Hlt].
    assert (table !! y = Some k) by (apply table_spec; by exists c'). congruence.
Qed.

(** Every component is reached from one without incoming edges. *)
Lemma some_root i : (i < length cs)%nat ->
  exists r, (r < length cs)%nat /\ (forall k, ~ dag_edge dag k r) /\ rtc (dag_edge dag) r i.
Proof.
  intros Hi. remember (length cs - i)%nat as m eqn:Em. revert i Hi Em; induction (lt_wf m) as [m _ IH]; intros i Hi Em.
  destruct (decide (default 0 (incoming dag !! i) = 0)) as [H0|H0].
  - exists i. split_and!; [done| |apply rtc_refl]. by apply (proj2 (condense_spec table g)).
  - destruct (decide (Exists (fun k => dag_edge dag k i) (seq 0 (length cs)))) as [Hk|Hk].
    + apply Exists_exists in Hk as (k & Hk%elem_of_seq & Hki). pose proof (dag_edge_before _ _ Hki).
      destruct (IH (length cs - k)%nat ltac:(lia) k ltac:(lia) eq_refl) as (r & Hr & Hroot & Hrk).
      exists r. split_and!; [done|done|]. by eapply rtc_r.
    + exfalso. apply H0, (proj2 (condense_spec table g)). intros k Hki. apply Hk, Exists_exists. exists k. split; [|done].
      apply elem_of_seq. apply dag_edge_spec in Hki as (_ & x & y & _ & Hx & _). apply table_lt in Hx. lia.
Qed.

Definition closure_list (found : gset nat) : list pystr :=
  sort_strs (concat (map (fun i => default [] (cs !! i)) (elements found))).

Lemma closure_list_spec s i found :
  table !! s = Some i -> (forall k, k ∈ found <-> rtc (dag_edge dag) i k) -> is_closure g s (closure_list found).
Proof.
  intros Hs Hf. unfold closure_list, sort_strs. split_and!.
  - apply Sorted_StronglySorted; [intros a b c; apply str_leb_trans|]. apply Sorted_merge_sort. intros a b. apply str_leb_total.
  - rewrite merge_sort_Permutation. apply picked_NoDup; [done|apply NoDup_elements].
  - intros x. rewrite merge_sort_Permutation, picked_elem. setoid_rewrite elem_of_elements. split.
    + intros (k & c & Hk & Hc & Hx). apply Hf in Hk. apply (dag_path i k); [done|done|]. apply table_spec. by exists c.
    + intros Hp. assert (Hx : x ∈ node_ids g) by (apply (path_in s x Hp), table_total; by eexists).
      apply table_total in Hx as [k Hk]. pose proof (path_dag s x i k Hp Hs Hk). apply table_spec in Hk as (c & Hc & Hx).
      exists k, c. split_and!; [by apply Hf|done|done].
Qed.

Lemma component_inhabited i : (i < length cs)%nat -> exists s, table !! s = Some i.
Proof.
  intros [c Hc]%lookup_lt_is_Some_2. pose proof (Hscc c ltac:(by eapply list_elem_of_lookup_2)) as [Hne _].
  destruct c as [|s c]; [done|]. exists s. apply table_spec. exists (s :: c). split; [done|by left].
Qed.

Lemma closure_same s t i c : table !! s = Some i -> table !! t = Some i -> is_closure g s c -> is_closure g t c.
Proof.
  intros Hs Ht (H1 & H2 & H3). split_and!; [done|done|]. intros x. rewrite H3.
  apply (same_component s t i Hs) in Ht as [Hst Hts]. split; intros Hp; by etrans.
Qed.

Lemma closures_of_spec starts seen :
  (forall i, i ∈ starts -> (i < length cs)%nat) -> NoDup seen ->
  exists result, closures_of cs dag starts seen = Ok result /\ NoDup result /\
    forall c, c ∈ result <-> c ∈ seen \/ exists i s, i ∈ starts /\ table !! s = Some i /\ is_closure g s c.
Proof.
  revert seen; induction starts as [|i starts IH]; intros seen Hlt Hn; cbn [closures_of].
  { exists seen. split_and!; [done|done|]. intros c. split; [by left|]. intros [|(i & s & Hi & _)]; [done|]. by apply elem_of_nil in Hi. }
  destruct (reachable_sccs_spec (length cs) dag i dag_edge_lt) as (found & -> & Hf); [apply Hlt; by left|]. cbn [res_bind].
  fold (closure_list found). destruct (component_inhabited i) as [s Hs]; [apply Hlt; by left|].
  pose proof (closure_list_spec s i found Hs Hf) as Hcl.
  destruct (IH (if decide (closure_list found ∈ seen) then seen else seen ++ [closure_list found])) as (result & -> & Hr & Hin).
  - intros j Hj. apply Hlt. by right.
  - destruct (decide _) as [|Hns]; [done|]. apply NoDup_app. split_and!; [done| |apply NoDup_singleton].
    intros x Hx ->%list_elem_of_singleton. contradiction.
  - exists result. split_and!; [done|done|]. intros c. rewrite Hin. setoid_rewrite elem_of_cons.
    assert (Hc : c ∈ (if decide (closure_list found ∈ seen) then seen else seen ++ [closure_list found]) <->
                 c ∈ seen \/ c = closure_list found).
    { destruct (decide _); [|by rewrite elem_of_app, list_elem_of_singleton]. split; [by left|]. by intros [| ->]. }
    rewrite Hc. split.
    + intros [[?| ->]|(j & t & Hj & Ht & Hct)]; [by left|right; exists i, s; auto|right; exists j, t; auto].
    + intros [?|(j & t & [->|Hj] & Ht & Hct)]; [auto| |right; by exists j, t]. left. right.
      apply (is_closure_unique g s); [|done]. by apply (closure_same t s i).
Qed.

Lemma root_iff s i :
  table !! s = Some i -> (forall k, ~ dag_edge dag k i) <-> (forall y, path y s -> path s y).
Proof.
  intros Hs. assert (Hin : forall y, path y s -> y ∈ node_ids g).
  { intros y Hp. destruct Hp as [y|y z s Hyz _]; [apply table_total; by eexists|].
    apply edge_adjacency in Hyz as (ts & Hin & _). apply (ok_same _ Hg), list_elem_of_fmap. by exists (y, ts). }
  split.
  - intros Hno y Hp. pose proof (Hin y Hp) as [k Hk]%table_total. pose proof (path_dag y s k i Hp Hk Hs) as Hr.
    apply rtc_inv_r in Hr as [->|(j & _ & Hj)]; [by apply (same_component s y i)|by destruct (Hno j)].
  - intros Hall' k (Hne & x & z & He & Hx & Hz)%dag_edge_spec. apply Hne.
    apply (same_component s z i Hs) in Hz as [_ Hzs]. assert (Hxs : path x s) by (by eapply rtc_l).
    assert (table !! x = Some i) as Hxi by (apply (same_component s x i Hs); auto). congruence.
Qed.

End closures.

(** C34: [compute_directional_closures] computes the reachable sets.  For every set of files,
    with seeds, the result has exactly the closures of the seeds that are files; without,
    those of the files that whatever reaches them is reached from, and every file is in
    one.  A closure holds what the file requires, directly or not, and itself, sorted and
    once; no closure is given twice. *)
Theorem directional_closures_spec lower casefold modid package ns ps files :
  exists g, build_from_files lower files (new_graph casefold modid package ns ps) = Ok g /\
  let ids := map (fun f => id f.1) files in
  let path := rtc (edge (successors g)) in
  (forall seeds, exists result, compute_directional_closures (Some seeds) g = Ok result /\ NoDup result /\
     forall c, c ∈ result <-> exists s, s ∈ seeds /\ s ∈ ids /\ is_closure g s c) /\
  (exists result, compute_directional_closures None g = Ok result /\ NoDup result /\
     (forall c, c ∈ result <-> exists s, s ∈ ids /\ (forall y, path y s -> path s y) /\ is_closure g s c) /\
     forall x, x ∈ ids -> exists c, c ∈ result /\ x ∈ c).
Proof.
  destruct (build_ok lower casefold modid package ns ps files) as (g & E & Hg & Hids).
  destruct (compute_scc_correct (successors g) (node_ids g)) as (cs & Ecs & Hn & Hin & Hscc & Ho).
  { intros x y _. by apply successors_in. }
  exists g. split; [done|]. unfold compute_directional_closures, compute_scc. unfold node_ids in Ecs. rewrite Ecs. cbn [res_bind].
  pose proof (table_spec cs Hn) as Htab. pose proof (table_total g cs Hn Hin) as Htot. pose proof (table_lt cs Hn) as Hlt. split.
  - intros seeds. destruct (closures_of_spec g cs Hg Hn Hin Hscc (fromkeys (omap (fun s => scc_table cs !! s) seeds)) [])
      as (result & -> & Hnd & Hr); [|constructor|].
    { intros i. rewrite elem_of_fromkeys, list_elem_of_omap. intros (s & _ & Hs). by eapply Hlt. }
    exists result. split_and!; [done|done|]. intros c. rewrite Hr, elem_of_nil.
    setoid_rewrite elem_of_fromkeys. setoid_rewrite list_elem_of_omap. setoid_rewrite <- Hids. setoid_rewrite Htot. split.
    + intros [HF|(i & s & (seed & Hseed & Hi) & Hs & Hc)]. { contradiction. } exists seed. split_and!; [done|by eexists|].
      by apply (closure_same g cs Hn Hscc s seed i).
    + intros (s & Hs & [i Hi] & Hc). right. exists i, s. split_and!; [by exists s|done|done].
  - destruct (closures_of_spec g cs Hg Hn Hin Hscc
      (fromkeys (filter (fun i => default 0 (incoming (condense g (scc_table cs)) !! i) = 0) (seq 0 (length cs)))) [])
      as (result & -> & Hnd & Hr); [|constructor|].
    { intros i. rewrite elem_of_fromkeys, list_elem_of_filter, elem_of_seq. lia. }
    pose proof (proj2 (condense_spec (scc_table cs) g)) as Hcount.
    exists result. split; [done|]. split; [done|]. assert (Hroots : forall c, c ∈ result <->
      exists s, s ∈ map (fun f => id f.1) files /\ (forall y, rtc (edge (successors g)) y s -> rtc (edge (successors g)) s y) /\ is_closure g s c).
    { intros c. rewrite Hr, elem_of_nil. setoid_rewrite elem_of_fromkeys. setoid_rewrite list_elem_of_filter.
      setoid_rewrite <- Hids. setoid_rewrite Htot. split.
      - intros [HF|(i & s & [H0 _] & Hs & Hc)]. { contradiction. } exists s. split_and!; [by eexists| |done].
        apply (root_iff g cs Hg Hn Hin Hscc s i Hs). by apply (Hcount i).
      - intros (s & [i Hi] & Hroot & Hc). right. exists i, s. split_and!; [|apply elem_of_seq; split; [lia|by eapply Hlt]|done|done].
        apply (Hcount i). by apply (root_iff g cs Hg Hn Hin Hscc s i Hi). }
    split; [done|]. intros x Hx. apply Hids, Htot in Hx as [i Hi].
    destruct (some_root g cs Hg Hn Ho i (Hlt x i Hi)) as (r & Hrl & Hno & Hri).
    destruct (component_inhabited g cs Hn Hscc r Hrl) as [s Hs].
    destruct (reachable_sccs_spec (length cs) (condense g (scc_table cs)) r (dag_edge_lt g cs Hg Hn) Hrl) as (found & _ & Hf).
    pose proof (closure_list_spec g cs Hg Hn Hin Hscc s r found Hs Hf) as Hcl. exists (closure_list cs found). split.
    + apply Hroots. exists s. split_and!; [apply Hids, Htot; by eexists| |done].
      by apply (root_iff g cs Hg Hn Hin Hscc s r Hs).
    + destruct Hcl as (_ & _ & Hcl). apply Hcl. by apply (dag_path g cs Hg Hn Hscc r i).
Qed.
