(* ===== verification/ArtifactExamples.v ===== *)
(** * ArtifactExamples: a small mod's files *)

From stdpp Require Import prelude gmap strings list.
From S2P Require Import Prelude Text Json Tarjan ArtifactGraph.

Open Scope Z_scope.
Open Scope py_scope.

Definition lamp_model : ArtifactNode :=
  Node (u "assets/lamps/models/block/lamp.json") MODEL_JSON (u "lamps") (u "block/lamp") (u "common") (u "main")
    (u "assets/lamps/models/block/lamp.json") [] [].

Definition lamp_state : ArtifactNode :=
  Node (u "assets/lamps/blockstates/lamp.json") BLOCKSTATE_JSON (u "lamps") (u "lamp") (u "common") (u "main")
    (u "assets/lamps/blockstates/lamp.json") [] [].

Definition code (name : string) : ArtifactNode :=
  Node (u "src/main/java/lamps/" ++ u name ++ u ".java") JAVA_SOURCE (u "lamps") (u "lamps." ++ u name) (u "common") (u "main")
    (u "src/main/java/lamps/" ++ u name ++ u ".java") [u name] [].

(** Two classes that name each other, a third that names one of them, and the files of a
    block whose model names a texture. *)
Definition lamp_mod (texture : string) : list (ArtifactNode * list reference) :=
  [(code "Main", [Token (u "Lamp")]);
   (code "Lamp", [Token (u "Timer"); Reference (u "lamps:lamp") (u "registry")]);
   (code "Timer", [Reference (u "lamps.Lamp") (u "import")]);
   (lamp_state, [Reference (u "lamps:block/lamp") (u "blockstate_model")]);
   (lamp_model, [Reference (u texture) (u "texture_ref")])].

Definition built (texture : string) : ArtifactDependencyGraph :=
  match build_from_files ascii_lower (lamp_mod texture) (new_graph ascii_lower (u "lamps") (u "lamps") [] []) with
  | Ok g => g
  | Err _ => new_graph ascii_lower [] [] [] []
  end.

Lemma lamp_components :
  compute_scc (built "lamps:block/glow") =
  Ok [[u "assets/lamps/models/block/lamp.json"]; [u "assets/lamps/blockstates/lamp.json"];
      [u "src/main/java/lamps/Timer.java"; u "src/main/java/lamps/Lamp.java"]; [u "src/main/java/lamps/Main.java"]].
Proof. vm_compute. reflexivity. Qed.

Lemma lamp_closures :
  compute_directional_closures (Some [u "assets/lamps/blockstates/lamp.json"; u "no such file"]) (built "lamps:block/glow") =
  Ok [[u "assets/lamps/blockstates/lamp.json"; u "assets/lamps/models/block/lamp.json"]] /\
  (length <$> match compute_directional_closures None (built "lamps:block/glow") with Ok l => l | Err _ => [] end) = [5%nat].
Proof. vm_compute. auto. Qed.

(** A missing texture goes unreported when it is named like its model.  The model refers
    to a texture of the mod that no file provides.  With a name of its own the reference is
    recorded as unresolved and the closure of the block is not complete; with the name of
    the model itself, as is usual for a block, nothing is recorded and the same closure
    counts as complete. *)
Theorem missing_texture_unreported :
  let closure := [u "assets/lamps/blockstates/lamp.json"; u "assets/lamps/models/block/lamp.json"] in
  is_closure_complete ascii_lower (built "lamps:block/glow") closure = false /\
  unresolved_edges (built "lamps:block/glow") =
    [Unresolved (u "assets/lamps/models/block/lamp.json") (u "lamps:block/glow") (u "texture_ref") (u "TARGET_NODE_NOT_FOUND")] /\
  is_closure_complete ascii_lower (built "lamps:block/lamp") closure = true /\
  unresolved_edges (built "lamps:block/lamp") = [] /\ ambiguous_edges (built "lamps:block/lamp") = [].
Proof. vm_compute. auto. Qed.
