(* ===== verification/ModOutputScope.v ===== *)
(** * ModOutputScope: [mod_output_scope.py]

    The paths that belong to a standalone world or to a builder, and that a mod
    project may not write. *)

From stdpp Require Import prelude strings list.
From S2P Require Import Prelude Text Json PyJson Paths.

Open Scope Z_scope.
Open Scope py_scope.

Definition _STANDALONE_SUFFIXES : list pystr :=
  map u [".schem"; ".schematic"; ".litematic"; ".mcworld"; ".mca"; ".mcr"].

Definition _STANDALONE_ROOT_FILES : list pystr := map u ["level.dat"; "level.dat_old"; "session.lock"; "uid.dat"].

Definition _STANDALONE_ROOT_DIRS : list pystr :=
  map u ["region"; "entities"; "poi"; "playerdata"; "stats"; "advancements"; "dim-1"; "dim1"].

Definition _BUILDER_OUTPUT_NAMES : list pystr :=
  map u ["buildspec.json"; "buildspec.yaml"; "buildspec.yml"; "block_delta.json"; "block-delta.json"].

Definition _BUILDER_NPZ_NAMES : list pystr :=
  map u ["blocks.npz"; "block_delta.npz"; "block-delta.npz"; "block_deltas.npz"; "block-deltas.npz";
         "world_delta.npz"; "world-delta.npz"].

Definition _BUILDER_NPZ_DIRS : list pystr := map u ["builder"; "buildspec"; "block_delta"; "block-delta"].

Definition _BUILDER_NPZ_MARKERS : list pystr :=
  map u ["block_delta"; "block-delta"; "blockdelta"; "world_delta"; "world-delta"].

Definition _WORLD_CONTAINER_DIRS : list pystr := map u ["world"; "worlds"].

Definition one_of (s : pystr) (l : list pystr) : bool := bool_decide (s ∈ l).

Section scope.
Context `{PyCasefold}.

Definition _normalized_parts (value : pystr) : list pystr :=
  let raw := forward_slashes (strip value) in
  if bool_decide (raw = []) then [] else map casefold (all_parts raw).

Definition _is_builder_npz (parts : list pystr) (name suffix : pystr) : bool :=
  if negb (bool_decide (suffix = u ".npz")) then false
  else one_of name _BUILDER_NPZ_NAMES
       || existsb (fun marker => occurs marker name) _BUILDER_NPZ_MARKERS
       || existsb (fun part => one_of part _BUILDER_NPZ_DIRS) (removelast parts).

(** The scan of the parts: a container followed by a part of the save layout. *)
Fixpoint container_layout (parts : list pystr) : bool :=
  match parts with
  | part :: ((child :: _) as rest) =>
      (one_of part _WORLD_CONTAINER_DIRS &&
       (one_of child _STANDALONE_ROOT_DIRS || one_of child _STANDALONE_ROOT_FILES))
      || container_layout rest
  | _ => false
  end.

Definition _world_save_violation (parts : list pystr) (name : pystr) : option string :=
  if bool_decide (length parts = 1%nat) && one_of name _STANDALONE_ROOT_FILES
  then Some "Minecraft world-save root file"
  else if one_of (hd [] parts) _STANDALONE_ROOT_DIRS then Some "Minecraft world-save root directory"
  else if one_of (u "saves") parts then Some "Minecraft saves directory"
  else if container_layout parts then Some "Minecraft world-save layout" else None.

Definition mod_output_scope_violation (path : pystr) : option string :=
  let parts := _normalized_parts path in
  match last parts with
  | None => None
  | Some name =>
      let suffix := casefold (name_suffix (path_name (path_parts name))) in
      if one_of suffix _STANDALONE_SUFFIXES then Some "standalone world/builder artifact suffix"
      else if one_of name _BUILDER_OUTPUT_NAMES || ends_with (u ".buildspec") name then Some "Builder/BuildSpec output"
      else if _is_builder_npz parts name suffix then Some "Builder NPZ block-delta output"
      else _world_save_violation parts name
  end.

Definition validate_mod_output_path (path : pystr) : res unit :=
  match mod_output_scope_violation path with None => Ok tt | Some why => Err (ModOutputScopeError why) end.

(** Of a transaction: the operations that are objects with a path that is not blank. *)
Fixpoint validate_mod_patch_operations `{PyFloat} (operations : list json) : res unit :=
  match operations with
  | [] => Ok tt
  | operation :: operations =>
      let* _ := match operation with
                | JObj fields =>
                    match get fields (u "path") with
                    | JStr path => if bool_decide (strip path = []) then Ok tt else validate_mod_output_path path
                    | _ => Ok tt
                    end
                | _ => Ok tt
                end in
      validate_mod_patch_operations operations
  end.

End scope.
