(* ===== verification/Replace.v ===== *)
(** * Replace: [str.count] and [str.replace]

    Both scan from left to right for matches that do not overlap.  [pieces] is what
    lies between the matches of a text. *)

From stdpp Require Import prelude strings list.
From S2P Require Import Prelude Text Json.

Open Scope Z_scope.

(** [skip] is what is left of the match the scan is inside of. *)
Fixpoint count_from (old : pystr) (skip : nat) (s : pystr) : Z :=
  match s with
  | [] => 0
  | _ :: s' =>
      match skip with
      | S skip => count_from old skip s'
      | O => if starts_with old s then 1 + count_from old (pred (length old)) s' else count_from old 0 s'
      end
  end.

(** [s.count(old)], for a text [old] that is not empty. *)
Definition str_count (old s : pystr) : Z := count_from old 0 s.

Fixpoint replace_from (old new : pystr) (n : Z) (skip : nat) (s : pystr) : pystr :=
  match s with
  | [] => []
  | c :: s' =>
      match skip with
      | S skip => replace_from old new n skip s'
      | O =>
          if starts_with old s && negb (n =? 0)
          then new ++ replace_from old new (n - 1) (pred (length old)) s'
          else c :: replace_from old new n 0 s'
      end
  end.

(** [s.replace(old, new, n)]; a negative [n] sets no limit. *)
Definition str_replace (old new : pystr) (n : Z) (s : pystr) : pystr := replace_from old new n 0 s.

Definition replace_all (old new s : pystr) : pystr := str_replace old new (-1) s.

(** The texts between the leftmost matches that do not overlap. *)
Inductive pieces (old : pystr) : pystr -> list pystr -> Prop :=
  | pieces_end s : occurs old s = false -> pieces old s [s]
  | pieces_match a t ps :
      occurs old (a ++ removelast old) = false -> pieces old t ps -> pieces old (a ++ old ++ t) (a :: ps).

(** ** Lemmas *)

Lemma occurs_iff old s : occurs old s = true <-> exists a b, s = a ++ old ++ b.
Proof.
  induction s as [|c s IH]; simpl; rewrite orb_true_iff, starts_with_iff.
  - split; [intros [[t Ht]|[=]]; by exists [], t|]. intros (a & b & E). left. exists b. by destruct a, old.
  - rewrite IH. split.
    + intros [[t ->]|(a & b & ->)]; [by exists [], t|]. by exists (c :: a), b.
    + intros ([|c' a] & b & E); simpl in E; [left; by exists b|].
      right. exists a, b. congruence.
Qed.

Lemma occurs_skip old c s : occurs old (c :: s) = false -> occurs old s = false.
Proof. simpl. rewrite orb_false_iff. by intros [_ ?]. Qed.

Lemma count_from_skip old a t : count_from old (length a) (a ++ t) = count_from old 0 t.
Proof. induction a as [|c a IH]; [by destruct t|]. exact IH. Qed.

Lemma replace_from_skip old new n a t :
  replace_from old new n (length a) (a ++ t) = replace_from old new n 0 t.
Proof. induction a as [|c a IH]; [by destruct t|]. exact IH. Qed.

Lemma starts_with_longer old s t : starts_with old s = true -> starts_with old (s ++ t) = true.
Proof. rewrite !starts_with_iff. intros [r ->]. exists (r ++ t). by rewrite app_assoc. Qed.

(** A match at the front of [a ++ old ++ t], with [a] not empty, shows before the end of [old]. *)
Lemma no_match_before old c a t :
  occurs old (c :: a ++ removelast old) = false -> starts_with old (c :: a ++ old ++ t) = false.
Proof.
  intros Ho. apply not_true_iff_false. intros Hs. apply not_true_iff_false in Ho. apply Ho.
  apply occurs_iff. apply starts_with_iff in Hs as [r Hr].
  destruct old as [|x old] using rev_ind; [by exists [], (c :: a ++ [])|].
  rewrite removelast_last in *.
  assert (E : c :: a ++ old = take (length (c :: a ++ old)) (c :: a ++ (old ++ [x]) ++ t)).
  { change (c :: a ++ (old ++ [x]) ++ t) with ((c :: a) ++ (old ++ [x]) ++ t).
    replace ((c :: a) ++ (old ++ [x]) ++ t) with ((c :: a ++ old) ++ [x] ++ t)
      by (cbn [app]; by rewrite <- !app_assoc).
    by rewrite take_app_length. }
  rewrite E, Hr. exists [], (take (length a) r).
  rewrite take_app_ge by (rewrite length_app; simpl; rewrite length_app; lia).
  simpl. f_equal. f_equal. rewrite !length_app. simpl. lia.
Qed.

Lemma count_from_none old s : occurs old s = false -> count_from old 0 s = 0.
Proof.
  induction s as [|c s IH]; [done|]. intros Ho. cbn [count_from].
  pose proof (occurs_skip _ _ _ Ho). simpl in Ho. rewrite orb_false_iff in Ho. destruct Ho as [-> _]. auto.
Qed.

Lemma replace_from_none old new n s : occurs old s = false -> replace_from old new n 0 s = s.
Proof.
  induction s as [|c s IH]; [done|]. intros Ho. cbn [replace_from].
  pose proof (occurs_skip _ _ _ Ho). simpl in Ho. rewrite orb_false_iff in Ho. destruct Ho as [-> _].
  simpl. by rewrite IH.
Qed.

Lemma replace_from_0 old new s : replace_from old new 0 0 s = s.
Proof. induction s as [|c s IH]; [done|]. cbn [replace_from]. rewrite andb_false_r. by rewrite IH. Qed.

Lemma starts_with_self old t : old <> [] -> exists c s, old ++ t = c :: s /\ starts_with old (c :: s) = true /\
  s = tl old ++ t /\ length (tl old) = pred (length old).
Proof. destruct old as [|c old]; [done|]. intros _. exists c, (old ++ t). split; [done|]. split; [apply (starts_with_app (c :: old))|done]. Qed.

Lemma count_from_match old a t :
  old <> [] -> occurs old (a ++ removelast old) = false ->
  count_from old 0 (a ++ old ++ t) = 1 + count_from old 0 t.
Proof.
  intros Hne. induction a as [|c a IH]; intros Ho.
  - destruct (starts_with_self old t Hne) as (c & s & E & Hs & -> & Hl). cbn [app]. rewrite E.
    cbn [count_from]. rewrite Hs, <- Hl, count_from_skip. done.
  - cbn [app count_from]. rewrite no_match_before by done. apply IH. by eapply occurs_skip.
Qed.

Lemma replace_from_match old new n a t :
  old <> [] -> n <> 0 -> occurs old (a ++ removelast old) = false ->
  replace_from old new n 0 (a ++ old ++ t) = a ++ new ++ replace_from old new (n - 1) 0 t.
Proof.
  intros Hne Hn. induction a as [|c a IH]; intros Ho.
  - destruct (starts_with_self old t Hne) as (c & s & E & Hs & -> & Hl). cbn [app]. rewrite E.
    cbn [replace_from]. rewrite Hs, (proj2 (Z.eqb_neq _ _) Hn), <- Hl, replace_from_skip. done.
  - cbn [app replace_from]. rewrite no_match_before by done. cbn [andb]. f_equal. apply IH. by eapply occurs_skip.
Qed.

Lemma pieces_not_nil old s ps : pieces old s ps -> ps <> [].
Proof. by destruct 1. Qed.

Lemma str_count_pieces old s ps :
  old <> [] -> pieces old s ps -> str_count old s = Z.of_nat (length ps) - 1.
Proof.
  intros Hne. unfold str_count. induction 1 as [s Ho|a t ps Ho Hp IH]; [by rewrite count_from_none|].
  rewrite count_from_match, IH by done. cbn [length]. lia.
Qed.

(** A limit that is not below the number of matches replaces them all. *)
Lemma str_replace_pieces old new n s ps :
  old <> [] -> pieces old s ps -> n < 0 \/ Z.of_nat (length ps) - 1 <= n ->
  str_replace old new n s = join new ps.
Proof.
  intros Hne Hp. unfold str_replace. revert n. induction Hp as [s Ho|a t ps Ho Hp IH]; intros n Hn.
  { by rewrite replace_from_none. }
  pose proof (pieces_not_nil _ _ _ Hp). destruct ps as [|p ps]; [done|].
  rewrite replace_from_match; [|done| |done]; [|cbn [length] in Hn; lia].
  rewrite IH by (cbn [length] in *; lia). done.
Qed.

(** Every text has its pieces. *)
Lemma occurs_leftmost old s :
  occurs old s = true -> exists a t, s = a ++ old ++ t /\ (old = [] \/ occurs old (a ++ removelast old) = false).
Proof.
  induction s as [|c s IH].
  - simpl. rewrite orb_false_r, starts_with_iff. intros [t Ht]. exists [], t. split; [done|]. left. by destruct old.
  - destruct (starts_with old (c :: s)) eqn:Es.
    + intros _. apply starts_with_iff in Es as [t ->]. exists [], t. split; [done|].
      destruct old as [|x old] using rev_ind; [by left|right]. rewrite removelast_last.
      apply not_true_iff_false. rewrite occurs_iff. intros (a & b & E%(f_equal length)).
      simpl in E. rewrite !length_app in E. simpl in E. lia.
    + intros Ho. simpl in Ho. simpl in Es. rewrite Es in Ho. destruct (IH Ho) as (a & t & -> & Hl).
      exists (c :: a), t. split; [done|]. destruct Hl as [|Hl]; [by left|right].
      destruct old as [|x old] using rev_ind; [done|].
      rewrite removelast_last in *. simpl. rewrite Hl, orb_false_r.
      apply not_true_iff_false. intros Hs.
      change (c :: a ++ old) with ((c :: a) ++ old) in Hs.
      apply (starts_with_longer _ _ ([x] ++ t)) in Hs. simpl in Hs. rewrite <- !app_assoc in Hs.
      rewrite <- app_assoc in Es. cbn [app] in *. congruence.
Qed.

Lemma pieces_exist old s : old <> [] -> exists ps, pieces old s ps.
Proof.
  intros Hne. induction s as [s IH] using (induction_ltof1 _ (@length Z)). unfold ltof in IH.
  destruct (occurs old s) eqn:Ho; [|by exists [s]; constructor].
  apply occurs_leftmost in Ho as (a & t & -> & [?|Hl]); [done|].
  destruct (IH t) as [ps Hp]; [rewrite !length_app; destruct old; [done|simpl; lia]|].
  exists (a :: ps). by constructor.
Qed.
