(* ===== verification/ResidualContract.v ===== *)
(** * ResidualContract: [residual_generation_contract.py]

    Which files a generation may still write: the paths that a contract protects,
    the ones it may replace, each with the digest the file must have, and the ones it
    may create.  The requirements that a contract carries for other readers
    (symbols, interfaces, resources, bindings, glue) are left out. *)

From stdpp Require Import prelude gmap strings list sorting.
From S2P Require Import Prelude Text Json PyJson Paths.

Open Scope Z_scope.
Open Scope py_scope.

Section residual.
Context `{PyCasefold}.

(** [re.match(r"^[A-Za-z]:/", raw)] *)
Definition drive_letter (raw : pystr) : bool :=
  match raw with
  | c :: colon :: slash :: _ =>
      (((65 <=? c) && (c <=? 90)) || ((97 <=? c) && (c <=? 122))) && (colon =? 58) && (slash =? 47)
  | _ => false
  end.

Definition _normalize_path (path : pystr) : pystr :=
  let raw := strip (forward_slashes path) in
  if bool_decide (raw = []) || starts_with (u "/") raw || drive_letter raw then []
  else
    let parts := path_parts raw in
    if bool_decide (parts = []) || bool_decide (u ".." ∈ parts) then [] else join_slash parts.

(** [re.fullmatch(r"[0-9a-f]{64}", raw)] *)
Definition hex64 (raw : pystr) : bool :=
  bool_decide (length raw = 64%nat) && forallb (fun c => is_digit c || ((97 <=? c) && (c <=? 102))) raw.

Definition _normalize_sha256 (value : pystr) : pystr :=
  let raw := casefold (strip value) in
  if hex64 raw then u "sha256:" ++ raw
  else if starts_with (u "sha256:") raw && hex64 (drop 7 raw) then raw else [].

Record ResidualGenerationContract : Type := Contract {
  capability : pystr; requirement_ids : list pystr; protected_artifacts : list (pystr * pystr);
  protected_symbols : list pystr; allowed_write_paths : list pystr; expected_old_sha256 : list (pystr * pystr);
  allowed_create_prefixes : list pystr; required_new_artifacts : list pystr
}.

(** The loop over a mapping of paths to digests. *)
Fixpoint unique_digests (result rows : list (pystr * pystr)) : res (list (pystr * pystr)) :=
  match rows with
  | [] => Ok result
  | (raw_path, raw_digest) :: rows =>
      let path := _normalize_path raw_path in
      let digest := _normalize_sha256 raw_digest in
      if bool_decide (path = []) || bool_decide (digest = []) || bool_decide (path ∈ result.*1)
      then Err ValueError else unique_digests (dict_set path digest result) rows
  end.

Definition same_set (a b : list pystr) : bool :=
  bool_decide (list_to_set (C := gset pystr) a = list_to_set b).

Definition disjoint_lists (a b : list pystr) : bool :=
  bool_decide (list_to_set (C := gset pystr) a ## list_to_set b).

(** [__post_init__] *)
Definition check_contract (c : ResidualGenerationContract) : res ResidualGenerationContract :=
  if negb (bool_decide (allowed_create_prefixes c = [])) then Err ValueError
  else
    let* protected := unique_digests [] (protected_artifacts c) in
    let write_paths := map _normalize_path (allowed_write_paths c) in
    let new_paths := map _normalize_path (required_new_artifacts c) in
    if bool_decide ([] ∈ write_paths) || bool_decide ([] ∈ new_paths)
       || negb (bool_decide (NoDup write_paths)) || negb (bool_decide (NoDup new_paths))
       || negb (disjoint_lists write_paths new_paths)
    then Err ValueError
    else
      let* expected := unique_digests [] (expected_old_sha256 c) in
      if negb (same_set expected.*1 write_paths) then Err ValueError
      else if negb (disjoint_lists protected.*1 (write_paths ++ new_paths)) then Err ValueError
      else Ok (Contract (capability c) (requirement_ids c) protected (protected_symbols c) (sort_strs write_paths)
                 (sort_items expected) (allowed_create_prefixes c) (sort_strs new_paths)).

Definition allows_path (path : pystr) (c : ResidualGenerationContract) : bool :=
  let norm := _normalize_path path in
  if bool_decide (norm = []) || bool_decide (norm ∈ (protected_artifacts c).*1) then false
  else bool_decide (norm ∈ allowed_write_paths c) || bool_decide (norm ∈ required_new_artifacts c).

Definition ResidualScopeViolation : exn := OtherException "ResidualScopeViolation".
Definition ProtectedReuseArtifactError : exn := OtherException "ProtectedReuseArtifactError".
Definition ResidualWritePreconditionError : exn := OtherException "ResidualWritePreconditionError".
Definition ResidualContractLoadError : exn := OtherException "ResidualContractLoadError".

(** [{_normalize_path(p): _normalize_sha256(d) for p, d in rows}] *)
Definition normalized_digests (rows : list (pystr * pystr)) : list (pystr * pystr) :=
  fold_left (fun d row => dict_set (_normalize_path row.1) (_normalize_sha256 row.2) d) rows [].

Definition validate_residual_write (path : pystr) (old_sha256 : option pystr) (c : ResidualGenerationContract)
    : res unit :=
  let norm := _normalize_path path in
  let writable := bool_decide (norm ∈ map _normalize_path (allowed_write_paths c)) in
  if bool_decide (norm = []) then Err ResidualScopeViolation
  else if bool_decide (norm ∈ (protected_artifacts c).*1) then Err ProtectedReuseArtifactError
  else if negb (allows_path norm c) then Err ResidualScopeViolation
  else
    let expected := default [] (dict_get norm (normalized_digests (expected_old_sha256 c))) in
    match old_sha256 with
    | None =>
        if negb (bool_decide (expected = [])) || writable then Err ResidualWritePreconditionError else Ok tt
    | Some old =>
        let actual := _normalize_sha256 old in
        if bool_decide (expected = []) then Err ResidualWritePreconditionError
        else if bool_decide (actual = []) || negb (bool_decide (actual = expected))
        then Err ResidualWritePreconditionError
        else if negb writable then Err ResidualScopeViolation else Ok tt
    end.

(** The first loop: a contract that protects the path refuses it. *)
Fixpoint check_protected (normalized : pystr) (old_sha256 : option pystr)
    (contracts : list ResidualGenerationContract) : res unit :=
  match contracts with
  | [] => Ok tt
  | c :: contracts =>
      let* _ := if bool_decide (normalized ∈ map _normalize_path (protected_artifacts c).*1)
                then validate_residual_write normalized old_sha256 c else Ok tt in
      check_protected normalized old_sha256 contracts
  end.

Definition validate_residual_write_against_contracts (path : pystr) (old_sha256 : option pystr)
    (contracts : list ResidualGenerationContract) : res unit :=
  let normalized := _normalize_path path in
  if bool_decide (normalized = []) then Err ResidualScopeViolation
  else
    let* _ := check_protected normalized old_sha256 contracts in
    match filter (fun c => allows_path normalized c = true) contracts with
    | [] => Err ResidualScopeViolation
    | [c] => validate_residual_write normalized old_sha256 c
    | _ => Err ResidualScopeViolation
    end.

(** ** The manifest of the workspace *)

Context `{PyRepr}.

(** [tuple(str(item) for item in raw.get(key, ()))] *)
Definition texts_of (raw : list (pystr * json)) (key : pystr) : res (list pystr) :=
  match dict_get key raw with
  | Some (JArr items) => res_map_list py_str items
  | _ => Ok []
  end.

Definition digests_of (raw : list (pystr * json)) (key : pystr) : res (list (pystr * pystr)) :=
  res_map_list (fun row => let* d := py_str row.2 in Ok (row.1, d)) (mapping (get raw key)).

Definition absent_or (test : json -> bool) (raw : list (pystr * json)) (key : pystr) : bool :=
  match dict_get key raw with Some v => test v | None => true end.

Definition is_array (j : json) : bool := match j with JArr _ => true | _ => false end.

Definition load_contract (raw : json) : res ResidualGenerationContract :=
  match raw with
  | JObj raw =>
      let* name := str_or_empty (get raw (u "capability")) in
      let name := strip name in
      if bool_decide (name = []) then Err ResidualContractLoadError
      else if negb (forallb (absent_or is_mapping raw) [u "protected_artifacts"; u "expected_old_sha256"])
      then Err ResidualContractLoadError
      else if negb (forallb (absent_or is_array raw)
                      [u "requirement_ids"; u "protected_symbols"; u "allowed_write_paths"; u "allowed_create_prefixes";
                       u "required_new_artifacts"])
      then Err ResidualContractLoadError
      else
        match (let* ids := texts_of raw (u "requirement_ids") in
               let* protected := digests_of raw (u "protected_artifacts") in
               let* symbols := texts_of raw (u "protected_symbols") in
               let* writes := texts_of raw (u "allowed_write_paths") in
               let* expected := digests_of raw (u "expected_old_sha256") in
               let* prefixes := texts_of raw (u "allowed_create_prefixes") in
               let* creates := texts_of raw (u "required_new_artifacts") in
               check_contract (Contract name ids protected symbols writes expected prefixes creates)) with
        | Ok c => Ok c
        | Err ValueError => Err ResidualContractLoadError
        | Err e => Err e
        end
  | _ => Err ResidualContractLoadError
  end.

(** [load_residual_generation_contracts], given the manifest that was read, if there is one. *)
Definition load_contracts (payload : option json) : res (list ResidualGenerationContract) :=
  match payload with
  | None => Ok []
  | Some payload =>
      match get (mapping payload) (u "contracts") with
      | JArr raw_contracts => res_map_list load_contract raw_contracts
      | _ => Err ResidualContractLoadError
      end
  end.

End residual.

(** * What the residual write gate lets through *)

From S2P Require Import JsonRoundtrip.

Open Scope Z_scope.
Open Scope py_scope.

Section gate.
Context `{PyCasefold}.

Definition digest (d : pystr) : Prop := exists v, d = _normalize_sha256 v /\ d <> [].

(** A table of paths and digests as [check_contract] leaves it. *)

Record digests_ok (rows : list (pystr * pystr)) : Prop := {
  digests_nodup : NoDup rows.*1;
  digests_digest : Forall (fun row => digest row.2) rows
}.

(** A path that is its own normal form. *)
Definition stable (path : pystr) : Prop := _normalize_path path = path.

#[export] Instance stable_dec path : Decision (stable path).
Proof. unfold stable. apply _. Defined.

Record checked (c : ResidualGenerationContract) : Prop := {
  checked_protected : digests_ok (protected_artifacts c);
  checked_expected : digests_ok (expected_old_sha256 c);
  checked_replaced path : path ∈ (expected_old_sha256 c).*1 <-> path ∈ allowed_write_paths c;
  checked_apart path : path ∈ allowed_write_paths c -> path ∉ required_new_artifacts c;
  checked_unprotected path : path ∈ (protected_artifacts c).*1 ->
    path ∉ allowed_write_paths c /\ path ∉ required_new_artifacts c
}.

Definition stable_contract (c : ResidualGenerationContract) : Prop :=
  Forall stable ((protected_artifacts c).*1 ++ allowed_write_paths c ++ required_new_artifacts c).

Lemma unique_digests_ok result rows out :
  unique_digests result rows = Ok out -> digests_ok result -> digests_ok out.
Proof.
  revert result; induction rows as [|[p d] rows IH]; intros result; cbn [unique_digests]; [by intros [= ->]|].
  case_bool_decide as Hp; [done|]. case_bool_decide as Hd; [done|]. case_bool_decide as Hin; [done|]. cbn [orb].
  intros Hu [Hnd Hall]. apply (IH _ Hu). split; [by apply dict_set_nodup|].
  rewrite dict_set_fresh by done. apply Forall_app. split; [done|]. constructor; [|constructor]. by exists d.
Qed.

Lemma digests_ok_sort rows : digests_ok rows -> digests_ok (sort_items rows).
Proof. intros [Hnd Hall]. by split; rewrite sort_items_perm. Qed.

Lemma disjoint_lists_spec a b : disjoint_lists a b = true -> forall x, x ∈ a -> x ∉ b.
Proof.
  unfold disjoint_lists. rewrite bool_decide_eq_true. intros Hd x Ha Hb.
  apply (Hd x); by apply elem_of_list_to_set.
Qed.

Lemma same_set_spec a b : same_set a b = true -> forall x, x ∈ a <-> x ∈ b.
Proof.
  unfold same_set. rewrite bool_decide_eq_true. intros Hs x.
  by rewrite <- (elem_of_list_to_set (C := gset pystr) x a), Hs, elem_of_list_to_set.
Qed.

Lemma elem_of_sort_strs l x : x ∈ sort_strs l <-> x ∈ l.
Proof. unfold sort_strs. by rewrite merge_sort_Permutation. Qed.

Lemma check_contract_checked c k : check_contract c = Ok k -> checked k.
Proof.
  unfold check_contract. destruct (negb _); [done|].
  destruct (unique_digests [] (protected_artifacts c)) as [protected|] eqn:Ep; [|done]. cbn [res_bind].
  destruct (_ || _) eqn:Ew; [done|].
  destruct (unique_digests [] (expected_old_sha256 c)) as [expected|] eqn:Ee; [|done]. cbn [res_bind].
  destruct (same_set _ _) eqn:Es; [|done]. destruct (disjoint_lists protected.*1 _) eqn:Ed; [|done].
  cbn [negb]. intros [= <-].
  rewrite !orb_false_iff, !negb_false_iff in Ew. destruct Ew as [_ Ew].
  assert (Hnil : digests_ok []) by (split; constructor).
  pose proof (disjoint_lists_spec _ _ Ew) as Hwn. pose proof (disjoint_lists_spec _ _ Ed) as Hpw.
  pose proof (same_set_spec _ _ Es) as Hse.
  split; cbn [protected_artifacts expected_old_sha256 allowed_write_paths required_new_artifacts].
  - by eapply unique_digests_ok.
  - apply digests_ok_sort. by eapply unique_digests_ok.
  - intros path. by rewrite sort_items_perm, elem_of_sort_strs, <- Hse.
  - intros path. rewrite !elem_of_sort_strs. apply Hwn.
  - intros path Hp%Hpw. rewrite !elem_of_sort_strs. rewrite elem_of_app in Hp. tauto.
Qed.

(** ** Digests are their own normal form *)

Definition digest_char (c : Z) : Prop := 0 <= c < 128 /\ is_space c = false /\ (c < 65 \/ 90 < c).

Lemma casefold_digest s : Forall digest_char s -> casefold s = s.
Proof.
  unfold casefold. induction 1 as [|c s (Hc & _ & Hu) Hs IH]; [done|]. cbn [map concat]. rewrite IH.
  destruct ((65 <=? c) && (c <=? 90)) eqn:E.
  { apply andb_true_iff in E as [?%Z.leb_le ?%Z.leb_le]. lia. }
  by rewrite (proj2 (Z.ltb_lt c 128)) by lia.
Qed.

Lemma lstrip_id s : (forall c, c ∈ s -> is_space c = false) -> lstrip s = s.
Proof. destruct s as [|c s]; [done|]. intros Hs. simpl. by rewrite (Hs c) by left. Qed.

Lemma strip_id s : (forall c, c ∈ s -> is_space c = false) -> strip s = s.
Proof.
  intros Hs. unfold strip. rewrite (lstrip_id s) by done. rewrite lstrip_id; [apply reverse_involutive|].
  intros c. rewrite elem_of_reverse. apply Hs.
Qed.

Lemma strip_digest s : Forall digest_char s -> strip s = s.
Proof. rewrite Forall_forall. intros Hs. apply strip_id. intros c Hc. by apply Hs. Qed.

Lemma hex64_chars raw : hex64 raw = true -> Forall digest_char raw.
Proof.
  unfold hex64. rewrite andb_true_iff, forallb_forall. intros [_ Hc]. apply Forall_forall. intros c Hin.
  specialize (Hc c (proj1 (list_elem_of_In _ _) Hin)). unfold is_digit in Hc.
  rewrite orb_true_iff, !andb_true_iff, !Z.leb_le in Hc.
  split; [lia|]. split; [|lia]. apply not_true_iff_false. unfold is_space.
  rewrite !orb_true_iff, !andb_true_iff, !Z.leb_le, bool_decide_eq_true, !elem_of_cons, elem_of_nil. lia.
Qed.

Lemma prefix_chars : Forall digest_char (u "sha256:").
Proof. repeat constructor; vm_compute; lia || done. Qed.

Lemma normalize_sha256_cases v :
  _normalize_sha256 v = [] \/ exists h, _normalize_sha256 v = u "sha256:" ++ h /\ hex64 h = true.
Proof.
  unfold _normalize_sha256. destruct (hex64 _) eqn:E1; [right; by eexists|].
  destruct (starts_with _ _) eqn:E2; [|by left]. destruct (hex64 (drop _ _)) eqn:E3; [|by left]. right.
  apply starts_with_iff in E2 as [t E2]. rewrite E2 in *. exists t. done.
Qed.

Lemma normalize_sha256_digest h : hex64 h = true -> _normalize_sha256 (u "sha256:" ++ h) = u "sha256:" ++ h.
Proof.
  intros Hh. assert (Hc : Forall digest_char (u "sha256:" ++ h)).
  { apply Forall_app. split; [apply prefix_chars|by apply hex64_chars]. }
  unfold _normalize_sha256. rewrite strip_digest, casefold_digest by done.
  assert (hex64 (u "sha256:" ++ h) = false) as ->.
  { unfold hex64. apply andb_false_iff. right. reflexivity. }
  rewrite starts_with_app. change (drop 7 (u "sha256:" ++ h)) with h. by rewrite Hh.
Qed.

Lemma normalize_sha256_idem d : digest d -> _normalize_sha256 d = d.
Proof.
  intros (v & -> & Hne). destruct (normalize_sha256_cases v) as [|(h & -> & Hh)]; [done|].
  by apply normalize_sha256_digest.
Qed.

(** ** The gate *)

Lemma normalized_digests_id rows :
  digests_ok rows -> Forall stable rows.*1 -> normalized_digests rows = rows.
Proof.
  intros [Hnd Hd] Hs. unfold normalized_digests.
  enough (forall acc, NoDup (acc ++ rows).*1 ->
    fold_left (fun d row => dict_set (_normalize_path row.1) (_normalize_sha256 row.2) d) rows acc = acc ++ rows)
    as Hall by by apply (Hall []).
  clear Hnd. induction rows as [|[p d] rows IH]; intros acc Hnd; [by rewrite app_nil_r|].
  apply Forall_cons in Hs as [Hp Hs]. apply Forall_cons in Hd as [Hd1 Hd]. cbn [fold_left fst snd].
  cbn [snd] in Hd1. rewrite (normalize_sha256_idem d) by done. unfold stable in Hp. cbn [fst] in Hp. rewrite Hp.
  rewrite dict_set_fresh, IH, <- app_assoc; [done|done|done|by rewrite <- app_assoc|].
  rewrite fmap_app, NoDup_app in Hnd. intros Hin. destruct Hnd as (_ & Hx & _). apply (Hx p Hin). left.
Qed.

Lemma map_stable l : Forall stable l -> map _normalize_path l = l.
Proof. induction 1 as [|p l Hp Hl IH]; [done|]. cbn [map]. by rewrite Hp, IH. Qed.

(** The contract lists the path among those it replaces or creates. *)
Definition claims (path : pystr) (c : ResidualGenerationContract) : Prop :=
  path ∈ allowed_write_paths c \/ path ∈ required_new_artifacts c.

#[export] Instance claims_dec path c : Decision (claims path c).
Proof. unfold claims. apply _. Defined.

(** What one contract lets a writer do with a file whose digest is [old]. *)
Definition authorises (c : ResidualGenerationContract) (path : pystr) (old : option pystr) : Prop :=
  match old with
  | None => path ∈ required_new_artifacts c
  | Some old => dict_get path (expected_old_sha256 c) = Some (_normalize_sha256 old)
  end.

Lemma validate_residual_write_spec c path old :
  checked c -> stable_contract c -> stable path -> path <> [] ->
  validate_residual_write path old c = Ok tt <-> path ∉ (protected_artifacts c).*1 /\ authorises c path old.
Proof.
  intros Hc Hs Hp Hne. unfold stable_contract in Hs. rewrite !Forall_app in Hs. destruct Hs as (Hs1 & Hs2 & Hs3).
  assert (Hse : Forall stable (expected_old_sha256 c).*1).
  { apply Forall_forall. intros q Hq%(checked_replaced c Hc). by apply (proj1 (Forall_forall _ _) Hs2). }
  unfold validate_residual_write, allows_path. rewrite !Hp, (map_stable _ Hs2).
  rewrite normalized_digests_id by (done || apply Hc).
  rewrite (bool_decide_eq_false_2 (path = [])) by done. cbn [orb].
  case_bool_decide as Hprot; [naive_solver|].
  pose proof (checked_replaced c Hc path) as Hrep. pose proof (checked_apart c Hc path) as Hap.
  rewrite <- dict_get_keys in Hrep.
  destruct (dict_get path (expected_old_sha256 c)) as [e|] eqn:Ee.
  - assert (Hw : path ∈ allowed_write_paths c) by (apply Hrep; by eexists). rewrite bool_decide_eq_true_2 by done.
    cbn [orb negb default]. assert (He : e <> []).
    { apply dict_get_in in Ee. pose proof (digests_digest _ (checked_expected c Hc)) as Hd.
      rewrite Forall_forall in Hd. by destruct (Hd _ Ee) as (? & _ & ?). }
    rewrite (bool_decide_eq_false_2 (e = [])) by done. destruct old as [old|]; cbn [authorises].
    + rewrite Ee. case_bool_decide as Ha; cbn [orb]; [split; [done|intros [_ [= ->]]; done]|].
      case_bool_decide as Hb; cbn [negb]; [by rewrite Hb|]. split; [done|intros [_ [= ->]]; done].
    + cbn [negb orb]. split; [done|]. intros [_ Hn]. by destruct (Hap Hw).
  - assert (Hw : path ∉ allowed_write_paths c) by (intros Hw%Hrep; by destruct Hw).
    rewrite (bool_decide_eq_false_2 (path ∈ allowed_write_paths c)) by done. cbn [orb default].
    destruct old as [old|]; cbn [authorises].
    + rewrite Ee. case_bool_decide; cbn [negb]; split; try done; by intros [_ [=]].
    + case_bool_decide; cbn [negb]; [by rewrite bool_decide_eq_true_2|]. naive_solver.
Qed.

Lemma check_protected_spec path old cs :
  Forall checked cs -> Forall stable_contract cs -> stable path -> path <> [] ->
  check_protected path old cs = Ok tt <-> forall c, c ∈ cs -> path ∉ (protected_artifacts c).*1.
Proof.
  intros Hc Hs Hp Hne. induction Hc as [|c cs Hc Hcs IH]; [split; [|done]; by intros _ c ?%elem_of_nil|].
  apply Forall_cons in Hs as [Hs1 Hs]. cbn [check_protected].
  assert (Hprot : Forall stable (protected_artifacts c).*1).
  { unfold stable_contract in Hs1. rewrite Forall_app in Hs1. tauto. }
  rewrite (map_stable _ Hprot). case_bool_decide as Hin.
  - split.
    + destruct (validate_residual_write path old c) as [[]|] eqn:E; [|done].
      apply validate_residual_write_spec in E as [? _]; try done.
    + intros Hall. by destruct (Hall c ltac:(left)).
  - cbn [res_bind]. rewrite IH by done. split; [|by intros Hall c' ?; apply Hall; right].
    intros Hall c' [->|Hc']%elem_of_cons; auto.
Qed.

Lemma allows_path_spec c path :
  stable path -> path <> [] ->
  allows_path path c = true <-> path ∉ (protected_artifacts c).*1 /\ claims path c.
Proof.
  intros Hp Hne. unfold allows_path, claims. rewrite Hp, (bool_decide_eq_false_2 (path = [])) by done. cbn [orb].
  case_bool_decide; [naive_solver|]. rewrite orb_true_iff, !bool_decide_eq_true. tauto.
Qed.

(** On contracts that passed their own checks, with paths in normal form, the gate lets a write
    through exactly when no contract protects the path, a single contract claims it, and that
    contract lists it as new for a file that does not exist, or with the digest that the existing
    file has. *)
Theorem residual_gate_spec path old contracts :
  let norm := _normalize_path path in
  Forall (fun k => exists c, check_contract c = Ok k) contracts ->
  Forall stable_contract contracts -> stable norm ->
  validate_residual_write_against_contracts path old contracts = Ok tt <->
  norm <> [] /\ (forall c, c ∈ contracts -> norm ∉ (protected_artifacts c).*1) /\
  exists c, filter (claims norm) contracts = [c] /\
            authorises c norm old.
Proof.
  intros norm Hc Hs Hn. assert (Hck : Forall checked contracts).
  { eapply Forall_impl; [exact Hc|]. intros k (c & Hk). by eapply check_contract_checked. }
  unfold validate_residual_write_against_contracts. fold norm.
  case_bool_decide as Hne; [naive_solver|].
  pose proof (check_protected_spec norm old contracts Hck Hs Hn Hne) as Hp.
  destruct (check_protected norm old contracts) as [[]|]; cbn [res_bind];
    [|split; [done|intros (_ & Ha & _); by apply Hp in Ha]].
  pose proof (proj1 Hp eq_refl) as Hall. clear Hp.
  assert (Hf : filter (fun c => allows_path norm c = true) contracts =
               filter (claims norm) contracts).
  { clear Hc Hs Hck. induction contracts as [|c cs IH]; [done|].
    pose proof (allows_path_spec c norm Hn Hne). pose proof (Hall c ltac:(left)).
    rewrite !filter_cons, IH by (intros; apply Hall; by right).
    repeat case_decide; naive_solver. }
  rewrite Hf. clear Hf. destruct (filter _ contracts) as [|c [|c2 cs]] eqn:E; [split; [done|naive_solver]| |split; [done|naive_solver]].
  assert (Hin : c ∈ contracts).
  { assert (Hin : c ∈ [c]) by (apply list_elem_of_singleton; done). rewrite <- E in Hin. by apply list_elem_of_filter in Hin as [_ ?]. }
  rewrite Forall_forall in Hck, Hs. rewrite (validate_residual_write_spec c norm old) by auto.
  split; [intros [_ ?]; eauto|]. intros (_ & _ & c' & [= <-] & ?). auto.
Qed.

End gate.
