(* ===== verification/TypedResources.v ===== *)
(** * TypedResources: [typed_resources.py]

    JSON resources whose objects name each key once, with the shapes that the
    editors rely on, and the check a Gradle script passes before a line is appended
    to it. *)

From stdpp Require Import prelude gmap strings list sorting.
From S2P Require Import Prelude Text Json PyJson Paths StdJson.

Open Scope Z_scope.
Open Scope py_scope.

Definition ResourceValidationError : exn := OtherException "ResourceValidationError".

Section resources.
Context `{PyFloat}.

Inductive ResourceKind : Type := KindJson | KindConfig | KindLang | KindFabric.

(** ** [json.loads] with the two hooks of [JsonResource.parse] *)

Fixpoint object_pairs_loop (result pairs : list (pystr * json)) : res (list (pystr * json)) :=
  match pairs with
  | [] => Ok result
  | (key, value) :: pairs =>
      if bool_decide (key ∈ result.*1) then Err ResourceValidationError
      else object_pairs_loop (dict_set key value result) pairs
  end.

Definition _object_pairs (pairs : list (pystr * json)) : res (list (pystr * json)) := object_pairs_loop [] pairs.

(** The scanner of [StdJson], where an object is the list of its pairs until the hook
    makes a dictionary of it, and a constant of IEEE arithmetic is refused. *)
Fixpoint strict_once (fuel : nat) (s : pystr) : res (json * pystr) :=
  match fuel with
  | O => Err OutOfFuel
  | S fuel =>
      match next_is 34 s with
      | Some s1 => let* (t, r) := scanstring fuel s1 in Ok (JStr t, r)
      | None =>
      match next_is 123 s with
      | Some s1 =>
          match next_is 125 (skip_ws s1) with
          | Some r => let* d := _object_pairs [] in Ok (JObj d, r)
          | None => let* (l, r) := strict_members fuel [] (skip_ws s1) in let* d := _object_pairs l in Ok (JObj d, r)
          end
      | None =>
      match next_is 91 s with
      | Some s1 =>
          match next_is 93 (skip_ws s1) with
          | Some r => Ok (JArr [], r)
          | None => let* (l, r) := strict_elements fuel (skip_ws s1) in Ok (JArr l, r)
          end
      | None =>
      match scan_keyword keywords s with
      | Some (JFloat _, _) => Err ResourceValidationError
      | Some p => Ok p
      | None => scan_number s
      end end end end
  end
with strict_members (fuel : nat) (pairs : list (pystr * json)) (s : pystr)
    : res (list (pystr * json) * pystr) :=
  match fuel with
  | O => Err OutOfFuel
  | S fuel =>
      match next_is 34 s with
      | None => Err JSONDecodeError
      | Some s =>
          let* (k, s) := scanstring fuel s in
          match next_is 58 (skip_ws s) with
          | None => Err JSONDecodeError
          | Some s =>
              let* (v, s) := strict_once fuel (skip_ws s) in
              let pairs := pairs ++ [(k, v)] in
              match next_is 125 (skip_ws s), next_is 44 (skip_ws s) with
              | Some s, _ => Ok (pairs, s)
              | None, Some s => strict_members fuel pairs (skip_ws s)
              | None, None => Err JSONDecodeError
              end
          end
      end
  end
with strict_elements (fuel : nat) (s : pystr) : res (list json * pystr) :=
  match fuel with
  | O => Err OutOfFuel
  | S fuel =>
      let* (v, s) := strict_once fuel s in
      match next_is 93 (skip_ws s), next_is 44 (skip_ws s) with
      | Some s, _ => Ok ([v], s)
      | None, Some s => let* (l, s) := strict_elements fuel (skip_ws s) in Ok (v :: l, s)
      | None, None => Err JSONDecodeError
      end
  end.

Definition strict_loads (s : pystr) : res json :=
  if starts_with [0xFEFF] s then Err JSONDecodeError
  else
    let* (v, r) := strict_once (S (2 * length s)) (skip_ws s) in
    match skip_ws r with [] => Ok v | _ => Err JSONDecodeError end.

(** ** Validation *)

(** [_validate_json] on a value made of JSON types: its numbers are finite. *)
Fixpoint finite_json (value : json) : bool :=
  match value with
  | JFloat f => float_finite f
  | JArr l => forallb finite_json l
  | JObj l => forallb (fun kv => finite_json kv.2) l
  | _ => true
  end.

Definition _validate_json (value : json) : res unit :=
  if finite_json value then Ok tt else Err ResourceValidationError.

Definition _require_object (value : json) : res (list (pystr * json)) :=
  match value with JObj l => Ok l | _ => Err ResourceValidationError end.

Definition is_str (j : json) : bool := match j with JStr _ => true | _ => false end.

Definition _validate_language (value : list (pystr * json)) : res unit :=
  if existsb (fun kv => negb (is_str kv.2)) value then Err ResourceValidationError else Ok tt.

Definition _valid_fabric_entry (entry : json) : bool :=
  match entry with
  | JStr s => negb (bool_decide (s = []))
  | JObj d =>
      match get d (u "value") with
      | JStr s => negb (bool_decide (s = [])) &&
                  match dict_get (u "adapter") d with None => true | Some adapter => is_str adapter end
      | _ => false
      end
  | _ => false
  end.

Fixpoint validate_entrypoints (entrypoints : list (pystr * json)) : res unit :=
  match entrypoints with
  | [] => Ok tt
  | (_, JArr entries) :: entrypoints =>
      if forallb _valid_fabric_entry entries then validate_entrypoints entrypoints else Err ResourceValidationError
  | _ => Err ResourceValidationError
  end.

Definition _validate_fabric (value : list (pystr * json)) : res unit :=
  match default (JObj []) (dict_get (u "entrypoints") value) with
  | JObj entrypoints => validate_entrypoints entrypoints
  | _ => Err ResourceValidationError
  end.

Definition validate_resource (value : json) (kind : ResourceKind) : res unit :=
  let* _ := _validate_json value in
  match kind with
  | KindJson => Ok tt
  | KindConfig => let* _ := _require_object value in Ok tt
  | KindLang => let* d := _require_object value in _validate_language d
  | KindFabric => let* d := _require_object value in _validate_fabric d
  end.

(** [JsonResource.parse], whose value is that of the resource. *)
Definition parse_resource (text : pystr) (kind : ResourceKind) : res json :=
  match strict_loads text with
  | Err _ => Err ResourceValidationError
  | Ok value => let* _ := validate_resource value kind in Ok value
  end.

Definition resource_kind (path : pystr) : ResourceKind :=
  let parts := all_parts (forward_slashes path) in
  if bool_decide (last parts = Some (u "fabric.mod.json")) then KindFabric
  else if bool_decide (u "assets" ∈ parts) && bool_decide (last (removelast parts) = Some (u "lang")) then KindLang
  else if bool_decide (u "config" ∈ parts) then KindConfig
  else KindJson.

End resources.

(** ** Gradle scripts *)

(** The text after the first match of [p]. *)
Fixpoint after_match (p s : pystr) : option pystr :=
  if starts_with p s then Some (drop (length p) s)
  else match s with [] => None | _ :: s => after_match p s end.

Definition _skip_line_comment (text : pystr) : option pystr :=
  if starts_with (u "//") text then Some (default [] (after_match [10] text)) else None.

Definition _skip_block_comment (text : pystr) : res (option pystr) :=
  if starts_with (u "/*") text then
    match after_match (u "*/") (drop 2 text) with Some r => Ok (Some r) | None => Err ResourceValidationError end
  else Ok None.

Fixpoint close_string (quote text : pystr) : option pystr :=
  match text with
  | [] => None
  | c :: rest =>
      if starts_with quote text then Some (drop (length quote) text)
      else if c =? 92 then match rest with [] => None | _ :: rest => close_string quote rest end
      else close_string quote rest
  end.

Definition _skip_quoted_string (text : pystr) : res (option pystr) :=
  match text with
  | c :: _ =>
      if (c =? 34) || (c =? 39) then
        let quote := if starts_with [c; c; c] text then [c; c; c] else [c] in
        match close_string quote (drop (length quote) text) with
        | Some r => Ok (Some r)
        | None => Err ResourceValidationError
        end
      else Ok None
  | [] => Ok None
  end.

Definition closing (c : Z) : option Z :=
  if c =? 125 then Some 123 else if c =? 93 then Some 91 else if c =? 41 then Some 40 else None.

(** The stack's top comes first. *)
Definition _update_delimiter_stack (stack : list Z) (c : Z) : res (list Z) :=
  if (c =? 123) || (c =? 91) || (c =? 40) then Ok (c :: stack)
  else match closing c with
       | None => Ok stack
       | Some expected =>
           match stack with
           | top :: stack => if top =? expected then Ok stack else Err ResourceValidationError
           | [] => Err ResourceValidationError
           end
       end.

(** One turn of the loop: what is left of the text, and the stack. *)
Definition gradle_token (stack : list Z) (c : Z) (text : pystr) : res (list Z * pystr) :=
  match _skip_line_comment (c :: text) with
  | Some r => Ok (stack, r)
  | None =>
      let* block := _skip_block_comment (c :: text) in
      match block with
      | Some r => Ok (stack, r)
      | None =>
          let* quoted := _skip_quoted_string (c :: text) in
          match quoted with
          | Some r => Ok (stack, r)
          | None => let* stack := _update_delimiter_stack stack c in Ok (stack, text)
          end
      end
  end.

Fixpoint gradle_loop (fuel : nat) (stack : list Z) (text : pystr) : res (list Z) :=
  match text with
  | [] => Ok stack
  | c :: rest =>
      match fuel with
      | O => Err OutOfFuel
      | S fuel => let* (stack, text) := gradle_token stack c rest in gradle_loop fuel stack text
      end
  end.

Definition validate_gradle_append (text : pystr) : res unit :=
  let* stack := gradle_loop (length text) [] text in
  match stack with [] => Ok tt | _ => Err ResourceValidationError end.

(** * What a typed resource is, and when a script may be extended *)

From S2P Require Import JsonRoundtrip.

Open Scope Z_scope.
Open Scope py_scope.

Section resources.
Context `{PyFloat}.

(** No object of the value names a key twice. *)

Fixpoint unique_keys (j : json) : bool :=
  match j with
  | JArr l => forallb unique_keys l
  | JObj l => bool_decide (NoDup l.*1) && forallb (fun kv => unique_keys kv.2) l
  | _ => true
  end.

(** [m], which may refuse what [n] accepts, returns what [n] returns. *)
Definition stricter {A B} (R : A -> B -> Prop) (m : res (A * pystr)) (n : res (B * pystr)) : Prop :=
  match m with
  | Ok (a, r) => exists b, n = Ok (b, r) /\ R a b
  | Err OutOfFuel => n = Err OutOfFuel
  | Err _ => True
  end.

Lemma stricter_bind {A B C D} (R : A -> B -> Prop) (S : C -> D -> Prop) m n
    (k : A -> pystr -> res (C * pystr)) (l : B -> pystr -> res (D * pystr)) :
  stricter R m n -> (forall a b r, R a b -> stricter S (k a r) (l b r)) ->
  stricter S (let* (a, r) := m in k a r) (let* (b, r) := n in l b r).
Proof.
  unfold stricter at 1. destruct m as [[a r]|e]; [intros (b & -> & HR) Hk; by apply Hk|].
  destruct e; try done. by intros ->.
Qed.

Lemma stricter_refl {A} (m : res (A * pystr)) : stricter eq m m.
Proof. destruct m as [[a r]|[]]; simpl; eauto. Qed.

Lemma object_pairs_loop_spec result pairs out :
  NoDup result.*1 -> forallb (fun kv => unique_keys kv.2) result = true ->
  forallb (fun kv => unique_keys kv.2) pairs = true -> object_pairs_loop result pairs = Ok out ->
  out = dict_update result pairs /\ unique_keys (JObj out) = true.
Proof.
  revert result. induction pairs as [|[k v] pairs IH]; intros result Hnd Hr Hp.
  - intros [= <-]. split; [done|]. cbn [unique_keys]. by rewrite bool_decide_eq_true_2, Hr.
  - cbn [object_pairs_loop]. case_bool_decide as Hk; [done|]. cbn [forallb snd] in Hp.
    apply andb_true_iff in Hp as [Hv Hp]. apply IH; [by apply dict_set_nodup| |done].
    rewrite dict_set_fresh, forallb_app, Hr by done. simpl. by rewrite Hv.
Qed.

Lemma object_pairs_no_fuel result pairs : object_pairs_loop result pairs <> Err OutOfFuel.
Proof. revert result; induction pairs as [|[k v] ps IH]; intros r; cbn; [done|]. case_bool_decide; [done|apply IH]. Qed.

Definition same_value (v w : json) : Prop := v = w /\ unique_keys v = true.
Definition pairs_of (ps d : list (pystr * json)) : Prop :=
  d = dict_update [] ps /\ forallb (fun kv => unique_keys kv.2) ps = true.
Definition same_values (l k : list json) : Prop := l = k /\ forallb unique_keys l = true.

Lemma stricter_object ps d r :
  pairs_of ps d ->
  stricter same_value (let* d := _object_pairs ps in Ok (JObj d, r)) (Ok (JObj d, r)).
Proof.
  intros [-> Hps]. unfold _object_pairs. destruct (object_pairs_loop [] ps) as [out|e] eqn:E.
  - apply object_pairs_loop_spec in E as [-> Hu]; [|constructor|done|done]. simpl. eexists. split; [done|]. by split.
  - simpl. destruct e; try done. by apply object_pairs_no_fuel in E.
Qed.

Lemma keyword_values s v r : scan_keyword keywords s = Some (v, r) -> unique_keys v = true.
Proof.
  assert (Hall : Forall (fun kv => unique_keys kv.2 = true) keywords) by by repeat constructor.
  induction Hall as [|[k w] ks Hw Hks IH]; cbn [scan_keyword]; [done|].
  destruct (starts_with k s); [by intros [= <- _]|exact IH].
Qed.

Lemma scan_number_value s : match scan_number s with Ok (v, _) => unique_keys v = true | Err _ => True end.
Proof. unfold scan_number. repeat case_goal; simplify_eq; done. Qed.

Lemma stricter_number s : stricter same_value (scan_number s) (scan_number s).
Proof.
  pose proof (scan_number_value s). destruct (scan_number s) as [[v r]|[]]; try done.
  simpl. eexists. split; [done|]. by split.
Qed.

Lemma stricter_string n s :
  stricter same_value (let* (t, r) := scanstring n s in Ok (JStr t, r)) (let* (t, r) := scanstring n s in Ok (JStr t, r)).
Proof.
  eapply stricter_bind; [apply stricter_refl|]. intros a b r ->. simpl. eexists. split; [done|]. by split.
Qed.

Lemma pairs_of_snoc ps d k v w : pairs_of ps d -> same_value v w -> pairs_of (ps ++ [(k, v)]) (dict_set k w d).
Proof.
  intros [-> Hps] [-> Hv]. split; [unfold dict_update; by rewrite fold_left_app|].
  rewrite forallb_app, Hps. simpl. by rewrite Hv.
Qed.

Lemma strict_members_step n ps d s :
  (forall s, stricter same_value (strict_once n s) (scan_once n s)) ->
  (forall ps d s, pairs_of ps d -> stricter pairs_of (strict_members n ps s) (scan_members n d s)) ->
  pairs_of ps d -> stricter pairs_of (strict_members (S n) ps s) (scan_members (S n) d s).
Proof.
  intros IHv IHm Hps. cbn [strict_members scan_members]. destruct (next_is 34 s) as [s1|]; [|done].
  eapply stricter_bind; [apply stricter_refl|]. intros k ? r ->.
  destruct (next_is 58 (skip_ws r)) as [s2|]; [|done].
  eapply stricter_bind; [apply IHv|]. intros v w r2 Hv. pose proof (pairs_of_snoc _ _ b _ _ Hps Hv).
  destruct (next_is 125 (skip_ws r2)); [simpl; eauto|].
  destruct (next_is 44 (skip_ws r2)); [by apply IHm|done].
Qed.

Lemma strict_elements_step n s :
  (forall s, stricter same_value (strict_once n s) (scan_once n s)) ->
  (forall s, stricter same_values (strict_elements n s) (scan_elements n s)) ->
  stricter same_values (strict_elements (S n) s) (scan_elements (S n) s).
Proof.
  intros IHv IHe. cbn [strict_elements scan_elements].
  eapply stricter_bind; [apply IHv|]. intros v w r2 [-> Hv].
  destruct (next_is 93 (skip_ws r2)); [|destruct (next_is 44 (skip_ws r2)); [|done]].
  - simpl. eexists. split; [done|]. split; [done|]. simpl. by rewrite Hv.
  - eapply stricter_bind; [apply IHe|]. intros xs ys r3 [-> Hl]. simpl. eexists. split; [done|].
    split; [done|]. simpl. by rewrite Hv, Hl.
Qed.

Lemma strict_scan n :
  (forall s, stricter same_value (strict_once n s) (scan_once n s)) /\
  (forall ps d s, pairs_of ps d -> stricter pairs_of (strict_members n ps s) (scan_members n d s)) /\
  (forall s, stricter same_values (strict_elements n s) (scan_elements n s)).
Proof.
  induction n as [|n (IHv & IHm & IHe)]; [done|]. split; [|split].
  - intros s. cbn [strict_once scan_once].
    destruct (next_is 34 s) as [s1|]; [apply stricter_string|].
    destruct (next_is 123 s) as [s1|].
    { destruct (next_is 125 (skip_ws s1)) as [r|]; [by apply (stricter_object [] [])|].
      eapply stricter_bind; [by apply (IHm [] [])|]. intros ps d r. apply stricter_object. }
    destruct (next_is 91 s) as [s1|].
    { destruct (next_is 93 (skip_ws s1)) as [r|]; [simpl; eexists; split; [done|by split]|].
      eapply stricter_bind; [apply IHe|]. intros xs ys r [-> Hl]. simpl. eexists. split; [done|]. by split. }
    destruct (scan_keyword keywords s) as [[v r]|] eqn:Ek; [|apply stricter_number].
    apply keyword_values in Ek. destruct v; try done; simpl; (eexists; split; [done|by split]).
  - intros ps d s. by apply strict_members_step.
  - intros s. by apply strict_elements_step.
Qed.

Lemma strict_loads_spec s v : strict_loads s = Ok v -> json_loads s = Ok v /\ unique_keys v = true.
Proof.
  unfold strict_loads, json_loads. destruct (starts_with _ s); [done|].
  pose proof (proj1 (strict_scan (S (2 * length s))) (skip_ws s)) as Hs. unfold stricter in Hs.
  destruct (strict_once _ _) as [[w r]|e]; [|done]. cbn [res_bind].
  destruct Hs as (w' & -> & <- & Hu). cbn [res_bind]. destruct (skip_ws r); [|done]. by intros [= ->].
Qed.

(** The fuel of [strict_loads] is enough. *)
Lemma strict_loads_terminates s : strict_loads s <> Err OutOfFuel.
Proof.
  unfold strict_loads. destruct (starts_with _ s); [done|].
  pose proof (skip_ws_length s).
  pose proof (proj1 (strict_scan (S (2 * length s))) (skip_ws s)) as Hs. unfold stricter in Hs.
  pose proof (proj1 (scan_once_scanned (S (2 * length s))) (skip_ws s) ltac:(lia)) as Hn.
  destruct (strict_once _ _) as [[w r]|e]; cbn [res_bind]; [by destruct (skip_ws r)|].
  intros [= ->]. rewrite Hs in Hn. by destruct Hn.
Qed.

(** The shape that a kind of resource has. *)
Definition shape (kind : ResourceKind) (j : json) : Prop :=
  match kind with
  | KindJson => True
  | KindConfig => exists d, j = JObj d
  | KindLang => exists d, j = JObj d /\ forall k v, (k, v) ∈ d -> exists s, v = JStr s
  | KindFabric =>
      exists d, j = JObj d /\
      (dict_get (u "entrypoints") d = None \/
       exists entrypoints, dict_get (u "entrypoints") d = Some (JObj entrypoints) /\
       forall k v, (k, v) ∈ entrypoints ->
         exists entries, v = JArr entries /\ forall e, e ∈ entries -> _valid_fabric_entry e = true)
  end.

Lemma validate_language_spec d :
  _validate_language d = Ok tt <-> forall k v, (k, v) ∈ d -> exists s, v = JStr s.
Proof.
  unfold _validate_language. destruct (existsb _ d) eqn:E.
  - split; [done|]. intros Hall. apply existsb_exists in E as ([k v] & Hin & Hs).
    apply list_elem_of_In in Hin. by destruct (Hall _ _ Hin) as [s ->].
  - split; [|done]. intros _ k v Hin. apply not_true_iff_false in E.
    destruct v as [| | | |s| |]; try (exfalso; apply E; apply existsb_exists; eexists (k, _);
      split; [by apply list_elem_of_In|done]). by exists s.
Qed.

Lemma validate_entrypoints_spec entrypoints :
  validate_entrypoints entrypoints = Ok tt <->
  forall k v, (k, v) ∈ entrypoints ->
    exists entries, v = JArr entries /\ forall e, e ∈ entries -> _valid_fabric_entry e = true.
Proof.
  induction entrypoints as [|[k v] es IH]; [split; [by intros _ ? ? ?%elem_of_nil|done]|].
  assert (Hc : validate_entrypoints ((k, v) :: es) = Ok tt <->
    (exists entries, v = JArr entries /\ forall e, e ∈ entries -> _valid_fabric_entry e = true) /\
    validate_entrypoints es = Ok tt).
  { cbn [validate_entrypoints]. destruct v as [| | | | |entries|]; try naive_solver.
    destruct (forallb _ entries) eqn:E.
    - rewrite forallb_forall in E. split; [|tauto]. intros Hv. split; [|done]. exists entries. split; [done|].
      intros e He. by apply E, list_elem_of_In.
    - split; [done|]. intros [(l & [= <-] & Hall) _]. exfalso. apply not_true_iff_false in E. apply E.
      apply forallb_forall. intros e He. by apply Hall, list_elem_of_In. }
  rewrite Hc, IH. split.
  - intros [Hv Hes] k' v' [[= -> ->]|Hin]%elem_of_cons; eauto.
  - intros Hall. split; [apply (Hall k v); left|]. intros k' v' Hin. apply (Hall k' v'). by right.
Qed.

Lemma validate_resource_spec v kind :
  validate_resource v kind = Ok tt <-> finite_json v = true /\ shape kind v.
Proof.
  unfold validate_resource, _validate_json. destruct (finite_json v); [|naive_solver]. cbn [res_bind].
  destruct kind; cbn [shape].
  - tauto.
  - destruct v; simpl; naive_solver.
  - destruct v as [| | | | | |d]; cbn [_require_object res_bind]; try naive_solver.
    rewrite validate_language_spec. naive_solver.
  - destruct v as [| | | | | |d]; cbn [_require_object res_bind]; try naive_solver.
    unfold _validate_fabric. destruct (dict_get (u "entrypoints") d) as [e|] eqn:E; cbn [default from_option id].
    + destruct e as [| | | | | |es]; try naive_solver. rewrite validate_entrypoints_spec. naive_solver.
    + cbn [validate_entrypoints]. naive_solver.
Qed.

(** A resource that is parsed is the value [json.loads] gives the text, in which no object names
    a key twice, every number is finite, and which has the shape of its kind; conversely a text
    that scans without a repeated key or a constant is refused only for those reasons. *)
Theorem parse_resource_spec text kind v :
  parse_resource text kind = Ok v <->
  (strict_loads text = Ok v /\ json_loads text = Ok v /\ unique_keys v = true /\ finite_json v = true /\ shape kind v).
Proof.
  unfold parse_resource. pose proof (strict_loads_spec text) as Hs.
  destruct (strict_loads text) as [w|e]; [|naive_solver]. specialize (Hs w eq_refl).
  pose proof (validate_resource_spec w kind) as Hv.
  destruct (validate_resource w kind) as [[]|e]; cbn [res_bind]; naive_solver.
Qed.

End resources.

(** ** Gradle scripts *)

Lemma drop_prefix p t x : starts_with p t = true -> drop (length p) (t ++ x) = drop (length p) t ++ x.
Proof. intros [r ->]%starts_with_iff. by rewrite <- app_assoc, !drop_app_length. Qed.

Lemma after_match_newline p t r s :
  10 ∉ p -> after_match p t = Some r -> after_match p (t ++ 10 :: s) = Some (r ++ 10 :: s).
Proof.
  intros Hp. induction t as [|c t IH]; intros Ha.
  - destruct p; [|done]. injection Ha as <-. done.
  - cbn [app after_match] in *. change (c :: t ++ 10 :: s) with ((c :: t) ++ 10 :: s).
    rewrite (starts_with_stop 10) by done. destruct (starts_with p (c :: t)) eqn:E; [|by apply IH].
    injection Ha as <-. by rewrite drop_prefix.
Qed.

Lemma after_newline t s :
  after_match [10] (t ++ 10 :: s) = match after_match [10] t with Some r => Some (r ++ 10 :: s) | None => Some s end.
Proof.
  induction t as [|c t IH]; [done|]. cbn [app after_match starts_with andb]. destruct (10 =? c); [done|exact IH].
Qed.

Lemma after_match_length p t r : after_match p t = Some r -> (length r <= length t - length p)%nat.
Proof.
  induction t as [|c t IH]; cbn [after_match].
  - destruct (starts_with p []); [|done]. intros [= <-]. rewrite length_drop. lia.
  - destruct (starts_with p (c :: t)); [intros [= <-]; rewrite length_drop; lia|]. intros Hr%IH. simpl. lia.
Qed.

(** The induction that follows the loop of a string, two characters at a time after a backslash. *)
Lemma string_ind (P : pystr -> Prop) :
  P [] -> (forall c, P [c]) -> (forall c d t, P t -> P (d :: t) -> P (c :: d :: t)) -> forall t, P t.
Proof.
  intros H0 H1 H2 t. enough (P t /\ forall c, P (c :: t)) as [? _] by done.
  induction t as [|d t [IH1 IH2]]; [by split|]. split; [apply IH2|]. intros c. by apply H2.
Qed.

Lemma close_string_newline q t r s :
  10 ∉ q -> close_string q t = Some r -> close_string q (t ++ 10 :: s) = Some (r ++ 10 :: s).
Proof.
  intros Hq. revert r. induction t as [|c|c d t IH1 IH2] using string_ind; intros r; [done|..];
    cbn [close_string app].
  - change (c :: 10 :: s) with ([c] ++ 10 :: s). rewrite (starts_with_stop 10) by done.
    destruct (starts_with q [c]) eqn:E; [intros [= <-]; by rewrite drop_prefix|]. by destruct (c =? 92).
  - change (c :: d :: t ++ 10 :: s) with ((c :: d :: t) ++ 10 :: s). rewrite (starts_with_stop 10) by done.
    destruct (starts_with q (c :: d :: t)) eqn:E.
    + intros [= <-]. by rewrite <- (drop_prefix q (c :: d :: t)).
    + destruct (c =? 92); [apply IH1|]. intros Hr. apply (IH2 r) in Hr. exact Hr.
Qed.

Lemma close_string_length q t r : close_string q t = Some r -> (length r <= length t)%nat.
Proof.
  revert r. induction t as [|c|c d t IH1 IH2] using string_ind; intros r; [done|..]; cbn [close_string].
  - destruct (starts_with q [c]); [intros [= <-]; rewrite length_drop; lia|]. by destruct (c =? 92).
  - destruct (starts_with q (c :: d :: t)); [intros [= <-]; rewrite length_drop; lia|].
    destruct (c =? 92); [intros Hr%IH1|intros Hr%IH2]; simpl in *; lia.
Qed.

Lemma line_slashes : 10 ∉ u "//". Proof. by apply (bool_decide_unpack _). Qed.
Lemma block_slash : 10 ∉ u "/*". Proof. by apply (bool_decide_unpack _). Qed.
Lemma block_star : 10 ∉ u "*/". Proof. by apply (bool_decide_unpack _). Qed.

Lemma skip_quoted_newline c t o s :
  _skip_quoted_string (c :: t) = Ok o ->
  _skip_quoted_string (c :: t ++ 10 :: s) = Ok (option_map (fun r => r ++ 10 :: s) o).
Proof.
  unfold _skip_quoted_string. destruct ((c =? 34) || (c =? 39)) eqn:Eq; [|by intros [= <-]].
  change (c :: t ++ 10 :: s) with ((c :: t) ++ 10 :: s).
  assert (Hc : c <> 10) by (intros ->; done).
  assert (Hq : 10 ∉ [c; c; c] /\ 10 ∉ [c]).
  { rewrite !elem_of_cons, elem_of_nil. split; intros H; naive_solver. }
  rewrite (starts_with_stop 10) by tauto. destruct (starts_with [c; c; c] (c :: t)) eqn:E3.
  - rewrite drop_prefix by done. destruct (close_string [c; c; c] _) as [r|] eqn:Ec; [|done].
    intros [= <-]. by erewrite close_string_newline by (tauto || done).
  - change (drop (length [c]) ((c :: t) ++ 10 :: s)) with (t ++ 10 :: s). change (drop (length [c]) (c :: t)) with t.
    destruct (close_string [c] t) as [r|] eqn:Ec; [|done].
    intros [= <-]. by erewrite close_string_newline by (tauto || done).
Qed.

Lemma skip_block_newline c t o s :
  _skip_block_comment (c :: t) = Ok o ->
  _skip_block_comment (c :: t ++ 10 :: s) = Ok (option_map (fun r => r ++ 10 :: s) o).
Proof.
  unfold _skip_block_comment. change (c :: t ++ 10 :: s) with ((c :: t) ++ 10 :: s).
  rewrite (starts_with_stop 10) by apply block_slash.
  destruct (starts_with (u "/*") (c :: t)) eqn:E; [|by intros [= <-]].
  change 2%nat with (length (u "/*")). rewrite drop_prefix by done.
  destruct (after_match (u "*/") _) as [r|] eqn:Ea; [|done]. intros [= <-].
  by erewrite after_match_newline by (apply block_star || done).
Qed.

(** A token of an accepted text stays one when a line is appended; a line comment at
    its end takes the line break as well. *)
Lemma gradle_token_newline stack c t st r s :
  gradle_token stack c t = Ok (st, r) ->
  exists r', gradle_token stack c (t ++ 10 :: s) = Ok (st, r') /\ (r' = r ++ 10 :: s \/ r = [] /\ r' = s).
Proof.
  unfold gradle_token, _skip_line_comment. change (c :: t ++ 10 :: s) with ((c :: t) ++ 10 :: s).
  rewrite (starts_with_stop 10) by apply line_slashes.
  destruct (starts_with (u "//") (c :: t)).
  { rewrite after_newline. destruct (after_match [10] (c :: t)) as [r1|]; intros [= <- <-];
      (eexists; split; [done|]); [by left|by right]. }
  change ((c :: t) ++ 10 :: s) with (c :: t ++ 10 :: s).
  destruct (_skip_block_comment (c :: t)) as [o|] eqn:Eb; [|done]. rewrite (skip_block_newline _ _ _ s Eb).
  cbn [res_bind]. destruct o as [r1|]; cbn [option_map]; [intros [= <- <-]; eauto|].
  destruct (_skip_quoted_string (c :: t)) as [o|] eqn:Eq; [|done]. rewrite (skip_quoted_newline _ _ _ s Eq).
  cbn [res_bind]. destruct o as [r1|]; cbn [option_map]; [intros [= <- <-]; eauto|].
  destruct (_update_delimiter_stack stack c); [|done]. cbn [res_bind]. intros [= <- <-]. eauto.
Qed.

Lemma gradle_token_length stack c t st r : gradle_token stack c t = Ok (st, r) -> (length r <= length t)%nat.
Proof.
  unfold gradle_token, _skip_line_comment, _skip_block_comment, _skip_quoted_string.
  destruct (starts_with (u "//") (c :: t)) eqn:E1.
  { destruct (after_match [10] (c :: t)) as [r1|] eqn:E; intros [= <- <-]; simpl; [|lia].
    apply after_match_length in E. simpl in E. lia. }
  destruct (starts_with (u "/*") (c :: t)).
  { destruct (after_match (u "*/") _) as [r1|] eqn:E; [|done]. intros [= <- <-].
    apply after_match_length in E. rewrite length_drop in E. cbn [length] in E. lia. }
  cbn [res_bind]. destruct ((c =? 34) || (c =? 39)).
  - destruct (close_string _ _) as [r1|] eqn:E; [|done]. intros [= <- <-].
    apply close_string_length in E. destruct (starts_with [c; c; c] (c :: t)); rewrite length_drop in E; simpl in E; lia.
  - cbn [res_bind]. destruct (_update_delimiter_stack stack c); [|done]. intros [= <- <-]. lia.
Qed.

(** The loop ends within the length of the text, and more fuel changes nothing. *)
Lemma gradle_loop_enough f1 f2 stack t :
  (length t <= f1)%nat -> (length t <= f2)%nat -> gradle_loop f1 stack t = gradle_loop f2 stack t.
Proof.
  revert f2 stack t. induction f1 as [|f1 IH]; intros [|f2] stack [|c t]; simpl; try done; try lia.
  intros H1 H2. destruct (gradle_token stack c t) as [[st r]|] eqn:E; [|done]. cbn [res_bind].
  apply gradle_token_length in E. apply IH; lia.
Qed.

Lemma gradle_loop_append f f' stack t st s :
  (length t <= f)%nat -> (length t + S (length s) <= f')%nat -> gradle_loop f stack t = Ok st ->
  gradle_loop f' stack (t ++ 10 :: s) = gradle_loop (length s) st s.
Proof.
  revert f' stack t. induction f as [|f IH]; intros f' stack t Hf Hf'.
  - destruct t; [|simpl in Hf; lia]. intros [= ->]. destruct f' as [|f']; [simpl in Hf'; lia|].
    cbn. apply gradle_loop_enough; simpl in Hf'; lia.
  - destruct f' as [|f']; [simpl in Hf'; lia|]. destruct t as [|c t].
    + intros [= ->]. cbn. apply gradle_loop_enough; simpl in Hf'; lia.
    + cbn [app gradle_loop]. destruct (gradle_token stack c t) as [[st1 r]|] eqn:E; [|done]. cbn [res_bind].
      intros Hl. pose proof (gradle_token_length _ _ _ _ _ E). simpl in Hf, Hf'.
      destruct (gradle_token_newline _ _ _ _ _ s E) as (r' & -> & [->|[-> ->]]); cbn [res_bind].
      * apply (IH f' st1 r); [lia|lia|done].
      * destruct f; injection Hl as <-; apply gradle_loop_enough; lia.
Qed.

(** A script that passes the check can be extended: whatever is appended on a new line is read
    from the top level, outside every comment, string and block, as if it stood alone. *)
Theorem gradle_append_safe text :
  validate_gradle_append text = Ok tt ->
  forall s, validate_gradle_append (text ++ 10 :: s) = validate_gradle_append s.
Proof.
  unfold validate_gradle_append. destruct (gradle_loop (length text) [] text) as [[|]|] eqn:E; try done.
  intros _ s. by rewrite (gradle_loop_append (length text) _ _ _ [] s) by (rewrite ?length_app; simpl; (lia || done)).
Qed.
