(* ===== verification/ProjectMutation.v ===== *)
(** * ProjectMutation: [project_mutation.py]

    The committed changes of one project.  An owner numbers the transactions that
    changed something and keeps the last change of each path; it forgets everything,
    with its identity, when the state of the files is no longer known. *)

From stdpp Require Import prelude gmap strings list sorting.
From S2P Require Import Prelude Text Json Paths.

Open Scope Z_scope.
Open Scope py_scope.

Definition is_model_input (relative : pystr) : bool :=
  let name := path_name (path_parts relative) in
  bool_decide (name ∈ map u ["build.gradle"; "build.gradle.kts"; "settings.gradle"; "settings.gradle.kts";
                             "gradle.properties"; "pom.xml"; ".classpath"; ".project"; "gradle.lockfile"])
  || bool_decide (name_suffix name ∈ map u [".gradle"; ".kts"])
  || existsb (fun part => bool_decide (part ∈ map u ["buildSrc"; "build-logic"; ".settings"])) (all_parts relative)
  || bool_decide (u "gradle" ∈ all_parts relative).

Record FileChange : Type := Change {
  change_path : pystr; change_operation : pystr; before_sha256 : option pystr; after_sha256 : option pystr
}.

Record ProjectRevision : Type := Revision { rev_owner_id : pystr; rev_revision : Z; rev_model_revision : Z }.

Record ChangeSet : Type := NewChangeSet {
  cs_project_root : pystr; cs_owner_id : pystr; cs_base_revision : Z; cs_revision : Z; cs_model_revision : Z;
  cs_changes : list FileChange
}.

Record ProjectMutationOwner : Type := Owner {
  owner_root : pystr; owner_id : pystr; owner_revision : Z; owner_model_revision : Z;
  owner_changes : gmap pystr (Z * FileChange)
}.

#[export] Instance FileChange_eq_dec : EqDecision FileChange.
Proof. solve_decision. Defined.

(** [to_dict] of each. *)
Section dictionaries.
Context `{PyFloat}.

Definition json_option (s : option pystr) : json := match s with Some s => JStr s | None => JNull end.

Definition change_dict (c : FileChange) : json :=
  JObj [(u "path", JStr (change_path c)); (u "operation", JStr (change_operation c));
        (u "before_sha256", json_option (before_sha256 c)); (u "after_sha256", json_option (after_sha256 c))].

Definition revision_dict (r : ProjectRevision) : json :=
  JObj [(u "owner_id", JStr (rev_owner_id r)); (u "revision", JInt (rev_revision r));
        (u "model_revision", JInt (rev_model_revision r))].

Definition change_set_dict (c : ChangeSet) : json :=
  JObj [(u "schema_version", JStr (u "mmm/change-set-v1")); (u "project_root", JStr (cs_project_root c));
        (u "owner_id", JStr (cs_owner_id c)); (u "base_revision", JInt (cs_base_revision c));
        (u "revision", JInt (cs_revision c)); (u "model_revision", JInt (cs_model_revision c));
        (u "changes", JArr (map change_dict (cs_changes c)))].

End dictionaries.

Definition new_owner (root id : pystr) : ProjectMutationOwner := Owner root id 0 0 ∅.

Definition revision (o : ProjectMutationOwner) : ProjectRevision :=
  Revision (owner_id o) (owner_revision o) (owner_model_revision o).

Definition effective (c : FileChange) : Prop := before_sha256 c <> after_sha256 c.

Definition record_change (revision : Z) (changes : gmap pystr (Z * FileChange)) (c : FileChange)
    : gmap pystr (Z * FileChange) := <[change_path c := (revision, c)]> changes.

Definition committed (changes : list FileChange) (o : ProjectMutationOwner) : ChangeSet * ProjectMutationOwner :=
  let actual := filter effective changes in
  let base := owner_revision o in
  let o := match actual with
           | [] => o
           | _ =>
               let revision := base + 1 in
               let model := if existsb (fun c => is_model_input (change_path c)) actual
                            then owner_model_revision o + 1 else owner_model_revision o in
               Owner (owner_root o) (owner_id o) revision model
                     (fold_left (record_change revision) actual (owner_changes o))
           end in
  (NewChangeSet (owner_root o) (owner_id o) base (owner_revision o) (owner_model_revision o) actual, o).

(** [sorted(..., key=lambda row: (row[0], row[1].path))] *)
Definition row_le (a b : Z * FileChange) : Prop :=
  a.1 < b.1 \/ a.1 = b.1 /\ str_le (change_path a.2) (change_path b.2).

#[export] Instance row_le_dec : RelDecision row_le.
Proof. intros a b. unfold row_le. apply _. Defined.

Definition rows_since (n : Z) (o : ProjectMutationOwner) : list (Z * FileChange) :=
  filter (fun row => n < row.1) (merge_sort row_le (map_to_list (owner_changes o)).*2).

Definition changes_since (r : ProjectRevision) (o : ProjectMutationOwner) : res ChangeSet :=
  if bool_decide (rev_owner_id r <> owner_id o) || (owner_revision o <? rev_revision r) then Err ValueError
  else Ok (NewChangeSet (owner_root o) (owner_id o) (rev_revision r) (owner_revision o) (owner_model_revision o)
             (rows_since (rev_revision r) o).*2).

(** [id] is the new [uuid4().hex]. *)
Definition invalidate_owner (id : pystr) (o : ProjectMutationOwner) : ProjectMutationOwner :=
  Owner (owner_root o) id 0 0 ∅.

(** ** What happens to an owner *)

Inductive owner_event : Type := Committed (changes : list FileChange) | Invalidated (id : pystr).

Definition owner_step (o : ProjectMutationOwner) (e : owner_event) : ProjectMutationOwner :=
  match e with Committed changes => (committed changes o).2 | Invalidated id => invalidate_owner id o end.

Definition owner_run (events : list owner_event) (o : ProjectMutationOwner) : ProjectMutationOwner :=
  fold_left owner_step events o.

(** A run of commits. *)
Definition commits (later : list (list FileChange)) (o : ProjectMutationOwner) : ProjectMutationOwner :=
  owner_run (map Committed later) o.

(** The last change that a list of changes makes to a path. *)
Definition last_change (path : pystr) (changes : list FileChange) : option FileChange :=
  last (filter (fun c => effective c /\ change_path c = path) changes).

(** ** The invariant of an owner *)

Record owner_wf (o : ProjectMutationOwner) : Prop := {
  wf_path : map_Forall (fun path row => change_path row.2 = path) (owner_changes o);
  wf_revision : map_Forall (fun _ row => row.1 <= owner_revision o) (owner_changes o)
}.

Lemma record_changes_lookup n cs m path :
  Forall effective cs ->
  fold_left (record_change n) cs m !! path =
  match last_change path cs with Some c => Some (n, c) | None => m !! path end.
Proof.
  unfold last_change. induction cs as [|c cs IH] using rev_ind; [done|].
  rewrite Forall_app, Forall_singleton. intros [Hcs Hc]. specialize (IH Hcs).
  rewrite fold_left_app, filter_app. cbn [fold_left]. unfold record_change at 1.
  destruct (decide (change_path c = path)) as [<-|Hne].
  - rewrite lookup_insert_eq, (filter_cons_True _ c []) by done. by rewrite filter_nil, last_snoc.
  - rewrite lookup_insert_ne, (filter_cons_False _ c []) by naive_solver. by rewrite filter_nil, app_nil_r, IH.
Qed.

Lemma last_change_filter path cs : last_change path (filter effective cs) = last_change path cs.
Proof.
  unfold last_change. f_equal. rewrite list_filter_filter. apply list_filter_iff. naive_solver.
Qed.

(** One commit, path by path. *)
Lemma committed_lookup cs o path :
  owner_changes (committed cs o).2 !! path =
  match last_change path cs with
  | Some c => Some (owner_revision o + 1, c)
  | None => owner_changes o !! path
  end.
Proof.
  rewrite <- last_change_filter. unfold committed. cbn [snd].
  pose proof (fun x (Hx : x ∈ filter effective cs) => proj1 (proj1 (list_elem_of_filter _ _ _) Hx)) as Heff.
  destruct (filter effective cs) as [|c0 cs0] eqn:E; [done|]. cbn [owner_changes].
  rewrite record_changes_lookup; [done|]. by apply Forall_forall.
Qed.

Lemma last_change_Some path cs c : last_change path cs = Some c -> effective c /\ change_path c = path /\ c ∈ cs.
Proof.
  unfold last_change. intros Hl. assert (Hin : c ∈ filter (fun c => effective c /\ change_path c = path) cs).
  { rewrite last_lookup in Hl. by apply list_elem_of_lookup_2 in Hl. }
  apply list_elem_of_filter in Hin. naive_solver.
Qed.

Lemma committed_revision cs o :
  owner_revision (committed cs o).2 = owner_revision o /\ filter effective cs = [] \/
  owner_revision (committed cs o).2 = owner_revision o + 1.
Proof. unfold committed. destruct (filter effective cs); [left|right]; done. Qed.

Lemma committed_last_revision cs o path c :
  last_change path cs = Some c -> owner_revision (committed cs o).2 = owner_revision o + 1.
Proof.
  intros Hl. destruct (committed_revision cs o) as [[_ E]|]; [|done].
  rewrite <- last_change_filter, E in Hl. done.
Qed.

Lemma owner_step_wf o e : owner_wf o -> owner_wf (owner_step o e).
Proof.
  intros [Hp Hr]. destruct e as [cs|id]; [|split; apply map_Forall_empty].
  split; intros path row; cbn [owner_step]; rewrite committed_lookup;
    destruct (last_change path cs) as [c|] eqn:El.
  - intros [= <-]. by apply last_change_Some in El as (_ & ? & _).
  - apply Hp.
  - intros [= <-]. erewrite committed_last_revision by done. simpl. lia.
  - intros Hrow. specialize (Hr _ _ Hrow). simpl in Hr. destruct (committed_revision cs o) as [[-> _]| ->]; simpl; lia.
Qed.

Lemma owner_run_wf events root id : owner_wf (owner_run events (new_owner root id)).
Proof.
  unfold owner_run. induction events as [|e es IH] using rev_ind; [split; apply map_Forall_empty|].
  rewrite fold_left_app. by apply owner_step_wf.
Qed.

(** Rows that are newer than [n]. *)
Lemma elem_of_rows_since n o row :
  owner_wf o -> row ∈ rows_since n o <-> n < row.1 /\ owner_changes o !! change_path row.2 = Some row.
Proof.
  intros [Hp _]. unfold rows_since. rewrite list_elem_of_filter, merge_sort_Permutation, list_elem_of_fmap.
  split; intros [Hn H]; (split; [done|]).
  - destruct H as ([path row'] & -> & Hin). apply elem_of_map_to_list in Hin. simpl. by rewrite (Hp _ _ Hin).
  - exists (change_path row.2, row). split; [done|]. by apply elem_of_map_to_list.
Qed.

#[export] Instance row_le_trans : Transitive row_le.
Proof.
  intros a b c [H1|[H1 H2]] [H3|[H3 H4]]; [left; lia..|right; split; [lia|]].
  by eapply str_le_trans.
Qed.

#[export] Instance row_le_total : Total row_le.
Proof.
  intros a b. unfold row_le. destruct (Z.lt_trichotomy a.1 b.1) as [|[E|]]; [auto| |auto].
  rewrite E. destruct (str_le_total (change_path a.2) (change_path b.2)); auto.
Qed.

Lemma rows_since_NoDup n o : owner_wf o -> NoDup (map change_path (rows_since n o).*2).
Proof.
  intros [Hp _]. unfold rows_since.
  apply (sublist_NoDup _ (map change_path (merge_sort row_le (map_to_list (owner_changes o)).*2).*2)).
  - rewrite merge_sort_Permutation, <- list_fmap_compose, <- list_fmap_compose.
    replace (_ <$> _) with (map_to_list (owner_changes o)).*1; [apply NoDup_fst_map_to_list|].
    apply list_fmap_ext. intros i [path row] Hi. apply list_elem_of_lookup_2, elem_of_map_to_list in Hi.
    symmetry. exact (Hp _ _ Hi).
  - apply fmap_sublist, fmap_sublist, sublist_filter.
Qed.

Lemma commits_snoc later cs o : commits (later ++ [cs]) o = (committed cs (commits later o)).2.
Proof. unfold commits, owner_run. by rewrite map_app, fold_left_app. Qed.

Lemma commits_id later o : owner_id (commits later o) = owner_id o.
Proof.
  induction later as [|cs later IH] using rev_ind; [done|]. rewrite commits_snoc, <- IH.
  unfold committed. by destruct (filter effective cs).
Qed.

Lemma commits_wf later o : owner_wf o -> owner_wf (commits later o).
Proof.
  intros Ho. induction later as [|cs later IH] using rev_ind; [done|]. rewrite commits_snoc.
  by apply (owner_step_wf _ (Committed cs)).
Qed.

Lemma commits_revision later o : owner_revision o <= owner_revision (commits later o).
Proof.
  induction later as [|cs later IH] using rev_ind; [done|]. rewrite commits_snoc.
  destruct (committed_revision cs (commits later o)) as [[-> _]| ->]; lia.
Qed.

Lemma last_change_app path a b :
  last_change path (a ++ b) = match last_change path b with Some c => Some c | None => last_change path a end.
Proof. unfold last_change. rewrite filter_app, last_app. done. Qed.

(** What the commits made since are: the rows that are newer than the start. *)
Lemma commits_lookup later o path :
  owner_wf o ->
  match last_change path (concat later) with
  | Some c => exists n, owner_revision o < n /\ owner_changes (commits later o) !! path = Some (n, c)
  | None => owner_changes (commits later o) !! path = owner_changes o !! path
  end.
Proof.
  intros Ho. induction later as [|cs later IH] using rev_ind; [done|].
  rewrite concat_app, last_change_app, commits_snoc, committed_lookup. cbn [concat]. rewrite app_nil_r.
  pose proof (commits_revision later o). destruct (last_change path cs) as [c|]; [|done].
  eexists. split; [|done]. lia.
Qed.

Lemma commits_model later o :
  owner_model_revision o <= owner_model_revision (commits later o) /\
  (owner_model_revision o < owner_model_revision (commits later o) <->
   exists c, c ∈ concat later /\ effective c /\ is_model_input (change_path c) = true).
Proof.
  induction later as [|cs later [IH1 IH2]] using rev_ind.
  { unfold commits, owner_run. cbn. split; [lia|]. split; [lia|]. by intros (c & Hc%elem_of_nil & _). }
  rewrite commits_snoc, concat_app. cbn [concat]. rewrite app_nil_r.
  assert (Hm : owner_model_revision (committed cs (commits later o)).2 =
               if existsb (fun c => is_model_input (change_path c)) (filter effective cs)
               then owner_model_revision (commits later o) + 1 else owner_model_revision (commits later o)).
  { unfold committed. by destruct (filter effective cs). }
  rewrite Hm. destruct (existsb _ _) eqn:E.
  - split; [lia|]. split; [intros _|lia]. apply existsb_exists in E as (c & Hc & Hi).
    apply list_elem_of_In, list_elem_of_filter in Hc as [? Hc].
    exists c. by rewrite elem_of_app; auto.
  - split; [lia|]. rewrite IH2. split; intros (c & Hc & He & Hi); exists c; [rewrite elem_of_app; auto|].
    apply elem_of_app in Hc as [Hc|Hc]; [done|]. exfalso.
    enough (existsb (fun c => is_model_input (change_path c)) (filter effective cs) = true) by congruence.
    apply existsb_exists. exists c. split; [|done]. apply list_elem_of_In, list_elem_of_filter. done.
Qed.

(** For a revision handed out at some point and any transactions committed since, the owner
    answers with the last change of each path that they changed, each path once, and it raises the
    revision of the build model exactly when one of their changes touches an input of that model.
    Once the owner was invalidated it refuses the revision, whatever is committed afterwards. *)
Theorem changes_since_spec events later root id :
  let o := owner_run events (new_owner root id) in
  let o' := commits later o in
  (exists cs, changes_since (revision o) o' = Ok cs /\
     (forall c, c ∈ cs_changes cs <-> last_change (change_path c) (concat later) = Some c) /\
     NoDup (map change_path (cs_changes cs)) /\
     (rev_model_revision (revision o) < cs_model_revision cs <->
      exists c, c ∈ concat later /\ effective c /\ is_model_input (change_path c) = true)) /\
  forall fresh afterwards, fresh <> owner_id o ->
    changes_since (revision o) (commits afterwards (invalidate_owner fresh o')) = Err ValueError.
Proof.
  intros o o'. pose proof (owner_run_wf events root id : owner_wf o) as Ho.
  pose proof (commits_wf later o Ho) as Ho'. split.
  - eexists. split; [|split; [|split]].
    + unfold changes_since, revision. cbn [rev_owner_id rev_revision].
      rewrite bool_decide_eq_false_2 by (unfold o'; rewrite commits_id; auto).
      pose proof (commits_revision later o). rewrite (proj2 (Z.ltb_ge _ _)) by done. done.
    + intros c. cbn [cs_changes]. rewrite list_elem_of_fmap. pose proof (commits_lookup later o (change_path c) Ho) as Hl.
      split.
      * intros ([n c'] & -> & Hin). apply elem_of_rows_since in Hin as [Hn Hin]; [|done]. simpl in *.
        destruct (last_change _ _) as [c2|]; [destruct Hl as (m & _ & Hm); unfold o' in *; congruence|].
        destruct Ho as [_ Hr]. unfold o' in Hin. rewrite Hl in Hin. specialize (Hr _ _ Hin). simpl in Hr. lia.
      * intros E. rewrite E in Hl. destruct Hl as (n & Hn & Hl). exists (n, c). split; [done|].
        by apply elem_of_rows_since.
    + by apply rows_since_NoDup.
    + apply (commits_model later o).
  - intros fresh afterwards Hf. unfold changes_since. rewrite bool_decide_eq_true_2; [done|].
    rewrite commits_id. cbn. congruence.
Qed.
