(* ===== verification/SourcePatch.v ===== *)
(** * SourcePatch: [source_patch.py]

    Transactions of text patches on the files of one project: every operation is
    checked and staged against the files as they are, then the changed files are
    replaced, one after the other or by a pool, and put back if a replacement fails.

    A path is the list of its parts below the project root.  The operating system is
    given as an environment: which replacements and which restorations fail, and the
    order in which the pool finishes. *)

From stdpp Require Import prelude gmap sets fin_sets fin_maps strings list.
From S2P Require Import Prelude Text Json JsonStream PyJson Sha256 Paths ProjectLock ModOutputScope Replace.
From S2P Require Import ResidualContract TypedResources ProjectMutation.

Open Scope Z_scope.
Open Scope py_scope.

Abbreviation bytes := (list Z).
Abbreviation path := (list pystr).

(** A link is [live] when what it points to exists. *)
Inductive entry : Type := File (data : bytes) | Dir | Link (live : bool).

#[export] Instance entry_eq_dec : EqDecision entry.
Proof. solve_decision. Defined.

Abbreviation filesystem := (gmap path entry).

(** ** Operations *)

Record replacement : Type := Replacement { old_text : pystr; new_text : pystr; match_count : Z }.

Inductive patch_op : Type :=
  | Create (target content : pystr)
  | Replace (target expected content : pystr)
  | Edit (target expected : pystr) (replacements : list replacement)
  | Delete (target expected : pystr).

Definition target (op : patch_op) : pystr :=
  match op with Create t _ | Replace t _ _ | Edit t _ _ | Delete t _ => t end.

Definition operation_name (op : patch_op) : pystr :=
  u match op with Create _ _ => "create" | Replace _ _ _ => "replace" | Edit _ _ _ => "edit" | Delete _ _ => "delete" end.

(** [_OPERATION_FIELDS] *)
Definition operation_fields (operation : pystr) : option (list pystr) :=
  dict_get operation
    [(u "create", map u ["operation"; "path"; "content"]);
     (u "replace", map u ["operation"; "path"; "expected_sha256"; "content"]);
     (u "edit", map u ["operation"; "path"; "expected_sha256"; "replacements"]);
     (u "delete", map u ["operation"; "path"; "expected_sha256"])].

Definition _CONDITIONAL_FIELDS : list pystr := map u ["content"; "expected_sha256"; "replacements"].

Definition patch_error {A} (why : string) : res A := Err (SourcePatchError unchanged why).

Section patches.
Context `{PyFloat} `{PyCasefold}.

Definition _canonicalize_known_sibling_fields (operation : pystr) (value : list (pystr * json)) : list (pystr * json) :=
  match operation_fields operation with
  | None => value
  | Some allowed => filter (fun kv => ~ (kv.1 ∈ _CONDITIONAL_FIELDS /\ kv.1 ∉ allowed)) value
  end.

(** [set(value) - allowed] is not empty. *)
Definition unknown_fields (allowed : list pystr) (value : list (pystr * json)) : bool :=
  existsb (fun kv => negb (bool_decide (kv.1 ∈ allowed))) value.

Definition normalize_content (allowed : list pystr) (value : list (pystr * json)) : res pystr :=
  if unknown_fields allowed value then patch_error "Unknown fields"
  else match get value (u "content") with JStr content => Ok content | _ => patch_error "content must be text" end.

Definition normalize_replacement (value : json) : res replacement :=
  match value with
  | JObj fields =>
      if unknown_fields (map u ["old"; "new"; "count"]) fields then patch_error "Invalid replacement object"
      else
        match get fields (u "old"), get fields (u "new"), default (JInt 1) (dict_get (u "count") fields) with
        | JStr old, new, count =>
            if bool_decide (old = []) then patch_error "Replacement old text must be non-empty"
            else
              match new, count with
              | JStr new, JInt count =>
                  if count <? 1 then patch_error "Invalid replacement new/count" else Ok (Replacement old new count)
              | _, _ => patch_error "Invalid replacement new/count"
              end
        | _, _, _ => patch_error "Replacement old text must be non-empty"
        end
  | _ => patch_error "Invalid replacement object"
  end.

Definition normalize_expected (value : list (pystr * json)) : res pystr :=
  match get value (u "expected_sha256") with
  | JStr expected =>
      if starts_with (u "sha256:") expected && bool_decide (length expected = 71%nat) then Ok expected
      else patch_error "A valid expected_sha256 is required"
  | _ => patch_error "A valid expected_sha256 is required"
  end.

(** The fields of an operation, whose name and path are known. *)
Definition normalize_fields (operation relative : pystr) (allowed : list pystr) (value : list (pystr * json))
    : res patch_op :=
  if bool_decide (operation = u "create") then
    let* content := normalize_content allowed value in Ok (Create relative content)
  else
    let* expected := normalize_expected value in
    if bool_decide (operation = u "replace") then
      let* content := normalize_content allowed value in Ok (Replace relative expected content)
    else if unknown_fields allowed value then patch_error "Unknown fields"
    else if bool_decide (operation = u "edit") then
      match get value (u "replacements") with
      | JArr (r :: rs) =>
          let* clean := res_map_list normalize_replacement (r :: rs) in Ok (Edit relative expected clean)
      | _ => patch_error "Edit replacements must be a non-empty list"
      end
    else Ok (Delete relative expected).

(** A list or a dictionary cannot be looked up among the operations. *)
Definition _normalize (value : json) : res patch_op :=
  match value with
  | JObj fields =>
      match get fields (u "operation") with
      | JStr operation =>
          match operation_fields operation with
          | None => patch_error "Unsupported patch operation"
          | Some allowed =>
              let fields := _canonicalize_known_sibling_fields operation fields in
              match get fields (u "path") with
              | JStr relative =>
                  let relative := strip relative in
                  if bool_decide (relative = []) then patch_error "Patch path must be a non-empty string."
                  else
                    match validate_mod_output_path relative with
                    | Err _ => patch_error "Output path is outside M.M.M's mod-project scope"
                    | Ok _ => normalize_fields operation relative allowed fields
                    end
              | _ => patch_error "Patch path must be a non-empty string."
              end
          end
      | JArr _ | JObj _ => Err TypeError
      | _ => patch_error "Unsupported patch operation"
      end
  | _ => patch_error "Every patch operation must be an object."
  end.

(** The dictionary that [_normalize] returns. *)
Definition replacement_json (r : replacement) : json :=
  JObj [(u "old", JStr (old_text r)); (u "new", JStr (new_text r)); (u "count", JInt (match_count r))].

Definition op_json (op : patch_op) : json :=
  JObj ((u "operation", JStr (operation_name op)) :: (u "path", JStr (target op)) ::
        match op with
        | Create _ content => [(u "content", JStr content)]
        | Replace _ expected content => [(u "expected_sha256", JStr expected); (u "content", JStr content)]
        | Edit _ expected rs => [(u "expected_sha256", JStr expected); (u "replacements", JArr (map replacement_json rs))]
        | Delete _ expected => [(u "expected_sha256", JStr expected)]
        end).

Definition _normalized_transaction (operations : list json) : res (list patch_op) :=
  let* normalized := res_map_list _normalize operations in
  match normalized with
  | [] => patch_error "At least one patch operation is required."
  | _ =>
      if negb (bool_decide (NoDup (map target normalized)))
      then patch_error "A patch transaction may touch each path only once."
      else Ok normalized
  end.

(** ** Files *)

(** The directories on the way to a path, from the root down. *)
Fixpoint parents (p : path) : list path :=
  match p with
  | part :: ((_ :: _) as rest) => [part] :: map (cons part) (parents rest)
  | _ => []
  end.

Definition exists_at (fs : filesystem) (p : path) : bool :=
  match fs !! p with None => false | Some (Link live) => live | Some _ => true end.

Fixpoint check_parents (validated : gset path) (ps : list path) (fs : filesystem) : res (gset path) :=
  match ps with
  | [] => Ok validated
  | current :: ps =>
      if bool_decide (current ∈ validated) then check_parents validated ps fs
      else
        match fs !! current with
        | Some (Link _) => patch_error "Patch parent contains a symlink"
        | Some (File _) => patch_error "Patch parent is not a directory"
        | _ => check_parents ({[current]} ∪ validated) ps fs
        end
  end.

Definition _path (relative : pystr) (allow_missing : bool) (validated : gset path) (fs : filesystem)
    : res (path * gset path) :=
  let candidate := path_parts relative in
  if starts_with (u "/") relative || bool_decide (u ".." ∈ candidate) then patch_error "Unsafe patch path"
  else if bool_decide (candidate = []) then patch_error "The project root itself cannot be patched."
  else
    let* validated := check_parents validated (parents candidate) fs in
    if negb allow_missing && negb (exists_at fs candidate) then patch_error "Patch target does not exist"
    else Ok (candidate, validated).

Definition sha256_bytes (data : bytes) : pystr := u "sha256:" ++ hexdigest data.

(** ** Staging *)

Fixpoint apply_replacements (text : pystr) (rs : list replacement) : res pystr :=
  match rs with
  | [] => Ok text
  | r :: rs =>
      if negb (str_count (old_text r) text =? match_count r) then patch_error "Replacement precondition failed"
      else apply_replacements (str_replace (old_text r) (new_text r) (match_count r) text) rs
  end.

Definition _edit (raw : bytes) (rs : list replacement) : res pystr :=
  match utf8_decode raw with
  | Err _ => patch_error "Edit target is not UTF-8 text"
  | Ok text => apply_replacements text rs
  end.

(** A file that exists and has the digest that is expected. *)
Definition check_expected (before : option bytes) (expected : pystr) : res bytes :=
  match before with
  | None => patch_error "Patch target does not exist"
  | Some before =>
      if bool_decide (expected = sha256_bytes before) then Ok before
      else Err (SourcePatchError drift "SHA-256 precondition failed")
  end.

(** [None] deletes the file; [before] is its content, if it exists. *)
Definition _operation_result (op : patch_op) (before : option bytes) : res (option bytes) :=
  match op with
  | Create _ content =>
      match before with
      | Some _ => patch_error "Create target already exists"
      | None => let* data := utf8_encode content in Ok (Some data)
      end
  | Replace _ expected content =>
      let* _ := check_expected before expected in let* data := utf8_encode content in Ok (Some data)
  | Edit _ expected rs =>
      let* raw := check_expected before expected in
      let* text := _edit raw rs in let* data := utf8_encode text in Ok (Some data)
  | Delete _ expected => let* _ := check_expected before expected in Ok None
  end.

Definition _validate_json_result (target : pystr) (after : option bytes) : res unit :=
  match after with
  | Some data =>
      if ends_with (u ".json") target then
        match (let* text := utf8_decode data in parse_resource text (resource_kind target)) with
        | Ok _ => Ok tt
        | Err _ => patch_error "Invalid JSON output"
        end
      else Ok tt
  | None => Ok tt
  end.

Definition _preserve_equivalent_bytes (before after : option bytes) : option bytes :=
  match before, after with
  | Some b, Some a => if bool_decide (replace_all [13; 10] [10] b = replace_all [13; 10] [10] a) then before else after
  | _, _ => after
  end.

Definition _validate_residual_contract (contracts : list ResidualGenerationContract) (target : pystr)
    (before : option bytes) : res unit :=
  match contracts with
  | [] => Ok tt
  | _ =>
      match validate_residual_write_against_contracts target (option_map sha256_bytes before) contracts with
      | Ok _ => Ok tt
      | Err _ => patch_error "RESIDUAL_WRITE_CONTRACT"
      end
  end.

Record PatchReceipt : Type := Receipt {
  receipt_path : pystr; receipt_operation : pystr; receipt_before : option pystr; receipt_after : option pystr
}.

Definition changed (r : PatchReceipt) : bool := negb (bool_decide (receipt_before r = receipt_after r)).

Record staged_file : Type := Staged { staged_path : path; original : option bytes; staged : option bytes }.

(** The content of a regular file, if there is a file. *)
Definition read_target (fs : filesystem) (p : path) : res (option bytes) :=
  match fs !! p with
  | None | Some (Link false) => Ok None
  | Some (File data) => Ok (Some data)
  | Some _ => patch_error "Patch target is not a regular file"
  end.

Definition is_create (op : patch_op) : bool := match op with Create _ _ => true | _ => false end.

Definition _stage_one (contracts : list ResidualGenerationContract) (op : patch_op) (validated : gset path)
    (fs : filesystem) : res (staged_file * PatchReceipt * gset path) :=
  let* (p, validated) := _path (target op) (is_create op) validated fs in
  let* before := read_target fs p in
  let* _ := _validate_residual_contract contracts (target op) before in
  let* after := _operation_result op before in
  let* _ := _validate_json_result (target op) after in
  let after := _preserve_equivalent_bytes before after in
  Ok (Staged p before after,
      Receipt (target op) (operation_name op) (option_map sha256_bytes before) (option_map sha256_bytes after),
      validated).

(** The dictionaries [staged] and [originals], with their order of insertion. *)
Fixpoint stage_put (s : staged_file) (l : list staged_file) : list staged_file :=
  match l with
  | [] => [s]
  | s' :: l => if decide (staged_path s' = staged_path s) then s :: l else s' :: stage_put s l
  end.

Fixpoint stage_loop (contracts : list ResidualGenerationContract) (ops : list patch_op) (validated : gset path)
    (fs : filesystem) (files : list staged_file) (receipts : list PatchReceipt)
    : res (list staged_file * list PatchReceipt) :=
  match ops with
  | [] => Ok (files, receipts)
  | op :: ops =>
      let* (s, r, validated) := _stage_one contracts op validated fs in
      stage_loop contracts ops validated fs (stage_put s files) (receipts ++ [r])
  end.

Definition _stage_transaction (contracts : list ResidualGenerationContract) (ops : list patch_op) (fs : filesystem)
    : res (list staged_file * list PatchReceipt) := stage_loop contracts ops ∅ fs [] [].

Definition _changed_staged_paths (files : list staged_file) : list staged_file :=
  filter (fun s => original s <> staged s) files.

(** ** Committing *)

(** Where a replacement fails: before its directories are made, or after. *)
Inductive fault : Type := NoFault | FailsFirst | FailsAfterParents.

Record environment : Type := Environment {
  project_root : pystr;
  residual_contracts : list ResidualGenerationContract;
  workers_setting : pystr;
  global_workers_setting : pystr;
  cpu_count : option Z;
  completion : list staged_file -> list staged_file;
  commit_fault : path -> fault;
  rollback_fault : path -> option (option bytes);
  fresh_id : pystr
}.

(** [path.parent.mkdir(parents=True, exist_ok=True)] *)
Fixpoint make_parents (ps : list path) (fs : filesystem) : filesystem * bool :=
  match ps with
  | [] => (fs, true)
  | p :: ps =>
      match fs !! p with
      | None => make_parents ps (<[p := Dir]> fs)
      | Some Dir => make_parents ps fs
      | Some _ => (fs, false)
      end
  end.

(** The file system, and whether the call returned.  The temporary file is not part of it. *)
Definition _commit_staged_path (f : fault) (p : path) (after : option bytes) (fs : filesystem) : filesystem * bool :=
  match f, after with
  | FailsFirst, _ | FailsAfterParents, None => (fs, false)
  | NoFault, None =>
      match fs !! p with
      | Some (File _) | Some (Link _) => (delete p fs, true)
      | _ => (fs, false)
      end
  | _, Some data =>
      let '(fs, made) := make_parents (parents p) fs in
      match made, f, fs !! p with
      | true, NoFault, Some Dir => (fs, false)
      | true, NoFault, _ => (<[p := File data]> fs, true)
      | _, _, _ => (fs, false)
      end
  end.

Record commit_state : Type := CommitState {
  files_now : filesystem; committed_paths : list path; failed_paths : list path
}.

Definition commit_one (env : environment) (s : staged_file) (c : commit_state) : commit_state :=
  let '(fs, ok) := _commit_staged_path (commit_fault env (staged_path s)) (staged_path s) (staged s) (files_now c) in
  if ok then CommitState fs (staged_path s :: committed_paths c) (failed_paths c)
  else CommitState fs (committed_paths c) (staged_path s :: failed_paths c).

Fixpoint _serial_commit (env : environment) (ordered : list staged_file) (c : commit_state) : commit_state :=
  match ordered with
  | [] => c
  | s :: ordered =>
      let c := commit_one env s c in
      match failed_paths c with [] => _serial_commit env ordered c | _ => c end
  end.

(** Each future runs to its end, in the order in which they complete. *)
Definition _parallel_commit (env : environment) (ordered : list staged_file) (c : commit_state) : commit_state :=
  fold_left (fun c s => commit_one env s c) (completion env ordered) c.

Context `{PyUnicode}.

(** [(os.cpu_count() or 1) * 2], between 2 and 16. *)
Definition default_workers (cpus : option Z) : Z :=
  let cpus := match cpus with None | Some 0 => 1 | Some n => n end in Z.min 16 (Z.max 2 (cpus * 2)).

Definition _commit_worker_count (env : environment) (count : Z) : Z :=
  if count <=? 1 then 1
  else
    let raw := strip (workers_setting env) in
    let requested := if bool_decide (raw = []) then default_workers (cpu_count env)
                     else match int_of_str raw with Ok n => n | Err _ => 1 end in
    Z.max 1 (Z.min (Z.min count 32) requested).

Definition _global_commit_worker_count (env : environment) : res Z :=
  let raw := strip (global_workers_setting env) in
  if bool_decide (raw = []) then Ok (default_workers (cpu_count env))
  else match int_of_str raw with
       | Err _ => patch_error "MMM_SOURCE_PATCH_GLOBAL_WORKERS must be a positive integer"
       | Ok n => if n <? 1 then patch_error "MMM_SOURCE_PATCH_GLOBAL_WORKERS must be a positive integer"
                 else Ok (Z.min 32 n)
       end.

(** The size of the pool, which is made at the first use and kept. *)
Definition _shared_commit_pool (env : environment) (pool : option Z) : res Z :=
  match pool with Some n => Ok n | None => _global_commit_worker_count env end.

Definition _commit_transaction (env : environment) (pool : option Z) (ordered : list staged_file) (fs : filesystem)
    : res (commit_state * option Z) :=
  let start := CommitState fs [] [] in
  if _commit_worker_count env (Z.of_nat (length ordered)) <=? 1 then Ok (_serial_commit env ordered start, pool)
  else let* n := _shared_commit_pool env pool in Ok (_parallel_commit env ordered start, Some n).

(** One file put back; a write that fails may leave something else in it. *)
Definition restore_one (env : environment) (s : staged_file) (fs : filesystem) : filesystem * bool :=
  let p := staged_path s in
  match original s with
  | None =>
      if exists_at fs p then
        match rollback_fault env p, fs !! p with
        | Some _, _ | None, Some Dir => (fs, false)
        | None, _ => (delete p fs, true)
        end
      else (fs, true)
  | Some data =>
      let '(fs, made) := make_parents (parents p) fs in
      match made, rollback_fault env p, fs !! p with
      | true, None, Some Dir => (fs, false)
      | true, None, _ => (<[p := File data]> fs, true)
      | true, Some (Some partial), _ => (<[p := File partial]> fs, false)
      | _, _, _ => (fs, false)
      end
  end.

Fixpoint _rollback_committed (env : environment) (files : list staged_file) (fs : filesystem) : filesystem * bool :=
  match files with
  | [] => (fs, true)
  | s :: files =>
      let '(fs, ok) := restore_one env s fs in
      let '(fs, rest_ok) := _rollback_committed env files fs in (fs, ok && rest_ok)
  end.

(** [_raise_commit_failure]: the files are what the rollback leaves. *)
Definition _raise_commit_failure (env : environment) (ordered : list staged_file) (c : commit_state)
    : res unit * filesystem :=
  match failed_paths c with
  | [] => (Ok tt, files_now c)
  | _ =>
      let committed_order := filter (fun s => staged_path s ∈ committed_paths c) ordered in
      let '(fs, complete) := _rollback_committed env (reverse committed_order) (files_now c) in
      (if complete then Err (SourcePatchError rolled_back "Patch transaction rolled back")
       else Err (SourcePatchError uncertain "Patch transaction failed and rollback was incomplete"), fs)
  end.

(** [__init__], given whether the root is a real directory, the contracts of the caller and
    the manifest of the workspace. *)
Definition new_patcher `{!PyRepr} (real_directory : bool) (given : option (list ResidualGenerationContract))
    (manifest : option json) : res (list ResidualGenerationContract) :=
  if negb real_directory then patch_error "Project root is not a real directory"
  else
    match given with
    | Some contracts => Ok contracts
    | None =>
        match load_contracts manifest with
        | Err e => if decide (e = ResidualContractLoadError) then patch_error "Residual write policy is invalid" else Err e
        | Ok contracts => Ok contracts
        end
    end.

(** ** Transactions *)

Record world : Type := World { files : filesystem; owner : ProjectMutationOwner; pool : option Z }.

Record patch_receipt : Type := PatchResult {
  applied : bool; changed_paths : list pystr; operation_receipts : list PatchReceipt; change_set : ChangeSet
}.

Definition file_change (r : PatchReceipt) : FileChange :=
  Change (receipt_path r) (receipt_operation r) (receipt_before r) (receipt_after r).

Definition _receipt (receipts : list PatchReceipt) (o : ProjectMutationOwner) : patch_receipt * ProjectMutationOwner :=
  let paths := map receipt_path (filter (fun r => changed r = true) receipts) in
  let '(changes, o) := committed (map file_change receipts) o in
  (PatchResult (negb (bool_decide (paths = []))) paths receipts changes, o).

(** The dictionary that is returned. *)
Definition receipt_dict (r : PatchReceipt) : json :=
  JObj [(u "path", JStr (receipt_path r)); (u "operation", JStr (receipt_operation r));
        (u "before_sha256", json_option (receipt_before r)); (u "after_sha256", json_option (receipt_after r))].

Definition patch_receipt_dict (env : environment) (r : patch_receipt) : json :=
  JObj [(u "schema_version", JStr (u "mmm/source-patch-receipt-v1"));
        (u "status", JStr (if applied r then u "APPLIED" else u "UNCHANGED"));
        (u "project_root", JStr (project_root env)); (u "changed_paths", JArr (map JStr (changed_paths r)));
        (u "operations", JArr (map receipt_dict (operation_receipts r)));
        (u "change_set", change_set_dict (change_set r))].

Definition _apply_locked (env : environment) (w : world) (operations : list json) : res patch_receipt * world :=
  match (let* normalized := _normalized_transaction operations in
         let* (staged, receipts) := _stage_transaction (residual_contracts env) normalized (files w) in
         let ordered := _changed_staged_paths staged in
         let* (c, pool) := _commit_transaction env (pool w) ordered (files w) in
         Ok (ordered, receipts, c, pool)) with
  | Err e => (Err e, w)
  | Ok (ordered, receipts, c, pool) =>
      let '(outcome, fs) := _raise_commit_failure env ordered c in
      match outcome with
      | Err e => (Err e, World fs (owner w) pool)
      | Ok _ => let '(r, o) := _receipt receipts (owner w) in (Ok r, World fs o pool)
      end
  end.

Definition _invalidate_on_uncertain_state (env : environment) (e : exn) (w : world) : world :=
  match e with
  | SourcePatchError (drift | uncertain) _ => World (files w) (invalidate_owner (fresh_id env) (owner w)) (pool w)
  | _ => w
  end.

(** The keys of the paths are computed before the locks are taken. *)
Definition apply (env : environment) (w : world) (operations : list json) : res patch_receipt * world :=
  match (let* normalized := _normalized_transaction operations in
         let* _ := res_map_list _path_key (map target normalized) in Ok normalized) with
  | Err e => (Err e, w)
  | Ok normalized =>
      let '(outcome, w) := _apply_locked env w (map op_json normalized) in
      match outcome with
      | Ok r => (Ok r, w)
      | Err e => (Err e, _invalidate_on_uncertain_state env e w)
      end
  end.

(** ** Snapshots *)

(** The universal newlines of [read_text]. *)
Fixpoint universal_newlines (s : pystr) : pystr :=
  match s with
  | 13 :: ((10 :: _) as rest) => universal_newlines rest
  | 13 :: rest => 10 :: universal_newlines rest
  | c :: rest => c :: universal_newlines rest
  | [] => []
  end.

Record snapshot_file : Type := Snapshot { snapshot_path : pystr; snapshot_sha256 : pystr; snapshot_content : pystr }.

Fixpoint snapshot_loop (relative_paths : list pystr) (validated : gset path) (fs : filesystem)
    : res (list snapshot_file) :=
  match relative_paths with
  | [] => Ok []
  | relative :: relative_paths =>
      let* (p, validated) := _path relative false validated fs in
      match fs !! p with
      | Some (File data) =>
          let* text := utf8_decode data in
          let* rest := snapshot_loop relative_paths validated fs in
          Ok (Snapshot relative (sha256_bytes data) (universal_newlines text) :: rest)
      | _ => patch_error "Snapshot target is not a regular file"
      end
  end.

Definition snapshot (relative_paths : list pystr) (fs : filesystem) : res (list snapshot_file) :=
  snapshot_loop relative_paths ∅ fs.

End patches.
