(* ===== verification/SourcePatchProps.v ===== *)
(** * SourcePatchProps: normal forms, edits and the atomicity of transactions *)

From stdpp Require Import prelude gmap sets fin_sets fin_maps strings list.
From S2P Require Import Prelude Text Json JsonStream PyJson Sha256 Paths ProjectLock ModOutputScope Replace.
From S2P Require Import ResidualContract TypedResources ProjectMutation SourcePatch.

Open Scope Z_scope.
Open Scope py_scope.

Section normal_forms.
Context `{PyFloat} `{PyCasefold}.

(** ** Normal forms *)

(** The operations that [_normalize] returns. *)
Definition expected_ok (expected : pystr) : Prop :=
  starts_with (u "sha256:") expected = true /\ length expected = 71%nat.

Definition replacement_ok (r : replacement) : Prop := old_text r <> [] /\ 1 <= match_count r.

Definition op_ok (op : patch_op) : Prop :=
  strip (target op) = target op /\ target op <> [] /\ validate_mod_output_path (target op) = Ok tt /\
  match op with
  | Create _ _ => True
  | Replace _ expected _ | Delete _ expected => expected_ok expected
  | Edit _ expected rs => expected_ok expected /\ rs <> [] /\ Forall replacement_ok rs
  end.

Lemma normalize_expected_ok value e : normalize_expected value = Ok e -> expected_ok e.
Proof.
  unfold normalize_expected. destruct (get value _); try done.
  destruct (starts_with _ s) eqn:E1; [|done]. case_bool_decide; [|done]. by intros [= <-].
Qed.

Lemma normalize_replacement_ok value r : normalize_replacement value = Ok r -> replacement_ok r.
Proof.
  unfold normalize_replacement. destruct value; try done. destruct (unknown_fields _ _); [done|].
  destruct (get l (u "old")) as [| | | |old| |]; try done. case_bool_decide as Ho; [done|].
  destruct (get l (u "new")); try done. destruct (default _ _); try done.
  destruct (z <? 1) eqn:E; [done|]. intros [= <-]. apply Z.ltb_ge in E. done.
Qed.

Lemma normalize_fields_ok operation relative allowed value op :
  normalize_fields operation relative allowed value = Ok op ->
  strip relative = relative -> relative <> [] -> validate_mod_output_path relative = Ok tt -> op_ok op.
Proof.
  unfold normalize_fields. intros Hn Hs Hne Hv.
  destruct (bool_decide (operation = u "create")).
  { destruct (normalize_content _ _); [|done]. injection Hn as <-. done. }
  destruct (normalize_expected value) as [e|] eqn:Ee; [|done]. apply normalize_expected_ok in Ee. cbn [res_bind] in Hn.
  destruct (bool_decide (operation = u "replace")).
  { destruct (normalize_content _ _); [|done]. injection Hn as <-. done. }
  destruct (unknown_fields _ _); [done|]. destruct (bool_decide (operation = u "edit")); [|by injection Hn as <-].
  destruct (get value _) as [| | | | |[|r rs]|]; try done.
  destruct (res_map_list _ _) as [clean|] eqn:Ec; [|done]. injection Hn as <-. split; [done|]. split; [done|].
  split; [done|]. split; [done|]. apply res_map_list_ok in Ec. split.
  - intros ->. by inversion Ec.
  - clear -Ec. induction Ec as [|x y xs ys Hx Hxs IH]; constructor; [by eapply normalize_replacement_ok|done].
Qed.

Lemma normalize_op_ok v op : _normalize v = Ok op -> op_ok op.
Proof.
  unfold _normalize. destruct v as [| | | | | |fields]; try done. destruct (get fields _) as [| | | |operation| |]; try done.
  destruct (operation_fields operation); [|done]. destruct (get _ (u "path")) as [| | | |relative| |]; try done.
  case_bool_decide as Hne; [done|]. destruct (validate_mod_output_path _) as [[]|] eqn:Hv; [|done].
  intros Hn. apply normalize_fields_ok in Hn; [done|apply strip_idem|done|done].
Qed.

Lemma normalize_replacement_json r : replacement_ok r -> normalize_replacement (replacement_json r) = Ok r.
Proof.
  destruct r as [old new count]. intros [Ho Hc]. cbn [old_text match_count] in *.
  unfold normalize_replacement, replacement_json. cbn [old_text new_text match_count].
  change (unknown_fields _ _) with false.
  change (get _ (u "old")) with (JStr old). change (get _ (u "new")) with (JStr new).
  change (default _ _) with (JInt count). cbn iota. rewrite bool_decide_eq_false_2 by done.
  by rewrite (proj2 (Z.ltb_ge _ _)).
Qed.

Lemma normalize_replacements_json rs :
  Forall replacement_ok rs -> res_map_list normalize_replacement (map replacement_json rs) = Ok rs.
Proof.
  induction 1 as [|r rs Hr Hrs IH]; [done|]. cbn [map res_map_list]. by rewrite normalize_replacement_json, IH.
Qed.

(** What [_normalize] does after the lookups of the name and the path. *)
Lemma normalize_known fields operation allowed relative :
  get fields (u "operation") = JStr operation -> operation_fields operation = Some allowed ->
  get (_canonicalize_known_sibling_fields operation fields) (u "path") = JStr relative ->
  strip relative = relative -> relative <> [] -> validate_mod_output_path relative = Ok tt ->
  _normalize (JObj fields) =
  normalize_fields operation relative allowed (_canonicalize_known_sibling_fields operation fields).
Proof.
  intros Ho Ha Hp Hs Hne Hv. cbn [_normalize]. rewrite Ho, Ha, Hp, Hs.
  by rewrite bool_decide_eq_false_2, Hv.
Qed.

Lemma normalize_expected_json e a b rest :
  expected_ok e ->
  normalize_expected ((u "operation", a) :: (u "path", b) :: (u "expected_sha256", JStr e) :: rest) = Ok e.
Proof.
  intros [He Hl]. unfold normalize_expected. change (get _ (u "expected_sha256")) with (JStr e). cbn iota.
  by rewrite He, bool_decide_eq_true_2.
Qed.

Lemma normalize_op_json op : op_ok op -> _normalize (op_json op) = Ok op.
Proof.
  destruct op as [t c|t e c|t e rs|t e]; intros (Hs & Hne & Hv & Hop); cbn [target] in Hs, Hne, Hv; unfold op_json.
  - erewrite (normalize_known _ (u "create")); [|done..]. reflexivity.
  - erewrite (normalize_known _ (u "replace")); [|done..].
    change (_canonicalize_known_sibling_fields _ _) with
      [(u "operation", JStr (u "replace")); (u "path", JStr t); (u "expected_sha256", JStr e); (u "content", JStr c)].
    unfold normalize_fields. change (bool_decide (u "replace" = u "create")) with false. cbn iota.
    rewrite normalize_expected_json by done. reflexivity.
  - destruct Hop as (He & Hrs & Hall). erewrite (normalize_known _ (u "edit")); [|done..].
    change (_canonicalize_known_sibling_fields _ _) with
      [(u "operation", JStr (u "edit")); (u "path", JStr t); (u "expected_sha256", JStr e);
       (u "replacements", JArr (map replacement_json rs))].
    unfold normalize_fields. change (bool_decide (u "edit" = u "create")) with false. cbn iota.
    rewrite normalize_expected_json by done. cbn [res_bind].
    change (bool_decide (u "edit" = u "replace")) with false. cbn iota.
    change (unknown_fields _ _) with false. cbn iota. change (bool_decide (u "edit" = u "edit")) with true. cbn iota.
    change (get _ (u "replacements")) with (JArr (map replacement_json rs)).
    pose proof (normalize_replacements_json rs Hall) as Hr. destruct rs as [|r rs]; [done|].
    cbn [map] in *. by rewrite Hr.
  - erewrite (normalize_known _ (u "delete")); [|done..].
    change (_canonicalize_known_sibling_fields _ _) with
      [(u "operation", JStr (u "delete")); (u "path", JStr t); (u "expected_sha256", JStr e)].
    unfold normalize_fields. change (bool_decide (u "delete" = u "create")) with false. cbn iota.
    rewrite normalize_expected_json by done. reflexivity.
Qed.

(** C17: the operations that normalisation returns are exactly the well-formed ones: a stripped, non-empty
    path inside the scope of a mod, a digest of 71 characters behind its prefix, and replacements of
    non-empty texts with a positive count; and the dictionary of a normalised operation, which the
    transaction normalises again under its locks, stands for the same operation. *)
Theorem normalize_well_typed op :
  ((exists v, _normalize v = Ok op) <-> op_ok op) /\ (forall v, _normalize v = Ok op -> _normalize (op_json op) = Ok op).
Proof.
  split; [split|].
  - intros [v Hv]. by eapply normalize_op_ok.
  - intros Hop. exists (op_json op). by apply normalize_op_json.
  - intros v Hv. by eapply normalize_op_json, normalize_op_ok.
Qed.

(** ** Edits *)

(** Each replacement takes the text between the leftmost matches of its old text, as many
    as it announces, and joins them with its new text. *)
Inductive edits : pystr -> list replacement -> pystr -> Prop :=
  | edits_nil t : edits t [] t
  | edits_cons t r rs ps t' :
      pieces (old_text r) t ps -> Z.of_nat (length ps) - 1 = match_count r ->
      edits (join (new_text r) ps) rs t' -> edits t (r :: rs) t'.

Lemma apply_replacements_spec rs t t' :
  Forall replacement_ok rs -> apply_replacements t rs = Ok t' <-> edits t rs t'.
Proof.
  intros Hall. revert t. induction Hall as [|r rs [Ho Hc] Hall IH]; intros t; cbn [apply_replacements].
  - split; [intros [= ->]; constructor|by inversion 1].
  - split.
    + destruct (str_count _ _ =? _) eqn:E; [|done]. apply Z.eqb_eq in E. cbn [negb].
      destruct (pieces_exist (old_text r) t Ho) as [ps Hp]. pose proof (str_count_pieces _ _ _ Ho Hp).
      rewrite (str_replace_pieces _ _ _ _ _ Ho Hp), IH by lia. econstructor; [done|lia|done].
    + inversion 1 as [|? ? ? ps ? Hp Hn He]; subst. rewrite (str_count_pieces _ _ _ Ho Hp), Hn, Z.eqb_refl. cbn [negb].
      rewrite (str_replace_pieces _ _ _ _ _ Ho Hp), IH by lia. done.
Qed.

(** An edit of a file succeeds exactly when its bytes are UTF-8 and each replacement, in order, finds
    as many matches as it announces; its result is the text with those matches replaced, the
    leftmost ones that do not overlap. *)
Theorem edit_spec raw rs text :
  Forall replacement_ok rs ->
  _edit raw rs = Ok text <-> exists t, utf8_decode raw = Ok t /\ edits t rs text.
Proof.
  intros Hrs. unfold _edit. destruct (utf8_decode raw) as [t|e]; [|naive_solver].
  rewrite apply_replacements_spec by done. naive_solver.
Qed.

End normal_forms.
