(* ===== verification/PatchTransactions.v ===== *)
(** * PatchTransactions: a transaction of patches happens entirely or not at all *)

From stdpp Require Import prelude gmap sets fin_sets fin_maps strings list.
From S2P Require Import Prelude Text Json JsonStream PyJson Paths ProjectLock ResidualContract TypedResources.
From S2P Require Import ProjectMutation SourcePatch SourcePatchProps.

Open Scope Z_scope.
Open Scope py_scope.

(** The regular files, and the file systems whose entries lie in directories. *)
Definition file_at (fs : filesystem) (p : path) : option bytes :=
  match fs !! p with Some (File data) => Some data | _ => None end.

Definition fs_wf (fs : filesystem) : Prop :=
  map_Forall (fun p _ => Forall (fun q => fs !! q = Some Dir) (parents p)) fs.

Section staging.
Context `{PyFloat} `{PyCasefold}.
Variables (contracts : list ResidualGenerationContract) (fs : filesystem).

(** What staging makes of one operation: the file it names, with its content before and after. *)
Definition staged_by (op : patch_op) (s : staged_file) : Prop :=
  staged_path s = path_parts (target op) /\ read_target fs (staged_path s) = Ok (original s) /\
  exists after, _operation_result op (original s) = Ok after /\ _validate_json_result (target op) after = Ok tt /\
    _validate_residual_contract contracts (target op) (original s) = Ok tt /\
    staged s = _preserve_equivalent_bytes (original s) after.

Definition free_parents (p : path) : Prop := forall q, q ∈ parents p -> fs !! q = None \/ fs !! q = Some Dir.

Definition free_set (validated : gset path) : Prop := forall q, q ∈ validated -> fs !! q = None \/ fs !! q = Some Dir.

Lemma check_parents_spec validated ps out :
  check_parents validated ps fs = Ok out -> free_set validated ->
  free_set out /\ forall q, q ∈ ps -> fs !! q = None \/ fs !! q = Some Dir.
Proof.
  revert validated. induction ps as [|p ps IH]; intros validated; cbn [check_parents].
  - intros [= ->] Hf. split; [done|]. by intros q ?%elem_of_nil.
  - intros Hc Hf. assert (Hp : fs !! p = None \/ fs !! p = Some Dir).
    { case_bool_decide as Hin; [by apply Hf|]. destruct (fs !! p) as [[| |]|]; auto; done. }
    assert (exists v, check_parents v ps fs = Ok out /\ free_set v) as (v & Hv & Hfv).
    { case_bool_decide as Hin; [eauto|]. exists ({[p]} ∪ validated).
      split; [by destruct (fs !! p) as [[| |]|]|]. intros q [->%elem_of_singleton|Hq]%elem_of_union; auto. }
    destruct (IH v Hv Hfv) as [Hout Hps]. split; [done|]. intros q [->|Hq]%elem_of_cons; auto.
Qed.

Lemma stage_one_spec op validated s r validated' :
  _stage_one contracts op validated fs = Ok (s, r, validated') -> free_set validated ->
  staged_by op s /\ free_parents (staged_path s) /\ free_set validated' /\
  r = Receipt (target op) (operation_name op) (option_map sha256_bytes (original s)) (option_map sha256_bytes (staged s)).
Proof.
  intros Hs Hf. unfold _stage_one, _path in Hs. destruct (_ || _); [done|]. case_bool_decide; [done|].
  destruct (check_parents _ _ _) as [v|] eqn:Ec; [|done]. cbn [res_bind] in Hs.
  destruct (negb _ && negb _); [done|]. cbn [res_bind] in Hs.
  destruct (read_target fs _) as [before|] eqn:Er; [|done]. cbn [res_bind] in Hs.
  destruct (_validate_residual_contract _ _ _) as [[]|] eqn:Ev; [|done]. cbn [res_bind] in Hs.
  destruct (_operation_result op before) as [after|] eqn:Eo; [|done]. cbn [res_bind] in Hs.
  destruct (_validate_json_result _ _) as [[]|] eqn:Ej; [|done]. cbn [res_bind] in Hs.
  injection Hs as <- <- <-. destruct (check_parents_spec _ _ _ Ec Hf) as [Hv Hp].
  split; [|split; [exact Hp|by split]]. split; [done|]. split; [done|]. by exists after.
Qed.

(** The staged files, in terms of the operations so far: the last operation on a path decides. *)
Record stage_inv (ops : list patch_op) (files : list staged_file) : Prop := {
  stage_nodup : NoDup (map staged_path files);
  stage_parents s : s ∈ files -> free_parents (staged_path s);
  stage_last s : s ∈ files -> exists l1 op l2, ops = l1 ++ op :: l2 /\ staged_by op s /\
    forall op', op' ∈ l2 -> path_parts (target op') <> staged_path s;
  stage_all op : op ∈ ops -> path_parts (target op) ∈ map staged_path files
}.

Lemma stage_put_paths s l x :
  x ∈ map staged_path (stage_put s l) <-> x = staged_path s \/ x ∈ map staged_path l.
Proof.
  induction l as [|s' l IH]; cbn [stage_put map]; [by rewrite list_elem_of_singleton, elem_of_nil; tauto|].
  case_decide as E; cbn [map]; rewrite !elem_of_cons, ?IH, ?E; tauto.
Qed.

Lemma stage_put_nodup s l : NoDup (map staged_path l) -> NoDup (map staged_path (stage_put s l)).
Proof.
  induction l as [|s' l IH]; cbn [stage_put map]; [intros _; apply NoDup_singleton|].
  rewrite NoDup_cons. intros [Hn Hl]. case_decide as E; cbn [map]; apply NoDup_cons.
  - by rewrite <- E.
  - split; [|auto]. rewrite stage_put_paths. naive_solver.
Qed.

Lemma elem_of_stage_put s l x :
  NoDup (map staged_path l) -> x ∈ stage_put s l -> x = s \/ x ∈ l /\ staged_path x <> staged_path s.
Proof.
  induction l as [|s' l IH]; cbn [stage_put map]; [by intros _ ->%list_elem_of_singleton; left|].
  rewrite NoDup_cons. intros [Hn Hl]. case_decide as E; rewrite elem_of_cons.
  - intros [->|Hx]; [by left|]. right. split; [by right|]. rewrite <- E. intros Hp. apply Hn. rewrite <- Hp.
    by apply list_elem_of_fmap_2.
  - intros [->|Hx]; [right; split; [by left|done]|]. destruct (IH Hl Hx) as [?|[? ?]]; [by left|].
    right. split; [by right|done].
Qed.

Lemma stage_inv_snoc ops files op s :
  stage_inv ops files -> staged_by op s -> free_parents (staged_path s) ->
  stage_inv (ops ++ [op]) (stage_put s files).
Proof.
  intros [Hnd Hpar Hlast Hall] Hby Hfree. pose proof Hby as (Hpath & _). split.
  - by apply stage_put_nodup.
  - intros x Hx. apply elem_of_stage_put in Hx as [->|[Hx _]]; auto.
  - intros x Hx. apply elem_of_stage_put in Hx as [->|[Hx Hne]]; [|..|done].
    + exists ops, op, []. split; [done|]. split; [done|]. by intros ? ?%elem_of_nil.
    + destruct (Hlast x Hx) as (l1 & o & l2 & -> & Ho & Hl2). exists l1, o, (l2 ++ [op]).
      split; [by rewrite <- app_assoc|]. split; [done|]. intros o' [Ho'| ->%list_elem_of_singleton]%elem_of_app; [auto|].
      congruence.
  - intros o [Ho| ->%list_elem_of_singleton]%elem_of_app; rewrite stage_put_paths; [right; auto|left; congruence].
Qed.

Definition receipt_for (op : patch_op) (r : PatchReceipt) : Prop :=
  exists s, staged_by op s /\
  r = Receipt (target op) (operation_name op) (option_map sha256_bytes (original s)) (option_map sha256_bytes (staged s)).

Lemma stage_loop_spec ops validated files receipts out rs done_ops :
  stage_loop contracts ops validated fs files receipts = Ok (out, rs) ->
  free_set validated -> stage_inv done_ops files -> Forall2 receipt_for done_ops receipts ->
  stage_inv (done_ops ++ ops) out /\ Forall2 receipt_for (done_ops ++ ops) rs.
Proof.
  revert validated files receipts done_ops. induction ops as [|op ops IH]; intros validated files receipts done_ops.
  - cbn [stage_loop]. rewrite app_nil_r. intros [= -> ->]. done.
  - cbn [stage_loop]. destruct (_stage_one _ _ _ _) as [[[s r] v]|] eqn:E; [|done]. cbn [res_bind].
    intros Hl Hf Hi Hr. apply stage_one_spec in E as (Hby & Hfree & Hv & ->); [|done].
    replace (done_ops ++ op :: ops) with ((done_ops ++ [op]) ++ ops) by (by rewrite <- app_assoc).
    eapply IH; [exact Hl|done|by apply stage_inv_snoc|]. apply Forall2_app; [done|]. constructor; [|constructor].
    by exists s.
Qed.

Lemma stage_transaction_spec ops files receipts :
  _stage_transaction contracts ops fs = Ok (files, receipts) ->
  stage_inv ops files /\ Forall2 receipt_for ops receipts.
Proof.
  intros Hs. eapply (stage_loop_spec ops ∅ [] [] _ _ []) in Hs; [done|by intros ? ?%elem_of_empty| |constructor].
  split; [constructor|by intros ? ?%elem_of_nil..].
Qed.

End staging.

(** ** Committing *)

Section committing.
Variables (env : environment) (fs0 : filesystem) (ordered : list staged_file).

(** The files to replace: distinct, with their content, in directories that are or can be made. *)
Record ready : Prop := {
  ready_nodup : NoDup (map staged_path ordered);
  ready_original s : s ∈ ordered -> read_target fs0 (staged_path s) = Ok (original s);
  ready_parents s : s ∈ ordered -> free_parents fs0 (staged_path s);
  ready_changed s : s ∈ ordered -> original s <> staged s
}.
Hypothesis Hready : ready.

Record commit_inv (c : commit_state) : Prop := {
  commit_done s : s ∈ ordered -> staged_path s ∈ committed_paths c ->
    files_now c !! staged_path s = File <$> staged s;
  commit_rest p : p ∉ committed_paths c -> file_at (files_now c) p = file_at fs0 p;
  commit_dirs p : fs0 !! p = Some Dir -> files_now c !! p = Some Dir;
  commit_known p : p ∈ committed_paths c -> exists s, s ∈ ordered /\ staged_path s = p
}.

Lemma read_target_file fs p o : read_target fs p = Ok o -> file_at fs p = o /\ fs !! p <> Some Dir.
Proof. unfold read_target, file_at. by destruct (fs !! p) as [[| |[]]|]; intros [= <-]. Qed.

Lemma ready_unique s s' : s ∈ ordered -> s' ∈ ordered -> staged_path s = staged_path s' -> s = s'.
Proof.
  pose proof (ready_nodup Hready) as Hnd. clear Hready. induction ordered as [|x l IH]; [by intros ?%elem_of_nil|].
  cbn [map] in Hnd. apply NoDup_cons in Hnd as [Hx Hnd]. specialize (IH Hnd).
  intros [->|Hs]%elem_of_cons [->|Hs']%elem_of_cons Hp; try done; [..|auto];
    exfalso; apply Hx; [rewrite Hp|rewrite <- Hp]; by apply list_elem_of_fmap_2.
Qed.

(** Making directories changes no entry that exists. *)
Lemma make_parents_spec ps fs fs' ok :
  make_parents ps fs = (fs', ok) ->
  (forall p, fs' !! p = fs !! p \/ fs !! p = None /\ p ∈ ps /\ fs' !! p = Some Dir).
Proof.
  revert fs. induction ps as [|q ps IH]; intros fs; cbn [make_parents]; [intros [= <- <-]; auto|].
  destruct (fs !! q) as [[| |]|] eqn:Eq; [by intros [= <- <-]; auto| |by intros [= <- <-]; auto|]; intros Hm p.
  - destruct (IH _ Hm p) as [?|(? & ? & ?)]; [auto|]. right. by rewrite elem_of_cons; auto.
  - destruct (IH _ Hm p) as [Hp|(Hp & ? & ?)]; destruct (decide (p = q)) as [->|Hne];
      rewrite ?lookup_insert_eq, ?lookup_insert_ne in Hp by done; try done; [|by auto|];
      right; rewrite elem_of_cons; auto.
Qed.

Lemma make_parents_dirs ps fs : (forall q, q ∈ ps -> fs !! q = Some Dir) -> make_parents ps fs = (fs, true).
Proof.
  induction ps as [|q ps IH]; intros Hq; cbn [make_parents]; [done|].
  rewrite (Hq q) by left. apply IH. intros. apply Hq. by right.
Qed.

Lemma make_parents_file_at ps fs fs' ok p : make_parents ps fs = (fs', ok) -> file_at fs' p = file_at fs p.
Proof. intros Hm. unfold file_at. destruct (make_parents_spec _ _ _ _ Hm p) as [->|(-> & _ & ->)]; done. Qed.

Lemma file_at_insert fs p q data : file_at (<[p := File data]> fs) q = if decide (q = p) then Some data else file_at fs q.
Proof. unfold file_at. case_decide as E; [subst; by rewrite lookup_insert_eq|by rewrite lookup_insert_ne by congruence]. Qed.

Lemma file_at_delete fs p q : file_at (delete p fs) q = if decide (q = p) then None else file_at fs q.
Proof. unfold file_at. case_decide as E; [subst; by rewrite lookup_delete_eq|by rewrite lookup_delete_ne by congruence]. Qed.

(** What one call does to the files: all of it, or nothing. *)
Lemma commit_path_spec f p after fs fs' ok :
  _commit_staged_path f p after fs = (fs', ok) ->
  (ok = true -> fs' !! p = File <$> after /\ f = NoFault) /\
  (forall q, q <> p \/ ok = false -> fs' !! q = fs !! q \/ fs !! q = None /\ q ∈ parents p /\ fs' !! q = Some Dir /\ after <> None).
Proof.
  unfold _commit_staged_path. destruct f, after as [data|]; try (by intros [= <- <-]; split; [done|auto]).
  - destruct (make_parents (parents p) fs) as [fs1 made] eqn:Em. pose proof (make_parents_spec _ _ _ _ Em) as Hp.
    assert (Hsame : forall q, fs1 !! q = fs !! q \/ fs !! q = None /\ q ∈ parents p /\ fs1 !! q = Some Dir /\ Some data <> None).
    { intros q. destruct (Hp q) as [?|(? & ? & ?)]; auto. }
    destruct made; [|by intros [= <- <-]; split; [done|auto]].
    destruct (fs1 !! p) as [[| |]|]; intros [= <- <-]; (split; [done || by rewrite lookup_insert_eq|]);
      intros q Hq; try apply Hsame; (rewrite lookup_insert_ne by (destruct Hq; congruence); apply Hsame).
  - destruct (fs !! p) as [[| |]|]; intros [= <- <-]; (split; [done || by rewrite lookup_delete_eq|]);
      intros q Hq; auto; left; rewrite lookup_delete_ne by (destruct Hq; congruence); done.
  - destruct (make_parents (parents p) fs) as [fs1 made] eqn:Em. pose proof (make_parents_spec _ _ _ _ Em) as Hp.
    intros Heq. assert (fs' = fs1 /\ ok = false) as [-> ->] 
      by (destruct made; [destruct (fs1 !! p) as [[| |]|]|]; by injection Heq as <- <-).
    split; [done|]. intros q _. destruct (Hp q) as [?|(? & ? & ?)]; auto.
Qed.

Lemma commit_one_inv c s :
  s ∈ ordered -> staged_path s ∉ committed_paths c -> commit_inv c -> commit_inv (commit_one env s c).
Proof.
  intros Hs Hnew [Hdone Hrest Hdirs Hknown]. unfold commit_one.
  destruct (_commit_staged_path _ _ _ _) as [fs' ok] eqn:E. apply commit_path_spec in E as [Hok Hothers].
  assert (Hpar : forall q, q ∈ parents (staged_path s) -> fs0 !! q = None \/ fs0 !! q = Some Dir)
    by (intros q; apply (ready_parents Hready s Hs)).
  assert (Htarget : file_at fs0 (staged_path s) = original s /\ fs0 !! staged_path s <> Some Dir)
    by apply read_target_file, (ready_original Hready), Hs.
  (* an entry that appeared on the way to [s] is no file of the transaction *)
  assert (Hkeep : forall q, q <> staged_path s \/ ok = false -> q ∈ committed_paths c -> fs' !! q = files_now c !! q).
  { intros q Hq Hin. destruct (Hothers q Hq) as [?|(Hnone & Hparent & _)]; [done|]. exfalso.
    destruct (Hknown q Hin) as (d & Hd & <-). rewrite (Hdone d Hd Hin) in Hnone.
    pose proof (ready_changed Hready d Hd). pose proof (ready_original Hready d Hd) as Ho.
    apply read_target_file in Ho as [Ho _]. unfold file_at in Ho.
    destruct (staged d); [done|]. destruct (Hpar _ Hparent) as [E|E]; rewrite E in Ho; congruence. }
  assert (Hfiles : forall q, q <> staged_path s \/ ok = false -> file_at fs' q = file_at (files_now c) q).
  { intros q Hq. unfold file_at. destruct (Hothers q Hq) as [->|(-> & _ & -> & _)]; done. }
  assert (Hd : forall q, fs0 !! q = Some Dir -> fs' !! q = Some Dir).
  { intros q Hq. assert (q <> staged_path s) by (intros ->; tauto).
    destruct (Hothers q ltac:(auto)) as [->|(_ & _ & ? & _)]; auto. }
  destruct ok; cbn [files_now committed_paths].
  - destruct (Hok eq_refl) as [Hp _]. split; cbn [files_now committed_paths].
    + intros d Hdin [Heq|Hin]%elem_of_cons; [by rewrite (ready_unique d s)|].
      rewrite Hkeep; [by apply Hdone| |done]. left. by intros Heq; rewrite Heq in Hin.
    + intros q Hq. rewrite elem_of_cons in Hq. rewrite Hfiles by (left; tauto). apply Hrest. tauto.
    + done.
    + intros q [->|Hq]%elem_of_cons; eauto.
  - split; cbn [files_now committed_paths]; [|..|done|done].
    + intros d Hdin Hin. rewrite Hkeep by auto. auto.
    + intros q Hq. rewrite Hfiles by auto. auto.
Qed.

Lemma commit_one_outcome c s :
  (committed_paths (commit_one env s c) = staged_path s :: committed_paths c /\
   failed_paths (commit_one env s c) = failed_paths c /\ commit_fault env (staged_path s) = NoFault) \/
  (committed_paths (commit_one env s c) = committed_paths c /\
   failed_paths (commit_one env s c) = staged_path s :: failed_paths c).
Proof.
  unfold commit_one. destruct (_commit_staged_path _ _ _ _) as [fs ok] eqn:E. apply commit_path_spec in E as [Hok _].
  destruct ok; [left|by right]. cbn. destruct (Hok eq_refl). auto.
Qed.

(** Both ways to commit keep the invariant, and when nothing failed all was committed. *)
Definition committing (l : list staged_file) (c c' : commit_state) : Prop :=
  commit_inv c' /\ (failed_paths c' = [] -> forall p, p ∈ committed_paths c' <-> p ∈ committed_paths c \/ p ∈ map staged_path l).

Lemma serial_commit_spec l c :
  (forall s, s ∈ l -> s ∈ ordered /\ staged_path s ∉ committed_paths c) -> NoDup (map staged_path l) ->
  commit_inv c -> failed_paths c = [] -> committing l c (_serial_commit env l c).
Proof.
  revert c. induction l as [|s l IH]; intros c Hl Hnd Hc Hf; cbn [_serial_commit].
  { split; [done|]. intros _ p. cbn [map]. rewrite elem_of_nil. tauto. }
  cbn [map] in Hnd. apply NoDup_cons in Hnd as [Hs Hnd]. destruct (Hl s ltac:(left)) as [Hin Hnew].
  pose proof (commit_one_inv c s Hin Hnew Hc) as Hc1.
  destruct (commit_one_outcome c s) as [(Hcp & Hfp & _)|(Hcp & Hfp)]; rewrite Hfp; [|].
  - rewrite Hf. destruct (IH (commit_one env s c)) as [Hi Hall]; [|done|done|congruence|].
    + intros x Hx. destruct (Hl x ltac:(by right)) as [? Hxn]. split; [done|]. rewrite Hcp, elem_of_cons.
      intros [Heq|?]; [|done]. apply Hs. rewrite <- Heq. by apply list_elem_of_fmap_2.
    + split; [done|]. intros Hz p. rewrite Hall, Hcp by done. cbn [map]. rewrite !elem_of_cons. tauto.
  - split; [done|]. rewrite Hfp. done.
Qed.

Lemma commit_fold_spec l c :
  (forall s, s ∈ l -> s ∈ ordered /\ staged_path s ∉ committed_paths c) -> NoDup (map staged_path l) ->
  commit_inv c -> committing l c (fold_left (fun c s => commit_one env s c) l c) /\
  (failed_paths c <> [] -> failed_paths (fold_left (fun c s => commit_one env s c) l c) <> []).
Proof.
  revert c. induction l as [|s l IH]; intros c Hl Hnd Hc; cbn [fold_left].
  { split; [|done]. split; [done|]. intros _ p. cbn [map]. rewrite elem_of_nil. tauto. }
  cbn [map] in Hnd. apply NoDup_cons in Hnd as [Hs Hnd]. destruct (Hl s ltac:(left)) as [Hin Hnew].
  pose proof (commit_one_inv c s Hin Hnew Hc) as Hc1.
  destruct (IH (commit_one env s c)) as [[Hi Hall] Hfail]; [|done|done|].
  { intros x Hx. destruct (Hl x ltac:(by right)) as [? Hxn]. split; [done|].
    destruct (commit_one_outcome c s) as [(-> & _)|(-> & _)]; [|done]. rewrite elem_of_cons.
    intros [Heq|?]; [|done]. apply Hs. rewrite <- Heq. by apply list_elem_of_fmap_2. }
  destruct (commit_one_outcome c s) as [(Hcp & Hfp & _)|(Hcp & Hfp)].
  - rewrite Hfp in Hfail. split; [|done]. split; [done|]. intros Hz p. rewrite Hall, Hcp by done.
    cbn [map]. rewrite !elem_of_cons. tauto.
  - assert (Hne : failed_paths (commit_one env s c) <> []) by by rewrite Hfp.
    split; [|by intros _; apply Hfail]. split; [done|]. intros Hz. by destruct (Hfail Hne).
Qed.

Lemma start_inv : commit_inv (CommitState fs0 [] []).
Proof. split; cbn; [by intros ? ? ?%elem_of_nil|done|done|by intros ? ?%elem_of_nil]. Qed.

Lemma commit_transaction_spec `{PyUnicode} `{PyFloat} pool c pool' :
  (forall l, completion env l ≡ₚ l) ->
  _commit_transaction env pool ordered fs0 = Ok (c, pool') ->
  committing ordered (CommitState fs0 [] []) c.
Proof.
  intros Hperm. assert (Hnew : forall s, s ∈ ordered -> s ∈ ordered /\ staged_path s ∉ ([] : list path)).
  { intros s Hs. split; [done|]. by intros ?%elem_of_nil. }
  unfold _commit_transaction. destruct (_ <=? 1).
  - intros [= <- _]. apply serial_commit_spec; [exact Hnew|apply Hready|apply start_inv|done].
  - destruct (_shared_commit_pool env pool) as [n|]; [|done]. cbn [res_bind]. intros [= <- _].
    unfold _parallel_commit. destruct (commit_fold_spec (completion env ordered) (CommitState fs0 [] [])) as [[Hi Hall] _].
    + intros s. rewrite Hperm. apply Hnew.
    + rewrite (fmap_Permutation staged_path _ _ (Hperm ordered)). apply Hready.
    + apply start_inv.
    + split; [done|]. intros Hz p. rewrite (Hall Hz p).
      by rewrite (fmap_Permutation staged_path _ _ (Hperm ordered)).
Qed.

(** ** Rolling back *)

Lemma restore_one_spec s fs fs' ok :
  restore_one env s fs = (fs', ok) ->
  (forall p, p <> staged_path s -> file_at fs' p = file_at fs p) /\
  (ok = true -> file_at fs' (staged_path s) = original s).
Proof.
  unfold restore_one. destruct (original s) as [data|] eqn:Eo.
  - destruct (make_parents _ fs) as [fs1 made] eqn:Em.
    pose proof (fun p => make_parents_file_at _ _ _ _ p Em) as Hf.
    destruct made, (rollback_fault env (staged_path s)) as [[partial|]|]; try destruct (fs1 !! staged_path s) as [[| |]|];
      intros [= <- <-]; (split; [intros p Hp|]); rewrite ?file_at_insert;
      try (rewrite decide_False by done); try (rewrite decide_True by done); auto; done.
  - destruct (exists_at fs _) eqn:Ee.
    + destruct (rollback_fault env (staged_path s)); [by intros [= <- <-]|].
      destruct (fs !! staged_path s) as [[| |]|]; intros [= <- <-]; (split; [intros p Hp|]);
        rewrite ?file_at_delete; try (rewrite decide_False by done); try (rewrite decide_True by done); auto; done.
    + intros [= <- <-]. split; [done|]. intros _. unfold exists_at in Ee. unfold file_at.
      by destruct (fs !! staged_path s) as [[| |[]]|].
Qed.

Lemma rollback_complete l fs fs' :
  NoDup (map staged_path l) -> _rollback_committed env l fs = (fs', true) ->
  (forall s, s ∈ l -> file_at fs' (staged_path s) = original s) /\
  (forall p, p ∉ map staged_path l -> file_at fs' p = file_at fs p).
Proof.
  revert fs. induction l as [|s l IH]; intros fs Hnd; cbn [_rollback_committed].
  { intros [= <-]. split; [by intros ? ?%elem_of_nil|done]. }
  cbn [map] in *. apply NoDup_cons in Hnd as [Hs Hnd].
  destruct (restore_one env s fs) as [fs1 ok] eqn:E1. destruct (_rollback_committed env l fs1) as [fs2 rest] eqn:E2.
  intros [= <- Hok]. apply andb_true_iff in Hok as [-> ->].
  destruct (IH _ Hnd E2) as [Hl Hrest]. destruct (restore_one_spec _ _ _ _ E1) as [Hother Hsame]. split.
  - intros x [->|Hx]%elem_of_cons; [|auto]. rewrite Hrest by done. auto.
  - intros p Hp. rewrite elem_of_cons in Hp. rewrite Hrest, Hother by tauto. done.
Qed.

(** Without a fault every restoration succeeds: the directories are still there. *)
Lemma rollback_succeeds l fs :
  fs_wf fs0 -> (forall p, fs0 !! p = Some Dir -> fs !! p = Some Dir) -> NoDup (map staged_path l) ->
  (forall s, s ∈ l -> s ∈ ordered /\ fs !! staged_path s <> Some Dir /\ rollback_fault env (staged_path s) = None) ->
  (_rollback_committed env l fs).2 = true.
Proof.
  intros Hwf. revert fs. induction l as [|s l IH]; intros fs Hdirs Hnd Hl; [done|]. cbn [_rollback_committed].
  cbn [map] in Hnd. apply NoDup_cons in Hnd as [Hs Hnd]. destruct (Hl s ltac:(left)) as (Hin & Hdir & Hfault).
  assert (exists fs1, restore_one env s fs = (fs1, true) /\ forall q, q <> staged_path s -> fs1 !! q = fs !! q)
    as (fs1 & -> & Hsame).
  { pose proof (ready_original Hready s Hin) as Ho. unfold restore_one. rewrite Hfault.
    destruct (original s) as [data|] eqn:Eo.
    - apply read_target_file in Ho as [Ho _]. unfold file_at in Ho.
      destruct (fs0 !! staged_path s) as [e|] eqn:Ef; [|done].
      rewrite make_parents_dirs by (intros q Hq; apply Hdirs; by apply (proj1 (Forall_forall _ _) (Hwf _ _ Ef))).
      destruct (fs !! staged_path s) as [[| |]|]; try done; eexists; (split; [done|]); intros q Hq; by rewrite lookup_insert_ne.
    - destruct (exists_at fs _); [|by eauto].
      destruct (fs !! staged_path s) as [[| |]|]; try done; eexists; (split; [done|]); intros q Hq; by rewrite lookup_delete_ne. }
  destruct (_rollback_committed env l fs1) as [fs2 rest] eqn:E2. cbn [snd andb].
  change rest with (fs2, rest).2. rewrite <- E2. apply IH; [|done|].
  - intros p Hp. rewrite Hsame; [auto|]. intros ->.
    apply (ready_original Hready), read_target_file in Hin as [_ Hin]. done.
  - intros x Hx. destruct (Hl x ltac:(by right)) as (? & ? & ?). split; [done|]. split; [|done].
    rewrite Hsame; [done|]. intros Heq. apply Hs. rewrite <- Heq. by apply list_elem_of_fmap_2.
Qed.

Lemma commit_failure_spec c outcome fs :
  fs_wf fs0 -> committing ordered (CommitState fs0 [] []) c ->
  _raise_commit_failure env ordered c = (outcome, fs) ->
  match outcome with
  | Ok _ => (forall s, s ∈ ordered -> file_at fs (staged_path s) = staged s) /\
            (forall p, p ∉ map staged_path ordered -> file_at fs p = file_at fs0 p)
  | Err e => (exists why, e = SourcePatchError rolled_back why) /\ (forall p, file_at fs p = file_at fs0 p) \/
             (exists why, e = SourcePatchError uncertain why) /\ (exists p, rollback_fault env p <> None)
  end.
Proof.
  intros Hwf [Hc Hall] Hr. unfold _raise_commit_failure in Hr. destruct (failed_paths c) as [|f fl].
  - injection Hr as <- <-. specialize (Hall eq_refl). cbn [committed_paths] in Hall. split.
    + intros s Hs. unfold file_at. rewrite (commit_done _ Hc s Hs); [by destruct (staged s)|].
      apply Hall. right. by apply list_elem_of_fmap_2.
    + intros p Hp. apply (commit_rest _ Hc). rewrite Hall, elem_of_nil. tauto.
  - set (l := reverse _) in Hr. assert (Hl : forall s, s ∈ l <-> s ∈ ordered /\ staged_path s ∈ committed_paths c).
    { intros s. unfold l. rewrite elem_of_reverse, list_elem_of_filter. tauto. }
    assert (Hnd : NoDup (map staged_path l)).
    { unfold l. rewrite (fmap_Permutation staged_path _ _ (reverse_Permutation _)).
      eapply sublist_NoDup; [apply (ready_nodup Hready)|]. apply fmap_sublist, sublist_filter. }
    destruct (_rollback_committed env l (files_now c)) as [fs1 complete] eqn:Er. injection Hr as <- <-.
    destruct complete.
    + left. split; [by eexists|]. destruct (rollback_complete _ _ _ Hnd Er) as [Hback Hrest]. intros p.
      destruct (decide (p ∈ map staged_path l)) as [Hp|Hp].
      * apply list_elem_of_fmap in Hp as (s & -> & Hs). rewrite Hback by done. apply Hl in Hs as [Hs _].
        apply (ready_original Hready), read_target_file in Hs as [Hs _]. done.
      * rewrite Hrest by done. apply (commit_rest _ Hc). intros Hin. apply Hp.
        destruct (commit_known _ Hc p Hin) as (s & Hs & <-). apply list_elem_of_fmap_2. by apply Hl.
    + right. split; [by eexists|].
      destruct (decide (Exists (fun s => rollback_fault env (staged_path s) <> None) l)) as [Hex|Hno].
      { apply Exists_exists in Hex as (s & _ & Hs). eauto. }
      exfalso. pose proof (rollback_succeeds l (files_now c) Hwf (commit_dirs _ Hc) Hnd) as Hsucc.
      rewrite Er in Hsucc. cbn [snd] in Hsucc. enough (false = true) by done. apply Hsucc.
      intros s Hs. pose proof (proj1 (Hl s) Hs) as [Hin Hcs]. split; [done|]. split.
      * rewrite (commit_done _ Hc s Hin Hcs). by destruct (staged s).
      * destruct (rollback_fault env (staged_path s)) eqn:Ef; [|done]. exfalso. apply Hno.
        apply Exists_exists. exists s. split; [done|]. by rewrite Ef.
Qed.

End committing.

(** ** Transactions *)

Section transactions.
Context `{PyFloat} `{PyCasefold} `{PyUnicode}.

(** The normalised operations of a transaction normalise to themselves. *)
Lemma normalized_again operations ops :
  _normalized_transaction operations = Ok ops -> _normalized_transaction (map op_json ops) = Ok ops.
Proof.
  unfold _normalized_transaction. destruct (res_map_list _normalize operations) as [n|] eqn:En; [|done]. cbn [res_bind].
  intros Hn. assert (n = ops) as ->.
  { destruct n; [done|]. destruct (negb _); [done|]. by injection Hn. }
  assert (res_map_list _normalize (map op_json ops) = Ok ops) as ->; [|done].
  apply res_map_list_ok in En. clear Hn. induction En as [|x y xs ys Hx Hxs IH]; [done|]. cbn [map res_map_list].
  rewrite (normalize_op_json y) by (by eapply normalize_op_ok). cbn [res_bind]. by rewrite IH.
Qed.

(** The file of an operation has become what the operation makes of its content. *)
Definition applied_to (op : patch_op) (before after : filesystem) : Prop :=
  let p := path_parts (target op) in
  exists result, _operation_result op (file_at before p) = Ok result /\
    file_at after p = _preserve_equivalent_bytes (file_at before p) result.

(** What a committed transaction makes of the files: a file that operations name becomes what the last
    of them makes of its content; the other files stay. *)
Definition transforms (ops : list patch_op) (before after : filesystem) : Prop :=
  forall p,
    (exists l1 op l2, ops = l1 ++ op :: l2 /\ path_parts (target op) = p /\
       (forall op', op' ∈ l2 -> path_parts (target op') <> p) /\ applied_to op before after) \/
    (forall op, op ∈ ops -> path_parts (target op) <> p) /\ file_at after p = file_at before p.

(** No other operation names the file of [op], in this spelling or in another. *)
Definition names_alone (ops : list patch_op) (op : patch_op) : Prop :=
  forall op', op' ∈ ops -> path_parts (target op') = path_parts (target op) -> op' = op.

Lemma distinct_alone ops op :
  NoDup (map (fun op => path_parts (target op)) ops) -> op ∈ ops -> names_alone ops op.
Proof.
  intros Hnd Hop op' Hop' Hp. apply list_elem_of_lookup in Hop as [i Hi], Hop' as [j Hj].
  assert (j = i) as ->; [|congruence].
  eapply (NoDup_lookup _ j i (path_parts (target op)) Hnd); rewrite list_lookup_fmap; [rewrite Hj|by rewrite Hi].
  simpl. by rewrite Hp.
Qed.

Lemma transforms_alone ops before after op :
  transforms ops before after -> op ∈ ops -> names_alone ops op -> applied_to op before after.
Proof.
  intros Ht Hop Hone. destruct (Ht (path_parts (target op))) as [(l1 & op' & l2 & Hops & Hp & _ & Ha)|[Hno _]].
  - rewrite (Hone op') in Ha; [done| |done]. rewrite Hops. set_solver.
  - by destruct (Hno op Hop).
Qed.

Lemma changed_ready contracts fs ops files :
  stage_inv contracts fs ops files -> ready fs (_changed_staged_paths files).
Proof.
  intros [Hnd Hpar Hlast Hall]. unfold _changed_staged_paths. split.
  - eapply sublist_NoDup; [exact Hnd|]. apply fmap_sublist, sublist_filter.
  - intros s [_ Hs]%list_elem_of_filter. destruct (Hlast s Hs) as (? & ? & ? & _ & (_ & ? & _) & _). done.
  - intros s [_ Hs]%list_elem_of_filter. auto.
  - by intros s [? _]%list_elem_of_filter.
Qed.

Lemma committed_transforms contracts fs ops files fs' :
  stage_inv contracts fs ops files ->
  (forall s, s ∈ _changed_staged_paths files -> file_at fs' (staged_path s) = staged s) ->
  (forall p, p ∉ map staged_path (_changed_staged_paths files) -> file_at fs' p = file_at fs p) ->
  transforms ops fs fs'.
Proof.
  intros [Hnd Hpar Hlast Hall] Hdone Hrest p. destruct (decide (p ∈ map staged_path files)) as [Hp|Hp].
  - left. apply list_elem_of_fmap in Hp as (s & -> & Hs).
    destruct (Hlast s Hs) as (l1 & op & l2 & -> & (Hpath & Hread & after & Hop & _ & _ & Hst) & Hl2).
    apply read_target_file in Hread as [Hread _].
    exists l1, op, l2. split; [done|]. split; [done|]. split; [done|]. exists after. cbv zeta. rewrite <- Hpath, Hread.
    split; [done|]. rewrite <- Hst. destruct (decide (original s = staged s)) as [Heq|Hne].
    + rewrite Hrest, Hread; [done|]. intros (s' & Hpp & [Hd Hs']%list_elem_of_filter)%list_elem_of_fmap.
      destruct (Hlast s' Hs') as (? & ? & ? & _ & (_ & Hr & _) & _). apply read_target_file in Hr as [Hr _].
      apply Hd. assert (s' = s) as ->; [|done]. clear -Hnd Hs Hs' Hpp.
      induction files as [|x l IH]; [by apply elem_of_nil in Hs|]. cbn [map] in Hnd. apply NoDup_cons in Hnd as [Hx Hnd].
      apply elem_of_cons in Hs as [->|Hs], Hs' as [->|Hs']; try done; [..|auto];
        exfalso; apply Hx; [rewrite Hpp|rewrite <- Hpp]; by apply list_elem_of_fmap_2.
    + apply Hdone. unfold _changed_staged_paths. by apply list_elem_of_filter.
  - right. split.
    + intros op Hop <-. apply Hp. by apply Hall.
    + apply Hrest. intros (s & -> & [_ Hs]%list_elem_of_filter)%list_elem_of_fmap. apply Hp. by apply list_elem_of_fmap_2.
Qed.

(** C16: a transaction that returns has made of each file that its operations name what the last of
    them makes of the content the file had before, and has changed no other file; so every operation that
    names its file alone, in whatever spelling, is applied.  It has one receipt for each operation and the
    changes committed to the owner of the project.  One that raises has left every file as it was, unless
    it says that the state is uncertain, which it says only when the operating system refused to put a
    file back.  (Two operations on one file that spell its path in two ways are both reported.) *)
Theorem apply_atomic env w operations outcome w' :
  fs_wf (files w) -> (forall l, completion env l ≡ₚ l) -> apply env w operations = (outcome, w') ->
  match outcome with
  | Ok r =>
      exists ops, _normalized_transaction operations = Ok ops /\ transforms ops (files w) (files w') /\
        (forall op, op ∈ ops -> names_alone ops op -> applied_to op (files w) (files w')) /\
        Forall2 (receipt_for (residual_contracts env) (files w)) ops (operation_receipts r) /\
        owner w' = (committed (map file_change (operation_receipts r)) (owner w)).2
  | Err e =>
      (forall p, file_at (files w') p = file_at (files w) p) \/
      (exists why, e = SourcePatchError uncertain why) /\ owner_id (owner w') = fresh_id env /\
        exists p, rollback_fault env p <> None
  end.
Proof.
  intros Hwf Hperm. unfold apply.
  destruct (_normalized_transaction operations) as [ops|] eqn:En; cbn [res_bind]; [|intros [= <- <-]; by left].
  destruct (res_map_list _path_key _); cbn [res_bind]; [|intros [= <- <-]; by left].
  unfold _apply_locked. rewrite (normalized_again _ _ En). cbn [res_bind].
  assert (Hkeep : forall e w1, files (_invalidate_on_uncertain_state env e w1) = files w1).
  { intros e w1. unfold _invalidate_on_uncertain_state. repeat case_goal; done. }
  destruct (_stage_transaction _ _ _) as [[staged receipts]|] eqn:Es; cbn [res_bind];
    [|intros [= <- <-]; left; by rewrite Hkeep].
  destruct (_commit_transaction _ _ _ _) as [[c pool1]|] eqn:Ec; cbn [res_bind];
    [|intros [= <- <-]; left; by rewrite Hkeep].
  apply stage_transaction_spec in Es as [Hst Hrec]. pose proof (changed_ready _ _ _ _ Hst) as Hready.
  apply (commit_transaction_spec _ _ _ Hready) in Ec; [|done].
  destruct (_raise_commit_failure _ _ _) as [out fs'] eqn:Er.
  apply (commit_failure_spec _ _ _ Hready _ _ _ Hwf Ec) in Er. destruct out as [[]|e].
  - destruct (_receipt receipts (owner w)) as [r o] eqn:Erc. intros [= <- <-].
    unfold _receipt in Erc. destruct (committed _ _) as [cs o'] eqn:Eo. injection Erc as <- <-.
    assert (transforms ops (files w) fs') as Ht by (by eapply committed_transforms; [exact Hst|apply Er..]).
    exists ops. split; [done|]. split; [exact Ht|]. split; [intros op Hop; by eapply transforms_alone|].
    split; [done|]. cbn [owner operation_receipts]. by rewrite Eo.
  - intros [= <- <-]. rewrite Hkeep. destruct Er as [[_ Hsame]|[[why ->] Hf]]; [by left|right].
    split; [by eexists|]. by split.
Qed.

End transactions.
