(* ===== verification/PatchExamples.v ===== *)
(** * PatchExamples: patches of a small project *)

From stdpp Require Import prelude gmap strings list.
From S2P Require Import Prelude Text Json JsonStream PyJson Paths Replace ResidualContract.
From S2P Require Import TypedResources ProjectMutation SourcePatch SourcePatchProps.
From S2P Require Import PatchTransactions JsonExamples LedgerExamples.

Open Scope Z_scope.
Open Scope py_scope.

#[export] Instance ascii_PyCasefold : PyCasefold := {| fold_other := fun c => [c] |}.

Definition main_java : bytes := u "class Main { Main() {} }".
Definition notes : bytes := u "one" ++ [13; 10] ++ u "two" ++ [13; 10].

Definition project_files : filesystem :=
  list_to_map [([u "src"], Dir); ([u "src"; u "Main.java"], File main_java); ([u "notes.txt"], File notes)].

Definition start : world := World project_files (new_owner (u "/mod") (u "first")) None.

(** A pool of four that finishes in reverse; the replacement of [broken] fails. *)
Definition system (broken : list path) : environment :=
  Environment (u "/mod") [] (u "4") [] None (fun l => reverse l)
    (fun p => if decide (p ∈ broken) then FailsAfterParents else NoFault) (fun _ => None) (u "second").

Definition field (k : string) (v : json) : pystr * json := (u k, v).

Definition rename_main : json :=
  JObj [field "operation" (JStr (u "edit")); field "path" (JStr (u " src/Main.java "));
        field "expected_sha256" (JStr (sha256_bytes main_java)); field "content" JNull;
        field "replacements" (JArr [JObj [field "old" (JStr (u "Main")); field "new" (JStr (u "Lamp")); field "count" (JInt 2)]])].

Definition create (path content : string) : json :=
  JObj [field "operation" (JStr (u "create")); field "path" (JStr (u path)); field "content" (JStr (u content))].

Definition lamp_transaction : list json := [rename_main; create "src/client/Glow.java" "class Glow {}"].

Lemma lamp_applied :
  let w := (apply (system []) start lamp_transaction).2 in
  files w !! [u "src"; u "Main.java"] = Some (File (u "class Lamp { Lamp() {} }")) /\
  files w !! [u "src"; u "client"; u "Glow.java"] = Some (File (u "class Glow {}")) /\
  owner_revision (owner w) = 1.
Proof. vm_compute. repeat split. Qed.

(** The second file cannot be written: the first is put back, and an empty directory stays. *)
Lemma lamp_rolled_back :
  let '(outcome, w) := apply (system [[u "src"; u "client"; u "Glow.java"]]) start lamp_transaction in
  outcome = Err (SourcePatchError rolled_back "Patch transaction rolled back") /\
  files w !! [u "src"; u "client"] = Some Dir /\ files w !! [u "src"; u "client"; u "Glow.java"] = None /\
  files w !! [u "src"; u "Main.java"] = Some (File main_java) /\
  owner_revision (owner w) = 0.
Proof. vm_compute. repeat split. Qed.

Lemma project_wf : fs_wf project_files.
Proof. apply (bool_decide_unpack _). vm_compute. exact I. Qed.

Lemma apply_atomic_witness :
  exists ops, _normalized_transaction lamp_transaction = Ok ops /\ length ops = 2%nat /\
    transforms ops project_files (files (apply (system []) start lamp_transaction).2) /\
    forall op, op ∈ ops -> applied_to op project_files (files (apply (system []) start lamp_transaction).2).
Proof.
  pose proof (apply_atomic (system []) start lamp_transaction (apply (system []) start lamp_transaction).1
    (apply (system []) start lamp_transaction).2 project_wf (fun l => reverse_Permutation l) (surjective_pairing _)) as Ha.
  assert (Hok : is_ok (apply (system []) start lamp_transaction).1 = true) by (vm_compute; reflexivity).
  destruct (apply (system []) start lamp_transaction).1 as [r|e]; [|discriminate Hok].
  destruct Ha as (ops & Hn & Ht & Happ & _). exists ops. split; [exact Hn|].
  assert (Hd : ok_with (fun ops => bool_decide (NoDup (map (fun op => path_parts (target op)) ops)) &&
    (length ops =? 2)%nat) (_normalized_transaction lamp_transaction) = true) by (vm_compute; reflexivity).
  rewrite Hn in Hd. simpl in Hd. apply andb_true_iff in Hd as [Hnd Hlen].
  split; [by apply Nat.eqb_eq|]. split; [exact Ht|]. intros op Hop. apply Happ; [exact Hop|].
  apply distinct_alone; [by apply bool_decide_eq_true in Hnd|exact Hop].
Defined.

Lemma edit_spec_witness :
  exists t, utf8_decode main_java = Ok t /\ edits t [Replacement (u "Main") (u "Lamp") 2] (u "class Lamp { Lamp() {} }").
Proof.
  apply (edit_spec main_java [Replacement (u "Main") (u "Lamp") 2]).
  - constructor; [|constructor]. split; [discriminate|vm_compute; discriminate].
  - vm_compute. reflexivity.
Defined.

(** One path can be written twice in a transaction when it is spelled in two ways: both operations
    are reported, with the digests of their own contents, and the file has the second content. *)
Theorem alias_written_twice :
  let '(outcome, w) := apply (system []) start [create "src/a.txt" "one"; create "src/./a.txt" "two"] in
  (exists r, outcome = Ok r /\ changed_paths r = [u "src/a.txt"; u "src/./a.txt"] /\
     map receipt_after (operation_receipts r) = [Some (sha256_bytes (u "one")); Some (sha256_bytes (u "two"))]) /\
  file_at (files w) [u "src"; u "a.txt"] = Some (u "two").
Proof. vm_compute. split; [|reflexivity]. eexists. split; [reflexivity|]. split; reflexivity. Qed.

(** The text of a snapshot cannot always be edited: its line ends are not those of the file. *)
Definition edit_notes : json :=
  JObj [field "operation" (JStr (u "edit")); field "path" (JStr (u "notes.txt"));
        field "expected_sha256" (JStr (sha256_bytes notes));
        field "replacements" (JArr [JObj [field "old" (JStr (u "one" ++ [10] ++ u "two")); field "new" (JStr (u "three"))]])].

Lemma snapshot_text_not_found :
  snapshot [u "notes.txt"] project_files =
    Ok [Snapshot (u "notes.txt") (sha256_bytes notes) (u "one" ++ [10] ++ u "two" ++ [10])] /\
  (apply (system []) start [edit_notes]).1 = Err (SourcePatchError unchanged "Replacement precondition failed").
Proof. vm_compute. repeat split. Qed.

(** ** Residual contracts and resources *)

Definition glow_request : ResidualGenerationContract :=
  Contract (u "glow") [] [(u "src/Main.java", sha256_bytes main_java)] []
    [u "./src/Lamp.java"] [(u "src/Lamp.java", sha256_bytes notes)] [] [u "src/Glow.java"].

Definition glow_contract : ResidualGenerationContract :=
  match check_contract glow_request with
  | Ok k => k
  | Err _ => Contract [] [] [] [] [] [] [] []
  end.

Lemma residual_gate_spec_witness :
  Forall stable_contract [glow_contract] /\
  exists c, filter (claims (_normalize_path (u "src/./Glow.java"))) [glow_contract] = [c] /\
            authorises c (_normalize_path (u "src/./Glow.java")) None.
Proof.
  assert (Hs : Forall stable_contract [glow_contract]).
  { constructor; [|constructor]. apply (bool_decide_unpack _). vm_compute. exact I. }
  split; [exact Hs|].
  apply (residual_gate_spec (u "src/./Glow.java") None [glow_contract]).
  - constructor; [|constructor]. exists glow_request. vm_compute. reflexivity.
  - exact Hs.
  - vm_compute. reflexivity.
  - vm_compute. reflexivity.
Defined.

(** The normal form of a path need not be its own normal form. *)
Lemma normalize_twice : _normalize_path (u "./ a.txt") = u " a.txt" /\ _normalize_path (u " a.txt") = u "a.txt".
Proof. vm_compute. split; reflexivity. Qed.

Definition build_gradle : pystr := u "plugins { id 'fabric-loom' } // apply from: 'a}".

Lemma gradle_append_safe_witness :
  validate_gradle_append build_gradle = Ok tt /\
  validate_gradle_append (build_gradle ++ 10 :: u "dependencies { }") = validate_gradle_append (u "dependencies { }").
Proof.
  assert (Hb : validate_gradle_append build_gradle = Ok tt) by (vm_compute; reflexivity).
  split; [exact Hb|]. exact (gradle_append_safe build_gradle Hb (u "dependencies { }")).
Defined.
