(* ===== verification/TinyMappings.v ===== *)
(** * TinyMappings: [tiny_mappings.py]

    The names of classes and members in several namespaces, read from a Tiny v2 file,
    and the translation of names and descriptors between two of them. *)

From stdpp Require Import prelude gmap sets strings list.
From S2P Require Import Prelude Text.

Open Scope Z_scope.
Open Scope py_scope.

(** ** Lines and fields *)

(** The characters at which [str.splitlines] ends a line. *)
Definition line_break (c : Z) : bool := bool_decide (c ∈ [10; 11; 12; 13; 28; 29; 30; 0x85; 0x2028; 0x2029]).

Fixpoint lines_from (line s : pystr) : list pystr :=
  match s with
  | [] => if bool_decide (line = []) then [] else [reverse line]
  | c :: s =>
      if line_break c then
        reverse line :: match s with
                        | d :: s' => if (c =? 13) && (d =? 10) then lines_from [] s' else lines_from [] s
                        | [] => []
                        end
      else lines_from (c :: line) s
  end.

Definition splitlines (s : pystr) : list pystr := lines_from [] s.

Definition tab : Z := 9.

Definition mapping_error {A} (why : string) : res A := Err (MappingError why).

(** [escapes] *)
Definition escape_of (c : Z) : option Z :=
  if c =? 110 then Some 10 else if c =? 114 then Some 13 else if c =? 116 then Some 9
  else if c =? 48 then Some 0 else if c =? 92 then Some 92 else None.

Fixpoint _unescape (value : pystr) : res pystr :=
  match value with
  | [] => Ok []
  | c :: value =>
      if c =? 92 then
        match value with
        | [] => mapping_error "Invalid Tiny escape"
        | e :: value =>
            match escape_of e with
            | None => mapping_error "Invalid Tiny escape"
            | Some d => let* out := _unescape value in Ok (d :: out)
            end
        end
      else let* out := _unescape value in Ok (c :: out)
  end.

(** ** Parsing *)

Record tiny_member : Type := TinyMember {
  member_owner : pystr; member_kind : pystr; member_descriptor : pystr; member_names : list pystr
}.

Record TinyMappings : Type := Tiny {
  namespaces : list pystr; classes : list (list pystr); members : list tiny_member
}.

(** The loop's variables; a key is a class, or a member with its owner, kind and descriptor. *)
Record parse_state : Type := ParseState {
  found : TinyMappings; current_owner : option pystr; escaped : bool; seen : gset (list pystr)
}.

Definition read_names (escaped : bool) (fields : list pystr) : res (list pystr) :=
  if escaped then res_map_list _unescape fields else Ok fields.

(** One name for each namespace, the first of them not empty. *)
Definition valid_names (m : TinyMappings) (names : list pystr) : bool :=
  bool_decide (length names = length (namespaces m)) && negb (bool_decide (hd [] names = [])).

Definition class_record (st : parse_state) (fields : list pystr) : res parse_state :=
  let* names := read_names (escaped st) fields in
  let m := found st in
  if negb (valid_names m names) then mapping_error "Invalid class mapping"
  else
    let key := [u "class"; hd [] names] in
    if bool_decide (key ∈ seen st) then mapping_error "Duplicate class mapping"
    else Ok (ParseState (Tiny (namespaces m) (classes m ++ [names]) (members m)) (Some (hd [] names)) (escaped st)
               ({[key]} ∪ seen st)).

Definition member_record (st : parse_state) (kind descriptor : pystr) (fields : list pystr) : res parse_state :=
  match current_owner st with
  | None => mapping_error "Member without owner"
  | Some owner =>
      let* names := read_names (escaped st) fields in
      let m := found st in
      if negb (valid_names m names) then mapping_error "Invalid member mapping"
      else
        let key := [owner; kind; hd [] names; descriptor] in
        if bool_decide (key ∈ seen st) then mapping_error "Duplicate member mapping"
        else Ok (ParseState (Tiny (namespaces m) (classes m) (members m ++ [TinyMember owner kind descriptor names]))
                   (Some owner) (escaped st) ({[key]} ∪ seen st))
  end.

(** Comments, parameters and local variables. *)
Definition skipped_records : list pystr :=
  [[tab; tab; 99; tab]; [tab; 99; tab]; [tab; tab; 112; tab]; [tab; tab; 118; tab]; [tab; tab; tab; 99; tab]].

Definition parse_line (st : parse_state) (line : pystr) : res parse_state :=
  if bool_decide (line = []) || starts_with (u "#") line then Ok st
  else
    match current_owner st, split_on tab line with
    | None, [] :: property :: _ =>
        Ok (if bool_decide (property = u "escaped-names")
            then ParseState (found st) (current_owner st) true (seen st) else st)
    | _, parts =>
        match parts with
        | tag :: fields =>
            if bool_decide (tag = u "c") then class_record st fields
            else
              match tag, fields with
              | [], kind :: descriptor :: fields =>
                  if bool_decide (kind = u "m") || bool_decide (kind = u "f")
                  then member_record st kind descriptor fields
                  else if starts_with_any skipped_records line then Ok st else mapping_error "Invalid Tiny record"
              | _, _ => if starts_with_any skipped_records line then Ok st else mapping_error "Invalid Tiny record"
              end
        | [] => mapping_error "Invalid Tiny record"
        end
    end.

Fixpoint parse_lines (st : parse_state) (lines : list pystr) : res parse_state :=
  match lines with [] => Ok st | line :: lines => let* st := parse_line st line in parse_lines st lines end.

Definition parse_tiny (text : pystr) : res TinyMappings :=
  let lines := splitlines text in
  let header := match lines with line :: _ => split_on tab line | [] => [] end in
  match header with
  | tag :: major :: minor :: ns1 :: ns2 :: ns =>
      if bool_decide ([tag; major; minor] = [u "tiny"; u "2"; u "0"]) then
        let m := Tiny (ns1 :: ns2 :: ns) [] [] in
        if negb (bool_decide (NoDup (namespaces m))) then mapping_error "Duplicate namespace"
        else let* st := parse_lines (ParseState m None false ∅) (tl lines) in Ok (found st)
      else mapping_error "Expected Tiny 2.0 with at least two namespaces"
  | _ => mapping_error "Expected Tiny 2.0 with at least two namespaces"
  end.

(** ** Translation *)

(** [tuple.index] *)
Fixpoint index_of (x : pystr) (l : list pystr) : option nat :=
  match l with [] => None | y :: l => if decide (y = x) then Some 0%nat else S <$> index_of x l end.

Definition _indices (m : TinyMappings) (source target : pystr) : res (nat * nat) :=
  match index_of source (namespaces m), index_of target (namespaces m) with
  | Some a, Some b => Ok (a, b)
  | _, _ => mapping_error "Unknown namespace"
  end.

(** The loop over the names of one row, from column [i] on. *)
Fixpoint index_names {K V} `{Countable K} (key : pystr -> K) (why : string) (i : nat) (names : list pystr) (row : V)
    (indexes : list (gmap K V)) : res (list (gmap K V)) :=
  match names with
  | [] => Ok indexes
  | name :: names =>
      if bool_decide (name = []) then index_names key why (S i) names row indexes
      else
        match indexes !! i with
        | None => Err IndexError
        | Some index =>
            if bool_decide (is_Some (index !! key name)) then mapping_error why
            else index_names key why (S i) names row (<[i := <[key name := row]> index]> indexes)
        end
  end.

Fixpoint class_indexes_loop (rows : list (list pystr)) (indexes : list (gmap pystr (list pystr)))
    : res (list (gmap pystr (list pystr))) :=
  match rows with
  | [] => Ok indexes
  | row :: rows =>
      let* indexes := index_names (fun name => name) "Ambiguous class mapping" 0 row row indexes in
      class_indexes_loop rows indexes
  end.

Definition _class_indexes (m : TinyMappings) : res (list (gmap pystr (list pystr))) :=
  class_indexes_loop (classes m) (map (fun _ => ∅) (namespaces m)).

Definition member_key (owner kind descriptor name : pystr) : list pystr := [owner; kind; descriptor; name].

Fixpoint member_indexes_loop (rows : list tiny_member) (indexes : list (gmap (list pystr) (list pystr)))
    : res (list (gmap (list pystr) (list pystr))) :=
  match rows with
  | [] => Ok indexes
  | row :: rows =>
      let* indexes := index_names (member_key (member_owner row) (member_kind row) (member_descriptor row))
                        "Ambiguous member mapping" 0 (member_names row) (member_names row) indexes in
      member_indexes_loop rows indexes
  end.

Definition _member_indexes (m : TinyMappings) : res (list (gmap (list pystr) (list pystr))) :=
  member_indexes_loop (members m) (map (fun _ => ∅) (namespaces m)).

Definition class_name (m : TinyMappings) (name source target : pystr) : res pystr :=
  let* (a, b) := _indices m source target in
  let* indexes := _class_indexes m in
  match indexes !! a with
  | None => Err IndexError
  | Some index =>
      match index !! name with
      | None => Ok name
      | Some row =>
          match row !! b with
          | None => Err IndexError
          | Some [] => mapping_error "Missing target name"
          | Some mapped => Ok mapped
          end
      end
  end.

(** [re.sub(r"L([^;]+);", ...)]: a match takes what is before the first semicolon. *)
Fixpoint class_of_type (s : pystr) : option (pystr * pystr) :=
  match s with
  | [] => None
  | c :: s => if c =? 59 then Some ([], s) else match class_of_type s with Some (n, r) => Some (c :: n, r) | None => None end
  end.

Fixpoint translate_types (fuel : nat) (translate : pystr -> res pystr) (s : pystr) : res pystr :=
  match fuel, s with
  | O, _ => Err OutOfFuel
  | _, [] => Ok []
  | S fuel, c :: s =>
      match (if c =? 76 then class_of_type s else None) with
      | Some (((_ :: _) as name), rest) =>
          let* mapped := translate name in
          let* rest := translate_types fuel translate rest in Ok (76 :: mapped ++ 59 :: rest)
      | _ => let* rest := translate_types fuel translate s in Ok (c :: rest)
      end
  end.

Definition descriptor (m : TinyMappings) (d source target : pystr) : res pystr :=
  let* _ := _indices m source target in
  translate_types (S (length d)) (fun name => class_name m name source target) d.

Definition member (m : TinyMappings) (owner name d kind source target : pystr) : res (pystr * pystr * pystr) :=
  let* (a, b) := _indices m source target in
  match namespaces m with
  | [] => Err IndexError
  | base :: _ =>
      let* base_owner := class_name m owner source base in
      let* base_desc := descriptor m d source base in
      let* indexes := _member_indexes m in
      match indexes !! a with
      | None => Err IndexError
      | Some index =>
          let* mapped :=
            match index !! member_key base_owner kind base_desc name with
            | None => Ok name
            | Some names =>
                match names !! b with
                | None => Err IndexError
                | Some [] => mapping_error "Missing target member name"
                | Some mapped => Ok mapped
                end
            end in
          let* owner := class_name m owner source target in
          let* d := descriptor m d source target in
          Ok (owner, mapped, d)
      end
  end.

(** * Reading and translating Tiny mappings *)

From S2P Require Import Json.

Open Scope Z_scope.
Open Scope py_scope.

(** ** A reference printer *)

Record tiny_class : Type := TinyClass { class_names : list pystr; class_members : list (pystr * pystr * list pystr) }.

Definition fields_line (fields : list pystr) : pystr := join [tab] fields.

Definition member_line (member : pystr * pystr * list pystr) : pystr :=
  let '(kind, d, names) := member in fields_line ([] :: kind :: d :: names).

Definition class_lines (c : tiny_class) : list pystr :=
  fields_line (u "c" :: class_names c) :: map member_line (class_members c).

Definition tiny_text (ns : list pystr) (cs : list tiny_class) : pystr :=
  concat (map (fun line => line ++ [10])
    (fields_line (u "tiny" :: u "2" :: u "0" :: ns) :: concat (map class_lines cs))).

(** The mappings that the classes are, and the keys that must differ. *)
Definition members_of (c : tiny_class) : list tiny_member :=
  map (fun m => TinyMember (hd [] (class_names c)) m.1.1 m.1.2 m.2) (class_members c).

Definition mappings_of (ns : list pystr) (cs : list tiny_class) : TinyMappings :=
  Tiny ns (map class_names cs) (concat (map members_of cs)).

Definition class_keys (c : tiny_class) : list (list pystr) :=
  [u "class"; hd [] (class_names c)] ::
  map (fun m => [member_owner m; member_kind m; hd [] (member_names m); member_descriptor m]) (members_of c).

(** A field is a text without tabs and line breaks. *)
Definition field_ok (f : pystr) : Prop := tab ∉ f /\ forallb (fun c => negb (line_break c)) f = true.

Definition names_ok (ns names : list pystr) : Prop :=
  length names = length ns /\ hd [] names <> [] /\ Forall field_ok names.

Definition member_ok (ns : list pystr) (member : pystr * pystr * list pystr) : Prop :=
  (member.1.1 = u "m" \/ member.1.1 = u "f") /\ field_ok member.1.2 /\ names_ok ns member.2.

Record tiny_ok (ns : list pystr) (cs : list tiny_class) : Prop := {
  tiny_two : (2 <= length ns)%nat;
  tiny_distinct : NoDup ns;
  tiny_spaces : Forall field_ok ns;
  tiny_classes : Forall (fun c => names_ok ns (class_names c) /\ Forall (member_ok ns) (class_members c)) cs;
  tiny_keys : NoDup (concat (map class_keys cs))
}.

(** ** Lines *)

Lemma lines_from_line line l s :
  forallb (fun c => negb (line_break c)) l = true ->
  lines_from line (l ++ 10 :: s) = (reverse line ++ l) :: splitlines s.
Proof.
  revert line. induction l as [|c l IH]; intros line Hl; cbn [app lines_from].
  - rewrite app_nil_r. change (line_break 10) with true. cbn iota. by destruct s as [|d s].
  - cbn [forallb] in Hl. apply andb_true_iff in Hl as [Hc Hl]. apply negb_true_iff in Hc. rewrite Hc, IH by done.
    by rewrite reverse_cons, <- app_assoc.
Qed.

Lemma splitlines_concat ls :
  Forall (fun l => forallb (fun c => negb (line_break c)) l = true) ls ->
  splitlines (concat (map (fun l => l ++ [10]) ls)) = ls.
Proof.
  induction 1 as [|l ls Hl Hls IH]; [done|]. cbn [map concat]. unfold splitlines at 1.
  rewrite <- app_assoc. cbn [app]. rewrite lines_from_line by done. rewrite reverse_nil. cbn [app]. by rewrite IH.
Qed.

Lemma split_on_field sep f s : sep ∉ f -> split_on sep (f ++ sep :: s) = f :: split_on sep s.
Proof.
  induction f as [|c f IH]; intros Hf; cbn [app split_on]; [by rewrite Z.eqb_refl|].
  rewrite elem_of_cons in Hf. rewrite (proj2 (Z.eqb_neq c sep)) by (intros ->; tauto). rewrite IH by tauto. done.
Qed.

Lemma split_on_last sep f : sep ∉ f -> split_on sep f = [f].
Proof.
  induction f as [|c f IH]; intros Hf; cbn [split_on]; [done|].
  rewrite elem_of_cons in Hf. rewrite (proj2 (Z.eqb_neq c sep)) by (intros ->; tauto). rewrite IH by tauto. done.
Qed.

Lemma fields_line_cons f f2 fs : fields_line (f :: f2 :: fs) = f ++ tab :: fields_line (f2 :: fs).
Proof. done. Qed.

Lemma split_fields fs : fs <> [] -> Forall field_ok fs -> split_on tab (fields_line fs) = fs.
Proof.
  intros Hne Hall. induction Hall as [|f fs [Hf _] Hall IH]; [done|].
  destruct fs as [|f2 fs]; [by apply split_on_last|]. rewrite fields_line_cons, split_on_field by done. by rewrite IH.
Qed.

Lemma fields_line_ok fs :
  Forall field_ok fs -> forallb (fun c => negb (line_break c)) (fields_line fs) = true.
Proof.
  induction 1 as [|f fs [_ Hf] Hall IH]; [done|].
  destruct fs as [|f2 fs]; [done|]. rewrite fields_line_cons, forallb_app, Hf. exact IH.
Qed.

Lemma field_ok_dec f : bool_decide (tab ∉ f) && forallb (fun c => negb (line_break c)) f = true -> field_ok f.
Proof. rewrite andb_true_iff, bool_decide_eq_true. done. Qed.

Lemma member_fields_ok ns k d names : member_ok ns (k, d, names) -> Forall field_ok ([] :: k :: d :: names).
Proof.
  intros (Hk & Hd & _ & _ & Hn). cbn [fst snd] in *.
  constructor; [by apply field_ok_dec|]. constructor; [|by constructor]. by destruct Hk as [-> | ->]; apply field_ok_dec.
Qed.

(** ** Parsing what was printed *)

Lemma valid_names_ok m names : names_ok (namespaces m) names -> valid_names m names = true.
Proof.
  intros (Hl & Hh & _). unfold valid_names. by rewrite bool_decide_eq_true_2, bool_decide_eq_false_2.
Qed.

Lemma parse_class_line ns cs ms owner sn names :
  names_ok ns names -> [u "class"; hd [] names] ∉ sn ->
  parse_line (ParseState (Tiny ns cs ms) owner false sn) (fields_line (u "c" :: names)) =
  Ok (ParseState (Tiny ns (cs ++ [names]) ms) (Some (hd [] names)) false ({[[u "class"; hd [] names]]} ∪ sn)).
Proof.
  intros Hn Hseen. unfold parse_line.
  assert (bool_decide (fields_line (u "c" :: names) = []) || starts_with (u "#") (fields_line (u "c" :: names)) = false)
    as -> by by destruct names.
  cbn iota.
  rewrite split_fields; [|done|constructor; [by apply field_ok_dec|apply Hn]].
  assert (Hrec : class_record (ParseState (Tiny ns cs ms) owner false sn) names =
    Ok (ParseState (Tiny ns (cs ++ [names]) ms) (Some (hd [] names)) false ({[[u "class"; hd [] names]]} ∪ sn))).
  { unfold class_record. cbn [found escaped seen read_names res_bind namespaces classes members].
    rewrite valid_names_ok by done. cbn [negb]. by rewrite bool_decide_eq_false_2. }
  destruct owner; rewrite <- Hrec; reflexivity.
Qed.

Lemma parse_member_line ns cs ms owner sn k d names :
  member_ok ns (k, d, names) -> [owner; k; hd [] names; d] ∉ sn ->
  parse_line (ParseState (Tiny ns cs ms) (Some owner) false sn) (member_line (k, d, names)) =
  Ok (ParseState (Tiny ns cs (ms ++ [TinyMember owner k d names])) (Some owner) false
        ({[[owner; k; hd [] names; d]]} ∪ sn)).
Proof.
  intros Hm Hseen. unfold parse_line, member_line.
  assert (bool_decide (fields_line ([] :: k :: d :: names) = []) ||
          starts_with (u "#") (fields_line ([] :: k :: d :: names)) = false) as -> by done.
  cbn [current_owner].
  rewrite split_fields; [|done|by eapply member_fields_ok].
  change (bool_decide ([] = u "c")) with false. cbn iota.
  assert (bool_decide (k = u "m") || bool_decide (k = u "f") = true) as ->.
  { rewrite orb_true_iff, !bool_decide_eq_true. apply Hm. }
  unfold member_record. cbn [current_owner found escaped seen read_names res_bind namespaces classes members].
  rewrite valid_names_ok by apply Hm. cbn [negb]. by rewrite bool_decide_eq_false_2.
Qed.

Lemma parse_lines_app st l1 l2 : parse_lines st (l1 ++ l2) = let* st := parse_lines st l1 in parse_lines st l2.
Proof.
  revert st. induction l1 as [|l l1 IH]; intros st; [done|]. cbn [app parse_lines].
  destruct (parse_line st l); [apply IH|done].
Qed.

Definition member_row_key (owner : pystr) (m : pystr * pystr * list pystr) : list pystr :=
  [owner; m.1.1; hd [] m.2; m.1.2].

Lemma parse_members ns cs ms owner sn l :
  Forall (member_ok ns) l -> NoDup (map (member_row_key owner) l) ->
  (forall k, k ∈ map (member_row_key owner) l -> k ∉ sn) ->
  exists sn', parse_lines (ParseState (Tiny ns cs ms) (Some owner) false sn) (map member_line l) =
    Ok (ParseState (Tiny ns cs (ms ++ map (fun m => TinyMember owner m.1.1 m.1.2 m.2) l)) (Some owner) false sn') /\
    forall k, k ∈ sn' <-> k ∈ sn \/ k ∈ map (member_row_key owner) l.
Proof.
  intros Hall. revert ms sn. induction Hall as [|[[k d] names] l Hm Hall IH]; intros ms sn Hnd Hnew; cbn [map parse_lines].
  { exists sn. rewrite app_nil_r. split; [done|]. intros x. rewrite elem_of_nil. tauto. }
  cbn [map] in Hnd, Hnew. apply NoDup_cons in Hnd as [Hk Hnd].
  rewrite parse_member_line by (done || by apply (Hnew (member_row_key owner (k, d, names))); left). cbn [res_bind].
  destruct (IH (ms ++ [TinyMember owner k d names]) ({[[owner; k; hd [] names; d]]} ∪ sn)) as (sn' & Hp & Hsn); [done|..].
  { intros x Hx. rewrite elem_of_union, elem_of_singleton. intros [->|?]; [done|]. by apply (Hnew x); [right|]. }
  exists sn'. split; [rewrite Hp; by rewrite <- app_assoc|].
  intros x. rewrite Hsn, elem_of_union, elem_of_singleton, elem_of_cons.
  change (member_row_key owner (k, d, names)) with [owner; k; hd [] names; d]. tauto.
Qed.

Lemma class_keys_rows c :
  class_keys c = [u "class"; hd [] (class_names c)] :: map (member_row_key (hd [] (class_names c))) (class_members c).
Proof. unfold class_keys, members_of. by rewrite map_map. Qed.

Lemma parse_classes ns cs rows ms owner sn :
  Forall (fun c => names_ok ns (class_names c) /\ Forall (member_ok ns) (class_members c)) cs ->
  NoDup (concat (map class_keys cs)) -> (forall k, k ∈ concat (map class_keys cs) -> k ∉ sn) ->
  exists owner' sn', parse_lines (ParseState (Tiny ns rows ms) owner false sn) (concat (map class_lines cs)) =
    Ok (ParseState (Tiny ns (rows ++ map class_names cs) (ms ++ concat (map members_of cs))) owner' false sn').
Proof.
  intros Hall. revert rows ms owner sn. induction Hall as [|c cs [Hc Hm] Hall IH]; intros rows ms owner sn Hnd Hnew.
  { exists owner, sn. cbn. by rewrite !app_nil_r. }
  cbn [map concat] in *. rewrite class_keys_rows in Hnd, Hnew. apply NoDup_app in Hnd as (Hnd1 & Hdisj & Hnd2).
  apply NoDup_cons in Hnd1 as [Hkey Hnd1].
  unfold class_lines at 1. cbn [app parse_lines]. rewrite parse_class_line by (done || (apply Hnew; left)). cbn [res_bind].
  rewrite parse_lines_app.
  destruct (parse_members ns (rows ++ [class_names c]) ms (hd [] (class_names c))
              ({[[u "class"; hd [] (class_names c)]]} ∪ sn) (class_members c)) as (sn1 & -> & Hsn1); [done|done|..].
  { intros k Hk. rewrite elem_of_union, elem_of_singleton. intros [->|?]; [done|].
    apply (Hnew k); [|done]. apply elem_of_app. left. by right. }
  cbn [res_bind]. destruct (IH (rows ++ [class_names c])
    (ms ++ map (fun m => TinyMember (hd [] (class_names c)) m.1.1 m.1.2 m.2) (class_members c))
    (Some (hd [] (class_names c))) sn1) as (owner' & sn' & ->); [done|..].
  { intros k Hk. rewrite Hsn1, elem_of_union, elem_of_singleton. intros [[->|Hin]|Hin].
    - apply (Hdisj [u "class"; hd [] (class_names c)]); [left|done].
    - apply (Hnew k); [|done]. apply elem_of_app. by right.
    - apply (Hdisj k); [by right|done]. }
  exists owner', sn'. by rewrite <- !app_assoc.
Qed.

(** The text that the reference printer gives to classes and members is read back as them: every
    class with its names, every member under its class, in the order of the file. *)
Theorem parse_tiny_text ns cs :
  tiny_ok ns cs -> parse_tiny (tiny_text ns cs) = Ok (mappings_of ns cs).
Proof.
  intros [Htwo Hdist Hns Hcs Hkeys]. unfold parse_tiny, tiny_text. rewrite splitlines_concat.
  - assert (Hheader : Forall field_ok (u "tiny" :: u "2" :: u "0" :: ns)).
    { repeat (constructor; [by apply field_ok_dec|]). done. }
    cbn [tl]. rewrite split_fields by done. destruct ns as [|n1 [|n2 ns]]; [simpl in Htwo; lia..|].
    rewrite bool_decide_eq_true_2 by done. cbn [namespaces].
    rewrite bool_decide_eq_true_2 by done. cbn [negb].
    destruct (parse_classes (n1 :: n2 :: ns) cs [] [] None ∅) as (owner' & sn' & ->); [done|done|..].
    { intros k _. apply not_elem_of_empty. }
    done.
  - constructor; [apply fields_line_ok; repeat (constructor; [by apply field_ok_dec|]); done|].
    apply Forall_concat, Forall_map. eapply Forall_impl; [exact Hcs|]. intros c [Hc Hm]. constructor.
    + apply fields_line_ok. constructor; [by apply field_ok_dec|apply Hc].
    + apply Forall_map. eapply Forall_impl; [exact Hm|]. intros [[k d] names] Hk. apply fields_line_ok.
      by eapply member_fields_ok.
Qed.

(** ** Translation *)

(** Column [a] of the index after a row has been entered, from its [i]th name on. *)
Lemma index_names_spec {K V} `{Countable K} (key : pystr -> K) why i names (row : V) indexes indexes' a index' :
  index_names key why i names row indexes = Ok indexes' -> indexes' !! a = Some index' ->
  exists index, indexes !! a = Some index /\
  match (if decide (i <= a)%nat then names !! (a - i)%nat else None) with
  | Some ((_ :: _) as name) => index !! key name = None /\ index' = <[key name := row]> index
  | _ => index' = index
  end.
Proof.
  revert i indexes. induction names as [|name names IH]; intros i indexes; cbn [index_names].
  { intros [= ->] Ha. exists index'. split; [done|]. by case_decide. }
  assert (Hshift : forall o : option pystr, o = (if decide (S i <= a)%nat then names !! (a - S i)%nat else None) -> a <> i ->
            (if decide (i <= a)%nat then (name :: names) !! (a - i)%nat else None) = o).
  { intros o -> Hne. repeat case_decide; try lia; [|done]. replace (a - i)%nat with (S (a - S i)) by lia. done. }
  case_bool_decide as Hname.
  - intros Hi Ha. destruct (IH _ _ Hi Ha) as (index & Hin & Hm). exists index. split; [done|].
    destruct (decide (a = i)) as [->|Hne]; [|by erewrite Hshift].
    rewrite decide_False in Hm by lia. rewrite decide_True by lia. rewrite Nat.sub_diag. cbn. by subst name.
  - destruct (indexes !! i) as [index|] eqn:Ei; [|done]. case_bool_decide as Hfresh; [done|].
    intros Hi Ha. destruct (IH _ _ Hi Ha) as (index1 & Hin & Hm). destruct (decide (a = i)) as [->|Hne].
    + rewrite list_lookup_insert_eq in Hin by (by eapply lookup_lt_Some). injection Hin as <-.
      rewrite decide_False in Hm by lia. exists index. split; [done|].
      rewrite decide_True by lia. rewrite Nat.sub_diag. cbn. destruct name as [|c name]; [done|].
      split; [|done]. destruct (index !! _); [|done]. exfalso. apply Hfresh. by eexists.
    + rewrite list_lookup_insert_ne in Hin by done. exists index1. split; [done|]. by erewrite Hshift.
Qed.

Definition named (a : nat) (name : pystr) (row : list pystr) : Prop := row !! a = Some name /\ name <> [].

Lemma class_indexes_loop_spec rows indexes indexes' a index' :
  class_indexes_loop rows indexes = Ok indexes' -> indexes' !! a = Some index' ->
  exists index, indexes !! a = Some index /\
  forall name row, index' !! name = Some row <-> index !! name = Some row \/ row ∈ rows /\ named a name row.
Proof.
  revert indexes. induction rows as [|r rows IH]; intros indexes; cbn [class_indexes_loop].
  { intros [= ->] Ha. exists index'. split; [done|]. intros name row. rewrite elem_of_nil. tauto. }
  destruct (index_names _ _ _ _ _ _) as [indexes1|] eqn:E1; [|done]. cbn [res_bind]. intros Hl Ha.
  destruct (IH _ Hl Ha) as (index1 & Ha1 & Hrows).
  destruct (index_names_spec _ _ _ _ _ _ _ _ _ E1 Ha1) as (index & Hi & Hm). exists index. split; [done|].
  rewrite decide_True, Nat.sub_0_r in Hm by lia. intros name row. rewrite Hrows, elem_of_cons. unfold named.
  destruct (r !! a) as [[|c n]|] eqn:Er; [subst index1; naive_solver| |subst index1; naive_solver].
  destruct Hm as [Hnew ->]. destruct (decide (name = c :: n)) as [->|Hne].
  - rewrite lookup_insert_eq. naive_solver.
  - rewrite lookup_insert_ne by done. naive_solver.
Qed.

(** The index of a namespace has the rows under their names there, no two under one name. *)
Lemma class_indexes_spec m indexes a index :
  _class_indexes m = Ok indexes -> indexes !! a = Some index ->
  forall name row, index !! name = Some row <-> row ∈ classes m /\ named a name row.
Proof.
  intros Hi Ha name row. destruct (class_indexes_loop_spec _ _ _ _ _ Hi Ha) as (index0 & H0 & Hrows).
  assert (index0 = ∅) as ->.
  { apply list_elem_of_lookup_2 in H0. by apply list_elem_of_In, in_map_iff in H0 as (? & <- & _). }
  rewrite Hrows, lookup_empty. naive_solver.
Qed.

Lemma index_names_length {K V} `{Countable K} (key : pystr -> K) why i names (row : V) indexes indexes' :
  index_names key why i names row indexes = Ok indexes' -> length indexes' = length indexes.
Proof.
  revert i indexes. induction names as [|n names IH]; intros i indexes; cbn [index_names]; [by intros [= ->]|].
  case_bool_decide; [apply IH|]. destruct (indexes !! i); [|done]. case_bool_decide; [done|].
  intros ->%IH. apply length_insert.
Qed.

Lemma class_indexes_length m indexes : _class_indexes m = Ok indexes -> length indexes = length (namespaces m).
Proof.
  unfold _class_indexes. rewrite <- (length_map (fun _ => ∅ : gmap pystr (list pystr)) (namespaces m)).
  generalize (map (fun _ => ∅ : gmap pystr (list pystr)) (namespaces m)).
  induction (classes m) as [|r rows IH]; intros start; cbn [class_indexes_loop]; [by intros [= ->]|].
  destruct (index_names _ _ _ _ _ start) as [start1|] eqn:E; [|done]. cbn [res_bind].
  intros ->%IH. by eapply index_names_length.
Qed.

Lemma index_of_lt x l i : index_of x l = Some i -> (i < length l)%nat.
Proof.
  revert i. induction l as [|y l IH]; intros i; cbn [index_of]; [done|].
  case_decide; [intros [= <-]; simpl; lia|]. destruct (index_of x l); [|done]. intros [= <-]. simpl.
  specialize (IH _ eq_refl). lia.
Qed.

(** A name that goes there and comes back: it has a row, or it is not a name on the other side. *)
Definition reversible (m : TinyMappings) (source target name : pystr) : Prop :=
  forall a b, _indices m source target = Ok (a, b) ->
  (exists row, row ∈ classes m /\ named a name row) \/ ~ exists row, row ∈ classes m /\ named b name row.

Lemma indices_swap m source target a b : _indices m source target = Ok (a, b) -> _indices m target source = Ok (b, a).
Proof.
  unfold _indices. destruct (index_of source _), (index_of target _); try done. by intros [= <- <-].
Qed.

Lemma class_name_back m name mapped source target :
  class_name m name source target = Ok mapped -> name <> [] -> reversible m source target name ->
  class_name m mapped target source = Ok name /\ mapped <> [] /\
  (mapped = name \/ exists row, row ∈ classes m /\ mapped ∈ row).
Proof.
  unfold class_name, reversible. destruct (_indices m source target) as [[a b]|] eqn:Eab; [|done].
  rewrite (indices_swap _ _ _ _ _ Eab). cbn [res_bind].
  destruct (_class_indexes m) as [indexes|] eqn:Ei; [|done]. cbn [res_bind].
  destruct (indexes !! a) as [ia|] eqn:Ea; [|done]. intros Hc Hne Hrev. specialize (Hrev a b eq_refl).
  pose proof (class_indexes_spec _ _ _ _ Ei Ea) as Ha.
  assert (exists ib, indexes !! b = Some ib) as [ib Eb].
  { apply lookup_lt_is_Some. rewrite (class_indexes_length _ _ Ei). unfold _indices in Eab.
    destruct (index_of source _); [|done]. destruct (index_of target (namespaces m)) as [b'|] eqn:Et; [|done].
    injection Eab as -> ->. by eapply index_of_lt. }
  pose proof (class_indexes_spec _ _ _ _ Ei Eb) as Hb. rewrite Eb.
  destruct (ia !! name) as [row|] eqn:Erow.
  - apply Ha in Erow as [Hin [Hra _]]. destruct (row !! b) as [[|c n]|] eqn:Erb; try done. injection Hc as <-.
    rewrite (proj2 (Hb (c :: n) row)) by done. rewrite Hra. split; [by destruct name|]. split; [done|].
    right. exists row. split; [done|]. by eapply list_elem_of_lookup_2.
  - injection Hc as <-. destruct (ib !! name) as [row|] eqn:Eib; [|by auto].
    destruct Hrev as [(row' & Hrow%Ha)|Hno]; [congruence|]. exfalso. apply Hno. exists row. by apply Hb.
Qed.

(** The classes that a descriptor names. *)
Fixpoint type_names (fuel : nat) (s : pystr) : list pystr :=
  match fuel, s with
  | S fuel, c :: s =>
      match (if c =? 76 then class_of_type s else None) with
      | Some (((_ :: _) as name), rest) => name :: type_names fuel rest
      | _ => type_names fuel s
      end
  | _, _ => []
  end.

Lemma class_of_type_spec s name rest : class_of_type s = Some (name, rest) <-> s = name ++ 59 :: rest /\ 59 ∉ name.
Proof.
  revert name. induction s as [|c s IH]; intros name; cbn [class_of_type]; [split; [done|by destruct name; intros []]|].
  destruct (c =? 59) eqn:E.
  - apply Z.eqb_eq in E as ->. split; [intros [= <- <-]; split; [done|apply not_elem_of_nil]|].
    destruct name as [|d name]; [by intros [[= ->] _]|]. rewrite elem_of_cons. intros [[= <- _] Hn]. tauto.
  - apply Z.eqb_neq in E. destruct (class_of_type s) as [[n r]|] eqn:Ec.
    + split.
      * intros [= <- <-]. destruct (proj1 (IH n) eq_refl) as [-> Hn]. split; [done|]. rewrite elem_of_cons. naive_solver.
      * destruct name as [|d name]; [by intros [[= ->] _]|]. rewrite elem_of_cons. intros [[= <- Hs] Hn].
        assert (Some (n, r) = Some (name, rest)) as [= -> ->] by (apply IH; tauto). done.
    + split; [done|]. destruct name as [|d name]; [by intros [[= ->] _]|]. rewrite elem_of_cons. intros [[= <- Hs] Hn].
      assert (None = Some (name, rest)) by (apply IH; tauto). done.
Qed.

Lemma class_of_type_None s : class_of_type s = None <-> 59 ∉ s.
Proof.
  induction s as [|c s IH]; cbn [class_of_type]; [split; [intros _; apply not_elem_of_nil|done]|].
  rewrite elem_of_cons. destruct (c =? 59) eqn:E; [apply Z.eqb_eq in E; naive_solver|]. apply Z.eqb_neq in E.
  destruct (class_of_type s) as [[n r]|]; naive_solver.
Qed.

Lemma translate_no_type fuel f s t : 59 ∉ s -> translate_types fuel f s = Ok t -> t = s.
Proof.
  revert s t. induction fuel as [|fuel IH]; intros [|c s] t Hs; cbn [translate_types]; try done; [by intros [= <-]|].
  rewrite elem_of_cons in Hs. rewrite (proj2 (class_of_type_None s)) by tauto.
  assert ((if c =? 76 then None else None) = @None (pystr * pystr)) as -> by by destruct (c =? 76).
  destruct (translate_types fuel f s) as [t'|] eqn:E; [|done]. intros [= <-]. f_equal. apply (IH s t'); tauto.
Qed.

(** A translation of types is undone by one that undoes it on each name. *)
Lemma translate_back f g fuel fuel' s t :
  translate_types fuel f s = Ok t -> (length t < fuel')%nat ->
  (forall name mapped, name ∈ type_names fuel s -> 59 ∉ name -> name <> [] -> f name = Ok mapped ->
     mapped <> [] /\ 59 ∉ mapped /\ g mapped = Ok name) ->
  translate_types fuel' g t = Ok s.
Proof.
  revert fuel' s t. induction fuel as [|fuel IH]; intros fuel' s t; [done|]. cbn [translate_types type_names].
  destruct s as [|c s]; [intros [= <-]; by destruct fuel'; [simpl; lia|]|].
  destruct (if c =? 76 then class_of_type s else None) as [[[|n0 name] rest]|] eqn:Et.
  - destruct (translate_types fuel f s) as [t'|] eqn:E; [|done]. cbn [res_bind]. intros [= <-] Hl Hback.
    destruct fuel' as [|fuel']; [simpl in Hl; lia|]. cbn [translate_types].
    destruct (c =? 76); [|done]. apply class_of_type_spec in Et as [-> _].
    destruct fuel as [|fuel]; [done|]. cbn [app translate_types] in E. change (59 =? 76) with false in E. cbn iota in E.
    destruct (translate_types fuel f rest) as [t2|] eqn:E2; [|done]. injection E as <-.
    cbn [class_of_type]. rewrite Z.eqb_refl. cbn [length] in Hl.
    rewrite (IH fuel' (59 :: rest) (59 :: t2)); [done| |cbn [length]; lia|done].
    cbn [translate_types]. change (59 =? 76) with false. cbn iota. by rewrite E2.
  - destruct (f (n0 :: name)) as [mapped|] eqn:Ef; [|done]. cbn [res_bind].
    destruct (translate_types fuel f rest) as [t'|] eqn:E; [|done]. cbn [res_bind]. intros [= <-] Hl Hback.
    destruct (c =? 76) eqn:Ec; [|done]. apply Z.eqb_eq in Ec as ->. apply class_of_type_spec in Et as [-> Hn].
    destruct (Hback (n0 :: name) mapped ltac:(left) Hn ltac:(done) Ef) as (Hne & Hm & Hg).
    destruct fuel' as [|fuel']; [simpl in Hl; lia|]. cbn [translate_types]. rewrite Z.eqb_refl.
    rewrite (proj2 (class_of_type_spec (mapped ++ 59 :: t') mapped t')) by done.
    destruct mapped as [|m0 mapped]; [done|]. rewrite Hg. cbn [res_bind].
    rewrite (IH fuel' rest t'); [done|done| |].
    + rewrite length_cons, length_app in Hl. simpl in Hl. lia.
    + intros name' mapped' Hin. apply Hback. by right.
  - destruct (translate_types fuel f s) as [t'|] eqn:E; [|done]. cbn [res_bind]. intros [= <-] Hl Hback.
    destruct fuel' as [|fuel']; [simpl in Hl; lia|]. cbn [translate_types]. cbn [length] in Hl.
    rewrite (IH fuel' s t') by (done || lia). destruct (c =? 76) eqn:Ec; [|done].
    apply class_of_type_None in Et. rewrite (translate_no_type _ _ _ _ Et E).
    by rewrite (proj2 (class_of_type_None s) Et).
Qed.

(** C24: a descriptor that is translated from one namespace to another and back is the descriptor it
    was, provided that each class it names has a name in the first namespace or is no name in the
    second, and that the names contain no semicolon; the classes themselves go there and back in the
    same way. *)
Theorem translation_roundtrip m source target d d' :
  descriptor m d source target = Ok d' ->
  (forall name, name ∈ type_names (S (length d)) d -> reversible m source target name) ->
  Forall (Forall (fun name => 59 ∉ name)) (classes m) ->
  descriptor m d' target source = Ok d /\
  (forall name mapped, name <> [] -> reversible m source target name ->
     class_name m name source target = Ok mapped -> class_name m mapped target source = Ok name).
Proof.
  intros Hd Hrev Hsemi. split; [|intros name mapped Hne Hr Hc; by apply (class_name_back m name mapped source target)].
  unfold descriptor in *. destruct (_indices m source target) as [[a b]|] eqn:E; [|done].
  rewrite (indices_swap _ _ _ _ _ E). cbn [res_bind] in *.
  eapply translate_back; [exact Hd|lia|]. intros name mapped Hin Hns Hne Hf.
  destruct (class_name_back m name mapped source target Hf Hne (Hrev name Hin)) as (Hback & Hm & Hrow).
  split; [done|]. split; [|done]. destruct Hrow as [->|(row & Hrow & Hin')]; [done|].
  rewrite Forall_forall in Hsemi. specialize (Hsemi row Hrow). rewrite Forall_forall in Hsemi. auto.
Qed.

(** ** An error that cannot happen *)

Definition ownerless : exn := MappingError "Member without owner".

Lemma unescape_error v : _unescape v <> Err ownerless.
Proof.
  enough (_unescape v <> Err ownerless /\ forall c, _unescape (c :: v) <> Err ownerless) by tauto.
  induction v as [|d v [IH1 IH2]]; [split; [done|]; intros c; simpl; by destruct (c =? 92)|].
  split; [apply IH2|]. intros c. cbn [_unescape]. destruct (c =? 92).
  - destruct (escape_of d); [|done]. destruct (_unescape v); cbn; congruence.
  - specialize (IH2 d). cbn [_unescape] in IH2. destruct (if d =? 92 then _ else _) as [|e]; cbn; [done|congruence].
Qed.

Lemma read_names_error esc fields : read_names esc fields <> Err ownerless.
Proof.
  unfold read_names. destruct esc; [|done]. induction fields as [|f fields IH]; cbn [res_map_list]; [done|].
  pose proof (unescape_error f). destruct (_unescape f); cbn; [|congruence]. destruct (res_map_list _unescape fields); cbn; congruence.
Qed.

Lemma parse_line_error st line : parse_line st line <> Err ownerless.
Proof.
  unfold parse_line. destruct (_ || _); [done|].
  assert (Hc : forall fields, class_record st fields <> Err ownerless).
  { intros fields. unfold class_record. pose proof (read_names_error (escaped st) fields).
    destruct (read_names _ _); cbn; [|congruence]. repeat case_goal; done. }
  assert (Hm : forall k d fields, current_owner st <> None -> member_record st k d fields <> Err ownerless).
  { intros k d fields Ho. unfold member_record. destruct (current_owner st); [|done].
    pose proof (read_names_error (escaped st) fields). destruct (read_names _ _); cbn; [|congruence]. repeat case_goal; done. }
  destruct (current_owner st) as [o|] eqn:Eo; destruct (split_on tab line) as [|[|c tag] [|k [|d fields]]]; try done;
    repeat case_goal; try done; apply Hc || by apply Hm.
Qed.

(** The check that a member has an owner never fires: no text makes the parser complain of a member
    without one, since what looks like a member before the first class is skipped as a property. *)
Theorem ownerless_member_accepted text : parse_tiny text <> Err (MappingError "Member without owner").
Proof.
  assert (Hlines : forall ls st, (let* st := parse_lines st ls in Ok (found st)) <> Err ownerless).
  { induction ls as [|line ls IH]; intros st; cbn [parse_lines res_bind]; [done|].
    pose proof (parse_line_error st line). destruct (parse_line st line); cbn [res_bind]; [apply IH|congruence]. }
  unfold parse_tiny. repeat case_goal; try done; apply Hlines.
Qed.
