(* ===== verification/GenericSignature.v ===== *)
(** * GenericSignature: [java_generic_signature.py]

    The parser of the JVM's generic signatures, which gives the Java text of each type.
    A parser takes what is left of the signature.  [class_name] renames a class. *)

From stdpp Require Import prelude strings list.
From S2P Require Import Prelude Text Json.

Open Scope Z_scope.
Open Scope py_scope.

Definition invalid {A} : res A := Err ValueError.

Definition peek_is (c : Z) (s : pystr) : bool := match s with d :: _ => d =? c | [] => false end.

(** [take(expected)] *)
Definition take_char (c : Z) (s : pystr) : res pystr :=
  match s with d :: s => if d =? c then Ok s else invalid | [] => invalid end.

Fixpoint name_chars (stops s : pystr) : pystr * pystr :=
  match s with
  | [] => ([], [])
  | c :: s' => if bool_decide (c ∈ stops) then ([], s) else let '(n, r) := name_chars stops s' in (c :: n, r)
  end.

(** [name(stops)] *)
Definition take_name (stops s : pystr) : res (pystr * pystr) :=
  match name_chars stops s with ([], _) => invalid | (n, r) => Ok (n, r) end.

Definition _PRIMITIVES : list (Z * pystr) :=
  [(90, u "boolean"); (66, u "byte"); (83, u "short"); (73, u "int"); (74, u "long");
   (67, u "char"); (70, u "float"); (68, u "double"); (86, u "void")].

Fixpoint primitive (table : list (Z * pystr)) (c : Z) : option pystr :=
  match table with [] => None | (d, name) :: table => if d =? c then Some name else primitive table c end.

(** [name.replace('/', '.').replace('$', '.')] *)
Definition dots (s : pystr) : pystr := map (fun c => if (c =? 47) || (c =? 36) then 46 else c) s.

Definition class_stops : pystr := u "<.;".

Section signature.
Context (class_name : pystr -> res pystr).

Fixpoint type_ (fuel : nat) (s : pystr) : res (pystr * pystr) :=
  match fuel, s with
  | O, _ => Err OutOfFuel
  | _, [] => invalid
  | S fuel, token :: s =>
      match primitive _PRIMITIVES token with
      | Some name => Ok (name, s)
      | None =>
          if token =? 91 then let* (t, s) := type_ fuel s in Ok (t ++ u "[]", s)
          else if token =? 84 then
            let* (value, s) := take_name (u ";") s in let* s := take_char 59 s in Ok (value, s)
          else if token =? 76 then
            let* (binary, s) := take_name class_stops s in
            let* name := class_name binary in
            let* (args, s) := arguments fuel s in
            let* (value, s) := nested_loop fuel binary (dots name ++ args) s in
            let* s := take_char 59 s in Ok (value, s)
          else invalid
      end
  end
with arguments (fuel : nat) (s : pystr) : res (pystr * pystr) :=
  match fuel with
  | O => Err OutOfFuel
  | S fuel =>
      if peek_is 60 s then
        let* s := take_char 60 s in
        let* (values, s) := arguments_loop fuel s in
        let* s := take_char 62 s in Ok (60 :: join (u ", ") values ++ [62], s)
      else Ok ([], s)
  end
with arguments_loop (fuel : nat) (s : pystr) : res (list pystr * pystr) :=
  match fuel with
  | O => Err OutOfFuel
  | S fuel =>
      if peek_is 62 s then Ok ([], s)
      else
        let* (value, s) :=
          match s with
          | token :: rest =>
              if token =? 42 then Ok (u "?", rest)
              else if (token =? 43) || (token =? 45) then
                let* (t, s) := type_ fuel rest in
                Ok ((if token =? 43 then u "? extends " else u "? super ") ++ t, s)
              else type_ fuel s
          | [] => type_ fuel s
          end in
        let* (values, s) := arguments_loop fuel s in Ok (value :: values, s)
  end
with nested_loop (fuel : nat) (binary value s : pystr) : res (pystr * pystr) :=
  match fuel with
  | O => Err OutOfFuel
  | S fuel =>
      if peek_is 46 s then
        let* s := take_char 46 s in
        let* (n, s) := take_name class_stops s in
        let binary := binary ++ 36 :: n in
        let* name := class_name binary in
        let* (args, s) := arguments fuel s in
        nested_loop fuel binary (value ++ 46 :: after_last 46 (dots name) ++ args) s
      else Ok (value, s)
  end.

(** [self.type()] on what is left of the signature. *)
Definition parse_type (s : pystr) : res (pystr * pystr) := type_ (S (2 * length s)) s.

(** [re.match(r'[^.;\[/<>:]+:', ...)] *)
Definition next_formal (s : pystr) : bool :=
  match name_chars (u ".;[/<>:") s with ([], _) => false | (_, r) => peek_is 58 r end.

(** The interface bounds: as long as a colon follows. *)
Fixpoint bounds_loop (fuel : nat) (s : pystr) : res (list pystr * pystr) :=
  match fuel with
  | O => Err OutOfFuel
  | S fuel =>
      if peek_is 58 s then
        let* s := take_char 58 s in
        let* (t, s) := parse_type s in
        let* (ts, s) := bounds_loop fuel s in Ok (t :: ts, s)
      else Ok ([], s)
  end.

Definition formal_text (name : pystr) (bounds : list pystr) : pystr :=
  name ++ match bounds with [] => [] | _ => u " extends " ++ join (u " & ") bounds end.

Definition class_bound (s : pystr) : res (list pystr * pystr) :=
  if (peek_is 76 s || peek_is 84 s || peek_is 91 s) && negb (next_formal s)
  then let* (t, s) := parse_type s in Ok ([t], s) else Ok ([], s).

Fixpoint formals_loop (fuel : nat) (s : pystr) : res (list pystr * pystr) :=
  match fuel with
  | O => Err OutOfFuel
  | S fuel =>
      if peek_is 62 s then Ok ([], s)
      else
        let* (name, s) := take_name (u ":") s in
        let* s := take_char 58 s in
        let* (first, s) := class_bound s in
        let* (others, s) := bounds_loop fuel s in
        let* (formals, s) := formals_loop fuel s in
        Ok (formal_text name (first ++ others) :: formals, s)
  end.

Definition formals (s : pystr) : res (list pystr * pystr) :=
  if peek_is 60 s then
    let* s := take_char 60 s in
    let* (result, s) := formals_loop (S (length s)) s in
    let* s := take_char 62 s in Ok (result, s)
  else Ok ([], s).

(** Types as long as [continues] holds of what follows; [lead] is taken before each. *)
Fixpoint types_loop (fuel : nat) (continues : pystr -> bool) (lead : option Z) (s : pystr) : res (list pystr * pystr) :=
  match fuel with
  | O => Err OutOfFuel
  | S fuel =>
      if continues s then
        let* s := match lead with Some c => take_char c s | None => Ok s end in
        let* (t, s) := parse_type s in
        let* (ts, s) := types_loop fuel continues lead s in Ok (t :: ts, s)
      else Ok ([], s)
  end.

Inductive signature_kind : Type := ClassKind | MethodKind | FieldKind.

(** The dictionary that is returned: a field that is absent is [None]. *)
Record generic : Type := Generic {
  type_parameters : option (list pystr); generic_superclass : option pystr; generic_interfaces : option (list pystr);
  generic_parameters : option (list pystr); generic_return_type : option pystr; generic_throws : option (list pystr)
}.

Definition not_empty (l : list pystr) : option (list pystr) := match l with [] => None | _ => Some l end.

Definition generic_contract (signature : pystr) (kind : signature_kind) : res generic :=
  match signature with
  | [] => Ok (Generic None None None None None None)
  | _ =>
      let* (parameters, s) := formals signature in
      let* (result, s) :=
        match kind with
        | ClassKind =>
            let* (superclass, s) := parse_type s in
            let* (interfaces, s) := types_loop (S (length s)) (fun s => negb (bool_decide (s = []))) None s in
            Ok (Generic (not_empty parameters) (Some superclass) (Some interfaces) None None None, s)
        | MethodKind =>
            let* s := take_char 40 s in
            let* (arguments, s) := types_loop (S (length s)) (fun s => negb (peek_is 41 s)) None s in
            let* s := take_char 41 s in
            let* (result, s) := parse_type s in
            let* (throws, s) := types_loop (S (length s)) (peek_is 94) (Some 94) s in
            Ok (Generic (not_empty parameters) None None (Some arguments) (Some result) (not_empty throws), s)
        | FieldKind =>
            let* (t, s) := parse_type s in Ok (Generic (not_empty parameters) None None None (Some t) None, s)
        end in
      match s with [] => Ok result | _ => Err ValueError end
  end.

End signature.

(** * The signature parser accepts the grammar, with the texts it gives *)


Open Scope Z_scope.
Open Scope py_scope.

Section grammar.
Context (class_name : pystr -> res pystr).

(** A name without the characters that end it. *)

Definition word (stops n : pystr) : Prop := n <> [] /\ forall c, c ∈ n -> c ∉ stops.

(** The grammar of types: a signature, and its Java text.  [sig_nested binary value] are the
    inner classes of the class [binary], whose text so far is [value]. *)
Inductive sig_type : pystr -> pystr -> Prop :=
  | sig_primitive c name : primitive _PRIMITIVES c = Some name -> sig_type [c] name
  | sig_array e t : sig_type e t -> sig_type (91 :: e) (t ++ u "[]")
  | sig_variable n : word (u ";") n -> sig_type (84 :: n ++ [59]) n
  | sig_class binary name ea args en value :
      word class_stops binary -> class_name binary = Ok name -> sig_arguments ea args ->
      sig_nested binary (dots name ++ args) en value ->
      sig_type (76 :: binary ++ ea ++ en ++ [59]) value
with sig_arguments : pystr -> pystr -> Prop :=
  | sig_no_arguments : sig_arguments [] []
  | sig_some_arguments e values : sig_list e values -> sig_arguments (60 :: e ++ [62]) (60 :: join (u ", ") values ++ [62])
with sig_list : pystr -> list pystr -> Prop :=
  | sig_nil : sig_list [] []
  | sig_any e values : sig_list e values -> sig_list (42 :: e) (u "?" :: values)
  | sig_extends e1 t e values : sig_type e1 t -> sig_list e values ->
      sig_list (43 :: e1 ++ e) ((u "? extends " ++ t) :: values)
  | sig_super e1 t e values : sig_type e1 t -> sig_list e values ->
      sig_list (45 :: e1 ++ e) ((u "? super " ++ t) :: values)
  | sig_exactly e1 t e values : sig_type e1 t -> sig_list e values -> sig_list (e1 ++ e) (t :: values)
with sig_nested : pystr -> pystr -> pystr -> pystr -> Prop :=
  | sig_nested_end binary value : sig_nested binary value [] value
  | sig_nested_step binary value n name ea args en value' :
      word class_stops n -> class_name (binary ++ 36 :: n) = Ok name -> sig_arguments ea args ->
      sig_nested (binary ++ 36 :: n) (value ++ 46 :: after_last 46 (dots name) ++ args) en value' ->
      sig_nested binary value (46 :: n ++ ea ++ en) value'.

Scheme sig_type_mut := Minimality for sig_type Sort Prop
  with sig_arguments_mut := Minimality for sig_arguments Sort Prop
  with sig_list_mut := Minimality for sig_list Sort Prop
  with sig_nested_mut := Minimality for sig_nested Sort Prop.
Combined Scheme sig_mutual from sig_type_mut, sig_arguments_mut, sig_list_mut, sig_nested_mut.

(** ** Names and characters *)

Lemma take_char_ok c s r : take_char c s = Ok r <-> s = c :: r.
Proof.
  destruct s as [|d s]; cbn [take_char]; [done|]. destruct (d =? c) eqn:E.
  - apply Z.eqb_eq in E as ->. split; [by intros [= ->]|by intros [= ->]].
  - apply Z.eqb_neq in E. split; [done|]. intros [= ? _]. done.
Qed.

Lemma name_chars_spec stops s n r :
  name_chars stops s = (n, r) -> s = n ++ r /\ (forall c, c ∈ n -> c ∉ stops) /\ (r = [] \/ exists c r', r = c :: r' /\ c ∈ stops).
Proof.
  revert n. induction s as [|c s IH]; intros n; cbn [name_chars].
  { intros [= <- <-]. split; [done|]. split; [by intros ? ?%elem_of_nil|by left]. }
  case_bool_decide as Hc.
  { intros [= <- <-]. split; [done|]. split; [by intros ? ?%elem_of_nil|]. right. eauto. }
  destruct (name_chars stops s) as [n' r']. intros [= <- <-]. destruct (IH n' eq_refl) as (-> & Hn & Hr).
  split; [done|]. split; [|done]. intros d [->|Hd]%elem_of_cons; auto.
Qed.

Lemma name_chars_word stops n r :
  (forall c, c ∈ n -> c ∉ stops) -> (r = [] \/ exists c r', r = c :: r' /\ c ∈ stops) ->
  name_chars stops (n ++ r) = (n, r).
Proof.
  intros Hn Hr. induction n as [|c n IH]; cbn [app name_chars].
  - destruct Hr as [->|(c & r' & -> & Hc)]; [done|]. cbn [name_chars]. by rewrite bool_decide_eq_true_2.
  - rewrite bool_decide_eq_false_2 by (apply Hn; left). rewrite IH; [done|]. intros d Hd. apply Hn. by right.
Qed.

Lemma take_name_ok stops s n r :
  take_name stops s = Ok (n, r) <->
  s = n ++ r /\ word stops n /\ (r = [] \/ exists c r', r = c :: r' /\ c ∈ stops).
Proof.
  unfold take_name. split.
  - destruct (name_chars stops s) as [n' r'] eqn:E. apply name_chars_spec in E as (-> & Hn & Hr).
    destruct n' as [|c n']; [done|]. by intros [= <- <-].
  - intros (-> & [Hne Hn] & Hr). rewrite name_chars_word by done. by destruct n.
Qed.

Lemma peek_is_true c s : peek_is c s = true <-> exists r, s = c :: r.
Proof.
  destruct s as [|d s]; cbn [peek_is]; [split; [done|by intros [? ?]]|]. rewrite Z.eqb_eq.
  split; [intros ->; by eexists|by intros [r [= -> _]]].
Qed.

(** The first character of a type. *)
Lemma primitive_letter c name : primitive _PRIMITIVES c = Some name -> 66 <= c <= 90.
Proof.
  assert (Hall : Forall (fun row => 66 <= row.1 <= 90) _PRIMITIVES) by (repeat constructor; simpl; lia).
  induction Hall as [|[d n] l Hd Hl IH]; cbn [primitive]; [done|].
  destruct (d =? c) eqn:E; [|exact IH]. apply Z.eqb_eq in E as <-. intros _. exact Hd.
Qed.

Lemma sig_type_head e t : sig_type e t -> exists c r, e = c :: r /\ 66 <= c <= 91.
Proof.
  destruct 1 as [c name Hp| | |]; [apply primitive_letter in Hp; exists c, []; split; [done|lia]|..];
    (do 2 eexists; split; [done|lia]).
Qed.

(** ** Whatever is parsed is in the grammar *)

Record sound (fuel : nat) : Prop := {
  type_sound s t r : type_ class_name fuel s = Ok (t, r) -> exists e, s = e ++ r /\ sig_type e t;
  arguments_sound s t r : arguments class_name fuel s = Ok (t, r) -> exists e, s = e ++ r /\ sig_arguments e t;
  list_sound s ts r : arguments_loop class_name fuel s = Ok (ts, r) -> exists e, s = e ++ r /\ sig_list e ts;
  nested_sound s b v t r : nested_loop class_name fuel b v s = Ok (t, r) -> exists e, s = e ++ r /\ sig_nested b v e t
}.

Lemma type_step fuel : sound fuel -> forall s t r, type_ class_name (S fuel) s = Ok (t, r) -> exists e, s = e ++ r /\ sig_type e t.
Proof.
  intros [IHt IHa IHl IHn].
  intros [|c s] t r; cbn [type_]; [done|].
  destruct (primitive _PRIMITIVES c) as [name|] eqn:Ep; [intros [= <- <-]; exists [c]; by split; [|constructor]|].
  destruct (c =? 91) eqn:E1.
  { apply Z.eqb_eq in E1 as ->. destruct (type_ class_name fuel s) as [[t1 r1]|] eqn:Et; [|done].
    intros [= <- <-]. apply IHt in Et as (e & -> & He). exists (91 :: e). by split; [|constructor]. }
  destruct (c =? 84) eqn:E2.
  { apply Z.eqb_eq in E2 as ->. destruct (take_name (u ";") s) as [[n s1]|] eqn:En; [|done]. cbn [res_bind].
    destruct (take_char 59 s1) as [s2|] eqn:Ec; [|done]. intros [= <- <-].
    apply take_name_ok in En as (-> & Hw & _). apply take_char_ok in Ec as ->. exists (84 :: n ++ [59]).
    split; [cbn; by rewrite <- app_assoc|by constructor]. }
  destruct (c =? 76) eqn:E3; [|done]. apply Z.eqb_eq in E3 as ->.
  destruct (take_name class_stops s) as [[n s1]|] eqn:En; [|done]. cbn [res_bind].
  destruct (class_name n) as [name|] eqn:Ecn; [|done]. cbn [res_bind].
  destruct (arguments class_name fuel s1) as [[args s2]|] eqn:Ea; [|done]. cbn [res_bind].
  destruct (nested_loop class_name fuel n _ s2) as [[v s3]|] eqn:Enl; [|done]. cbn [res_bind].
  destruct (take_char 59 s3) as [s4|] eqn:Ec; [|done]. intros [= <- <-].
  apply take_name_ok in En as (-> & Hw & _). apply IHa in Ea as (ea & -> & Ha).
  apply IHn in Enl as (en & -> & Hnl). apply take_char_ok in Ec as ->.
  exists (76 :: n ++ ea ++ en ++ [59]). split; [cbn; by rewrite <- !app_assoc|by econstructor].
Qed.

Lemma arguments_step fuel : sound fuel -> forall s t r,
  arguments class_name (S fuel) s = Ok (t, r) -> exists e, s = e ++ r /\ sig_arguments e t.
Proof.
  intros [IHt IHa IHl IHn].
  intros s t r. cbn [arguments]. destruct (peek_is 60 s); [|intros [= <- <-]; exists []; by split; [|constructor]].
  destruct (take_char 60 s) as [s1|] eqn:E1; [|done]. cbn [res_bind].
  destruct (arguments_loop class_name fuel s1) as [[vs s2]|] eqn:El; [|done]. cbn [res_bind].
  destruct (take_char 62 s2) as [s3|] eqn:E2; [|done]. intros [= <- <-].
  apply take_char_ok in E1 as ->. apply IHl in El as (e & -> & He). apply take_char_ok in E2 as ->.
  exists (60 :: e ++ [62]). split; [cbn; by rewrite <- app_assoc|by constructor].
Qed.

Lemma list_step fuel : sound fuel -> forall s ts r,
  arguments_loop class_name (S fuel) s = Ok (ts, r) -> exists e, s = e ++ r /\ sig_list e ts.
Proof.
  intros [IHt IHa IHl IHn].
  intros s ts r. cbn [arguments_loop]. destruct (peek_is 62 s); [intros [= <- <-]; exists []; by split; [|constructor]|].
  assert (Hcons : forall s0 (m : res (pystr * pystr)),
    (let* (value, s1) := m in let* (values, s2) := arguments_loop class_name fuel s1 in Ok (value :: values, s2)) = Ok (ts, r) ->
    m = s0 -> exists v s1 vs e, s0 = Ok (v, s1) /\ ts = v :: vs /\ s1 = e ++ r /\ sig_list e vs).
  { intros s0 m Hm <-. destruct m as [[v s1]|]; [|done]. cbn [res_bind] in Hm.
    destruct (arguments_loop class_name fuel s1) as [[vs s2]|] eqn:El; [|done]. injection Hm as <- <-.
    apply IHl in El as (e & -> & He). by exists v, (e ++ s2), vs, e. }
  intros Hs. destruct (Hcons _ _ Hs eq_refl) as (v & s1 & vs & e & Hv & -> & -> & He). clear Hs Hcons.
  destruct s as [|c s]; [by destruct fuel|].
  destruct (c =? 42) eqn:E1.
  { apply Z.eqb_eq in E1 as ->. injection Hv as <- ->. exists (42 :: e). by split; [|constructor]. }
  destruct (c =? 43) eqn:E2; cbn [orb] in Hv.
  { apply Z.eqb_eq in E2 as ->. destruct (type_ class_name fuel s) as [[t s2]|] eqn:Et; [|done]. injection Hv as <- ->.
    apply IHt in Et as (e1 & -> & He1). exists (43 :: e1 ++ e). split; [cbn; by rewrite <- app_assoc|by constructor]. }
  destruct (c =? 45) eqn:E3; cbn [orb] in Hv.
  { apply Z.eqb_eq in E3 as ->. destruct (type_ class_name fuel s) as [[t s2]|] eqn:Et; [|done]. injection Hv as <- ->.
    apply IHt in Et as (e1 & -> & He1). exists (45 :: e1 ++ e). split; [cbn; by rewrite <- app_assoc|by constructor]. }
  apply IHt in Hv as (e1 & Hs & He1). exists (e1 ++ e). split; [by rewrite Hs, <- app_assoc|by constructor].
Qed.

Lemma nested_step fuel : sound fuel -> forall s b v t r,
  nested_loop class_name (S fuel) b v s = Ok (t, r) -> exists e, s = e ++ r /\ sig_nested b v e t.
Proof.
  intros [IHt IHa IHl IHn].
  intros s b v t r. cbn [nested_loop]. destruct (peek_is 46 s); [|intros [= <- <-]; exists []; by split; [|constructor]].
  destruct (take_char 46 s) as [s1|] eqn:E1; [|done]. cbn [res_bind].
  destruct (take_name class_stops s1) as [[n s2]|] eqn:En; [|done]. cbn [res_bind].
  destruct (class_name (b ++ 36 :: n)) as [name|] eqn:Ecn; [|done]. cbn [res_bind].
  destruct (arguments class_name fuel s2) as [[args s3]|] eqn:Ea; [|done]. cbn [res_bind].
  intros Hl. apply take_char_ok in E1 as ->. apply take_name_ok in En as (-> & Hw & _).
  apply IHa in Ea as (ea & -> & Ha). apply IHn in Hl as (en & -> & Hn).
  exists (46 :: n ++ ea ++ en). split; [cbn; by rewrite <- !app_assoc|by econstructor].
Qed.

Lemma parser_sound fuel : sound fuel.
Proof.
  induction fuel as [|fuel IH]; [by split|].
  split; [by apply type_step|by apply arguments_step|by apply list_step|by apply nested_step].
Qed.

(** ** Whatever is in the grammar is parsed *)

(** What may follow: an argument list or an inner class must not be able to go on. *)
Definition completes {A} (p : nat -> pystr -> res (A * pystr)) (e : pystr) (a : A) (extra : nat) (next : pystr -> Prop) : Prop :=
  forall fuel rest, (2 * length e + extra < fuel)%nat -> next rest -> p fuel (e ++ rest) = Ok (a, rest).

Lemma nested_head b v e v' rest :
  sig_nested b v e v' -> exists c r, e ++ 59 :: rest = c :: r /\ c ∈ class_stops /\ c <> 60.
Proof.
  destruct 1; do 2 eexists; (split; [reflexivity|]); (split; [by apply (bool_decide_unpack _)|done]).
Qed.

Lemma arguments_head ea args c r :
  sig_arguments ea args -> c ∈ class_stops -> exists d r', ea ++ c :: r = d :: r' /\ d ∈ class_stops.
Proof.
  destruct 1; [by exists c, r|]. do 2 eexists. split; [reflexivity|]. by apply (bool_decide_unpack _).
Qed.

Lemma take_name_word stops n rest :
  word stops n -> (exists c r, rest = c :: r /\ c ∈ stops) -> take_name stops (n ++ rest) = Ok (n, rest).
Proof. intros Hw Hr. apply take_name_ok. auto. Qed.

Lemma peek_is_ne c d r : d <> c -> peek_is c (d :: r) = false.
Proof. intros. by apply Z.eqb_neq. Qed.

Definition type_complete (e t : pystr) : Prop := completes (type_ class_name) e t 0 (fun _ => True).
Definition arguments_complete (e t : pystr) : Prop :=
  sig_arguments e t /\ completes (arguments class_name) e t 0 (fun rest => peek_is 60 rest = false).
Definition list_complete (e : pystr) (ts : list pystr) : Prop :=
  completes (arguments_loop class_name) e ts 1 (fun rest => peek_is 62 rest = true).
Definition nested_complete (b v e t : pystr) : Prop :=
  sig_nested b v e t /\
  completes (fun fuel => nested_loop class_name fuel b v) e t 0 (fun rest => exists r, rest = 59 :: r).

Lemma class_complete binary name ea args en value :
  word class_stops binary -> class_name binary = Ok name -> arguments_complete ea args ->
  nested_complete binary (dots name ++ args) en value -> type_complete (76 :: binary ++ ea ++ en ++ [59]) value.
Proof.
  intros Hw Hc [Ha IHa] [Hn IHn] [|fuel] rest Hf _; [lia|]. cbn [length] in Hf. rewrite !length_app in Hf. simpl in Hf.
  cbn [app type_]. change (primitive _PRIMITIVES 76) with (@None pystr). cbn [Z.eqb Pos.eqb].
  rewrite <- !app_assoc. cbn [app].
  destruct (nested_head _ _ _ _ rest Hn) as (c & r & E & Hcs & Hc60).
  destruct (arguments_head _ _ c r Ha Hcs) as (d & r' & E' & Hd).
  rewrite take_name_word by (done || (rewrite E, E'; eauto)). cbn [res_bind]. rewrite Hc. cbn [res_bind].
  rewrite IHa by (lia || (rewrite E; by apply peek_is_ne)).
  cbn [res_bind]. rewrite IHn by (lia || eauto). cbn [res_bind take_char]. by rewrite Z.eqb_refl.
Qed.

Lemma nested_step_complete binary value n name ea args en value' :
  word class_stops n -> class_name (binary ++ 36 :: n) = Ok name -> arguments_complete ea args ->
  nested_complete (binary ++ 36 :: n) (value ++ 46 :: after_last 46 (dots name) ++ args) en value' ->
  nested_complete binary value (46 :: n ++ ea ++ en) value'.
Proof.
  intros Hw Hc [Ha IHa] [Hn IHn]. split; [by econstructor|]. intros [|fuel] rest Hf [r0 ->]; [lia|].
  cbn [length] in Hf. rewrite !length_app in Hf. cbn [app nested_loop peek_is take_char Z.eqb Pos.eqb res_bind].
  rewrite <- !app_assoc. destruct (nested_head _ _ _ _ r0 Hn) as (c & r & E & Hcs & Hc60).
  destruct (arguments_head _ _ c r Ha Hcs) as (d & r' & E' & Hd).
  rewrite take_name_word by (done || (rewrite E, E'; eauto)). cbn [res_bind]. rewrite Hc. cbn [res_bind].
  rewrite IHa by (lia || (rewrite E; by apply peek_is_ne)). cbn [res_bind]. apply IHn; [lia|eauto].
Qed.

Lemma list_cons_complete lead prefix e1 t e values :
  (lead = [43] /\ prefix = u "? extends " \/ lead = [45] /\ prefix = u "? super " \/ lead = [] /\ prefix = []) ->
  sig_type e1 t -> type_complete e1 t -> list_complete e values ->
  list_complete (lead ++ e1 ++ e) ((prefix ++ t) :: values).
Proof.
  intros Hlead Hs Ht Hl [|fuel] rest Hf Hr; [lia|]. rewrite !length_app in Hf.
  destruct (sig_type_head _ _ Hs) as (c & r & -> & Hc). cbn [length] in Hf.
  assert (Hrest : arguments_loop class_name fuel (e ++ rest) = Ok (values, rest)).
  { apply Hl; [|done]. destruct Hlead as [[-> _]|[[-> _]|[-> _]]]; simpl in Hf; lia. }
  assert (Htype : type_ class_name fuel ((c :: r) ++ e ++ rest) = Ok (t, e ++ rest)).
  { apply Ht; [|done]. destruct Hlead as [[-> _]|[[-> _]|[-> _]]]; simpl in Hf |- *; lia. }
  destruct Hlead as [[-> ->]|[[-> ->]|[-> ->]]]; rewrite <- ?app_assoc; cbn [app arguments_loop peek_is];
    rewrite <- ?app_assoc; cbn [Z.eqb Pos.eqb orb]; [| |
      rewrite !(proj2 (Z.eqb_neq c _)) by lia; cbn [orb]];
    cbn [app] in Htype; rewrite Htype; cbn [res_bind]; by rewrite Hrest.
Qed.

Lemma parser_complete :
  (forall e t, sig_type e t -> type_complete e t) /\ (forall e t, sig_arguments e t -> arguments_complete e t) /\
  (forall e ts, sig_list e ts -> sig_list e ts /\ list_complete e ts) /\ (forall b v e t, sig_nested b v e t -> nested_complete b v e t).
Proof.
  apply sig_mutual.
  - intros c name Hp [|fuel] rest Hf _; [lia|]. cbn [app type_]. by rewrite Hp.
  - intros e t _ IH [|fuel] rest Hf _; [lia|]. cbn [length] in Hf. cbn [app type_]. 
    change (primitive _PRIMITIVES 91) with (@None pystr). cbn [Z.eqb Pos.eqb]. by rewrite IH by (lia || done).
  - intros n Hw [|fuel] rest Hf _; [lia|]. cbn [app type_].
    change (primitive _PRIMITIVES 84) with (@None pystr). cbn [Z.eqb Pos.eqb]. rewrite <- app_assoc.
    rewrite take_name_word; [|done|]; [cbn [app res_bind take_char]; by rewrite Z.eqb_refl|].
    exists 59, rest. split; [done|]. left.
  - intros binary name ea args en value Hw Hc _ IHa _ IHn. by eapply class_complete.
  - split; [constructor|]. intros [|fuel] rest Hf Hr; [lia|]. cbn [app arguments]. by rewrite Hr.
  - intros e values Hl [_ IH]. split; [by constructor|]. intros [|fuel] rest Hf Hr; [lia|].
    cbn [length] in Hf. rewrite length_app in Hf. simpl in Hf.
    cbn [app arguments peek_is take_char Z.eqb Pos.eqb res_bind]. rewrite <- app_assoc.
    rewrite IH by (lia || done). cbn [app res_bind take_char]. by rewrite Z.eqb_refl.
  - split; [constructor|]. intros [|fuel] rest Hf Hr; [lia|]. cbn [app arguments_loop]. by rewrite Hr.
  - intros e values Hl [_ IH]. split; [by constructor|]. intros [|fuel] rest Hf Hr; [lia|]. cbn [length] in Hf.
    cbn [app arguments_loop peek_is Z.eqb Pos.eqb res_bind]. by rewrite IH by (lia || done).
  - intros e1 t e values Hs Ht Hl [_ IH]. split; [by constructor|].
    apply (list_cons_complete [43] (u "? extends ")); auto.
  - intros e1 t e values Hs Ht Hl [_ IH]. split; [by constructor|].
    apply (list_cons_complete [45] (u "? super ")); auto.
  - intros e1 t e values Hs Ht Hl [_ IH]. split; [by constructor|]. apply (list_cons_complete [] []); auto.
  - intros b v. split; [constructor|]. intros [|fuel] rest Hf [r ->]; [lia|]. done.
  - intros b v n name ea args en v' Hw Hc _ IHa _ IHn. by eapply nested_step_complete.
Qed.

(** C25: the parser of types accepts exactly the signatures of its own grammar [sig_type], gives each its
    Java text, and stops where the signature ends; so a signature has one text.  The grammar is more
    permissive than that of the class files: it has arrays of [void], primitive types as arguments and
    empty lists of arguments. *)
Theorem parse_type_grammar s t rest :
  parse_type class_name s = Ok (t, rest) <-> exists e, s = e ++ rest /\ sig_type e t.
Proof.
  unfold parse_type. split.
  - intros Hp. by apply (type_sound _ (parser_sound _)) in Hp.
  - intros (e & -> & He). destruct parser_complete as [Hc _]. apply (Hc _ _ He); [|done].
    rewrite length_app. lia.
Qed.

(** ** The fuel is enough *)

Hypothesis class_name_returns : forall n, class_name n <> Err OutOfFuel.

(** A result that is no [OutOfFuel] and leaves no more than [n] characters. *)
Definition ends {A} (n : nat) (m : res (A * pystr)) : Prop :=
  match m with Ok (_, r) => (length r <= n)%nat | Err e => e <> OutOfFuel end.

Lemma ends_bind {A B} n n' (m : res (A * pystr)) (k : A * pystr -> res (B * pystr)) :
  ends n m -> (forall a r, (length r <= n)%nat -> ends n' (k (a, r))) -> ends n' (res_bind m k).
Proof. destruct m as [[a r]|e]; cbn; auto. Qed.

Lemma ends_take_char {B} n c s (k : pystr -> res (B * pystr)) :
  (forall r, s = c :: r -> ends n (k r)) -> ends n (res_bind (take_char c s) k).
Proof.
  intros Hk. destruct s as [|d s]; cbn [take_char]; [done|]. destruct (d =? c) eqn:E; [|done].
  apply Z.eqb_eq in E as ->. by apply Hk.
Qed.

Lemma ends_take_name stops s : ends (length s - 1) (take_name stops s).
Proof.
  destruct (take_name stops s) as [[n r]|e] eqn:E.
  - apply take_name_ok in E as (-> & [Hne _] & _). cbn. rewrite length_app. destruct n; [done|]. simpl. lia.
  - unfold take_name in E. destruct (name_chars stops s) as [[|? ?] ?]; [|done]. injection E as <-. done.
Qed.

Lemma ends_class_name {B} n name (k : pystr -> res (B * pystr)) :
  (forall v, ends n (k v)) -> ends n (res_bind (class_name name) k).
Proof. pose proof (class_name_returns name). destruct (class_name name) as [v|e]; cbn; [auto|congruence]. Qed.

Lemma parser_ends fuel :
  (forall s, (2 * length s < fuel)%nat -> ends (length s - 1) (type_ class_name fuel s)) /\
  (forall s, (2 * length s < fuel)%nat -> ends (length s) (arguments class_name fuel s)) /\
  (forall s, (2 * length s + 1 < fuel)%nat -> ends (length s) (arguments_loop class_name fuel s)) /\
  (forall s b v, (2 * length s < fuel)%nat -> ends (length s) (nested_loop class_name fuel b v s)).
Proof.
  assert (Hw : forall A n n' (m : res (A * pystr)), ends n m -> (n <= n')%nat -> ends n' m).
  { intros A n n' [[a r]|e]; cbn; [lia|done]. }
  induction fuel as [|fuel (IHt & IHa & IHl & IHn)]; [repeat split; intros; lia|]. split; [|split; [|split]].
  - intros [|c s] Hf; cbn [type_]; [done|]. cbn [length] in Hf.
    destruct (primitive _PRIMITIVES c); [cbn; lia|]. destruct (c =? 91).
    { eapply ends_bind; [apply IHt; lia|]. intros a r Hr. cbn in *. lia. }
    destruct (c =? 84).
    { eapply ends_bind; [apply ends_take_name|]. intros n r Hr. apply ends_take_char. intros r' ->. cbn in *. lia. }
    destruct (c =? 76); [|done]. eapply ends_bind; [apply ends_take_name|]. intros n r Hr. apply ends_class_name. intros v.
    eapply ends_bind; [apply IHa; lia|]. intros args r2 Hr2. eapply ends_bind; [apply IHn; lia|]. intros v2 r3 Hr3.
    apply ends_take_char. intros r4 ->. cbn in *. lia.
  - intros s Hf. cbn [arguments]. destruct (peek_is 60 s); [|cbn; lia]. apply ends_take_char. intros r ->. cbn [length] in *.
    eapply ends_bind; [apply IHl; lia|]. intros vs r2 Hr2. apply ends_take_char. intros r3 ->. cbn in *. lia.
  - intros s Hf. cbn [arguments_loop]. destruct (peek_is 62 s); [cbn; lia|].
    destruct s as [|c s]; [destruct fuel; [simpl in Hf; lia|done]|]. cbn [length] in *.
    apply (ends_bind (length s)).
    + destruct (c =? 42); [cbn; lia|]. assert (Ht : ends (length s) (type_ class_name fuel (c :: s))).
      { eapply Hw; [apply IHt; simpl; lia|]. simpl. lia. }
      destruct (_ || _); [|done]. eapply ends_bind; [apply IHt; lia|]. intros t r Hr. cbn. lia.
    + intros v r Hr. eapply ends_bind; [apply IHl; lia|]. intros vs r2 Hr2. cbn in *. lia.
  - intros s b v Hf. cbn [nested_loop]. destruct (peek_is 46 s); [|cbn; lia]. apply ends_take_char. intros r ->.
    cbn [length] in *. eapply ends_bind; [apply ends_take_name|]. intros n r2 Hr2. apply ends_class_name. intros name.
    eapply ends_bind; [apply IHa; lia|]. intros args r3 Hr3. eapply Hw; [apply IHn; lia|lia].
Qed.

Lemma parse_type_ends s : ends (length s - 1) (parse_type class_name s).
Proof. apply parser_ends. lia. Qed.

Lemma parse_type_nil : parse_type class_name [] = invalid.
Proof. done. Qed.

Lemma bounds_loop_ends fuel s : (length s < fuel)%nat -> ends (length s) (bounds_loop class_name fuel s).
Proof.
  revert s. induction fuel as [|fuel IH]; intros s Hf; [lia|]. cbn [bounds_loop].
  destruct (peek_is 58 s); [|cbn; lia]. apply ends_take_char. intros r ->. cbn [length] in *.
  eapply ends_bind; [apply parse_type_ends|]. intros t r2 Hr2. eapply ends_bind; [apply IH; lia|].
  intros ts r3 Hr3. cbn in *. lia.
Qed.

Lemma types_loop_ends fuel continues lead s :
  (length s < fuel)%nat -> ends (length s) (types_loop class_name fuel continues lead s).
Proof.
  revert s. induction fuel as [|fuel IH]; intros s Hf; [lia|]. cbn [types_loop]. destruct (continues s); [|cbn; lia].
  assert (Hgo : forall s', (length s' <= length s)%nat ->
    ends (length s) (let* (t, s) := parse_type class_name s' in
                     let* (ts, s) := types_loop class_name fuel continues lead s in Ok (t :: ts, s))).
  { intros [|c s'] Hs'; [by rewrite parse_type_nil|]. cbn [length] in Hs'.
    eapply ends_bind; [apply parse_type_ends|]. intros t r Hr. cbn [length] in Hr.
    eapply ends_bind; [apply IH; lia|]. intros ts r2 Hr2. cbn in *. lia. }
  destruct lead as [c|]; [|by apply Hgo]. apply ends_take_char. intros r ->. apply Hgo. simpl. lia.
Qed.

Lemma class_bound_ends s : ends (length s) (class_bound class_name s).
Proof.
  unfold class_bound. destruct (_ && _); [|cbn; lia].
  eapply ends_bind; [apply parse_type_ends|]. intros t r Hr. cbn in *. lia.
Qed.

Lemma formals_loop_ends fuel s : (length s < fuel)%nat -> ends (length s) (formals_loop class_name fuel s).
Proof.
  revert s. induction fuel as [|fuel IH]; intros s Hf; [lia|]. cbn [formals_loop]. destruct (peek_is 62 s); [cbn; lia|].
  eapply ends_bind; [apply ends_take_name|]. intros name r Hr. apply ends_take_char. intros r1 ->. cbn [length] in Hr.
  eapply ends_bind; [apply class_bound_ends|]. intros first r2 Hr2.
  eapply ends_bind; [apply bounds_loop_ends; lia|]. intros others r3 Hr3.
  eapply ends_bind; [apply IH; lia|]. intros fs r4 Hr4. cbn in *. lia.
Qed.

Lemma formals_ends s : ends (length s) (formals class_name s).
Proof.
  unfold formals. destruct (peek_is 60 s); [|cbn; lia]. apply ends_take_char. intros r ->.
  eapply ends_bind; [apply formals_loop_ends; lia|]. intros fs r2 Hr2. apply ends_take_char. intros r3 ->. cbn in *. lia.
Qed.

(** Every signature, of a class, a method or a field, well formed or not, is either read or
    refused: the loops of the parser end, whatever they are given. *)
Theorem generic_contract_ends signature kind : generic_contract class_name signature kind <> Err OutOfFuel.
Proof.
  unfold generic_contract. destruct signature as [|c0 s0]; [done|]. set (s := c0 :: s0).
  assert (Hend : forall A (m : res (A * pystr)) (k : A * pystr -> res generic), ends (length s) m ->
    (forall a r, (length r <= length s)%nat -> k (a, r) <> Err OutOfFuel) -> res_bind m k <> Err OutOfFuel).
  { intros A [[a r]|e] k; cbn; [auto|]. intros He _ [= ->]. done. }
  eapply Hend; [apply formals_ends|]. intros parameters r Hr. clearbody s.
  eapply (Hend _ _ _); [|intros result [|] _; done].
  destruct kind.
  - eapply ends_bind; [apply parse_type_ends|]. intros t r1 Hr1. eapply ends_bind; [apply types_loop_ends; lia|].
    intros ts r2 Hr2. cbn in *. lia.
  - apply ends_take_char. intros r1 ->. cbn [length] in *. eapply ends_bind; [apply types_loop_ends; lia|].
    intros ts r2 Hr2. apply ends_take_char. intros r3 ->. cbn [length] in *.
    eapply ends_bind; [apply parse_type_ends|]. intros t r4 Hr4. eapply ends_bind; [apply types_loop_ends; lia|].
    intros th r5 Hr5. cbn in *. lia.
  - eapply ends_bind; [apply parse_type_ends|]. intros t r1 Hr1. cbn in *. lia.
Qed.

End grammar.
