(* ===== verification/SignatureExamples.v ===== *)
(** * SignatureExamples: a mapping file and two signatures *)

From stdpp Require Import prelude gmap strings list.
From S2P Require Import Prelude Text Json TinyMappings GenericSignature.

Open Scope Z_scope.
Open Scope py_scope.

Definition spaces : list pystr := map u ["official"; "named"].

Definition lamp_class : tiny_class := TinyClass (map u ["a"; "mod/Lamp"]) [(u "m", u "(La;)V", map u ["b"; "glow"])].
Definition timer_class : tiny_class := TinyClass (map u ["c"; "mod/Timer"]) [].

Lemma lamp_field_ok f :
  bool_decide (tab ∉ f) && forallb (fun c => negb (line_break c)) f = true -> field_ok f.
Proof. apply field_ok_dec. Qed.

Lemma lamp_tiny_ok : tiny_ok spaces [lamp_class; timer_class].
Proof.
  split.
  - simpl. lia.
  - apply (bool_decide_unpack _). vm_compute. exact I.
  - repeat (constructor; [apply lamp_field_ok; vm_compute; reflexivity|]). constructor.
  - repeat constructor; try (apply lamp_field_ok; vm_compute; reflexivity); try discriminate.
  - apply (bool_decide_unpack _). vm_compute. exact I.
Qed.

Lemma parse_tiny_text_witness :
  parse_tiny (tiny_text spaces [lamp_class; timer_class]) = Ok (mappings_of spaces [lamp_class; timer_class]).
Proof. exact (parse_tiny_text spaces [lamp_class; timer_class] lamp_tiny_ok). Defined.

Definition lamp_mappings : TinyMappings := mappings_of spaces [lamp_class; timer_class].

Definition lamp_descriptor : pystr := u "(La;ILjava/lang/String;)Lc;".

Lemma lamp_type_names :
  type_names (S (length lamp_descriptor)) lamp_descriptor = [u "a"; u "java/lang/String"; u "c"].
Proof. vm_compute. reflexivity. Qed.

Lemma lamp_reversible name :
  name ∈ type_names (S (length lamp_descriptor)) lamp_descriptor -> reversible lamp_mappings (u "official") (u "named") name.
Proof.
  rewrite lamp_type_names. intros Hin a b [= <- <-].
  assert (Hname : name = u "a" \/ name = u "java/lang/String" \/ name = u "c").
  { rewrite !elem_of_cons, elem_of_nil in Hin. tauto. }
  destruct Hname as [-> |[-> | ->]].
  - left. exists (map u ["a"; "mod/Lamp"]). split; [left|]. by split.
  - right. intros (row & Hrow & Hn). unfold lamp_mappings, mappings_of in Hrow. cbn [classes map] in Hrow.
    rewrite !elem_of_cons, elem_of_nil in Hrow. destruct Hrow as [-> |[-> |[]]]; by destruct Hn.
  - left. exists (map u ["c"; "mod/Timer"]). split; [right; left|]. by split.
Qed.

Lemma translation_roundtrip_witness :
  descriptor lamp_mappings lamp_descriptor (u "official") (u "named") =
    Ok (u "(Lmod/Lamp;ILjava/lang/String;)Lmod/Timer;") /\
  descriptor lamp_mappings (u "(Lmod/Lamp;ILjava/lang/String;)Lmod/Timer;") (u "named") (u "official") =
    Ok lamp_descriptor.
Proof.
  assert (Hd : descriptor lamp_mappings lamp_descriptor (u "official") (u "named") =
               Ok (u "(Lmod/Lamp;ILjava/lang/String;)Lmod/Timer;")) by (vm_compute; reflexivity).
  split; [exact Hd|].
  apply (translation_roundtrip lamp_mappings (u "official") (u "named") _ _ Hd).
  - exact lamp_reversible.
  - apply (bool_decide_unpack _). vm_compute. exact I.
Defined.

Lemma member_translated :
  member lamp_mappings (u "a") (u "b") (u "(La;)V") (u "m") (u "official") (u "named") =
  Ok (u "mod/Lamp", u "glow", u "(Lmod/Lamp;)V").
Proof. vm_compute. reflexivity. Qed.

(** A method before the first class is dropped. *)
Lemma ownerless_member_dropped :
  parse_tiny (tiny_text spaces [] ++ u "	m	()V	b	glow") = Ok (Tiny spaces [] []).
Proof. vm_compute. reflexivity. Qed.

Lemma method_signature :
  generic_contract Ok (u "<T:Ljava/lang/Object;E::Lmod/Glow<-TT;>;>(TT;[I)Lmod/Map<*TE;>.Entry;^Lmod/Lost;") MethodKind =
  Ok (Generic (Some [u "T extends java.lang.Object"; u "E extends mod.Glow<? super T>"]) None None
        (Some [u "T"; u "int[]"]) (Some (u "mod.Map<?, E>.Entry")) (Some [u "mod.Lost"])).
Proof. vm_compute. reflexivity. Qed.

Lemma generic_contract_ends_witness : generic_contract Ok (u "<T:") ClassKind <> Err OutOfFuel.
Proof. apply (generic_contract_ends Ok). intros n. discriminate. Defined.
