(* ===== verification/DependencyResolver.v ===== *)
(** * DependencyResolver: [dependency_resolver.py]

    The reviewed dependencies with their coordinates for a loader and a version of the
    game, and their injection into a Gradle script.  The search for declared dependencies
    in the files of a donor is made of regular expressions and is left out. *)

From stdpp Require Import prelude gmap strings list.
From S2P Require Import Prelude Text Json PyJson JsonStream Sha256 Replace.

Open Scope Z_scope.
Open Scope py_scope.

Record DependencyResolutionReceipt : Type := Resolution {
  donor_declared_coordinate : pystr; requested_constraint : pystr; target_loader : pystr; target_minecraft : pystr;
  resolved_coordinate : pystr; repository : pystr; selected_version : pystr; gradle_configuration : pystr;
  artifact_hash : pystr; resolution_fingerprint : pystr; resolution_reason : pystr; is_resolved : bool
}.

(** [coordinate.rsplit(":", 1)[0]] *)
Definition before_last (c : Z) (s : pystr) : pystr :=
  if contains c s then reverse (drop 1 (drop (length (before_first c (reverse s))) (reverse s))) else s.

Definition dependency_name (r : DependencyResolutionReceipt) : pystr :=
  if bool_decide (resolved_coordinate r = []) then donor_declared_coordinate r else before_last 58 (resolved_coordinate r).

Definition resolution_dict `{PyFloat} (r : DependencyResolutionReceipt) : json :=
  JObj [(u "donor_declared_coordinate", JStr (donor_declared_coordinate r));
        (u "requested_constraint", JStr (requested_constraint r)); (u "target_loader", JStr (target_loader r));
        (u "target_minecraft", JStr (target_minecraft r)); (u "resolved_coordinate", JStr (resolved_coordinate r));
        (u "repository", JStr (repository r)); (u "repository_url", JStr (repository r));
        (u "selected_version", JStr (selected_version r)); (u "gradle_configuration", JStr (gradle_configuration r));
        (u "artifact_hash", JStr (artifact_hash r)); (u "resolution_fingerprint", JStr (resolution_fingerprint r));
        (u "resolution_reason", JStr (resolution_reason r)); (u "is_resolved", JBool (is_resolved r))].

(** ** The registry *)

Inductive version_row : Type := Version (version : pystr) | PerLoader (versions : list (pystr * pystr)).

Record registry_entry : Type := RegistryEntry {
  aliases : list pystr; entry_repository : pystr; entry_group : pystr; name_by_loader : list (pystr * pystr);
  version_matrix : list (pystr * version_row)
}.

Definition _CANONICAL_DEPENDENCY_REGISTRY : list (pystr * registry_entry) :=
  [(u "geckolib",
     RegistryEntry
       (map u ["geckolib"; "geckolib_fabric"; "geckolib_neoforge"; "geckolib_forge";
         "software.bernie.geckolib:geckolib-fabric"; "software.bernie.geckolib:geckolib-neoforge";
         "software.bernie.geckolib:geckolib-forge"])
       (u "https://dl.cloudsmith.io/public/geckolib3/geckolib/maven/") (u "software.bernie.geckolib")
       [(u "fabric", u "geckolib-fabric"); (u "neoforge", u "geckolib-neoforge"); (u "forge", u "geckolib-forge")]
       [(u "1.21.1", Version (u "4.6.0")); (u "1.21", Version (u "4.5.0")); (u "1.20.1", Version (u "4.4.4"));
         (u "1.19.2", Version (u "4.0.0"))]);
   (u "cloth_config",
     RegistryEntry
       (map u ["cloth_config"; "cloth-config"; "cloth_config_fabric"; "cloth_config_neoforge";
         "cloth_config_forge"; "me.shedaniel.cloth:cloth-config-fabric";
         "me.shedaniel.cloth:cloth-config-neoforge"; "me.shedaniel.cloth:cloth-config-forge"])
       (u "https://maven.shedaniel.me/") (u "me.shedaniel.cloth")
       [(u "fabric", u "cloth-config-fabric"); (u "neoforge", u "cloth-config-neoforge");
         (u "forge", u "cloth-config-forge")]
       [(u "1.21.1", Version (u "15.0.127")); (u "1.21", Version (u "15.0.120"));
         (u "1.20.1", Version (u "11.1.106"))]);
   (u "cardinal_components",
     RegistryEntry
       (map u ["cardinal_components"; "cardinal-components"; "cardinal_components_api";
         "cardinal-components-api"; "cardinal_components_base"; "cardinal-components-base";
         "dev.onyxstudios.cardinal-components-api:cardinal-components-api";
         "dev.onyxstudios.cardinal-components-api:cardinal-components-base"])
       (u "https://ladysnake.jfrog.io/artifactory/mods") (u "dev.onyxstudios.cardinal-components-api")
       [(u "fabric", u "cardinal-components-api")]
       [(u "1.21.1", Version (u "6.1.1")); (u "1.21", Version (u "6.0.0")); (u "1.20.1", Version (u "5.2.2"))]);
   (u "patchouli",
     RegistryEntry
       (map u ["patchouli"; "vazkii.patchouli:patchouli"])
       (u "https://maven.blamejared.com/") (u "vazkii.patchouli")
       [(u "fabric", u "Patchouli"); (u "neoforge", u "Patchouli"); (u "forge", u "Patchouli")]
       [(u "1.21.1", PerLoader [(u "fabric", u "1.21.1-84-FABRIC"); (u "neoforge", u "1.21.1-84-NEOFORGE");
         (u "forge", u "1.21.1-84-FORGE")]); (u "1.20.1", PerLoader [(u "fabric", u "1.20.1-84-FABRIC");
         (u "forge", u "1.20.1-84-FORGE")])])].

Section resolver.
Context `{PyCasefold}.

Definition _normalized_dependency_token (raw : pystr) : pystr :=
  let value := strip raw in
  if bool_decide (value = []) then []
  else
    let value := match split_on 58 value with
                 | group :: artifact :: _ => join [58] [group; artifact]
                 | _ => value
                 end in
    map (fun c => if c =? 45 then 95 else c) (casefold value).

(** The names that an entry goes by. *)
Definition entry_aliases (key : pystr) (entry : registry_entry) : list pystr :=
  aliases entry ++ [key] ++
  concat (map (fun row => [row.2; entry_group entry ++ 58 :: row.2]) (name_by_loader entry)).

Fixpoint index_aliases (key : pystr) (names : list pystr) (index : gmap pystr pystr) : res (gmap pystr pystr) :=
  match names with
  | [] => Ok index
  | alias :: names =>
      let token := _normalized_dependency_token alias in
      if bool_decide (token = []) then index_aliases key names index
      else
        match index !! token with
        | Some previous =>
            if bool_decide (previous = key) then index_aliases key names (<[token := key]> index)
            else Err (RuntimeError "Dependency alias collision")
        | None => index_aliases key names (<[token := key]> index)
        end
  end.

Fixpoint build_index (entries : list (pystr * registry_entry)) (index : gmap pystr pystr) : res (gmap pystr pystr) :=
  match entries with
  | [] => Ok index
  | (key, entry) :: entries => let* index := index_aliases key (entry_aliases key entry) index in build_index entries index
  end.

Definition _build_dependency_alias_index : res (gmap pystr pystr) := build_index _CANONICAL_DEPENDENCY_REGISTRY ∅.

(** The index is built when the module is imported. *)
Definition _canonical_dependency_key (raw : pystr) : res pystr :=
  let* index := _build_dependency_alias_index in
  let token := _normalized_dependency_token raw in
  Ok (if bool_decide (token = []) then [] else default [] (index !! token)).

Definition _selected_version (entry : registry_entry) (loader minecraft : pystr) : pystr :=
  let row := match dict_get minecraft (version_matrix entry) with
             | Some row => Some row
             | None => dict_get (join [46] (take 2 (split_on 46 minecraft))) (version_matrix entry)
             end in
  match row with
  | Some (PerLoader versions) => strip (default [] (dict_get (casefold loader) versions))
  | Some (Version version) => strip version
  | None => []
  end.

Definition _resolution_fingerprint (repository coordinate configuration loader minecraft : pystr) : res pystr :=
  let* data := utf8_encode (join [10] [repository; coordinate; configuration; casefold loader; minecraft]) in
  Ok (u "sha256:" ++ hexdigest data).

Context `{PyUnicode}.

Definition resolve_dependency_for_target (dep_name target_loader target_minecraft : pystr)
    : res DependencyResolutionReceipt :=
  let loader := casefold (strip target_loader) in
  let minecraft := strip target_minecraft in
  let constraint := loader ++ 64 :: minecraft in
  let unresolved constraint repository reason :=
    Ok (Resolution dep_name constraint loader minecraft [] repository [] [] [] [] reason false) in
  let* key := _canonical_dependency_key dep_name in
  match dict_get key _CANONICAL_DEPENDENCY_REGISTRY with
  | None => unresolved dep_name [] (u "NO_VERIFIED_COORDINATE")
  | Some entry =>
      match default [] (dict_get loader (name_by_loader entry)) with
      | [] => unresolved constraint (entry_repository entry) (u "UNSUPPORTED_LOADER_" ++ upper loader)
      | artifact_name =>
          let version := _selected_version entry loader minecraft in
          if bool_decide (version = [])
          then unresolved constraint (entry_repository entry) (u "NO_COMPATIBLE_VERSION_FOR_MC_" ++ minecraft)
          else
            let coordinate := join [58] [entry_group entry; artifact_name; version] in
            let configuration := if bool_decide (loader = u "fabric") then u "modImplementation" else u "implementation" in
            let* fingerprint :=
              _resolution_fingerprint (entry_repository entry) coordinate configuration loader minecraft in
            Ok (Resolution dep_name constraint loader minecraft coordinate (entry_repository entry) version configuration
                  [] fingerprint (u "exact_matrix_match") true)
      end
  end.

End resolver.

(** ** Injection *)

Definition quote (kotlin : bool) (s : pystr) : pystr := if kotlin then 34 :: s ++ [34] else 39 :: s ++ [39].

Definition _gradle_repo_line (kotlin : bool) (repository : pystr) : pystr :=
  u "    maven { url = uri(" ++ quote kotlin repository ++ u ") }" ++ [10].

Definition _gradle_dependency_line (kotlin : bool) (dependency : pystr * pystr) : pystr :=
  u "    " ++ dependency.1 ++
  (if kotlin then [40] ++ quote kotlin dependency.2 ++ [41] else 32 :: quote kotlin dependency.2) ++ [10].

(** The lines go behind the first marker, or into a block of their own at the end. *)
Definition insert_lines (block : pystr) (lines modified : pystr) : pystr :=
  let marker := block ++ u " {" in
  if occurs marker modified then str_replace marker (marker ++ 10 :: lines) 1 modified
  else modified ++ 10 :: marker ++ 10 :: lines ++ u "}" ++ [10].

Definition complete_receipt (r : DependencyResolutionReceipt) : bool :=
  negb (bool_decide (resolved_coordinate r = []) || bool_decide (repository r = []) ||
        bool_decide (gradle_configuration r = []) || bool_decide (resolution_fingerprint r = [])).

(** [not in modified] of what was asked for, and the text with the lines for what is missing. *)
Definition insert_missing {A} (block : pystr) (needle line : A -> pystr) (wanted : list A) (modified : pystr)
    : pystr * bool :=
  match filter (fun a => occurs (needle a) modified = false) wanted with
  | [] => (modified, false)
  | missing => (insert_lines block (concat (map line missing)) modified, true)
  end.

Definition inject_resolved_dependencies_into_build_gradle (build_content : pystr)
    (receipts : list DependencyResolutionReceipt) (is_kotlin_dsl : bool) : res (pystr * bool) :=
  match receipts with
  | [] => Ok (build_content, false)
  | _ =>
      if existsb (fun r => negb (is_resolved r)) receipts then Err ValueError
      else if existsb (fun r => negb (complete_receipt r)) receipts then Err ValueError
      else
        let repositories := from_keys (map repository receipts) in
        let dependencies := from_keys (map (fun r => (gradle_configuration r, resolved_coordinate r)) receipts) in
        let '(modified, changed1) :=
          insert_missing (u "repositories") (fun r => r) (_gradle_repo_line is_kotlin_dsl) repositories build_content in
        let '(modified, changed2) :=
          insert_missing (u "dependencies") snd (_gradle_dependency_line is_kotlin_dsl) dependencies modified in
        if forallb (fun r => occurs (resolved_coordinate r) modified && occurs (repository r) modified) receipts
        then Ok (modified, changed1 || changed2) else Err ValueError
  end.

(** * Resolved dependencies can be injected, once *)


Open Scope Z_scope.
Open Scope py_scope.

(** ** Insertion *)

Definition brace : Z := 123.

Lemma occurs_split c p s t : c ∉ p -> occurs p (s ++ c :: t) = true -> occurs p s = true \/ occurs p t = true.
Proof.
  intros Hp. induction s as [|d s IH].
  - cbn [app occurs]. rewrite orb_true_iff. change (c :: t) with ([] ++ c :: t). rewrite starts_with_stop by done.
    intros [Hs|Ht]; [left; by rewrite Hs|by right].
  - cbn [app occurs]. change (d :: s ++ c :: t) with ((d :: s) ++ c :: t). rewrite starts_with_stop by done.
    rewrite !orb_true_iff. intros [Hs|Ho]; [by left; left|]. destruct (IH Ho); auto.
Qed.

Lemma occurs_app p a b : occurs p a = true \/ occurs p b = true -> occurs p (a ++ b) = true.
Proof.
  rewrite !occurs_iff. intros [(x & y & ->)|(x & y & ->)].
  - exists x, (y ++ b). by rewrite <- !app_assoc.
  - exists (a ++ x), y. by rewrite <- !app_assoc.
Qed.

Lemma insert_lines_spec block lines m :
  (forall p, brace ∉ p -> occurs p m = true -> occurs p (insert_lines block lines m) = true) /\
  (forall p, occurs p lines = true -> occurs p (insert_lines block lines m) = true) /\
  m `sublist_of` insert_lines block lines m.
Proof.
  unfold insert_lines. set (marker := block ++ u " {"). destruct (occurs marker m) eqn:Ho.
  - apply occurs_leftmost in Ho as (a & t & -> & Hl).
    assert (Hne : marker <> []) by (unfold marker; by destruct block).
    destruct Hl as [?|Hl]; [done|].
    unfold str_replace. rewrite replace_from_match, replace_from_0 by done.
    assert (Hold : a ++ marker ++ t = (a ++ block ++ [32]) ++ brace :: t)
      by (unfold marker; rewrite <- !app_assoc; done).
    assert (Hnew : a ++ (marker ++ 10 :: lines) ++ t = (a ++ block ++ [32]) ++ [brace; 10] ++ lines ++ t)
      by (unfold marker; rewrite <- !app_assoc; done).
    rewrite Hold, Hnew. generalize (a ++ block ++ [32]). intros pre. split; [|split].
    + intros p Hp [Ho|Ho]%occurs_split; [by apply occurs_app; left| |done].
      do 3 (apply occurs_app; right). done.
    + intros p Hp. do 2 (apply occurs_app; right). apply occurs_app. by left.
    + apply sublist_app; [done|]. change (brace :: t) with ([brace] ++ t). apply sublist_app; [by apply sublist_skip, sublist_nil_l|].
      by apply sublist_inserts_l.
  - split; [|split].
    + intros p _ Hp. apply occurs_app. by left.
    + intros p Hp. apply occurs_app. right. change (10 :: marker ++ 10 :: lines ++ u "}" ++ [10])
        with ([10] ++ marker ++ [10] ++ lines ++ u "}" ++ [10]).
      do 3 (apply occurs_app; right). apply occurs_app. by left.
    + by apply sublist_inserts_r.
Qed.

Section insertion.
Context {A : Type} (block : pystr) (needle line : A -> pystr).
Hypothesis line_needle : forall a, occurs (needle a) (line a) = true.

Lemma occurs_concat a l : a ∈ l -> occurs (needle a) (concat (map line l)) = true.
Proof.
  induction l as [|b l IH]; [by intros ?%elem_of_nil|]. cbn [map concat].
  intros [->|Ha]%elem_of_cons; apply occurs_app; [left; apply line_needle|right; auto].
Qed.

Lemma insert_missing_spec wanted m :
  let '(m', changed) := insert_missing block needle line wanted m in
  ((forall a, a ∈ wanted -> brace ∉ needle a) -> forall a, a ∈ wanted -> occurs (needle a) m' = true) /\
  (forall p, brace ∉ p -> occurs p m = true -> occurs p m' = true) /\
  m `sublist_of` m' /\ (changed = false -> m' = m).
Proof.
  unfold insert_missing. destruct (filter _ wanted) as [|b l] eqn:E.
  - split; [|by auto]. intros _ a Ha. destruct (occurs (needle a) m) eqn:Ho; [done|]. exfalso.
    apply (not_elem_of_nil a). rewrite <- E. by apply list_elem_of_filter.
  - rewrite <- E. destruct (insert_lines_spec block (concat (map line (filter (fun a => occurs (needle a) m = false) wanted))) m)
      as (H1 & H2 & H3). split; [|by auto]. intros Hb a Ha. destruct (occurs (needle a) m) eqn:Ho.
    + apply H1; auto.
    + apply H2, occurs_concat. by apply list_elem_of_filter.
Qed.

Lemma insert_missing_none wanted m :
  (forall a, a ∈ wanted -> occurs (needle a) m = true) -> insert_missing block needle line wanted m = (m, false).
Proof.
  intros Hall. unfold insert_missing. destruct (filter _ wanted) as [|b l] eqn:E; [done|]. exfalso.
  assert (Hb : b ∈ b :: l) by left. rewrite <- E in Hb. apply list_elem_of_filter in Hb as [Hb1 Hb2].
  rewrite Hall in Hb1 by done. done.
Qed.
End insertion.

Lemma occurs_quote kotlin s : occurs s (quote kotlin s) = true.
Proof. apply occurs_iff. destruct kotlin; [exists [34], [34]|exists [39], [39]]; done. Qed.

Lemma repo_line_needle kotlin r : occurs r (_gradle_repo_line kotlin r) = true.
Proof. unfold _gradle_repo_line. apply occurs_app. right. apply occurs_app. left. apply occurs_quote. Qed.

Lemma dependency_line_needle kotlin d : occurs d.2 (_gradle_dependency_line kotlin d) = true.
Proof.
  unfold _gradle_dependency_line. do 2 (apply occurs_app; right). apply occurs_app. left. destruct kotlin.
  - apply occurs_app. right. apply occurs_app. left. apply occurs_quote.
  - change (32 :: quote false d.2) with ([32] ++ quote false d.2). apply occurs_app. right. apply occurs_quote.
Qed.

(** A receipt that can be injected: resolved, complete, and without a brace. *)
Definition injectable (r : DependencyResolutionReceipt) : Prop :=
  is_resolved r = true /\ complete_receipt r = true /\ brace ∉ resolved_coordinate r /\ brace ∉ repository r.

Lemma injectable_checks receipts :
  Forall injectable receipts ->
  existsb (fun r => negb (is_resolved r)) receipts = false /\ existsb (fun r => negb (complete_receipt r)) receipts = false.
Proof.
  intros Hall. rewrite Forall_forall in Hall. split; apply not_true_iff_false; rewrite existsb_exists;
    intros (r & Hr%list_elem_of_In & Hn); destruct (Hall r Hr) as (Hr1 & Hr2 & _); rewrite ?Hr1, ?Hr2 in Hn; done.
Qed.

(** The script that results names every repository and every coordinate, has lost nothing of the
    script it was made from, and is not changed when the same receipts are injected again. *)
Definition injected (script : pystr) (receipts : list DependencyResolutionReceipt) (kotlin : bool) : Prop :=
  exists script' changed,
    inject_resolved_dependencies_into_build_gradle script receipts kotlin = Ok (script', changed) /\
    (forall r, r ∈ receipts -> occurs (resolved_coordinate r) script' = true /\ occurs (repository r) script' = true) /\
    script `sublist_of` script' /\ (changed = false -> script' = script) /\
    inject_resolved_dependencies_into_build_gradle script' receipts kotlin = Ok (script', false).

Lemma inject_injectable script receipts kotlin :
  Forall injectable receipts -> injected script receipts kotlin.
Proof.
  intros Hall. unfold injected, inject_resolved_dependencies_into_build_gradle.
  destruct receipts as [|r0 rs]; [exists script, false; split; [done|]; split; [by intros ? ?%elem_of_nil|done]|].
  set (receipts := r0 :: rs) in *. clearbody receipts.
  destruct (injectable_checks receipts Hall) as [-> ->]. rewrite Forall_forall in Hall.
  set (repos := from_keys (map repository receipts)).
  set (deps := from_keys (map (fun r => (gradle_configuration r, resolved_coordinate r)) receipts)).
  assert (Hrepos : forall a, a ∈ repos <-> exists r, r ∈ receipts /\ a = repository r).
  { intros a. unfold repos. rewrite elem_of_from_keys, list_elem_of_fmap. naive_solver. }
  assert (Hdeps : forall a, a ∈ deps <-> exists r, r ∈ receipts /\ a = (gradle_configuration r, resolved_coordinate r)).
  { intros a. unfold deps. rewrite elem_of_from_keys, list_elem_of_fmap. naive_solver. }
  pose proof (insert_missing_spec (u "repositories") (fun r => r) (_gradle_repo_line kotlin) (repo_line_needle kotlin) repos script) as H1.
  destruct (insert_missing (u "repositories") _ _ repos script) as [m1 c1]. destruct H1 as (Hr1 & Hk1 & Hs1 & Hc1).
  pose proof (insert_missing_spec (u "dependencies") snd (_gradle_dependency_line kotlin) (dependency_line_needle kotlin) deps m1) as H2.
  destruct (insert_missing (u "dependencies") _ _ deps m1) as [m2 c2]. destruct H2 as (Hr2 & Hk2 & Hs2 & Hc2).
  assert (Hin : forall r, r ∈ receipts -> occurs (resolved_coordinate r) m2 = true /\ occurs (repository r) m2 = true).
  { intros r Hr. destruct (Hall r Hr) as (_ & _ & Hbc & Hbr). split.
    - apply (Hr2) with (a := (gradle_configuration r, resolved_coordinate r)); [|apply Hdeps; eauto].
      intros a (r' & Hr' & ->)%Hdeps. by destruct (Hall r' Hr') as (_ & _ & ? & _).
    - apply Hk2; [done|]. apply Hr1; [|apply Hrepos; eauto].
      intros a (r' & Hr' & ->)%Hrepos. by destruct (Hall r' Hr') as (_ & _ & _ & ?). }
  assert (Hcheck : forallb (fun r => occurs (resolved_coordinate r) m2 && occurs (repository r) m2) receipts = true).
  { apply forallb_forall. intros r Hr%list_elem_of_In. apply andb_true_iff. by apply Hin. }
  exists m2, (c1 || c2). rewrite Hcheck. split; [done|]. split; [done|]. split; [by etrans|]. split.
  - intros [-> ->]%orb_false_iff. rewrite Hc2, Hc1; done.
  - rewrite !insert_missing_none.
    + by rewrite Hcheck.
    + intros a (r & Hr & ->)%Hdeps. by apply Hin.
    + intros a (r & Hr & ->)%Hrepos. by apply Hin.
Qed.

(** ** Resolution *)

Definition version_row_ok (row : version_row) : Prop :=
  match row with Version v => brace ∉ strip v | PerLoader l => Forall (fun kv => brace ∉ strip kv.2) l end.

Definition entry_ok (e : registry_entry) : Prop :=
  brace ∉ entry_repository e /\ entry_repository e <> [] /\ brace ∉ entry_group e /\
  Forall (fun kv => brace ∉ kv.2) (name_by_loader e) /\ Forall (fun kv => version_row_ok kv.2) (version_matrix e).

#[local] Instance version_row_ok_dec row : Decision (version_row_ok row).
Proof. destruct row; cbn; apply _. Defined.
#[local] Instance entry_ok_dec e : Decision (entry_ok e).
Proof. unfold entry_ok. apply _. Defined.

Lemma registry_ok : Forall (fun kv => entry_ok kv.2) _CANONICAL_DEPENDENCY_REGISTRY.
Proof. apply (bool_decide_unpack _). vm_compute. exact I. Qed.

Section resolution.
Context `{PyCasefold} `{PyUnicode}.

(** No two dependencies of the registry share a name. *)
Lemma index_built : is_ok _build_dependency_alias_index = true.
Proof. vm_compute. reflexivity. Qed.

Lemma selected_version_ok e loader minecraft : entry_ok e -> brace ∉ _selected_version e loader minecraft.
Proof.
  intros (_ & _ & _ & _ & Hm). rewrite Forall_forall in Hm. unfold _selected_version.
  destruct (match dict_get minecraft (version_matrix e) with Some row => Some row | None => _ end) as [row|] eqn:E;
    [|apply not_elem_of_nil].
  assert (Hrow : version_row_ok row).
  { destruct (dict_get minecraft (version_matrix e)) as [row'|] eqn:E1.
    - injection E as ->. by apply dict_get_in, Hm in E1.
    - by apply dict_get_in, Hm in E. }
  destruct row as [v|l]; [done|]. cbn in Hrow. rewrite Forall_forall in Hrow.
  destruct (dict_get (casefold loader) l) as [v|] eqn:El; [by apply dict_get_in, Hrow in El|apply not_elem_of_nil].
Qed.

Lemma not_elem_join c sep l : c ∉ sep -> Forall (fun s => c ∉ s) l -> c ∉ join sep l.
Proof.
  intros Hs. induction 1 as [|s l Hc Hl IH]; [apply not_elem_of_nil|]. destruct l as [|s2 l]; [done|].
  change (join sep (s :: s2 :: l)) with (s ++ sep ++ join sep (s2 :: l)). rewrite !elem_of_app. tauto.
Qed.

Lemma resolved_injectable dep loader minecraft r :
  resolve_dependency_for_target dep loader minecraft = Ok r -> is_resolved r = true -> injectable r.
Proof.
  unfold resolve_dependency_for_target. destruct (_canonical_dependency_key dep) as [key|]; [|done]. cbn [res_bind].
  destruct (dict_get key _CANONICAL_DEPENDENCY_REGISTRY) as [e|] eqn:Ee; [|by intros [= <-]].
  apply dict_get_in in Ee. pose proof registry_ok as Hok. rewrite Forall_forall in Hok.
  apply Hok in Ee. clear Hok. cbn [snd] in Ee. pose proof Ee as (Hr1 & Hr2 & Hg & Hn & _). rewrite Forall_forall in Hn.
  set (l := casefold (strip loader)). set (m := strip minecraft).
  destruct (dict_get l (name_by_loader e)) as [name|] eqn:En; [|by intros [= <-]]. apply dict_get_in, Hn in En. cbn [snd] in En.
  cbn [default from_option id]. destruct name as [|c name]; [by intros [= <-]|].
  case_bool_decide as Hv; [by intros [= <-]|].
  destruct (_resolution_fingerprint _ _ _ _ _) as [f|] eqn:Ef; [|done]. cbn [res_bind]. intros [= <-] _.
  assert (Hf : f <> []).
  { unfold _resolution_fingerprint in Ef. destruct (utf8_encode _); [|done]. by injection Ef as <-. }
  split; [done|]. split; [|split; [|done]].
  - unfold complete_receipt. cbn [resolved_coordinate repository gradle_configuration resolution_fingerprint].
    rewrite !bool_decide_eq_false_2; [done|done|by case_bool_decide|done|].
    cbn [join]. by destruct (entry_group e).
  - change (brace ∉ join [58] [entry_group e; c :: name; _selected_version e l m]). apply not_elem_join; [apply (bool_decide_unpack _); vm_compute; exact I|].
    repeat (constructor; [done|]). constructor; [by apply selected_version_ok|constructor].
Qed.

(** C21: what was resolved can be injected: for receipts of resolved dependencies, whatever their names,
    loaders and versions, injection into any script succeeds; the script that results names every
    repository and coordinate, has lost nothing of the old one, and is left alone when the same
    receipts are injected again. *)
Theorem resolve_then_inject script receipts kotlin :
  Forall (fun r => is_resolved r = true /\ exists dep loader minecraft,
                   resolve_dependency_for_target dep loader minecraft = Ok r) receipts ->
  injected script receipts kotlin.
Proof.
  intros Hall. apply inject_injectable. eapply Forall_impl; [exact Hall|].
  intros r (Hr & dep & loader & minecraft & Hres). by eapply resolved_injectable.
Qed.

End resolution.
