(* ===== verification/DeadlineExecutor.v ===== *)
(** * DeadlineExecutor: [deadline_executor.py]

    The bounded window of submitted work items, the leases that its workers renew while the
    scheduler waits, and the order in which what finished is handed to the consumer.  A future
    is named by the sequence number of its task; what it comes to, the clock and the instants
    at which [wait] returns are given by the environment. *)

From stdpp Require Import prelude gmap strings list sorting.
From S2P Require Import Prelude RLocks ExecutionBudget.

Open Scope Z_scope.
Open Scope py_scope.

(** What [sorted] needs of the keys that [sort_key] computes. *)
Class SortKey (K : Type) : Type := {
  key_le : relation K; key_eq_dec :: EqDecision K; key_le_dec :: RelDecision key_le; key_order :: TotalOrder key_le
}.

#[export] Instance nat_le_total_order : TotalOrder le.
Proof.
  split; [apply _|]. intros x y. destruct (lt_eq_lt_dec x y) as [[?| ->]|?]; [left|right; by left|right; right]; split; lia.
Qed.

#[export] Instance nat_key : SortKey nat := {| key_le := le |}.

Section executor.
Context {Item Result Key : Type} `{SortKey Key}.

Record _ActiveTask : Type := ActiveTask { sequence : nat; item : Item; budget : nat; submitted_at : Z }.

(** [_SubmissionState] with the window, and the leases of the process. *)
Record scheduler : Type := Scheduler {
  source : list Item; next_sequence : nat; exhausted : bool; active : list _ActiveTask;
  leases : list ModelExecutionBudget
}.

Definition set_active (l : list _ActiveTask) (s : scheduler) : scheduler :=
  Scheduler (source s) (next_sequence s) (exhausted s) l (leases s).

Definition set_leases (bs : list ModelExecutionBudget) (s : scheduler) : scheduler :=
  Scheduler (source s) (next_sequence s) (exhausted s) (active s) bs.

(** What a future comes to: [Interrupted] is [KeyboardInterrupt] or [SystemExit]. *)
Inductive outcome : Type := Returned (result : Result) | Raised (cause : exn) | Interrupted.

(** What a worker does to its lease: [bind_model_execution_deadline] when it starts,
    [refresh_model_execution_deadline] while it makes progress. *)
Inductive lease_event : Type := Starts (b : nat) | Renews (b : nat) (now window : Z).

(** One [wait]: what happened to the leases meanwhile, the futures that are done, and the time. *)
Record awaited : Type := Awaited { lease_events : list lease_event; finished : gset nat; woke_at : Z }.

Inductive trace_event : Type := Yields (x : Item) (r : Result) | Reports (x : Item) (cause : exn).

Inductive ending : Type :=
  | Exhausted                                     (* the generator returns *)
  | TimeoutReported (x : Item)                    (* [on_error] has the timeout, the generator returns *)
  | TimeoutRaised (x : Item)                      (* [ParallelExecutionTimeout] *)
  | TaskRaised (sequence : nat) (cause : exn)     (* [ParallelTaskError] *)
  | InterruptRaised (sequence : nat)
  | CallbackRaised (sequence : nat) (e : exn)     (* a callback about a task raises *)
  | TimeoutCallbackRaised (e : exn)
  | Closed                                        (* the consumer closes the generator *)
  | Waiting.                                      (* in [wait] *)

Record run : Type := Run { trace : list trace_event; ended : ending; final : scheduler; abandoned : list _ActiveTask }.

(** ** The caller and the environment *)

Record _DrainContext : Type := DrainContext {
  workers : nat; unit_timeout : Z; sort_key : option (Item -> Key);
  on_result : option (Item -> Result -> res unit); on_error : option (Item -> exn -> res unit)
}.

(** The lease that the scheduler itself runs under, the time of each submission, what each
    future comes to, and whether the consumer closes the generator at its [n]th result. *)
Record environment : Type := Environment {
  current : option nat; clock : nat -> Z; outcome_of : nat -> outcome; closes : nat -> bool
}.

Variables (ctx : _DrainContext) (env : environment).

(** ** Submission *)

Definition _submit_next (s : scheduler) : bool * scheduler :=
  if exhausted s then (false, s)
  else
    match source s with
    | [] => (false, Scheduler [] (next_sequence s) true (active s) (leases s))
    | x :: rest =>
        let now := clock env (next_sequence s) in
        (true,
         Scheduler rest (S (next_sequence s)) false
           (active s ++ [ActiveTask (next_sequence s) x (length (leases s)) now])
           (leases s ++ [Budget (now + unit_timeout ctx) (current env) false]))
    end.

Fixpoint fill (fuel : nat) (s : scheduler) : scheduler :=
  match fuel with
  | O => s
  | S fuel =>
      if (length (active s) <? workers ctx)%nat
      then let '(submitted, s) := _submit_next s in if submitted then fill fuel s else s
      else s
  end.

Definition _fill_active_slots (s : scheduler) : scheduler := fill (S (length (source s))) s.

(** ** Waiting *)

Definition deadline_of (bs : list ModelExecutionBudget) (t : _ActiveTask) : Z :=
  match bs !! budget t with Some b => deadline b | None => 0 end.

Definition lease_step (bs : list ModelExecutionBudget) (e : lease_event) : list ModelExecutionBudget :=
  match e with
  | Starts b => bind_deadline bs (current env) b
  | Renews b now window =>
      match refresh_model_execution_deadline now window bs (Some b) with Ok (_, bs) => bs | Err _ => bs end
  end.

(** [min(active.values(), key=lambda meta: (meta.deadline.deadline, meta.sequence))] *)
Definition earlier (bs : list ModelExecutionBudget) (t1 t2 : _ActiveTask) : bool :=
  (deadline_of bs t1 <? deadline_of bs t2) ||
  ((deadline_of bs t1 =? deadline_of bs t2) && (sequence t1 <? sequence t2)%nat).

Definition first_expired (bs : list ModelExecutionBudget) (t : _ActiveTask) (l : list _ActiveTask) : _ActiveTask :=
  fold_left (fun best t => if earlier bs t best then t else best) l t.

(** The futures that [wait] returns, or the task that has run out of time. *)
Definition _next_completed_batch (w : awaited) (s : scheduler) : list _ActiveTask + _ActiveTask :=
  match filter (fun t => sequence t ∈ finished w) (active s) with
  | [] =>
      if forallb (fun t => woke_at w <? deadline_of (leases s) t) (active s) then inl []
      else match active s with [] => inl [] | t :: l => inr (first_expired (leases s) t l) end
  | done => inl done
  end.

(** The order of [(sort_key(item), sequence)], or of [(sequence, sequence)]. *)
Definition completion_le (t1 t2 : _ActiveTask) : Prop :=
  match sort_key ctx with
  | None => (sequence t1 <= sequence t2)%nat
  | Some key =>
      if decide (key (item t1) = key (item t2)) then (sequence t1 <= sequence t2)%nat
      else key_le (key (item t1)) (key (item t2))
  end.

#[export] Instance completion_le_dec : RelDecision completion_le.
Proof. intros t1 t2. unfold completion_le. destruct (sort_key ctx); [case_decide|]; apply _. Defined.

(** ** Delivery *)

Definition pop (t : _ActiveTask) (s : scheduler) : scheduler :=
  set_active (filter (fun a => sequence a <> sequence t) (active s)) s.

(** One batch, [yielded] results having been handed over before it. *)
Fixpoint deliver (batch : list _ActiveTask) (yielded : nat) (s : scheduler)
    : list trace_event * option ending * scheduler :=
  match batch with
  | [] => ([], None, s)
  | t :: batch =>
      let s := pop t s in
      match outcome_of env (sequence t) with
      | Interrupted => ([], Some (InterruptRaised (sequence t)), s)
      | Raised cause =>
          match on_error ctx with
          | None => ([], Some (TaskRaised (sequence t) cause), s)
          | Some report =>
              match report (item t) cause with
              | Err e => ([], Some (CallbackRaised (sequence t) e), s)
              | Ok _ => let '(tr, e, s) := deliver batch yielded s in (Reports (item t) cause :: tr, e, s)
              end
          end
      | Returned r =>
          match match on_result ctx with Some f => f (item t) r | None => Ok tt end with
          | Err e => ([], Some (CallbackRaised (sequence t) e), s)
          | Ok _ =>
              if closes env (S yielded) then ([Yields (item t) r], Some Closed, s)
              else let '(tr, e, s) := deliver batch (S yielded) s in (Yields (item t) r :: tr, e, s)
          end
      end
  end.

Definition is_yield (e : trace_event) : bool := match e with Yields _ _ => true | Reports _ _ => false end.

Definition count_yields (tr : list trace_event) : nat := length (List.filter is_yield tr).

Fixpoint _drain_active_tasks (waits : list awaited) (yielded : nat) (s : scheduler)
    : list trace_event * ending * scheduler :=
  match active s, waits with
  | [], _ => ([], Exhausted, s)
  | _, [] => ([], Waiting, s)
  | _, w :: waits =>
      let s := set_leases (fold_left lease_step (lease_events w) (leases s)) s in
      match _next_completed_batch w s with
      | inr expired =>
          ([], match on_error ctx with
               | None => TimeoutRaised (item expired)
               | Some report =>
                   match report (item expired) ParallelExecutionTimeout with
                   | Ok _ => TimeoutReported (item expired)
                   | Err e => TimeoutCallbackRaised e
                   end
               end, s)
      | inl done =>
          match deliver (merge_sort completion_le done) yielded s with
          | (tr, Some e, s) => (tr, e, s)
          | (tr, None, s) =>
              let '(tr', e, s) := _drain_active_tasks waits (yielded + count_yields tr) (_fill_active_slots s) in
              (tr ++ tr', e, s)
          end
      end
  end.

(** ** The whole generator *)

Definition _shutdown_pool (s : scheduler) : scheduler :=
  set_active [] (set_leases (fold_left (fun bs t => set_cancelled (budget t) bs) (active s) (leases s)) s).

End executor.

Arguments _ActiveTask : clear implicits.
Arguments scheduler : clear implicits.
Arguments outcome : clear implicits.
Arguments trace_event : clear implicits.
Arguments ending : clear implicits.
Arguments run : clear implicits.
Arguments _DrainContext : clear implicits.
Arguments environment : clear implicits.

Definition _resolve_worker_count (total_units : option nat) (max_workers : Z) : nat :=
  let workers := Z.to_nat (Z.max 1 max_workers) in
  match total_units with Some n => Nat.min workers n | None => workers end.

(** Times are microseconds: [max(0.001, ...)] is a thousand of them. *)
Definition effective_timeout (planning_timeout : Z) (given : option Z) : Z :=
  match given with None => planning_timeout | Some t => Z.max 1000 t end.

Definition is_waiting {Item} (e : ending Item) : bool := match e with Waiting => true | _ => false end.

(** [_iter_completed_with_deadlines_impl]; a generator that still waits has not shut down. *)
Definition iter_completed_with_deadlines {Item Result Key} `{SortKey Key} (items : list Item) (sized : bool)
    (max_workers : Z) (sort_key : option (Item -> Key)) (on_result : option (Item -> Result -> res unit))
    (on_error : option (Item -> exn -> res unit)) (planning_timeout : Z) (work_unit_timeout : option Z)
    (env : environment Result) (bs : list ModelExecutionBudget) (waits : list awaited) : run Item Result :=
  let total_units := if sized then Some (length items) else None in
  if bool_decide (total_units = Some 0%nat) then Run [] Exhausted (Scheduler [] 0 false [] bs) []
  else
    let ctx := DrainContext (_resolve_worker_count total_units max_workers)
                 (effective_timeout planning_timeout work_unit_timeout) sort_key on_result on_error in
    let s := _fill_active_slots ctx env (Scheduler items 0 false [] bs) in
    let '(tr, e, s) := _drain_active_tasks ctx env waits 0 s in
    if is_waiting e then Run tr e s [] else Run tr e (_shutdown_pool s) (active s).

(** * Every submitted item is accounted for, exactly once *)


Open Scope Z_scope.
Open Scope py_scope.

Section executor.
Context {Item Result Key : Type} `{SortKey Key} (ctx : _DrainContext Item Result Key) (env : environment Result).
Variables (all : list Item).

(** What an event says of the item with a sequence number. *)

Definition event_of (i : nat) (e : trace_event Item Result) : Prop :=
  match e with
  | Yields x r => all !! i = Some x /\ outcome_of env i = Returned r
  | Reports x cause => all !! i = Some x /\ outcome_of env i = Raised cause /\ on_error ctx <> None
  end.

(** The item whose handling raised. *)
Definition failed (e : ending Item) : list nat :=
  match e with TaskRaised i _ | InterruptRaised i | CallbackRaised i _ => [i] | _ => [] end.

Definition ending_ok (e : ending Item) : Prop :=
  match e with
  | TaskRaised i cause => outcome_of env i = Raised cause /\ on_error ctx = None
  | InterruptRaised i => outcome_of env i = Interrupted
  | CallbackRaised _ _ => on_error ctx <> None \/ on_result ctx <> None
  | TimeoutReported _ | TimeoutCallbackRaised _ => on_error ctx <> None
  | TimeoutRaised _ => on_error ctx = None
  | Closed => exists n, closes env n = true
  | Exhausted | Waiting => True
  end.

(** ** The window *)

Record window (s : scheduler Item) : Prop := Window {
  window_source : source s = drop (next_sequence s) all;
  window_bound : (next_sequence s <= length all)%nat;
  window_items : forall t, t ∈ active s -> all !! sequence t = Some (item t) /\ (budget t < length (leases s))%nat;
  window_distinct : NoDup (map sequence (active s));
  window_size : (length (active s) <= workers ctx)%nat;
  window_end : exhausted s = true -> source s = []
}.

Definition full (s : scheduler Item) : Prop := length (active s) = workers ctx \/ source s = [].

(** The numbers [done] and those of the window are those that were submitted. *)
Definition accounts (done : list nat) (s : scheduler Item) : Prop :=
  done ++ map sequence (active s) ≡ₚ seq 0 (next_sequence s).

Lemma accounts_fresh done s : accounts done s -> next_sequence s ∉ map sequence (active s).
Proof.
  intros Ha Hi. assert (Hin : next_sequence s ∈ seq 0 (next_sequence s)).
  { rewrite <- Ha. apply elem_of_app. by right. }
  apply elem_of_seq in Hin. lia.
Qed.

Lemma submit_window done s :
  window s -> accounts done s -> (length (active s) < workers ctx)%nat ->
  let '(submitted, s') := _submit_next ctx env s in
  window s' /\ accounts done s' /\ (next_sequence s <= next_sequence s')%nat /\
  (forall t, t ∈ active s' -> t ∈ active s \/ (next_sequence s <= sequence t)%nat) /\
  (submitted = false -> source s' = [] /\ active s' = active s) /\
  (submitted = true -> length (source s) = S (length (source s'))).
Proof.
  intros Hw Ha Hlt. pose proof Hw as [Hsrc Hb Hit Hd Hsz He]. unfold _submit_next. destruct (exhausted s) eqn:Ex.
  - split; [done|]. split; [done|]. split; [done|]. split; [by left|]. split; [by auto|done].
  - clear He. destruct (source s) as [|x rest] eqn:Es.
    + split; [by constructor|]. split; [done|]. split; [done|]. split; [by left|]. split; [auto|done].
    + assert (Hx : all !! next_sequence s = Some x) by (by rewrite <- (Nat.add_0_r (next_sequence s)), <- lookup_drop, <- Hsrc).
      pose proof (lookup_lt_Some _ _ _ Hx) as Hlen.
      split; [|split; [|split; [cbn; lia|split; [|split; [done|done]]]]].
      * constructor; cbn [source next_sequence active leases exhausted].
        -- by rewrite <- Nat.add_1_r, <- drop_drop, <- Hsrc.
        -- lia.
        -- intros t. rewrite elem_of_app, list_elem_of_singleton, length_app. cbn [length].
           intros [Ht| ->]; [destruct (Hit t Ht); split; [done|lia]|cbn; split; [done|lia]].
        -- rewrite map_app. apply NoDup_app. split; [done|]. split; [|apply NoDup_singleton].
           intros n Hn ->%list_elem_of_singleton. by eapply accounts_fresh.
        -- rewrite length_app. cbn. lia.
        -- done.
      * unfold accounts in *. cbn [active next_sequence]. rewrite map_app, app_assoc, Ha, seq_S. done.
      * cbn [active]. intros t. rewrite elem_of_app, list_elem_of_singleton. intros [?| ->]; [by left|right; cbn; lia].
Qed.

Lemma fill_window done fuel s :
  window s -> accounts done s -> (length (source s) < fuel)%nat ->
  let s' := fill ctx env fuel s in
  window s' /\ accounts done s' /\ full s' /\ (next_sequence s <= next_sequence s')%nat /\
  (forall t, t ∈ active s' -> t ∈ active s \/ (next_sequence s <= sequence t)%nat).
Proof.
  revert s. induction fuel as [|fuel IH]; intros s Hw Ha Hf; [lia|]. cbn [fill].
  destruct (Nat.ltb_spec (length (active s)) (workers ctx)) as [Hlt|Hge].
  - pose proof (submit_window done s Hw Ha Hlt) as Hs. destruct (_submit_next ctx env s) as [[] s1].
    + destruct Hs as (Hw1 & Ha1 & Hn1 & Ht1 & _ & Hl). specialize (Hl eq_refl).
      destruct (IH s1 Hw1 Ha1 ltac:(lia)) as (Hw2 & Ha2 & Hf2 & Hn2 & Ht2). split_and!; try done; [lia|].
      intros t [Ht|Ht]%Ht2; [by apply Ht1|right; lia].
    + destruct Hs as (Hw1 & Ha1 & Hn1 & Ht1 & Hl & _). split_and!; try done. right. by apply Hl.
  - split_and!; try done; [left; pose proof (window_size s Hw); lia|by left].
Qed.

(** ** A batch *)

Lemma filter_keep {A} (P : A -> Prop) `{forall x, Decision (P x)} (l : list A) :
  (forall x, x ∈ l -> P x) -> filter P l = l.
Proof.
  induction l as [|x l IH]; intros Hl; [done|]. rewrite filter_cons_True by (apply Hl; left).
  f_equal. apply IH. intros y Hy. apply Hl. by right.
Qed.

Lemma pop_sequences (t : _ActiveTask Item) s :
  NoDup (map sequence (active s)) -> t ∈ active s ->
  sequence t :: map sequence (active (pop t s)) ≡ₚ map sequence (active s).
Proof.
  unfold pop, set_active. cbn [active]. induction (active s) as [|a l IH]; [by intros _ ?%elem_of_nil|].
  cbn [map]. intros [Ha Hd]%NoDup_cons [->|Ht]%elem_of_cons.
  - rewrite filter_cons_False by (intros Hn; by apply Hn). f_equiv.
    rewrite filter_keep; [done|]. intros b Hb Heq. apply Ha. rewrite <- Heq.
    apply list_elem_of_fmap. eauto.
  - rewrite filter_cons_True by (intros Heq; apply Ha; rewrite Heq; apply list_elem_of_fmap; eauto).
    cbn [map]. rewrite <- IH by done. constructor.
Qed.

Lemma elem_of_pop (t a : _ActiveTask Item) s : a ∈ active (pop t s) <-> a ∈ active s /\ sequence a <> sequence t.
Proof. unfold pop, set_active. cbn [active]. rewrite list_elem_of_filter. tauto. Qed.

Definition same_submissions (s s' : scheduler Item) : Prop :=
  source s' = source s /\ next_sequence s' = next_sequence s /\ exhausted s' = exhausted s /\ leases s' = leases s.

Definition timeout_item (e : ending Item) : option Item :=
  match e with TimeoutRaised x | TimeoutReported x => Some x | _ => None end.

Definition failed_opt (e : option (ending Item)) : list nat := match e with Some e => failed e | None => [] end.
Definition ends_well (e : option (ending Item)) : Prop :=
  match e with Some e => ending_ok e /\ e <> Exhausted /\ e <> Waiting /\ timeout_item e = None | None => True end.

Lemma window_accounts_pop done t s :
  window s -> accounts done s -> t ∈ active s ->
  window (pop t s) /\ accounts (done ++ [sequence t]) (pop t s) /\ same_submissions s (pop t s).
Proof.
  intros [Hsrc Hb Hit Hd Hsz He] Ha Ht. pose proof (pop_sequences t s Hd Ht) as Hp. split; [|split; [|done]].
  - constructor; try done.
    + intros a [Ha' _]%elem_of_pop. by apply Hit.
    + rewrite <- Hp in Hd. by apply NoDup_cons in Hd as [_ ?].
    + etrans; [|exact Hsz]. apply Permutation_length in Hp. rewrite length_cons, !length_map in Hp. lia.
  - unfold accounts in *. rewrite <- app_assoc. cbn [app]. by rewrite Hp.
Qed.

Lemma deliver_spec batch : forall done yielded s tr e s',
  window s -> accounts done s -> NoDup (map sequence batch) -> (forall t, t ∈ batch -> t ∈ active s) ->
  deliver ctx env batch yielded s = (tr, e, s') ->
  exists processed,
    Forall2 event_of processed tr /\ accounts (done ++ processed ++ failed_opt e) s' /\ window s' /\
    same_submissions s s' /\ ends_well e /\
    (e = None -> forall t, t ∈ active s' <-> t ∈ active s /\ sequence t ∉ map sequence batch).
Proof.
  induction batch as [|t batch IH]; intros done yielded s tr e s' Hw Ha Hd Hin.
  { intros [= <- <- <-]. exists []. rewrite !app_nil_r. split_and!; try done. intros _ t. split; [|tauto]. intros Ht. split; [done|apply not_elem_of_nil]. }
  cbn [deliver map]. cbn [map] in Hd. apply NoDup_cons in Hd as [Hnt Hd].
  assert (Ht : t ∈ active s) by (apply Hin; left).
  destruct (window_accounts_pop done t s Hw Ha Ht) as (Hw1 & Ha1 & Hs1).
  destruct (window_items s Hw t Ht) as [Hx _].
  assert (Hin1 : forall a, a ∈ batch -> a ∈ active (pop t s)).
  { intros a Hab. apply elem_of_pop. split; [apply Hin; by right|]. intros Heq. apply Hnt. rewrite <- Heq.
    apply list_elem_of_fmap. eauto. }
  assert (Hstop : forall e0, failed e0 = [sequence t] -> ending_ok e0 -> e0 <> Exhausted -> e0 <> Waiting -> timeout_item e0 = None ->
    ([], Some e0, pop t s) = (tr, e, s') ->
    exists processed,
      Forall2 event_of processed tr /\ accounts (done ++ processed ++ failed_opt e) s' /\ window s' /\
      same_submissions s s' /\ ends_well e /\
      (e = None -> forall t0, t0 ∈ active s' <-> t0 ∈ active s /\ sequence t0 ∉ sequence t :: map sequence batch)).
  { intros e0 Hf He0 Hn1 Hn2 Hn3 [= <- <- <-]. exists []. cbn [failed_opt app]. rewrite Hf. by split_and!. }
  assert (Hnext : forall y ev,
    event_of (sequence t) ev ->
    (let '(tr, e, s) := deliver ctx env batch y (pop t s) in (ev :: tr, e, s)) = (tr, e, s') ->
    exists processed,
      Forall2 event_of processed tr /\ accounts (done ++ processed ++ failed_opt e) s' /\ window s' /\
      same_submissions s s' /\ ends_well e /\
      (e = None -> forall t0, t0 ∈ active s' <-> t0 ∈ active s /\ sequence t0 ∉ sequence t :: map sequence batch)).
  { intros y ev Hev. destruct (deliver ctx env batch y (pop t s)) as [[tr1 e1] s1] eqn:Ed. intros [= <- <- <-].
    destruct (IH _ _ _ _ _ _ Hw1 Ha1 Hd Hin1 Ed) as (ps & Hps & Ha2 & Hw2 & Hs2 & He2 & Hact).
    exists (sequence t :: ps). split; [by constructor|]. split; [|split; [done|split; [|split; [done|]]]].
    - rewrite <- app_assoc in Ha2. done.
    - destruct Hs1 as (?&?&?&?), Hs2 as (?&?&?&?). repeat split; congruence.
    - intros He t0. rewrite (Hact He), elem_of_pop, not_elem_of_cons. tauto. }
  destruct (outcome_of env (sequence t)) as [r|cause|] eqn:Eo.
  - destruct (match on_result ctx with Some f => f (item t) r | None => Ok tt end) as [[]|e0] eqn:Er.
    + destruct (closes env (S yielded)) eqn:Ec; [|by apply Hnext].
      intros [= <- <- <-]. exists [sequence t]. split; [by repeat constructor|]. split; [done|]. split; [done|].
      split; [done|]. split; [|done]. split; [by eexists|done].
    + apply Hstop; try done. right. intros Hn. by rewrite Hn in Er.
  - destruct (on_error ctx) as [report|] eqn:Ee; [|by apply Hstop].
    assert (Hne : on_error ctx <> None) by congruence.
    destruct (report (item t) cause) as [[]|e0]; [by apply Hnext|apply Hstop; try done; by left].
  - by apply Hstop.
Qed.

(** ** Waiting *)

Lemma first_expired_spec bs (t : _ActiveTask Item) l :
  first_expired bs t l ∈ t :: l /\ forall a, a ∈ t :: l -> deadline_of bs (first_expired bs t l) <= deadline_of bs a.
Proof.
  unfold first_expired. revert t. induction l as [|b l IH]; intros t; cbn [fold_left].
  - split; [left|]. by intros a ->%list_elem_of_singleton.
  - destruct (IH (if earlier bs b t then b else t)) as [Hi Hm]. split.
    + apply elem_of_cons in Hi as [->|Hi]; [destruct (earlier bs b t); [right; left|left]|by right; right].
    + assert (Hle : deadline_of bs (if earlier bs b t then b else t) <= deadline_of bs b /\
                    deadline_of bs (if earlier bs b t then b else t) <= deadline_of bs t).
      { unfold earlier. destruct (Z.ltb_spec (deadline_of bs b) (deadline_of bs t)); cbn [orb]; [lia|].
        destruct (Z.eqb_spec (deadline_of bs b) (deadline_of bs t)); cbn [andb]; [|lia].
        destruct (sequence b <? sequence t)%nat; lia. }
      assert (Hhead := Hm _ (list_elem_of_here _ _)).
      intros a [->|[->|Ha]%elem_of_cons]%elem_of_cons; [lia|lia|apply Hm; by right].
Qed.

Lemma next_batch_spec w (s : scheduler Item) :
  match _next_completed_batch w s with
  | inl done => done = filter (fun t => sequence t ∈ finished w) (active s)
  | inr t =>
      t ∈ active s /\ (forall a, a ∈ active s -> sequence a ∉ finished w) /\ deadline_of (leases s) t <= woke_at w /\
      forall a, a ∈ active s -> deadline_of (leases s) t <= deadline_of (leases s) a
  end.
Proof.
  unfold _next_completed_batch.
  destruct (filter (fun t => sequence t ∈ finished w) (active s)) as [|d ds] eqn:Ef; [|done].
  destruct (forallb _ _) eqn:Ea; [done|]. destruct (active s) as [|t l] eqn:El; [done|]. rewrite <- El in *.
  assert (Hfe := first_expired_spec (leases s) t l). rewrite <- El in Hfe. destruct Hfe as [Hi Hm].
  split; [done|]. split; [|split; [|done]].
  - intros a Ha Hf. assert (Hin : a ∈ filter (fun t => sequence t ∈ finished w) (active s)) by by apply list_elem_of_filter.
    rewrite Ef in Hin. by apply elem_of_nil in Hin.
  - apply not_true_iff_false in Ea. apply Z.nlt_ge. intros Hlt. apply Ea. apply forallb_forall.
    intros a Ha%list_elem_of_In%Hm. lia.
Qed.

Lemma NoDup_filter_map {A B} (P : A -> Prop) `{forall x, Decision (P x)} (f : A -> B) l :
  NoDup (map f l) -> NoDup (map f (filter P l)).
Proof.
  intros Hd. eapply sublist_NoDup; [exact Hd|]. apply (fmap_sublist f), sublist_filter.
Qed.

Lemma batch_ok w (s : scheduler Item) :
  window s ->
  let batch := merge_sort (completion_le ctx) (filter (fun t => sequence t ∈ finished w) (active s)) in
  NoDup (map sequence batch) /\ forall t, t ∈ batch <-> t ∈ active s /\ sequence t ∈ finished w.
Proof.
  intros Hw. cbn zeta. split.
  - rewrite (Permutation_map sequence (merge_sort_Permutation _ _)). by apply NoDup_filter_map, window_distinct.
  - intros t. rewrite merge_sort_Permutation, list_elem_of_filter. tauto.
Qed.

Lemma lease_step_shape bs e : same_shape bs (lease_step env bs e).
Proof.
  destruct e as [b|b now window]; cbn [lease_step]; [apply bind_deadline_shape|].
  destruct (refresh_model_execution_deadline now window bs (Some b)) as [[d bs']|e] eqn:Er; [|apply same_shape_refl].
  by destruct (refresh_shape _ _ _ _ _ _ Er).
Qed.

Lemma leases_length es bs : length (fold_left (lease_step env) es bs) = length bs.
Proof.
  revert bs. induction es as [|e es IH]; intros bs; [done|]. cbn [fold_left]. rewrite IH. apply lease_step_shape.
Qed.

Definition after_leases (w : awaited) (s : scheduler Item) : scheduler Item :=
  set_leases (fold_left (lease_step env) (lease_events w) (leases s)) s.

Lemma window_leases w s : window s -> window (after_leases w s).
Proof.
  intros [Hsrc Hb Hit Hd Hsz He]. constructor; try done. intros t Ht. cbn [leases after_leases set_leases].
  rewrite leases_length. by apply Hit.
Qed.

(** The task that a timeout names had its deadline behind it when [wait] returned, had the
    earliest one, and nothing of the window was done. *)
Definition timed_out (waits : list awaited) (s : scheduler Item) (x : Item) : Prop :=
  exists t w, t ∈ active s /\ item t = x /\ w ∈ waits /\ deadline_of (leases s) t <= woke_at w /\
    (forall a, a ∈ active s -> deadline_of (leases s) t <= deadline_of (leases s) a) /\
    (forall a, a ∈ active s -> sequence a ∉ finished w).

Lemma drain_spec waits : forall done yielded s tr e s',
  (1 <= workers ctx)%nat -> window s -> accounts done s -> full s ->
  _drain_active_tasks ctx env waits yielded s = (tr, e, s') ->
  exists processed,
    Forall2 event_of processed tr /\ accounts (done ++ processed ++ failed e) s' /\ window s' /\ ending_ok e /\
    (e = Exhausted -> active s' = [] /\ source s' = []) /\ (e = Waiting -> active s' <> [] /\ full s') /\
    (forall x, timeout_item e = Some x -> timed_out waits s' x).
Proof.
  induction waits as [|w waits IH]; intros done yielded s tr e s' Hk Hw Ha Hfull.
  - cbn [_drain_active_tasks]. destruct (active s) as [|t l] eqn:El; intros [= <- <- <-]; exists []; rewrite !app_nil_r.
    + split_and!; try done. intros _. split; [done|]. destruct Hfull as [Hl|?]; [|done]. rewrite El in Hl. cbn in Hl. lia.
    + split_and!; try done. intros _. by rewrite El.
  - cbn [_drain_active_tasks]. destruct (active s) as [|t0 l0] eqn:El.
    { intros [= <- <- <-]. exists []. rewrite !app_nil_r. split_and!; try done. intros _. split; [done|].
      destruct Hfull as [Hl|?]; [|done]. rewrite El in Hl. cbn in Hl. lia. }
    clear l0 El t0. fold (after_leases w s). pose proof (window_leases w s Hw) as Hw1.
    assert (Ha1 : accounts done (after_leases w s)) by done.
    pose proof (next_batch_spec w (after_leases w s)) as Hb.
    destruct (_next_completed_batch w (after_leases w s)) as [batch|t].
    + subst batch. destruct (batch_ok w _ Hw1) as [Hd Hin].
      set (batch := merge_sort _ _) in *.
      destruct (deliver ctx env batch yielded (after_leases w s)) as [[tr1 [e1|]] s1] eqn:Ed;
        destruct (deliver_spec batch done yielded _ _ _ _ Hw1 Ha1 Hd (fun t Ht => proj1 (proj1 (Hin t) Ht)) Ed)
          as (ps & Hps & Ha2 & Hw2 & _ & He & _).
      * intros [= <- <- <-]. destruct He as (He & Hn1 & Hn2 & Hn3). exists ps. split_and!; try done.
        intros x Hx. congruence.
      * cbn [failed_opt] in Ha2. rewrite app_nil_r in Ha2.
        destruct (fill_window _ (S (length (source s1))) s1 Hw2 Ha2 ltac:(lia)) as (Hw3 & Ha3 & Hf3 & _).
        fold (_fill_active_slots ctx env s1) in Hw3, Ha3, Hf3.
        destruct (_drain_active_tasks ctx env waits _ _) as [[tr2 e2] s2] eqn:Er. intros [= <- <- <-].
        destruct (IH _ _ _ _ _ _ Hk Hw3 Ha3 Hf3 Er) as (qs & Hqs & Ha4 & Hw4 & He4 & Hx4 & Hy4 & Ht4).
        exists (ps ++ qs). split; [by apply Forall2_app|]. rewrite <- !app_assoc in Ha4.
        split; [by rewrite <- app_assoc|]. split_and!; try done.
        intros x Hx. destruct (Ht4 x Hx) as (t & w' & ? & ? & ? & ?). exists t, w'. split_and!; try done; [by right|tauto..].
    + destruct Hb as (Ht & Hnot & Hdl & Hmin). intros [= <- <- <-]. exists [].
      assert (Hto : timed_out (w :: waits) (after_leases w s) (item t)) by (exists t, w; split_and!; try done; left).
      destruct (on_error ctx) as [report|] eqn:Ee; [destruct (report _ _)|]; cbn [failed app]; rewrite !app_nil_r;
        split_and!; try done; try (by cbn; rewrite Ee); by intros x [= <-].
Qed.

(** ** Progress *)

(** The first future is done when the first [wait] returns, the first two at the second. *)
Definition prompt (k : nat) (waits : list awaited) : Prop :=
  forall j w i, waits !! j = Some w -> (i <= k + j)%nat -> i ∈ finished w.

Lemma drain_progress waits : forall k done yielded s tr e s',
  window s -> accounts done s -> (forall t, t ∈ active s -> (k <= sequence t)%nat) ->
  prompt k waits -> (length all <= k + length waits)%nat ->
  _drain_active_tasks ctx env waits yielded s = (tr, e, s') -> e <> Waiting.
Proof.
  induction waits as [|w waits IH]; intros k done yielded s tr e s' Hw Ha Hk Hp Hlen.
  - cbn [_drain_active_tasks]. destruct (active s) as [|t l] eqn:El; [by intros [= <- <- <-]|]. exfalso.
    assert (Ht : t ∈ active s) by (rewrite El; left).
    destruct (window_items s Hw t Ht) as [Hx _]. apply lookup_lt_Some in Hx.
    rewrite <- El in Hk. specialize (Hk t Ht). cbn [length] in Hlen. lia.
  - cbn [_drain_active_tasks]. destruct (active s) as [|t0 l0] eqn:El; [by intros [= <- <- <-]|].
    assert (Ht0 : t0 ∈ active s) by (rewrite El; left). rewrite <- El in Hk. clear l0 El. fold (after_leases w s).
    pose proof (window_leases w s Hw) as Hw1. assert (Ha1 : accounts done (after_leases w s)) by done.
    pose proof (next_batch_spec w (after_leases w s)) as Hb.
    destruct (_next_completed_batch w (after_leases w s)) as [batch|t];
      [|destruct (on_error ctx) as [report|]; [destruct (report _ _)|]; by intros [= <- <- <-]].
    subst batch. destruct (batch_ok w _ Hw1) as [Hd Hin]. set (batch := merge_sort _ _) in *.
    destruct (deliver ctx env batch yielded (after_leases w s)) as [[tr1 [e1|]] s1] eqn:Ed;
      destruct (deliver_spec batch done yielded _ _ _ _ Hw1 Ha1 Hd (fun t Ht => proj1 (proj1 (Hin t) Ht)) Ed)
        as (ps & _ & Ha2 & Hw2 & Hsame & He & Hact).
    { intros [= <- <- <-]. by destruct He as (_ & _ & ? & _). }
    destruct (fill_window _ (S (length (source s1))) s1 Hw2 Ha2 ltac:(lia)) as (Hw3 & Ha3 & _ & _ & Hnew).
    fold (_fill_active_slots ctx env s1) in Hw3, Ha3, Hnew.
    destruct (_drain_active_tasks ctx env waits _ _) as [[tr2 e2] s2] eqn:Er. intros [= <- <- <-].
    refine (IH (S k) _ _ _ _ _ _ Hw3 Ha3 _ _ _ Er).
    + assert (Hnext : (k < next_sequence s1)%nat).
      { destruct Hsame as (_ & -> & _). cbn [next_sequence after_leases set_leases].
        assert (Hs0 : sequence t0 ∈ seq 0 (next_sequence s)).
        { rewrite <- Ha. apply elem_of_app. right. apply list_elem_of_fmap. eauto. }
        apply elem_of_seq in Hs0. specialize (Hk t0 Ht0). lia. }
      intros t [Ht|Ht]%Hnew; [|lia]. apply (Hact eq_refl) in Ht as [Ht Hnb].
      assert (Hkt : (k <= sequence t)%nat) by by apply Hk.
      destruct (decide (sequence t = k)) as [Hsk|?]; [|lia]. exfalso. apply Hnb, list_elem_of_fmap. exists t.
      split; [done|]. apply Hin. split; [done|]. apply (Hp 0%nat w); [done|lia].
    + intros j w' i Hj Hi. apply (Hp (S j) w'); [done|lia].
    + cbn [length] in Hlen. lia.
Qed.

(** ** Cancellation *)

Lemma shutdown_cancels (l : list (_ActiveTask Item)) bs b :
  (b < length bs)%nat -> is_cancelled bs b = true \/ (exists t, t ∈ l /\ budget t = b) ->
  is_cancelled (fold_left (fun bs t => set_cancelled (budget t) bs) l bs) b = true.
Proof.
  revert bs. induction l as [|t l IH]; intros bs Hb Hc; cbn [fold_left].
  { destruct Hc as [?|(t & Ht & _)]; [done|by apply elem_of_nil in Ht]. }
  apply IH; [by unfold set_cancelled; rewrite length_alter|].
  destruct (decide (budget t = b)) as [<-|Hne].
  - left. unfold is_cancelled, set_cancelled. rewrite list_lookup_alter_eq.
    by destruct (lookup_lt_is_Some_2 bs (budget t) Hb) as [x ->].
  - destruct Hc as [Hc|(a & [->|Ha]%elem_of_cons & Hab)]; [left|done|right; eauto].
    unfold is_cancelled, set_cancelled in *. by rewrite list_lookup_alter_ne.
Qed.

Lemma cancelled_raises bs b :
  (b < length bs)%nat -> is_cancelled bs b = true ->
  raise_if_model_execution_cancelled bs (Some b) = Err ModelExecutionCancelled.
Proof.
  intros Hb Hc. unfold raise_if_model_execution_cancelled, owners_of. destruct (length bs) as [|n]; [lia|].
  cbn [owners existsb]. by rewrite Hc.
Qed.

Lemma shutdown_length (l : list (_ActiveTask Item)) bs :
  length (fold_left (fun bs t => set_cancelled (budget t) bs) l bs) = length bs.
Proof.
  revert bs. induction l as [|t l IH]; intros bs; [done|]. cbn [fold_left]. rewrite IH. apply length_alter.
Qed.

End executor.

(** ** The generator *)

Definition remaining {Item Result} (r : run Item Result) : list (_ActiveTask Item) := active (final r) ++ abandoned r.

Section generator.
Context {Item Result Key : Type} `{SortKey Key}.
Variables (items : list Item) (sized : bool) (max_workers : Z) (sort_key : option (Item -> Key))
  (on_result : option (Item -> Result -> res unit)) (on_error : option (Item -> exn -> res unit))
  (planning_timeout : Z) (work_unit_timeout : option Z) (env : environment Result) (bs : list ModelExecutionBudget)
  (waits : list awaited).

Definition workers_of : nat := _resolve_worker_count (if sized then Some (length items) else None) max_workers.

Definition ctx_of : _DrainContext Item Result Key :=
  DrainContext workers_of (effective_timeout planning_timeout work_unit_timeout) sort_key on_result on_error.

Definition the_run : run Item Result :=
  iter_completed_with_deadlines items sized max_workers sort_key on_result on_error planning_timeout
    work_unit_timeout env bs waits.

(** What holds when [iter_completed_with_deadlines] ends or waits: the numbers of the results
    and reports, of the item that raised and of what is left are those of the submitted items,
    each of them once, and what it yields is what the futures of the items came to. *)
Definition accounted (r : run Item Result) : Prop :=
  exists processed submitted,
    (submitted <= length items)%nat /\ Forall2 (event_of ctx_of env items) processed (trace r) /\
    processed ++ failed (ended r) ++ map sequence (remaining r) ≡ₚ seq 0 submitted /\
    Forall (fun t => items !! sequence t = Some (item t)) (remaining r) /\
    ending_ok ctx_of env (ended r) /\ (ended r = Exhausted -> remaining r = [] /\ submitted = length items) /\
    (length (remaining r) <= workers_of)%nat /\
    (ended r = Waiting -> length (remaining r) = workers_of \/ submitted = length items).

Lemma workers_positive : bool_decide ((if sized then Some (length items) else None) = Some 0%nat) = false -> (1 <= workers_of)%nat.
Proof.
  intros Hd%bool_decide_eq_false. unfold workers_of, _resolve_worker_count. destruct sized; [|lia].
  assert (length items <> 0%nat) by congruence. lia.
Qed.

Lemma run_start :
  bool_decide ((if sized then Some (length items) else None) = Some 0%nat) = false ->
  let s := _fill_active_slots ctx_of env (Scheduler items 0 false [] bs) in
  window ctx_of items s /\ accounts [] s /\ full ctx_of s.
Proof.
  intros Hd. destruct (fill_window ctx_of env items [] (S (length items)) (Scheduler items 0 false [] bs)) as (?&?&?&_).
  - constructor; cbn; try done; try lia; [by intros t ?%elem_of_nil|constructor].
  - unfold accounts. reflexivity.
  - cbn. lia.
  - by split_and!.
Qed.

Lemma run_accounted : accounted the_run.
Proof.
  unfold the_run, iter_completed_with_deadlines. destruct (bool_decide _) eqn:Hd.
  - apply bool_decide_eq_true in Hd. destruct sized; [|done]. injection Hd as Hn.
    exists [], 0%nat. cbn. split_and!; try done; try lia; constructor.
  - destruct (run_start Hd) as (Hw & Ha & Hf). fold workers_of. fold ctx_of.
    set (s0 := _fill_active_slots ctx_of env (Scheduler items 0 false [] bs)) in *.
    destruct (_drain_active_tasks ctx_of env waits 0 s0) as [[tr e] s] eqn:Er.
    destruct (drain_spec ctx_of env items waits [] 0%nat s0 tr e s (workers_positive Hd) Hw Ha Hf Er)
      as (ps & Hps & Ha' & Hw' & He & Hex & Hwait & _). cbn [app] in Ha'.
    assert (Hrem : remaining (if is_waiting e then Run tr e s [] else Run tr e (_shutdown_pool s) (active s)) = active s).
    { unfold remaining. by destruct (is_waiting e); cbn; rewrite ?app_nil_r. }
    assert (Hsub : source s = [] -> next_sequence s = length items).
    { intros Hs. pose proof (window_source _ _ _ Hw') as Hsrc. pose proof (window_bound _ _ _ Hw').
      rewrite Hs in Hsrc. apply (f_equal length) in Hsrc. rewrite length_drop in Hsrc. cbn in Hsrc. lia. }
    exists ps, (next_sequence s). unfold accounts in Ha'. rewrite <- !app_assoc in Ha'.
    assert (Htr : trace (if is_waiting e then Run tr e s [] else Run tr e (_shutdown_pool s) (active s)) = tr)
      by by destruct (is_waiting e).
    assert (Hen : ended (if is_waiting e then Run tr e s [] else Run tr e (_shutdown_pool s) (active s)) = e)
      by by destruct (is_waiting e).
    rewrite Hrem, Htr, Hen. split_and!; try done.
    + apply (window_bound _ _ _ Hw').
    + apply Forall_forall. intros t Ht. by destruct (window_items _ _ _ Hw' t Ht).
    + intros Hx. destruct (Hex Hx). auto.
    + apply (window_size _ _ _ Hw').
    + intros Hx. destruct (Hwait Hx) as [_ [?|?]]; auto.
Qed.

(** C18: the executor loses no item and hands over none twice: whatever the futures come to and whenever
    they do, the results it yields, the errors it reports, the item that raised and the items it
    abandons are the submitted ones, each of them once and with its own outcome; when it ends by
    itself they are all the items and none is abandoned; and it never has more items in flight than
    workers, and fewer only when all are submitted. *)
Theorem executor_accounts :
  accounted (iter_completed_with_deadlines items sized max_workers sort_key on_result on_error planning_timeout
               work_unit_timeout env bs waits).
Proof. apply run_accounted. Qed.

(** An executor that stops early leaves nothing running on its lease: the lease of every item that it
    abandons is cancelled, so that its worker can no longer publish; and a timeout is raised or
    reported only for an abandoned item whose deadline had passed, the earliest of all, when nothing
    in flight was done. *)
Theorem executor_stops :
  let r := iter_completed_with_deadlines items sized max_workers sort_key on_result on_error planning_timeout
             work_unit_timeout env bs waits in
  (forall t, t ∈ abandoned r ->
     raise_if_model_execution_cancelled (leases (final r)) (Some (budget t)) = Err ModelExecutionCancelled) /\
  (forall x, timeout_item (ended r) = Some x -> exists s, active s = abandoned r /\ timed_out waits s x).
Proof.
  cbn zeta. unfold iter_completed_with_deadlines. destruct (bool_decide _) eqn:Hd; [by split; [intros t ?%elem_of_nil|]|].
  destruct (run_start Hd) as (Hw & Ha & Hf). fold workers_of. fold ctx_of.
  set (s0 := _fill_active_slots ctx_of env (Scheduler items 0 false [] bs)) in *.
  destruct (_drain_active_tasks ctx_of env waits 0 s0) as [[tr e] s] eqn:Er.
  destruct (drain_spec ctx_of env items waits [] 0%nat s0 tr e s (workers_positive Hd) Hw Ha Hf Er)
    as (ps & _ & _ & Hw' & _ & _ & _ & Hto).
  destruct (is_waiting e) eqn:Ew; [by destruct e; try done; split; [intros t ?%elem_of_nil|]|].
  split; cbn [abandoned final ended]; [|intros x Hx; exists s; auto].
  intros t Ht. destruct (window_items _ _ _ Hw' t Ht) as [_ Hb]. unfold _shutdown_pool. cbn [leases set_active set_leases].
  apply cancelled_raises; [by rewrite shutdown_length|]. apply shutdown_cancels; [done|]. right. eauto.
Qed.

Lemma run_ends : prompt 0 waits -> (length items <= length waits)%nat -> ended the_run <> Waiting.
Proof.
  intros Hp Hl. unfold the_run, iter_completed_with_deadlines. destruct (bool_decide _) eqn:Hd; [done|].
  destruct (run_start Hd) as (Hw & Ha & Hf). fold workers_of. fold ctx_of.
  set (s0 := _fill_active_slots ctx_of env (Scheduler items 0 false [] bs)) in *.
  destruct (_drain_active_tasks ctx_of env waits 0 s0) as [[tr e] s] eqn:Er.
  assert (He : e <> Waiting).
  { refine (drain_progress ctx_of env items waits 0 [] 0 s0 tr e s Hw Ha _ Hp Hl Er). intros. lia. }
  by destruct e.
Qed.

End generator.
