(* ===== verification/ModelMap.v ===== *)
(** * ModelMap: [parallel_model_tasks.py]

    The map of independent model calls over the deadline executor, whose results are those of
    the serial map, in the order of the items.  [parallelism] is what the router has measured,
    [depth] the number of maps around this one; a worker is a function that may raise. *)

From stdpp Require Import prelude gmap strings list sorting.
From S2P Require Import Prelude RLocks ExecutionBudget DeadlineExecutor.

Open Scope Z_scope.
Open Scope py_scope.

Definition run_indexed {T R} (worker : T -> res R) (item : nat * T) : res (nat * R) :=
  let* r := worker item.2 in Ok (item.1, r).

Definition indexed_environment {T R} (worker : T -> res R) (env : environment (nat * R)) (values : list T) : Prop :=
  forall i x, values !! i = Some x ->
    outcome_of env i = match run_indexed worker (i, x) with Ok r => Returned r | Err e => Raised e end.

Definition map_workers (values parallelism depth : nat) : nat :=
  if (0 <? depth)%nat then 1%nat else Nat.max 1 (Nat.min values parallelism).

(** What the loop raises: the error of the executor, or what escaped it. *)
Definition raised_by {Item} (e : ending Item) : option exn :=
  match e with
  | TimeoutRaised _ => Some ParallelExecutionTimeout
  | TaskRaised _ _ => Some ParallelTaskError
  | CallbackRaised _ e | TimeoutCallbackRaised e => Some e
  | InterruptRaised _ => Some KeyboardInterrupt
  | Exhausted | TimeoutReported _ | Closed | Waiting => None
  end.

(** The [results] that the loop has filled in. *)
Definition map_results {T R} (tr : list (trace_event (nat * T) (nat * R))) : gmap nat R :=
  fold_left (fun m e => match e with Yields _ (i, r) => <[i := r]> m | Reports _ _ => m end) tr ∅.

(** [None]: the map has not returned yet. *)
Definition deterministic_model_map {T R} (parallelism depth : nat) (values : list T) (worker : T -> res R)
    (planning_timeout : Z) (env : environment (nat * R)) (bs : list ModelExecutionBudget) (waits : list awaited)
    : option (res (list R)) :=
  if bool_decide (values = []) then Some (Ok [])
  else
    let workers := map_workers (length values) parallelism depth in
    if (workers =? 1)%nat then Some (res_map_list worker values)
    else
      let r := iter_completed_with_deadlines (imap pair values) true (Z.of_nat workers) (Some fst) None None
                 planning_timeout None (Environment (current env) (clock env) (outcome_of env) (fun _ => false)) bs waits in
      if is_waiting (ended r) then None
      else
        match raised_by (ended r) with
        | Some e => Some (Err e)
        | None =>
            let results := map_results (trace r) in
            if bool_decide (size results <> length values) then Some (Err (RuntimeError "parallel map lost a completed result"))
            else Some (res_map_list (fun i => match results !! i with Some r => Ok r | None => Err KeyError end)
                         (seq 0 (length values)))
        end.

(** * The parallel map is the serial one *)


Open Scope Z_scope.
Open Scope py_scope.

Section model_map.
Context {T R : Type} (worker : T -> res R) (values : list T).

(** Every entry is what the worker returned for the item at its index. *)

Definition results_ok (m : gmap nat R) : Prop :=
  forall i r, m !! i = Some r -> exists x, values !! i = Some x /\ worker x = Ok r.

Lemma results_spec (ctx : _DrainContext (nat * T) (nat * R) nat) env ps (tr : list (trace_event (nat * T) (nat * R))) m :
  indexed_environment worker env values -> on_error ctx = None -> results_ok m ->
  Forall2 (event_of ctx env (imap pair values)) ps tr ->
  let m' := fold_left (fun m e => match e with Yields _ (i, r) => <[i := r]> m | Reports _ _ => m end) tr m in
  results_ok m' /\ dom m' = dom m ∪ list_to_set ps.
Proof.
  intros Henv Herr. revert m. induction ps as [|i ps IH] in tr |- *; intros m Hm Hps.
  { apply Forall2_nil_inv_l in Hps as ->. cbn. split; [done|set_solver]. }
  apply Forall2_cons_inv_l in Hps as (e & tr' & He & Htr & ->). cbn [fold_left].
  destruct e as [[j x] [k r]|[j x] c]; [|by destruct He as (_ & _ & [])]. destruct He as [Hx Ho].
  rewrite list_lookup_imap in Hx. destruct (values !! i) as [x'|] eqn:Ev; [|done]. injection Hx as <- <-.
  rewrite (Henv i x' Ev) in Ho. unfold run_indexed in Ho. cbn [fst snd] in Ho.
  destruct (worker x') as [r'|] eqn:Er; [|done]. cbn [res_bind] in Ho. injection Ho as <- <-.
  destruct (IH tr' (<[i := r']> m)) as [H1 H2]; [|done|].
  - intros j r [[<- <-]|[_ Hj]]%lookup_insert_Some; [eauto|by apply Hm].
  - split; [done|]. rewrite H2, dom_insert_L. cbn [list_to_set]. set_solver.
Qed.

Lemma serial_from_results m :
  results_ok m -> dom m = set_seq 0 (length values) ->
  exists rs, res_map_list worker values = Ok rs /\
    res_map_list (fun i => match m !! i with Some r => Ok r | None => Err KeyError end) (seq 0 (length values)) = Ok rs.
Proof.
  intros Hm Hdom.
  assert (Hall : forall n, (n <= length values)%nat -> exists rs, Forall2 (fun x r => worker x = Ok r) (take n values) rs /\
            Forall2 (fun i r => match m !! i with Some r => Ok r | None => Err KeyError end = Ok r) (seq 0 n) rs).
  { induction n as [|n IH]; intros Hn; [exists []; split; constructor|]. destruct IH as (rs & H1 & H2); [lia|].
    assert (Hin : n ∈ dom m) by (rewrite Hdom; apply elem_of_set_seq; lia).
    apply elem_of_dom in Hin as [r Hr]. destruct (Hm n r Hr) as (x & Hx & Hwx).
    exists (rs ++ [r]). rewrite (take_S_r values n x Hx), seq_S. split; apply Forall2_app; try done.
    - by repeat constructor.
    - repeat constructor. cbn. by rewrite Hr. }
  destruct (Hall (length values)) as (rs & H1 & H2); [done|]. rewrite firstn_all in H1. exists rs.
  by rewrite !res_map_list_ok.
Qed.

Lemma serial_fails i e :
  (exists x, values !! i = Some x /\ worker x = Err e) -> is_ok (res_map_list worker values) = false.
Proof.
  intros (x & Hx & Hw). destruct (res_map_list worker values) as [rs|] eqn:E; [|done].
  apply res_map_list_ok in E. destruct (Forall2_lookup_l _ _ _ _ _ E Hx) as (r & _ & Hr). congruence.
Qed.

(** C19: the parallel map is the serial map: whenever the calls finish, in whatever order and on
    however many workers, what it returns is what calling the worker on one item after the other
    returns; it raises a task error only when some call raises, otherwise only the timeout, and
    never finds a result lost.  When calls do finish it does not wait for ever. *)
Theorem model_map_serial (parallelism depth : nat) (planning_timeout : Z) (env : environment (nat * R))
    (bs : list ModelExecutionBudget) (waits : list awaited) :
  indexed_environment worker env values ->
  let result := deterministic_model_map parallelism depth values worker planning_timeout env bs waits in
  match result with
  | None => True
  | Some r =>
      r = res_map_list worker values \/ r = Err ParallelExecutionTimeout \/
      (r = Err ParallelTaskError /\ is_ok (res_map_list worker values) = false)
  end /\ (prompt 0 waits -> (length values <= length waits)%nat -> result <> None).
Proof.
  intros Henv. unfold deterministic_model_map. case_bool_decide as Hnil; [subst values; split; [by left|done]|].
  destruct (_ =? 1)%nat; [split; [by left|done]|].
  set (env' := Environment (current env) (clock env) (outcome_of env) (fun _ => false)).
  set (r := iter_completed_with_deadlines _ _ _ _ _ _ _ _ _ _ _).
  assert (Hends : prompt 0 waits -> (length values <= length waits)%nat -> ended r <> Waiting).
  { intros Hp Hl. apply run_ends; [done|]. by rewrite length_imap. }
  destruct (run_accounted (imap pair values) true (Z.of_nat (map_workers (length values) parallelism depth)) (Some fst)
    None None planning_timeout None env' bs waits)
    as (ps & n & Hn & Hps & Hperm & _ & Hok & Hex & _). unfold the_run in *. fold r in Hps, Hperm, Hok, Hex.
  assert (Htask : forall i e, outcome_of env i = Raised e -> i ∈ seq 0 n -> is_ok (res_map_list worker values) = false).
  { intros i e Ho Hi. apply elem_of_seq in Hi. rewrite length_imap in Hn.
    destruct (lookup_lt_is_Some_2 values i) as [x Hx]; [lia|]. rewrite (Henv i x Hx) in Ho. unfold run_indexed in Ho.
    cbn [fst snd] in Ho. destruct (worker x) as [y|e'] eqn:Ew; [done|]. by apply (serial_fails i e'); eauto. }
  destruct (ended r) as [|x|x|i c|i|i c|c| |] eqn:Ee; cbn [is_waiting raised_by failed ending_ok] in *;
    try (split; [auto; fail|done]).
  - destruct (Hex eq_refl) as [Hrem ->]. rewrite Hrem, app_nil_r in Hperm. cbn [app] in Hperm.
    rewrite length_imap in Hperm.
    assert (Henv' : indexed_environment worker env' values) by exact Henv.
    destruct (fun Herr Hm => results_spec _ _ ps (trace r) ∅ Henv' Herr Hm Hps) as [H1 H2]; [done|by intros ? ? ?|].
    fold (map_results (trace r)) in H1, H2.
    assert (Hdom : dom (map_results (trace r)) = set_seq 0 (length values)).
    { rewrite H2, Hperm. apply set_eq. intros j. rewrite elem_of_set_seq, dom_empty_L, elem_of_union, elem_of_list_to_set, elem_of_seq.
      set_solver. }
    destruct (serial_from_results _ H1 Hdom) as (rs & -> & Hrs).
    rewrite bool_decide_eq_false_2; [rewrite Hrs; split; [by left|done]|].
    intros Hne. apply Hne. rewrite <- (size_dom (D := gset nat)), Hdom. by rewrite size_set_seq.
  - by destruct Hok.
  - split; [|done]. right; right. split; [done|]. destruct Hok as [Ho _]. eapply Htask; [exact Ho|].
    rewrite <- Hperm. apply elem_of_app. right. apply elem_of_app. left. left.
  - exfalso. assert (Hi : i ∈ seq 0 n).
    { rewrite <- Hperm. apply elem_of_app. right. apply elem_of_app. left. left. }
    apply elem_of_seq in Hi. rewrite length_imap in Hn. destruct (lookup_lt_is_Some_2 values i) as [x Hx]; [lia|].
    cbn in Hok. rewrite (Henv i x Hx) in Hok. by destruct (run_indexed worker (i, x)).
  - by destruct Hok.
  - by destruct Hok.
  - by destruct Hok.
  - split; [done|]. intros Hp Hl. by destruct (Hends Hp Hl).
Qed.

End model_map.
