(* ===== verification/LlamaSse.v ===== *)
(** * LlamaSse: [llama_sse_protocol.py]

    The error records of the event stream of a model server, and the test of an error for
    one the server can recover from, which follows the chain of exceptions that wrap it. *)

From stdpp Require Import prelude gmap strings list relations.
From S2P Require Import Prelude Text Json PyJson JsonStream StdJson.

Open Scope Z_scope.
Open Scope py_scope.

(** ** [bytes.decode("utf-8", errors="replace")] *)

(** How many bytes the replacement character stands for: those of a sequence that began well. *)
Definition maximal_subpart (bytes : list Z) : nat :=
  match bytes with
  | b0 :: b1 :: r =>
      if (0xE0 <=? b0) && (b0 <=? 0xF4) && second_byte b0 b1
      then match r with b2 :: _ => if (0xF0 <=? b0) && continuation b2 then 3%nat else 2%nat | [] => 2%nat end
      else 1%nat
  | _ => 1%nat
  end.

Fixpoint decode_run (fuel : nat) (bytes : list Z) : pystr :=
  match fuel, bytes with
  | O, _ | _, [] => []
  | S fuel, _ =>
      match utf8_decode_step bytes with
      | Decoded c rest => c :: decode_run fuel rest
      | Incomplete => [0xFFFD]
      | Malformed => 0xFFFD :: decode_run fuel (drop (maximal_subpart bytes) bytes)
      end
  end.

Definition decode_replace (bytes : list Z) : pystr := decode_run (length bytes) bytes.

(** ** Error records *)

Section records.
Context `{PyFloat} `{PyUnicode}.

Definition default_message : pystr := u "llama-server stream error".

Definition _error_status (value : json) : res Z :=
  match py_int value with
  | Ok status => Ok (if (400 <=? status) && (status <=? 599) then status else 500)
  | Err TypeError | Err ValueError => Ok 500
  | Err e => Err e
  end.

Definition server_error (message : pystr) : list (pystr * json) :=
  [(u "code", JInt 500); (u "message", JStr message); (u "type", JStr (u "server_error"))].

Definition setdefault (key : pystr) (v : json) (d : list (pystr * json)) : list (pystr * json) :=
  match dict_get key d with Some _ => d | None => dict_set key v d end.

Definition _normalize_error (value : json) : option (list (pystr * json)) :=
  match value with
  | JObj d => Some (setdefault (u "message") (JStr default_message) d)
  | JStr s => match strip s with [] => None | message => Some (server_error message) end
  | _ => None
  end.

Inductive raw_line : Type := RawBytes (bytes : list Z) | RawText (s : pystr).

Definition line_text (raw : raw_line) : pystr :=
  strip (match raw with RawBytes b => decode_replace b | RawText s => s end).

(** The payload of a record, and whether it is a legacy one. *)
Definition payload_of (line : pystr) : option (pystr * bool) :=
  if starts_with (u "data:") line then
    let payload := strip (drop 5 line) in
    if bool_decide (payload = []) || bool_decide (payload = u "[DONE]") then None else Some (payload, false)
  else if starts_with (u "error:") line then Some (strip (drop 6 line), true)
  else None.

Definition sse_error_from_line (raw : raw_line) : res (option (Z * list (pystr * json))) :=
  match payload_of (line_text raw) with
  | None => Ok None
  | Some (payload, legacy) =>
      match json_loads payload with
      | Err JSONDecodeError | Err ValueError | Err TypeError =>
          Ok (if legacy && negb (bool_decide (payload = [])) then Some (500, server_error payload) else None)
      | Err e => Err e
      | Ok decoded =>
          let error := if legacy then _normalize_error decoded
                       else match decoded with JObj d => _normalize_error (get d (u "error")) | _ => None end in
          match error with
          | None => Ok None
          | Some error =>
              let* status := _error_status (get error (u "code")) in
              Ok (Some (status, dict_set (u "code") (JInt status) error))
          end
      end
  end.

End records.

(** ** Errors that wrap errors *)

(** An object is named by its identity.  [described] is its [str], or the JSON text of a mapping;
    an exception has a [cause] attribute, [__cause__] and [__context__]. *)
Inductive error_object : Type :=
  | ExceptionObject (described : pystr) (cause dunder_cause dunder_context : option nat)
  | OtherObject (described : pystr).

Definition _NATIVE_FORMAT_ERROR_MARKERS : list pystr := [u "peg-native format"; u "common_chat_peg_parse"].

Section chains.
Context `{PyCasefold}.

Definition object_at (heap : list error_object) (current : nat) : error_object := default (OtherObject []) (heap !! current).

Definition error_text (o : error_object) : pystr :=
  casefold (match o with ExceptionObject s _ _ _ | OtherObject s => s end).

(** What is appended to [pending], in its order. *)
Definition nested_errors (current : nat) (o : error_object) : list nat :=
  match o with
  | ExceptionObject _ a b c =>
      omap (fun nested => match nested with
                          | Some n => if bool_decide (n = current) then None else Some n
                          | None => None
                          end) [a; b; c]
  | OtherObject _ => []
  end.

Definition is_marked (o : error_object) : bool :=
  existsb (fun token => occurs token (error_text o)) _NATIVE_FORMAT_ERROR_MARKERS.

(** [pending] with its last element first. *)
Fixpoint marker_search (fuel : nat) (heap : list error_object) (pending : list nat) (seen : gset nat) : res bool :=
  match fuel with
  | O => Err OutOfFuel
  | S fuel =>
      match pending with
      | [] => Ok false
      | current :: pending =>
          if bool_decide (current ∈ seen) then marker_search fuel heap pending seen
          else
            let o := object_at heap current in
            if is_marked o then Ok true
            else marker_search fuel heap (reverse (nested_errors current o) ++ pending) ({[current]} ∪ seen)
      end
  end.

Definition is_recoverable_native_format_error (heap : list error_object) (value : nat) : res bool :=
  marker_search (2 + 3 * length heap) heap [value] ∅.

End chains.

(** * Error records are read, and chains of errors are searched to their end *)

From S2P Require Import JsonReader.

Open Scope Z_scope.
Open Scope py_scope.

(** ** Chains *)

Section chains.
Context `{PyCasefold} (heap : list error_object).

(** [b] is the cause, the [__cause__] or the [__context__] of [a]. *)
Definition wraps (a b : nat) : Prop :=
  match object_at heap a with
  | ExceptionObject _ x y z => Some b ∈ [x; y; z]
  | OtherObject _ => False
  end.

Definition nests (a b : nat) : Prop := b ∈ nested_errors a (object_at heap a).
Definition marked (n : nat) : Prop := is_marked (object_at heap n) = true.

Definition unsearched (seen : gset nat) : nat := size (set_seq (C := gset nat) 0 (length heap) ∖ seen).

Lemma nested_length a o : (length (nested_errors a o) <= 3)%nat.
Proof.
  destruct o as [s [b|] [c|] [d|]|s]; cbn [nested_errors omap list_omap]; repeat case_bool_decide; cbn; lia.
Qed.

Lemma nested_outside a : (length heap <= a)%nat -> nested_errors a (object_at heap a) = [].
Proof. intros Ha. unfold object_at. by rewrite (lookup_ge_None_2 heap a Ha). Qed.

Lemma unsearched_less seen a : a ∉ seen -> (a < length heap)%nat -> (S (unsearched ({[a]} ∪ seen)) <= unsearched seen)%nat.
Proof.
  intros Hs Ha. unfold unsearched. apply subset_size. split; [set_solver|]. intros Hsub.
  assert (Hin : a ∈ set_seq (C := gset nat) 0 (length heap) ∖ seen)
    by (apply elem_of_difference; split; [apply elem_of_set_seq; lia|done]).
  apply Hsub in Hin. set_solver.
Qed.

Lemma unsearched_mono seen a : (unsearched ({[a]} ∪ seen) <= unsearched seen)%nat.
Proof. unfold unsearched. apply subseteq_size. set_solver. Qed.

Lemma marker_search_spec start fuel : forall pending seen,
  (length pending + 3 * unsearched seen < fuel)%nat ->
  (forall a, a ∈ seen -> ~ marked a /\ forall b, nests a b -> b ∈ seen \/ b ∈ pending) ->
  (forall a, a ∈ pending -> rtc nests start a) -> start ∈ seen \/ start ∈ pending ->
  exists found, marker_search fuel heap pending seen = Ok found /\
    (found = true <-> exists n, rtc nests start n /\ marked n).
Proof.
  induction fuel as [|fuel IH]; intros pending seen Hf Hseen Hp Hstart; [lia|]. cbn [marker_search].
  destruct pending as [|a pending].
  - exists false. split; [done|]. split; [done|]. intros (n & Hr & Hm). exfalso.
    assert (Hn : n ∈ seen).
    { clear Hm Hp Hf IH. destruct Hstart as [Hx|Hx]; [|by apply elem_of_nil in Hx].
      induction Hr as [x|x y z Hxy Hyz IHr]; [done|]. apply IHr.
      destruct (Hseen x Hx) as [_ Hb]. by destruct (Hb y Hxy) as [?|?%elem_of_nil]. }
    by destruct (Hseen n Hn).
  - assert (Ha : rtc nests start a) by (apply Hp; left). case_bool_decide as Hs.
    + apply IH.
      * cbn [length] in Hf. lia.
      * intros c Hc. destruct (Hseen c Hc) as [Hm Hb]. split; [done|]. intros b Hw.
        destruct (Hb b Hw) as [?|[->|?]%elem_of_cons]; auto.
      * intros c Hc. apply Hp. by right.
      * destruct Hstart as [?|[->|?]%elem_of_cons]; auto.
    + destruct (is_marked (object_at heap a)) eqn:Em; [exists true; split; [done|]; split; [eauto|done]|].
      apply IH.
      * rewrite length_app, length_reverse. cbn [length] in Hf. pose proof (nested_length a (object_at heap a)).
        destruct (decide (a < length heap)%nat) as [Hlt|Hge].
        -- pose proof (unsearched_less seen a Hs Hlt). lia.
        -- rewrite nested_outside by lia. pose proof (unsearched_mono seen a). cbn [length]. lia.
      * intros c [->%elem_of_singleton|Hc]%elem_of_union.
        -- split; [unfold marked; congruence|]. intros b Hw. right. apply elem_of_app. left. by apply elem_of_reverse.
        -- destruct (Hseen c Hc) as [Hm Hb]. split; [done|]. intros b Hw.
           destruct (Hb b Hw) as [?|[->|?]%elem_of_cons]; [left; set_solver|left; set_solver|right; apply elem_of_app; auto].
      * intros c [Hc|Hc]%elem_of_app; [rewrite elem_of_reverse in Hc; exact (rtc_r _ _ _ Ha Hc)|apply Hp; by right].
      * destruct Hstart as [?|[->|?]%elem_of_cons]; [left; set_solver|left; set_solver|right; apply elem_of_app; auto].
Qed.

Lemma nests_wraps a b : nests a b <-> wraps a b /\ b <> a.
Proof.
  unfold nests, wraps. destruct (object_at heap a) as [s x y z|s]; cbn [nested_errors];
    [|split; [by intros ?%elem_of_nil|by intros [? _]]].
  rewrite list_elem_of_omap. split.
  - intros ([c|] & Hc & Hb); [|done]. case_bool_decide; [done|]. by injection Hb as <-.
  - intros [Hb Hn]. exists (Some b). split; [done|]. by rewrite bool_decide_eq_false_2.
Qed.

(** An exception that is its own context adds nothing. *)
Lemma rtc_nests a b : rtc nests a b <-> rtc wraps a b.
Proof.
  split; [apply rtc_subrel; intros x y Hx; by apply nests_wraps|].
  induction 1 as [x|x y z Hxy _ IH]; [constructor|]. destruct (decide (y = x)) as [->|Hne]; [done|].
  eapply rtc_l; [|exact IH]. by apply nests_wraps.
Qed.

(** C26: the test for a native format error always ends, also on exceptions that wrap each other in a
    circle, and it finds the marker exactly when the error it is given, or one that it wraps through
    any chain of causes and contexts, carries it. *)
Theorem recoverable_iff (value : nat) :
  exists found, is_recoverable_native_format_error heap value = Ok found /\
    (found = true <-> exists n, rtc wraps value n /\ is_marked (object_at heap n) = true).
Proof.
  setoid_rewrite <- rtc_nests. apply marker_search_spec.
  - unfold unsearched. rewrite difference_empty_L, size_set_seq. cbn [length]. lia.
  - intros a []%elem_of_empty.
  - intros a ->%list_elem_of_singleton. constructor.
  - right. left.
Qed.

End chains.

(** ** Records *)

Lemma decode_run_encode s b n : utf8_encode s = Ok b -> (length b <= n)%nat -> decode_run n b = s.
Proof.
  unfold utf8_encode. destruct (forallb scalar_value s) eqn:Hs; [|done]. intros [= <-].
  revert n. induction s as [|c s IH]; intros n Hn; [by destruct n|].
  cbn [forallb] in Hs. apply andb_true_iff in Hs as [Hc Hs]. cbn [map concat] in *.
  pose proof (utf8_decode_encode_char c (concat (map utf8_encode_char s)) Hc) as Hstep.
  pose proof (decode_step_length _ _ _ Hstep) as Hlen.
  destruct n as [|n]; [lia|]. cbn [decode_run].
  destruct (utf8_encode_char c ++ concat (map utf8_encode_char s)) as [|b0 bs] eqn:Eb; [done|].
  rewrite Hstep. f_equal. apply IH; [done|]. lia.
Qed.

Lemma decode_replace_encode s b : utf8_encode s = Ok b -> decode_replace b = s.
Proof. intros He. by apply decode_run_encode. Qed.

Section records.
Context `{PyFloat} `{PyUnicode}.

Lemma error_status_range v status : _error_status v = Ok status -> 400 <= status <= 599.
Proof.
  unfold _error_status. destruct (py_int v) as [z|e]; [|destruct e; intros [= <-]; lia].
  intros [= <-]. destruct ((400 <=? z) && (z <=? 599)) eqn:E; [|lia].
  apply andb_true_iff in E as [?%Z.leb_le ?%Z.leb_le]. lia.
Qed.

Lemma normalized_message v error : _normalize_error v = Some error -> dict_get (u "message") error <> None.
Proof.
  unfold _normalize_error. destruct v as [| | | |s|l|d]; try done.
  - destruct (strip s) as [|c t]; [done|]. by intros [= <-].
  - intros [= <-]. unfold setdefault. destruct (dict_get (u "message") d) eqn:E; [by rewrite E|].
    by rewrite dict_get_set_eq.
Qed.

(** What is read from any line: nothing, or an error with a status of a refusal, the same code
    and a message; a call raises only for a float that [int] does not take. *)
Definition record_ok (result : res (option (Z * list (pystr * json)))) : Prop :=
  match result with
  | Ok None => True
  | Ok (Some (status, error)) =>
      400 <= status <= 599 /\ dict_get (u "code") error = Some (JInt status) /\ dict_get (u "message") error <> None
  | Err e => exists f, float_trunc f = Err e
  end.

Lemma error_status_err v e : _error_status v = Err e -> exists f, float_trunc f = Err e.
Proof.
  unfold _error_status, py_int. destruct v as [|b|z|f|s|l|d]; try done.
  - intros Ht. exists f. destruct (float_trunc f) as [z|e']; [done|]. by destruct e'; try done; injection Ht as <-.
  - unfold int_of_str. destruct (match strip s with [] => _ | _ => _ end) as [neg body].
    destruct (int_digits body); [|done]. by destruct (_ <? _).
Qed.

(** Whatever the line is, what is read from it is an error with a status between 400 and 599, the
    same code and a message, or nothing. *)
Theorem sse_error_shape raw : record_ok (sse_error_from_line raw).
Proof.
  unfold sse_error_from_line. destruct (payload_of (line_text raw)) as [[payload legacy]|]; [|done].
  destruct (json_loads payload) as [decoded|e] eqn:Ej.
  - set (error := if legacy then _ else _). assert (Hm : forall d, error = Some d -> dict_get (u "message") d <> None).
    { intros d. unfold error. destruct legacy; [apply normalized_message|]. destruct decoded; try done. apply normalized_message. }
    destruct error as [d|]; [|done]. specialize (Hm d eq_refl).
    destruct (_error_status (get d (u "code"))) as [status|e] eqn:Es; cbn [res_bind record_ok].
    + split; [by eapply error_status_range|]. rewrite dict_get_set_eq, dict_get_set_ne by done. done.
    + by eapply error_status_err.
  - apply json_loads_err in Ej as [->| ->]; (destruct (legacy && _); cbn [record_ok]; [|done]); split; [lia|done|lia|done].
Qed.

Lemma strip_between c m d : is_space c = false -> is_space d = false -> strip (c :: m ++ [d]) = c :: m ++ [d].
Proof.
  intros Hc Hd. unfold strip. cbn [lstrip]. rewrite Hc.
  assert (Hr : reverse (c :: m ++ [d]) = d :: reverse (c :: m)).
  { change (c :: m ++ [d]) with ((c :: m) ++ [d]). by rewrite reverse_app. }
  rewrite Hr. cbn [lstrip]. rewrite Hd, <- Hr. apply reverse_involutive.
Qed.

(** The error of a record is read back from its text: with the status of its code, and a message. *)
Theorem sse_error_read `{!PyFloatLaws} d t b :
  wf_json (JObj [(u "error", JObj d)]) = true -> canonical_json (JObj [(u "error", JObj d)]) = Ok t ->
  utf8_encode (u "data: " ++ t) = Ok b ->
  sse_error_from_line (RawBytes b) =
    let error := setdefault (u "message") (JStr default_message)
                   (sort_items (map (fun kv => (kv.1, json_sorted kv.2)) d)) in
    let* status := _error_status (get error (u "code")) in
    Ok (Some (status, dict_set (u "code") (JInt status) error)).
Proof.
  intros Hwf Ht Hb. pose proof (json_loads_dumps' _ _ (wf_json_std _ Hwf) Ht) as Hload.
  assert (Hshape : exists m, t = 123 :: m ++ [125]).
  { cbn [canonical_json] in Ht. destruct (res_map_list dumps_member _) as [ts|]; [|done]. cbn [res_bind] in Ht.
    injection Ht as <-. by eexists. }
  destruct Hshape as [m ->].
  assert (Hline : line_text (RawBytes b) = u "data: " ++ 123 :: m ++ [125]).
  { unfold line_text. rewrite (decode_replace_encode _ _ Hb).
    change (u "data: " ++ 123 :: m ++ [125]) with (100 :: (u "ata: " ++ 123 :: m) ++ [125]) at 2.
    rewrite <- (strip_between 100 (u "ata: " ++ 123 :: m) 125) by done. by rewrite <- app_assoc. }
  unfold sse_error_from_line. rewrite Hline.
  assert (Hp : payload_of (u "data: " ++ 123 :: m ++ [125]) = Some (123 :: m ++ [125], false)).
  { unfold payload_of. change (starts_with (u "data:") (u "data: " ++ 123 :: m ++ [125])) with true. cbn iota.
    change (drop 5 (u "data: " ++ 123 :: m ++ [125])) with (32 :: 123 :: m ++ [125]).
    assert (Hs : strip (32 :: 123 :: m ++ [125]) = 123 :: m ++ [125]).
    { rewrite <- (strip_between 123 m 125) at 2 by done. done. }
    rewrite Hs. rewrite !bool_decide_eq_false_2; done. }
  rewrite Hp, Hload. cbn iota beta. done.
Qed.
End records.
