(* ===== verification/ExecutorExamples.v ===== *)
(** * ExecutorExamples: a small run of the executor and of the parallel map *)

From stdpp Require Import prelude gmap strings list sorting relations.
From S2P Require Import Prelude RLocks ExecutionBudget DeadlineExecutor ModelMap.

Open Scope Z_scope.
Open Scope py_scope.

(** Every third call raises; results are tenfold; nothing is closed. *)
Definition worker (n : nat) : res nat := if (n mod 3 =? 2)%nat then Err ValueError else Ok (10 * n)%nat.

Definition small_environment : environment nat :=
  Environment None (fun i => 1000 * Z.of_nat i)
    (fun i => match worker i with Ok r => Returned r | Err e => Raised e end) (fun _ => false).

Definition small_run (report : bool) (waits : list awaited) : run nat nat :=
  iter_completed_with_deadlines [0; 1; 2; 3; 4]%nat true 2 (None : option (nat -> nat)) None
    (if report then Some (fun _ _ => Ok tt) else None) 60000000 None small_environment [] waits.

(** The second item is done first; a worker renews its lease while the scheduler waits for nothing. *)
Definition small_waits : list awaited :=
  [Awaited [Starts 0] {[1%nat]} 5000; Awaited [Renews 0 59000000 60000000] ∅ 60000000;
   Awaited [] {[0%nat; 2%nat]} 61000000; Awaited [] {[3%nat; 4%nat]} 62000000].

Example errors_are_reported :
  let r := small_run true small_waits in
  trace r = [Yields 1 10; Yields 0 0; Reports 2 ValueError; Yields 3 30; Yields 4 40]%nat /\
  ended r = Exhausted /\ abandoned r = [].
Proof. vm_compute. repeat split. Qed.

(** Without [on_error] the first error ends the run; nothing that was in flight is left uncancelled. *)
Example errors_are_raised :
  let r := small_run false small_waits in
  trace r = [Yields 1 10; Yields 0 0]%nat /\ ended r = TaskRaised 2 ValueError /\ abandoned r = [].
Proof. vm_compute. repeat split. Qed.

Example late_item_times_out :
  let r := small_run false [Awaited [] {[1%nat]} 5000; Awaited [] ∅ 60000000] in
  trace r = [Yields 1 10]%nat /\ ended r = TimeoutRaised 0%nat /\ map sequence (abandoned r) = [0; 2]%nat /\
  map cancelled (leases (final r)) = [true; false; true].
Proof. vm_compute. repeat split. Qed.

Definition doubles (n : nat) : res nat := Ok (n + n)%nat.

Definition doubles_environment : environment (nat * nat) :=
  Environment None (fun i => Z.of_nat i) (fun i => Returned (i, (7 - i) + (7 - i))%nat) (fun _ => false).

Definition seven_down : list nat := [7; 6; 5]%nat.

Definition map_waits : list awaited :=
  [Awaited [] {[0%nat; 1%nat; 2%nat]} 10; Awaited [] {[0%nat; 1%nat; 2%nat]} 20; Awaited [] {[0%nat; 1%nat; 2%nat]} 30].

Lemma model_map_serial_witness :
  deterministic_model_map 2 0 seven_down doubles 60000000 doubles_environment [] map_waits = Some (Ok [14; 12; 10]%nat) /\
  (match deterministic_model_map 2 0 seven_down doubles 60000000 doubles_environment [] map_waits with
   | None => True
   | Some r => r = res_map_list doubles seven_down \/ r = Err ParallelExecutionTimeout \/
               (r = Err ParallelTaskError /\ is_ok (res_map_list doubles seven_down) = false)
   end /\
   (prompt 0 map_waits -> (length seven_down <= length map_waits)%nat ->
    deterministic_model_map 2 0 seven_down doubles 60000000 doubles_environment [] map_waits <> None)).
Proof.
  split; [vm_compute; reflexivity|].
  apply (model_map_serial doubles seven_down 2 0 60000000 doubles_environment [] map_waits).
  intros i x Hi. destruct i as [|[|[|i]]]; cbn in Hi; [injection Hi as <-; reflexivity..|done].
Defined.

(** * Records of a model server, and errors in a circle *)

From S2P Require Import Text Json PyJson JsonStream StdJson LlamaSse.
From S2P Require Import JsonExamples LedgerExamples PatchExamples.

Open Scope Z_scope.
Open Scope py_scope.

Definition q (s : string) : pystr := 34 :: u s ++ [34].

Definition busy_record : pystr :=
  u "data: {" ++ q "error" ++ u ": {" ++ q "code" ++ u ": 503, " ++ q "message" ++ u ": " ++ q "busy" ++ u "}}" ++ [10].

Example busy_is_read :
  @sse_error_from_line whole_PyFloat _ (RawBytes busy_record) =
  Ok (Some (503, [(u "code", JInt 503); (u "message", JStr (u "busy"))])).
Proof. vm_compute. reflexivity. Qed.

Example legacy_text :
  @sse_error_from_line whole_PyFloat _ (RawBytes (u "error: out of " ++ [0xFF] ++ u " slots")) =
  Ok (Some (500, [(u "code", JInt 500); (u "message", JStr (u "out of " ++ [0xFFFD] ++ u " slots"));
                  (u "type", JStr (u "server_error"))])).
Proof. vm_compute. reflexivity. Qed.

Example done_is_no_error : @sse_error_from_line whole_PyFloat _ (RawText (u "data: [DONE]")) = Ok None.
Proof. vm_compute. reflexivity. Qed.

(** Floats of which there is only the infinite one: [int] raises [OverflowError] on it. *)

Definition infinite_PyFloat : PyFloat := {|
  pyfloat := unit; float_finite := fun _ => false; float_repr := fun _ => u "inf"; float_of_token := fun _ => tt;
  float_trunc := fun _ => Err (OtherException "OverflowError")
|}.

(** The status of an error whose code is [1e999] is not 500: the call raises. *)
Example infinite_code_raises :
  @sse_error_from_line infinite_PyFloat _ (RawText (u "data: {" ++ q "error" ++ u ": {" ++ q "code" ++ u ": 1e999}}")) =
  Err (OtherException "OverflowError").
Proof. vm_compute. reflexivity. Qed.

(** Two exceptions are each other's context; the second has a cause with the marker. *)
Definition circle : list error_object :=
  [ExceptionObject (u "request failed") None None (Some 1%nat); ExceptionObject (u "retry failed") None (Some 2%nat) (Some 0%nat);
   OtherObject (u "Failed to parse PEG-native format")].

Example circle_is_recoverable : is_recoverable_native_format_error circle 0 = Ok true.
Proof. vm_compute. reflexivity. Qed.

Example circle_without_cause : is_recoverable_native_format_error (take 1 circle) 0 = Ok false.
Proof. vm_compute. reflexivity. Qed.
