(* ===== verification/TargetContract.v ===== *)
(** * TargetContract: the coordinates of [target_contract.py]

    A target is a JSON object; its version decides whether names are mapped, which Java it
    needs, and which fields it must have.  The record that is deserialised from a receipt is
    left out. *)

From stdpp Require Import prelude gmap strings list.
From S2P Require Import Prelude Text Json PyJson.

Open Scope Z_scope.
Open Scope py_scope.

(** [str.isdigit] of the characters outside ASCII: it also holds of digits that [int] refuses. *)
Class PyIsDigit := { isdigit_other : Z -> bool }.

Definition isdigit `{PyIsDigit} (s : pystr) : bool :=
  negb (bool_decide (s = [])) && forallb (fun c => if c <? 128 then is_digit c else isdigit_other c) s.

Definition target_error {A} (why : string) : res A := Err (TargetContractError why).

Section target.
Context `{PyFloat, PyUnicode, !PyRepr, PyCasefold, PyIsDigit}.

Definition target := list (pystr * json).

Definition _text (value : json) : res pystr :=
  match value with
  | JNull => Ok []
  | _ => let* s := py_str value in Ok (strip s)
  end.

(** ** Versions *)

(** [\d+]: the values of the digits and what follows them. *)
Fixpoint digits_prefix (s : pystr) : list Z * pystr :=
  match s with
  | c :: s' => match digit_of c with Some d => let '(ds, r) := digits_prefix s' in (d :: ds, r) | None => ([], s) end
  | [] => ([], [])
  end.

Definition suffix_char (c : Z) : bool :=
  ((65 <=? c) && (c <=? 90)) || ((97 <=? c) && (c <=? 122)) || is_digit c || bool_decide (c ∈ [46; 95; 45]).

(** [(?:[-+][A-Za-z0-9._-]+)?] at the end *)
Definition version_suffix (s : pystr) : bool :=
  match s with
  | [] => true
  | c :: s => ((c =? 45) || (c =? 43)) && negb (bool_decide (s = [])) && forallb suffix_char s
  end.

(** The groups of the pattern of a version. *)
Definition version_groups (s : pystr) : option (list (list Z)) :=
  match digits_prefix s with
  | ((_ :: _) as major, 46 :: s) =>
      match digits_prefix s with
      | ((_ :: _) as minor, s) =>
          match s with
          | 46 :: s' =>
              match digits_prefix s' with
              | ((_ :: _) as patch, s') => if version_suffix s' then Some [major; minor; patch] else None
              | _ => None
              end
          | _ => if version_suffix s then Some [major; minor] else None
          end
      | _ => None
      end
  | _ => None
  end.

(** [int] of a group *)
Definition group_number (ds : list Z) : res Z :=
  if max_str_digits <? Z.of_nat (length ds) then Err ValueError else Ok (fold_left (fun a d => a * 10 + d) ds 0).

Definition minecraft_version_tuple (value : json) : res (list Z) :=
  let* text := _text value in
  match version_groups text with
  | None => target_error "TARGET_MINECRAFT_VERSION: unsupported or unparseable Minecraft version"
  | Some groups => res_map_list group_number groups
  end.

(** [a >= b] of tuples *)
Fixpoint tuple_ge (a b : list Z) : bool :=
  match a, b with
  | _, [] => true
  | [], _ :: _ => false
  | x :: a, y :: b => (y <? x) || ((x =? y) && tuple_ge a b)
  end.

Definition _NATIVE_NAME_MIN_VERSION : list Z := [26; 1].
Definition _JAVA_21_MIN_VERSION : list Z := [1; 20; 5].

Definition native_version (version : list Z) : bool := tuple_ge (take 2 version) _NATIVE_NAME_MIN_VERSION.

Definition uses_native_names (value : json) : res bool :=
  let* version := minecraft_version_tuple value in Ok (native_version version).

Definition mappings_applicable (value : json) : res bool := let* b := uses_native_names value in Ok (negb b).

Definition java_major_of (version : list Z) : option Z :=
  if native_version version then Some 25
  else match version with
       | 1 :: _ =>
           if tuple_ge (take 3 (version ++ replicate (3 - length version) 0)) _JAVA_21_MIN_VERSION then Some 21 else None
       | _ => None
       end.

Definition minimum_java_major (value : json) : res (option Z) :=
  let* version := minecraft_version_tuple value in Ok (java_major_of version).

(** ** Coordinates *)

Definition has_key (key : pystr) (t : target) : bool := match dict_get key t with Some _ => true | None => false end.

(** [_text(target[key]) for key in keys if key in target] *)
Definition present_texts (keys : list pystr) (t : target) : res (list pystr) :=
  res_map_list (fun key => _text (get t key)) (List.filter (fun key => has_key key t) keys).

(** The values agree, and the first of them. *)
Definition agreed (why : string) (values : list pystr) : res pystr :=
  if (1 <? length (from_keys values))%nat then target_error why else Ok (hd [] values).

Definition mapping_value (t : target) : res pystr :=
  let* own := match get t (u "mappings") with
              | JNull => Ok []
              | JObj raw => let* v := _text (get raw (u "version")) in Ok [v]
              | raw => let* v := _text raw in Ok [v]
              end in
  let* legacy := present_texts [u "mappings_version"; u "yarn_mappings"] t in
  agreed "TARGET_MAPPINGS_ALIAS: mapping aliases disagree" (own ++ legacy).

Record TargetCoordinates : Type := Coordinates {
  minecraft_version : pystr; loader : pystr; mappings : pystr; is_mapped : bool; naming_regime : pystr;
  java_major : option Z
}.

Definition regime_name (applicable : bool) : pystr := if applicable then u "mapped_obfuscated" else u "native_unobfuscated".

Definition validate_target_coordinates (version loader mappings : json) (declared : option json) : res TargetCoordinates :=
  let* version := _text version in
  let* loader := _text loader in
  let loader_id := casefold loader in
  let* mapping := _text mappings in
  if bool_decide (version = []) then target_error "TARGET_MINECRAFT_VERSION: Minecraft version is required."
  else if bool_decide (loader_id = []) then target_error "TARGET_LOADER: loader is required."
  else
    let* applicable := mappings_applicable (JStr version) in
    let* _ := match declared with
              | None | Some JNull => Ok tt
              | Some (JBool b) =>
                  if Bool.eqb b applicable then Ok tt
                  else target_error "TARGET_MAPPINGS_APPLICABLE: declared applicability contradicts the naming regime."
              | Some _ => target_error "TARGET_MAPPINGS_APPLICABLE: declared applicability must be boolean."
              end in
    if applicable && bool_decide (mapping = []) then target_error "TARGET_MAPPINGS_REQUIRED"
    else if negb applicable && negb (bool_decide (mapping = [])) then target_error "TARGET_MAPPINGS_INAPPLICABLE"
    else
      let* java := minimum_java_major (JStr version) in
      Ok (Coordinates version loader_id mapping applicable (regime_name applicable) java).

Definition declared_applicability (t : target) : option json :=
  let own := dict_get (u "mappings_applicable") t in
  match get t (u "naming_regime") with
  | JObj regime => match dict_get (u "mappings_applicable") regime with Some v => Some v | None => own end
  | _ => own
  end.

Definition target_coordinates_from_mapping (t : target) : res TargetCoordinates :=
  let* mapping := mapping_value t in
  validate_target_coordinates (get t (u "minecraft_version")) (get t (u "loader")) (JStr mapping) (declared_applicability t).

Definition namespace_of_kind (kind mapping : pystr) : res pystr :=
  if bool_decide (kind = u "mojang") then
    if bool_decide (mapping = u "mojang") then Ok (u "OFFICIAL")
    else target_error "Mojang mappings must use canonical mappings_version='mojang'."
  else if bool_decide (kind = u "yarn") then Ok (u "NAMED")
  else target_error "TARGET_MAPPINGS_KIND: unsupported or missing mappings kind".

Definition target_symbol_namespace (t : target) : res pystr :=
  let* coordinates := target_coordinates_from_mapping t in
  let* own := match get t (u "mappings") with
              | JObj raw => if has_key (u "kind") raw then let* k := _text (get raw (u "kind")) in Ok [casefold k] else Ok []
              | _ => Ok []
              end in
  let* legacy := present_texts [u "mappings_kind"] t in
  let* kind := agreed "TARGET_MAPPINGS_ALIAS: mapping kinds disagree" (own ++ map casefold legacy) in
  if is_mapped coordinates then namespace_of_kind kind (mappings coordinates)
  else if bool_decide (kind = []) then Ok (u "OFFICIAL")
  else target_error "TARGET_MAPPINGS_INAPPLICABLE: native targets must not carry a mapping kind.".

(** ** Complete targets *)

Definition _BASE_REQUIRED_TARGET_FIELDS : list pystr :=
  map u ["minecraft_version"; "loader"; "java_version"; "fabric_loader"; "fabric_api"; "fabric_loom"; "gradle";
         "gradle_sha256"; "data_pack_version"; "resource_pack_version"; "resource_pack_format"; "release_metadata_url"].

Definition _LEGACY_MAPPING_FIELDS : list pystr := [u "mappings_kind"; u "mappings_version"].

Definition _is_unresolved (value : json) : res bool :=
  let* text := _text value in
  Ok (bool_decide (text = []) || bool_decide (casefold text = u "unresolved")).

Definition required_target_fields (t : target) : res (list pystr) :=
  let version := get t (u "minecraft_version") in
  let* unresolved := _is_unresolved version in
  if unresolved then Ok _BASE_REQUIRED_TARGET_FIELDS
  else
    let* mapping_required := mappings_applicable version in
    Ok (_BASE_REQUIRED_TARGET_FIELDS ++ (if mapping_required then _LEGACY_MAPPING_FIELDS else [])).

(** [[0-9]+(?:\.[0-9]+)?] *)
Definition is_pack_version (s : pystr) : bool :=
  match split_on 46 s with
  | [a] => negb (bool_decide (a = [])) && forallb is_digit a
  | [a; b] => negb (bool_decide (a = [])) && forallb is_digit a && negb (bool_decide (b = [])) && forallb is_digit b
  | _ => false
  end.

Definition is_sha256 (s : pystr) : bool :=
  (length s =? 64)%nat && forallb (fun c => is_digit c || ((97 <=? c) && (c <=? 102))) s.

Definition metadata_hosts : list pystr :=
  map u ["https://www.minecraft.net/"; "https://feedback.minecraft.net/"; "https://piston-meta.mojang.com/";
         "https://launcher.mojang.com/"].

(** The version is enough for the Java that the game needs. *)
Definition check_java (minimum : option Z) (java : pystr) : res unit :=
  match minimum with
  | None => Ok tt
  | Some minimum =>
      if isdigit java then
        let* n := int_of_str java in
        if n <? minimum then target_error "Minecraft requires a later Java" else Ok tt
      else target_error "Minecraft requires a later Java"
  end.

Definition mappings_receipt (t : target) (canonical : TargetCoordinates) : res (option json) :=
  if is_mapped canonical then
    let* kind := _text (get t (u "mappings_kind")) in
    let kind := casefold kind in
    let* version := _text (get t (u "mappings_version")) in
    if negb (bool_decide (kind ∈ [u "mojang"; u "yarn"])) then target_error "TARGET_MAPPINGS_KIND: unsupported mappings kind"
    else if negb (bool_decide (mappings canonical = version))
    then target_error "TARGET_MAPPINGS_ALIAS: canonical mapping coordinate disagrees with mappings_version."
    else if bool_decide (kind = u "mojang") && negb (bool_decide (version = u "mojang"))
    then target_error "Mojang mappings must use canonical mappings_version='mojang'."
    else Ok (Some (JObj [(u "kind", JStr kind); (u "version", JStr (mappings canonical))]))
  else Ok None.

(** The pack versions: the data pack, the resource pack, and the format, which is the major
    number of the resource pack. *)
Definition check_packs (t : target) : res json :=
  let* data_pack := _text (get t (u "data_pack_version")) in
  let* resource_pack := _text (get t (u "resource_pack_version")) in
  if negb (is_pack_version data_pack) then target_error "TARGET_DATA_PACK_VERSION: invalid data pack version"
  else if negb (is_pack_version resource_pack) then target_error "TARGET_RESOURCE_PACK_VERSION: invalid resource pack version"
  else
    match get t (u "resource_pack_format") with
    | JInt format =>
        if format <=? 0 then target_error "TARGET_RESOURCE_PACK_FORMAT: provider-derived format must be a positive integer."
        else
          let* major := int_of_str (before_first 46 resource_pack) in
          if negb (format =? major)
          then target_error "TARGET_RESOURCE_PACK_FORMAT: format major disagrees with exact resource pack version."
          else Ok (JObj [(u "data", JStr data_pack); (u "resource", JStr resource_pack); (u "resource_major", JInt format)])
    | _ => target_error "TARGET_RESOURCE_PACK_FORMAT: provider-derived format must be a positive integer."
    end.

Definition pop_keys (keys : list pystr) (t : list (pystr * json)) : list (pystr * json) := filter (fun kv => kv.1 ∉ keys) t.

(** The canonical target: the fields of the mappings, of the naming regime and of the packs are
    those that were derived. *)
Definition canonical_target (t : target) (canonical : TargetCoordinates) (receipt : option json) (packs : json) : target :=
  let result := match receipt with
                | None => pop_keys (_LEGACY_MAPPING_FIELDS ++ [u "yarn_mappings"; u "mappings"]) t
                | Some receipt => dict_set (u "mappings") receipt t
                end in
  let result := dict_set (u "naming_regime")
                  (JObj [(u "kind", JStr (naming_regime canonical)); (u "mappings_applicable", JBool (is_mapped canonical));
                         (u "minecraft_version", JStr (minecraft_version canonical))]) result in
  let result := dict_set (u "pack_versions") packs result in
  dict_set (u "target_schema_version") (JStr (u "3")) result.

Definition validate_complete_target (t : target) : res target :=
  let* required_fields := required_target_fields t in
  let* unresolved := res_map_list (fun field => _is_unresolved (get t field)) required_fields in
  if existsb (fun b => b) unresolved
  then target_error "TARGET_GROUNDING_INCOMPLETE: executable provider target is missing"
  else
    let* canonical := target_coordinates_from_mapping t in
    let* java := _text (get t (u "java_version")) in
    let* _ := check_java (java_major canonical) java in
    let* receipt := mappings_receipt t canonical in
    let* gradle_sha := _text (get t (u "gradle_sha256")) in
    if negb (is_sha256 (casefold gradle_sha)) then target_error "TARGET_GRADLE_RECEIPT: target Gradle SHA-256 is missing or invalid."
    else
      let* packs := check_packs t in
      let* release_url := _text (get t (u "release_metadata_url")) in
      if negb (starts_with_any metadata_hosts release_url) then target_error "TARGET_PACK_PROVENANCE"
      else Ok (canonical_target t canonical receipt packs).

End target.

(** * A complete target is canonical *)


Open Scope Z_scope.
Open Scope py_scope.

(** ** Dictionaries *)

Lemma dict_set_same {V} k (v : V) l : dict_get k l = Some v -> dict_set k v l = l.
Proof.
  induction l as [|[k' v'] l IH]; simpl; [done|]. case_decide as Hk; [by intros [= ->]|]. intros Hg. by rewrite IH.
Qed.

Section target.
Context `{PyFloat, PyUnicode, !PyRepr, PyCasefold, PyIsDigit}.

Lemma get_pop keys (t : target) k :
  dict_get k (pop_keys keys t) = if decide (k ∈ keys) then None else dict_get k t.
Proof.
  unfold pop_keys. induction t as [|[k' v] t IH]; [by case_decide|]. destruct (decide (k' ∈ keys)) as [Hin|Hin].
  - rewrite filter_cons_False by (by cbn; intros ?). rewrite IH. case_decide as Hk; [done|]. simpl.
    rewrite decide_False; [done|]. by intros <-.
  - rewrite filter_cons_True by done. simpl. rewrite IH.
    repeat case_decide; by subst.
Qed.

Lemma pop_absent keys (t : target) : (forall k, k ∈ keys -> dict_get k t = None) -> pop_keys keys t = t.
Proof.
  intros Hn. unfold pop_keys. induction t as [|[k v] t IH]; [done|].
  assert (Hk : k ∉ keys) by (intros Hk; specialize (Hn k Hk); simpl in Hn; by rewrite decide_True in Hn).
  rewrite filter_cons_True by done. f_equal. apply IH. intros k' Hk'. specialize (Hn k' Hk'). simpl in Hn.
  by case_decide.
Qed.

(** ** Texts *)

Lemma text_str s : _text (JStr s) = Ok (strip s).
Proof. done. Qed.

Lemma text_stripped v s : _text v = Ok s -> strip s = s.
Proof.
  unfold _text. destruct v; try (by intros [= <-]);
    intros (t & _ & [= <-])%res_bind_ok; apply strip_idem.
Qed.

Lemma unresolved_text v b : _is_unresolved v = Ok b -> exists s, _text v = Ok s /\ (b = false -> s <> []).
Proof.
  unfold _is_unresolved. intros (s & Hs & [= <-])%res_bind_ok. exists s. split; [done|].
  intros [Hb _]%orb_false_iff. by apply bool_decide_eq_false in Hb.
Qed.

(** ** Aliases *)

Lemma agreed_ok why vs v : agreed why vs = Ok v -> Forall (fun x => x = v) vs /\ (vs = [] -> v = []).
Proof.
  unfold agreed. destruct vs as [|w vs]; [by intros [= <-]|]. cbn [from_keys hd length].
  destruct (filter _ (from_keys vs)) as [|x l] eqn:Ef; cbn [length]; [|by destruct (length l)]. intros [= <-]. split; [|done].
  constructor; [done|]. apply Forall_forall. intros x Hx. destruct (decide (x = w)); [done|]. exfalso.
  apply (not_elem_of_nil x). rewrite <- Ef. apply list_elem_of_filter. by rewrite elem_of_from_keys.
Qed.

Lemma agreed_all why vs v : Forall (fun x => x = v) vs -> (vs = [] -> v = []) -> agreed why vs = Ok v.
Proof.
  unfold agreed. destruct vs as [|w vs]; [by intros _ ->|]. intros Hall _. inversion Hall as [|? ? -> Hvs]; subst.
  cbn [from_keys hd length]. destruct (filter _ (from_keys vs)) as [|x l] eqn:Ef; [done|]. exfalso.
  assert (Hx : x ∈ x :: l) by left. rewrite <- Ef in Hx. apply list_elem_of_filter in Hx as [Hne Hx].
  rewrite elem_of_from_keys in Hx. rewrite Forall_forall in Hvs. by apply Hne, Hvs.
Qed.

(** ** Coordinates *)

Lemma validated_again v l m declared c :
  validate_target_coordinates v l (JStr m) declared = Ok c ->
  mappings c = strip m /\ (is_mapped c = false -> strip m = []) /\
  validate_target_coordinates v l (JStr (strip m)) (Some (JBool (is_mapped c))) = Ok c.
Proof.
  unfold validate_target_coordinates. rewrite !text_str, strip_idem.
  destruct (_text v) as [version|]; [|done]. destruct (_text l) as [loader|]; [|done]. cbn [res_bind].
  destruct (bool_decide (version = [])); [done|]. destruct (bool_decide (casefold loader = [])); [done|].
  destruct (mappings_applicable (JStr version)) as [applicable|]; [|done]. cbn [res_bind].
  set (checked := match declared with None => _ | Some _ => _ end). destruct checked as [[]|]; [|done]. cbn [res_bind].
  destruct (applicable && bool_decide (strip m = [])); [done|].
  destruct (negb applicable && negb (bool_decide (strip m = []))) eqn:E2; [done|].
  destruct (minimum_java_major (JStr version)) as [java|]; [|done]. cbn [res_bind]. intros [= <-].
  cbn [mappings is_mapped]. split; [done|]. split.
  - intros ->. cbn [negb andb] in E2. by apply negb_false_iff, bool_decide_eq_true in E2.
  - by rewrite eqb_reflx.
Qed.

Lemma tuple_text v s : _text v = Ok s -> minecraft_version_tuple (JStr s) = minecraft_version_tuple v.
Proof.
  intros Hs. unfold minecraft_version_tuple. rewrite text_str, Hs. cbn [res_bind]. by rewrite (text_stripped _ _ Hs).
Qed.

Lemma validated_version v l m declared c :
  validate_target_coordinates v l m declared = Ok c -> mappings_applicable v = Ok (is_mapped c).
Proof.
  unfold validate_target_coordinates. destruct (_text v) as [version|] eqn:Ev; [|done].
  destruct (_text l) as [loader|]; [|done]. destruct (_text m) as [mapping|]; [|done]. cbn [res_bind].
  destruct (bool_decide (version = [])); [done|]. destruct (bool_decide (casefold loader = [])); [done|].
  assert (Hv : mappings_applicable (JStr version) = mappings_applicable v)
    by (unfold mappings_applicable, uses_native_names; by rewrite (tuple_text v)).
  rewrite Hv. destruct (mappings_applicable v) as [applicable|]; [|done]. cbn [res_bind].
  intros (_ & _ & Hc)%res_bind_ok. revert Hc. repeat (case_match; [done|]). by intros (java & _ & [= <-])%res_bind_ok.
Qed.

Lemma texts_ext keys (t t' : target) : (forall k, k ∈ keys -> dict_get k t' = dict_get k t) -> present_texts keys t' = present_texts keys t.
Proof.
  intros Hext. unfold present_texts, has_key, get. induction keys as [|k keys IH]; [done|]. cbn [List.filter].
  rewrite (Hext k) by left. assert (IH' := IH (fun k' Hk' => Hext k' ltac:(by right))).
  destruct (dict_get k t); [|done]. cbn [res_map_list]. rewrite (Hext k) by left. by rewrite IH'.
Qed.

Lemma texts_absent keys (t : target) : (forall k, k ∈ keys -> dict_get k t = None) -> present_texts keys t = Ok [].
Proof.
  intros Hn. unfold present_texts, has_key. induction keys as [|k keys IH]; [done|]. cbn [List.filter].
  rewrite (Hn k) by left. apply IH. intros k' Hk'. apply Hn. by right.
Qed.

(** ** The canonical target *)

Definition popped : list pystr := _LEGACY_MAPPING_FIELDS ++ [u "yarn_mappings"; u "mappings"].

(** The lookups of [canonical_target], and that it is the same for the target it returns. *)
Lemma canonical_target_spec (t : target) c rc packs :
  let r := canonical_target t c rc packs in
  (forall k, k ∉ [u "naming_regime"; u "pack_versions"; u "target_schema_version"; u "mappings"] ->
     dict_get k r = if decide (rc = None /\ k ∈ popped) then None else dict_get k t) /\
  dict_get (u "mappings") r = rc /\
  dict_get (u "naming_regime") r =
    Some (JObj [(u "kind", JStr (naming_regime c)); (u "mappings_applicable", JBool (is_mapped c));
                (u "minecraft_version", JStr (minecraft_version c))]) /\
  canonical_target r c rc packs = r.
Proof.
  unfold canonical_target. fold popped. set (regime := JObj _). set (base := match rc with None => _ | Some _ => _ end).
  assert (Hmap : dict_get (u "mappings") base = rc).
  { unfold base. destruct rc; [by rewrite dict_get_set_eq|]. rewrite get_pop. by rewrite decide_True by (unfold popped; set_solver). }
  assert (Hbase : forall k, k <> u "mappings" -> dict_get k base = if decide (rc = None /\ k ∈ popped) then None else dict_get k t).
  { intros k Hk. unfold base. destruct rc.
    - rewrite dict_get_set_ne by done. by rewrite decide_False by naive_solver.
    - rewrite get_pop. by repeat case_decide; naive_solver. }
  split; [|split; [|split]].
  - intros k. rewrite !not_elem_of_cons. intros (H1' & H2' & H3' & H4' & _). rewrite !dict_get_set_ne by done. by apply Hbase.
  - by rewrite !dict_get_set_ne by done.
  - rewrite !dict_get_set_ne by done. by rewrite dict_get_set_eq.
  - clearbody regime.
    set (r := dict_set (u "target_schema_version") (JStr (u "3"))
                (dict_set (u "pack_versions") packs (dict_set (u "naming_regime") regime base))).
    assert (Hr : forall k, k <> u "naming_regime" -> k <> u "pack_versions" -> k <> u "target_schema_version" ->
              dict_get k r = dict_get k base).
    { intros k ? ? ?. unfold r. by rewrite !dict_get_set_ne. }
    assert (Hagain : match rc with Some receipt => dict_set (u "mappings") receipt r | None => pop_keys popped r end = r).
    { destruct rc as [receipt|].
      - apply dict_set_same. rewrite Hr by done. done.
      - apply pop_absent. intros k Hk. rewrite Hr; [|intros ->; revert Hk; apply (bool_decide_unpack _); vm_compute; exact I..].
        unfold base. rewrite get_pop. by rewrite decide_True. }
    rewrite Hagain. rewrite !dict_set_same; [done|..]; unfold r; rewrite ?dict_get_set_ne by done; apply dict_get_set_eq.
Qed.

(** What [validate_complete_target] has checked when it returns. *)
Record complete (t r : target) : Type := Complete {
  c_required : list pystr; c_resolved : list bool; c_coords : TargetCoordinates; c_java : pystr; c_receipt : option json;
  c_sha : pystr; c_packs : json; c_url : pystr;
  required_ok : required_target_fields t = Ok c_required;
  resolved_ok : res_map_list (fun field => _is_unresolved (get t field)) c_required = Ok c_resolved;
  all_resolved : existsb (fun b => b) c_resolved = false;
  coords_ok : target_coordinates_from_mapping t = Ok c_coords;
  java_text : _text (get t (u "java_version")) = Ok c_java;
  java_ok : check_java (java_major c_coords) c_java = Ok tt;
  receipt_ok : mappings_receipt t c_coords = Ok c_receipt;
  sha_text : _text (get t (u "gradle_sha256")) = Ok c_sha;
  sha_ok : is_sha256 (casefold c_sha) = true;
  packs_ok : check_packs t = Ok c_packs;
  url_text : _text (get t (u "release_metadata_url")) = Ok c_url;
  url_ok : starts_with_any metadata_hosts c_url = true;
  result_is : r = canonical_target t c_coords c_receipt c_packs
}.

Lemma validated_complete t r : validate_complete_target t = Ok r -> inhabited (complete t r).
Proof.
  unfold validate_complete_target.
  intros (req & E1 & (uns & E2 & Ht)%res_bind_ok)%res_bind_ok. revert Ht.
  destruct (existsb (fun b => b) uns) eqn:E3; [done|].
  intros (c & E4 & (java & E5 & ([] & E6 & (rc & E7 & (sha & E8 & Ht)%res_bind_ok)%res_bind_ok)%res_bind_ok)%res_bind_ok)%res_bind_ok.
  revert Ht. destruct (is_sha256 (casefold sha)) eqn:E9; [|done]. cbn [negb].
  intros (packs & E10 & (url & E11 & Ht)%res_bind_ok)%res_bind_ok. revert Ht.
  destruct (starts_with_any metadata_hosts url) eqn:E12; [|done]. intros [= <-].
  constructor. by eapply (Complete t _ req uns c java rc sha packs url).
Qed.

Lemma complete_validated t r : complete t r -> validate_complete_target t = Ok r.
Proof.
  intros [req uns c java rc sha packs url E1 E2 E3 E4 E5 E6 E7 E8 E9 E10 E11 E12 ->].
  unfold validate_complete_target. rewrite E1; cbn [res_bind]. rewrite E2; cbn [res_bind]. rewrite E3, E4; cbn [res_bind].
  rewrite E5; cbn [res_bind]. rewrite E6; cbn [res_bind]. rewrite E7; cbn [res_bind]. rewrite E8; cbn [res_bind].
  rewrite E9; cbn [negb]. rewrite E10; cbn [res_bind]. rewrite E11; cbn [res_bind]. by rewrite E12.
Qed.

(** The receipt is there exactly for mapped targets, with the kind and the version of the fields. *)
Lemma receipt_spec t c rc :
  mappings_receipt t c = Ok rc ->
  if is_mapped c
  then exists kind raw, _text (get t (u "mappings_kind")) = Ok raw /\ casefold raw = kind /\
         rc = Some (JObj [(u "kind", JStr kind); (u "version", JStr (mappings c))]) /\
         _text (get t (u "mappings_version")) = Ok (mappings c) /\
         (kind = u "mojang" /\ mappings c = u "mojang" \/ kind = u "yarn")
  else rc = None.
Proof.
  unfold mappings_receipt. destruct (is_mapped c); [|by intros [= <-]].
  intros (raw & Hraw & (version & Hv & Hr)%res_bind_ok)%res_bind_ok. revert Hr.
  case_bool_decide as Hk; cbn [negb]; [|done]. case_bool_decide as Hm; cbn [negb]; [|done].
  set (bad := bool_decide (casefold raw = u "mojang") && negb (bool_decide (version = u "mojang"))).
  destruct bad eqn:Hb; [done|]. intros [= <-]. exists (casefold raw), raw. split_and!; try done; [by rewrite Hm|].
  apply elem_of_cons in Hk as [Hk|Hk%list_elem_of_singleton]; [left|by right]. split; [done|].
  unfold bad in Hb. rewrite bool_decide_eq_true_2 in Hb by done. cbn [andb] in Hb.
  apply negb_false_iff, bool_decide_eq_true in Hb. by rewrite Hm.
Qed.

Lemma get_text_present t k s : _text (get t k) = Ok s -> s <> [] -> has_key k t = true.
Proof. unfold get, has_key. destruct (dict_get k t); [done|]. by intros [= <-]. Qed.

Lemma texts_stripped keys t vs : present_texts keys t = Ok vs -> Forall (fun v => strip v = v) vs.
Proof.
  intros Hv%res_map_list_ok. apply Forall_forall. intros v Hin.
  apply list_elem_of_lookup in Hin as [i Hi]. destruct (Forall2_lookup_r _ _ _ _ _ Hv Hi) as (k & _ & Hk).
  by eapply text_stripped.
Qed.

Lemma mapping_value_stripped t m : mapping_value t = Ok m -> strip m = m.
Proof.
  intros (own & Ho & (legacy & Hl & Ha)%res_bind_ok)%res_bind_ok.
  assert (Hall : Forall (fun v => strip v = v) (own ++ legacy)).
  { apply Forall_app. split; [|by eapply texts_stripped].
    destruct (get t (u "mappings")); try (apply res_bind_ok in Ho as (v & Hv & [= <-]); constructor; [by eapply text_stripped|done]).
    by injection Ho as <-. }
  apply agreed_ok in Ha as [Ha Hnil]. destruct (own ++ legacy) as [|v vs]; [by rewrite Hnil|].
  inversion Ha as [|? ? <- _]. by inversion Hall.
Qed.

Section again.
Variables (t r : target) (cert : complete t r).
Notation c := (c_coords _ _ cert).
Notation rc := (c_receipt _ _ cert).

(** The fields that the second validation reads are the same. *)
Lemma kept k : k ∉ popped -> k ∉ [u "naming_regime"; u "pack_versions"; u "target_schema_version"; u "mappings"] ->
  get r k = get t k.
Proof.
  intros Hk Hd. unfold get. rewrite (result_is _ _ cert).
  rewrite (proj1 (canonical_target_spec t c rc (c_packs _ _ cert)) k Hd). rewrite decide_False; [done|]. by intros [_ ?].
Qed.

Lemma kept_mapped k : is_mapped c = true ->
  k ∉ [u "naming_regime"; u "pack_versions"; u "target_schema_version"; u "mappings"] -> dict_get k r = dict_get k t.
Proof.
  intros Hm Hd. rewrite (result_is _ _ cert).
  rewrite (proj1 (canonical_target_spec t c rc (c_packs _ _ cert)) k Hd). rewrite decide_False; [done|]. intros [Hn _].
  pose proof (receipt_spec _ _ _ (receipt_ok _ _ cert)) as Hr. rewrite Hm in Hr.
  destruct Hr as (? & ? & _ & _ & Hr & _). congruence.
Qed.

Lemma popped_native k : is_mapped c = false -> k ∈ popped -> dict_get k r = None.
Proof.
  intros Hm Hk. pose proof (receipt_spec _ _ _ (receipt_ok _ _ cert)) as Hr. rewrite Hm in Hr.
  destruct (canonical_target_spec t c rc (c_packs _ _ cert)) as (H1' & H2' & _). rewrite <- (result_is _ _ cert) in H1', H2'.
  destruct (decide (k = u "mappings")) as [->|Hne]; [by rewrite H2'|]. rewrite H1'; [by rewrite decide_True|].
  clear -Hk Hne. revert k Hk Hne. assert (Hall : Forall (fun k => k <> u "mappings" ->
    k ∉ [u "naming_regime"; u "pack_versions"; u "target_schema_version"; u "mappings"]) popped)
    by (apply (bool_decide_unpack _); vm_compute; exact I).
  intros k Hk Hne. rewrite Forall_forall in Hall. by apply Hall.
Qed.

Lemma mapping_value_again : exists m, mapping_value t = Ok m /\ mapping_value r = Ok (mappings c) /\ mappings c = strip m.
Proof.
  pose proof (coords_ok _ _ cert) as Hc. unfold target_coordinates_from_mapping in Hc.
  apply res_bind_ok in Hc as (m & Hm & Hc). apply validated_again in Hc as (Hmc & Hnat & _).
  exists m. split; [done|]. split; [|done].
  pose proof (receipt_spec _ _ _ (receipt_ok _ _ cert)) as Hr.
  destruct (canonical_target_spec t c rc (c_packs _ _ cert)) as (_ & H2' & _). rewrite <- (result_is _ _ cert) in H2'.
  unfold mapping_value. unfold get at 1. rewrite H2'. destruct (is_mapped c) eqn:Em.
  - destruct Hr as (kind & raw & _ & _ & -> & Hv & _). cbn [default from_option].
    change (get [(u "kind", JStr kind); (u "version", JStr (mappings c))] (u "version")) with (JStr (mappings c)).
    rewrite text_str. cbn [res_bind].
    rewrite (texts_ext _ t r) by (intros k Hk; apply kept_mapped; [done|]; revert k Hk; apply Forall_forall;
      apply (bool_decide_unpack _); vm_compute; exact I).
    pose proof Hm as Hval. unfold mapping_value in Hval. apply res_bind_ok in Hval as (own & _ & (legacy & Hl & Ha)%res_bind_ok).
    rewrite Hl. cbn [res_bind]. apply agreed_ok in Ha as [Ha _]. apply Forall_app in Ha as [_ Ha].
    assert (Hmm : m = mappings c) by (by rewrite Hmc, (mapping_value_stripped _ _ Hm)).
    apply agreed_all; [|done]. constructor; [by rewrite Hmc, strip_idem|by rewrite <- Hmm].
  - rewrite Hr. cbn [default from_option]. rewrite texts_absent; [|intros k Hk; apply popped_native; [done|];
      revert k Hk; apply Forall_forall; apply (bool_decide_unpack _); vm_compute; exact I].
    cbn [res_bind app]. rewrite Hmc, (Hnat eq_refl). done.
Qed.

Lemma coordinates_again : target_coordinates_from_mapping r = Ok c.
Proof.
  destruct mapping_value_again as (m & Hm & Hmr & Hmc). pose proof (coords_ok _ _ cert) as Hc.
  unfold target_coordinates_from_mapping in *. rewrite Hm in Hc. cbn [res_bind] in Hc.
  apply validated_again in Hc as (_ & _ & Hc). rewrite Hmr. cbn [res_bind].
  destruct (canonical_target_spec t c rc (c_packs _ _ cert)) as (_ & _ & H3' & _). rewrite <- (result_is _ _ cert) in H3'.
  unfold declared_applicability. unfold get at 3. rewrite H3'. cbn [default from_option].
  assert (Hd : dict_get (u "mappings_applicable")
                 [(u "kind", JStr (naming_regime c)); (u "mappings_applicable", JBool (is_mapped c));
                  (u "minecraft_version", JStr (minecraft_version c))] = Some (JBool (is_mapped c))) by done.
  rewrite Hd.
  rewrite !kept by (apply (bool_decide_unpack _); vm_compute; exact I). by rewrite Hmc.
Qed.

Lemma required_kept : forall k, k ∈ c_required _ _ cert -> get r k = get t k.
Proof.
  pose proof (required_ok _ _ cert) as Hreq. unfold required_target_fields in Hreq.
  apply res_bind_ok in Hreq as (un & _ & Hreq).
  assert (Hbase : Forall (fun k => get r k = get t k) _BASE_REQUIRED_TARGET_FIELDS).
  { assert (Hk : Forall (fun k => k ∉ popped /\ k ∉ [u "naming_regime"; u "pack_versions"; u "target_schema_version"; u "mappings"])
              _BASE_REQUIRED_TARGET_FIELDS) by (apply (bool_decide_unpack _); vm_compute; exact I).
    eapply Forall_impl; [exact Hk|]. intros k [? ?]. by apply kept. }
  apply Forall_forall. destruct un; [by injection Hreq as <-|].
  apply res_bind_ok in Hreq as (mapped & Hmap & Hreq). 
  assert (Hq : c_required _ _ cert = _BASE_REQUIRED_TARGET_FIELDS ++ (if mapped then _LEGACY_MAPPING_FIELDS else []))
    by congruence.
  rewrite Hq. apply Forall_app. split; [done|].
  destruct mapped; [|constructor]. assert (Hm : is_mapped c = true).
  { pose proof (coords_ok _ _ cert) as Hc. unfold target_coordinates_from_mapping in Hc.
    apply res_bind_ok in Hc as (m & _ & Hc). apply validated_version in Hc. congruence. }
  assert (Hk : Forall (fun k => k ∉ [u "naming_regime"; u "pack_versions"; u "target_schema_version"; u "mappings"])
            _LEGACY_MAPPING_FIELDS) by (apply (bool_decide_unpack _); vm_compute; exact I).
  eapply Forall_impl; [exact Hk|]. intros k Hn. unfold get. by rewrite kept_mapped.
Qed.

(** Reading a field that was kept, in the model of the field. *)
Ltac keep_field := rewrite ?kept by (apply (bool_decide_unpack _); vm_compute; exact I).

Lemma receipt_again : mappings_receipt r c = Ok rc.
Proof.
  rewrite <- (receipt_ok _ _ cert). unfold mappings_receipt. destruct (is_mapped c) eqn:Em; [|done].
  unfold get. rewrite !(kept_mapped _ Em) by (apply (bool_decide_unpack _); vm_compute; exact I). done.
Qed.

Lemma complete_again : complete r r.
Proof.
  refine (Complete r r (c_required _ _ cert) (c_resolved _ _ cert) c (c_java _ _ cert) rc (c_sha _ _ cert)
            (c_packs _ _ cert) (c_url _ _ cert) _ _ (all_resolved _ _ cert) coordinates_again _ (java_ok _ _ cert)
            receipt_again _ (sha_ok _ _ cert) _ _ (url_ok _ _ cert) _).
  - rewrite <- (required_ok _ _ cert). unfold required_target_fields. by keep_field.
  - rewrite <- (resolved_ok _ _ cert). pose proof required_kept as Hk. revert Hk. generalize (c_required _ _ cert).
    induction l as [|k l IH]; intros Hk; [done|]. cbn [res_map_list]. rewrite (Hk k) by left.
    rewrite IH; [done|]. intros k' Hk'. apply Hk. by right.
  - keep_field. apply (java_text _ _ cert).
  - keep_field. apply (sha_text _ _ cert).
  - rewrite <- (packs_ok _ _ cert). unfold check_packs. by keep_field.
  - keep_field. apply (url_text _ _ cert).
  - destruct (canonical_target_spec t c rc (c_packs _ _ cert)) as (_ & _ & _ & Hr).
    rewrite <- (result_is _ _ cert) in Hr. by rewrite Hr.
Qed.

(** A kind that is stripped and folded already. *)
Lemma kind_text kind : kind = u "mojang" \/ kind = u "yarn" -> casefold (strip kind) = kind.
Proof. by intros [->| ->]; vm_compute. Qed.

Lemma namespace_again :
  exists ns, target_symbol_namespace r = Ok ns /\ forall ns', target_symbol_namespace t = Ok ns' -> ns' = ns.
Proof.
  pose proof (receipt_spec _ _ _ (receipt_ok _ _ cert)) as Hr. unfold target_symbol_namespace.
  destruct (canonical_target_spec t c rc (c_packs _ _ cert)) as (_ & H2' & _). rewrite <- (result_is _ _ cert) in H2'.
  rewrite coordinates_again, (coords_ok _ _ cert). cbn [res_bind]. unfold get at 1. rewrite H2'.
  destruct (is_mapped c) eqn:Em.
  - destruct Hr as (kind & raw & Hraw & Hkind & -> & _ & Hok). cbn [default from_option].
    assert (Hk : kind = u "mojang" \/ kind = u "yarn") by naive_solver.
    set (receipt := [(u "kind", JStr kind); (u "version", JStr (mappings c))]).
    change (has_key (u "kind") receipt) with true. cbn iota.
    change (get receipt (u "kind")) with (JStr kind). rewrite text_str. cbn [res_bind]. rewrite (kind_text _ Hk).
    rewrite (texts_ext _ t r) by (intros k ->%list_elem_of_singleton; apply kept_mapped; [done|];
      apply (bool_decide_unpack _); vm_compute; exact I).
    assert (Hne : raw <> []) by (intros ->; destruct Hk as [-> | ->]; done).
    assert (Htexts : present_texts [u "mappings_kind"] t = Ok [raw]).
    { unfold present_texts. cbn [List.filter]. rewrite (get_text_present _ _ _ Hraw Hne). cbn [res_map_list]. by rewrite Hraw. }
    rewrite Htexts. cbn [res_bind map app]. rewrite Hkind.
    rewrite (agreed_all _ [kind; kind] kind) by (by repeat constructor). cbn [res_bind].
    destruct (namespace_of_kind kind (mappings c)) as [ns|e] eqn:En.
    + exists ns. split; [done|]. intros ns' (own & _ & (k' & Ha & Hn)%res_bind_ok)%res_bind_ok.
      apply agreed_ok in Ha as [Ha _]. apply Forall_app in Ha as [_ Ha]. inversion Ha; subst. congruence.
    + exfalso. revert En. unfold namespace_of_kind. destruct Hok as [[-> ->]| ->]; done.
  - rewrite Hr. cbn [default from_option]. rewrite texts_absent by (intros k ->%list_elem_of_singleton;
      apply popped_native; [done|]; apply (bool_decide_unpack _); vm_compute; exact I).
    cbn [res_bind map app]. exists (u "OFFICIAL"). split; [done|].
    intros ns' (own & _ & (legacy & _ & (k' & _ & Hn)%res_bind_ok)%res_bind_ok)%res_bind_ok. revert Hn.
    case_bool_decide; [by intros [= <-]|done].
Qed.
End again.

(** C20: a complete target is canonical: validating what the validation returns succeeds and returns
    the same; the namespace of its symbols is always resolved, and it is that of the target it was
    made from whenever that one has a namespace. *)
Theorem complete_target_canonical t r :
  validate_complete_target t = Ok r ->
  validate_complete_target r = Ok r /\
  exists ns, target_symbol_namespace r = Ok ns /\ forall ns', target_symbol_namespace t = Ok ns' -> ns' = ns.
Proof.
  intros [cert]%validated_complete. split; [by apply complete_validated, (complete_again t)|by apply namespace_again].
Qed.

End target.
