(* ===== verification/TargetExamples.v ===== *)
(** * TargetExamples: a mapped target and a native one *)

From stdpp Require Import prelude gmap strings list.
From S2P Require Import Prelude Text Json PyJson TargetContract.
From S2P Require Import JsonExamples LedgerExamples PatchExamples.

Open Scope Z_scope.
Open Scope py_scope.

#[export] Instance ascii_PyIsDigit : PyIsDigit := {| isdigit_other := fun _ => false |}.


Definition base_target (version java : string) : target :=
  map (fun kv => (u kv.1, JStr (u kv.2)))
    [("minecraft_version", version); ("loader", "Fabric"); ("java_version", java); ("fabric_loader", "0.16.9");
     ("fabric_api", "0.115.0"); ("fabric_loom", "1.9"); ("gradle", "8.11");
     ("gradle_sha256", "0000000000000000000000000000000000000000000000000000000000000ABC");
     ("data_pack_version", "61"); ("resource_pack_version", "46.0");
     ("release_metadata_url", "https://piston-meta.mojang.com/x")] ++ [(u "resource_pack_format", JInt 46)].

Definition yarn_target : target :=
  base_target "1.21.4" "21" ++
  [(u "mappings_kind", JStr (u "Yarn")); (u "mappings_version", JStr (u " 1.21.4+build.8"));
   (u "yarn_mappings", JStr (u "1.21.4+build.8"))].

Definition yarn_result : target := match validate_complete_target yarn_target with Ok r => r | Err _ => [] end.

Lemma complete_target_canonical_witness :
  get yarn_result (u "mappings") = JObj [(u "kind", JStr (u "yarn")); (u "version", JStr (u "1.21.4+build.8"))] /\
  validate_complete_target yarn_result = Ok yarn_result /\
  exists ns, target_symbol_namespace yarn_result = Ok ns /\
    forall ns', target_symbol_namespace yarn_target = Ok ns' -> ns' = ns.
Proof.
  split; [vm_compute; reflexivity|]. apply (complete_target_canonical yarn_target yarn_result). vm_compute. reflexivity.
Defined.

Example java_is_checked :
  is_ok (validate_complete_target (base_target "26.1" "25")) = true /\
  is_ok (validate_complete_target (base_target "26.1" "24")) = false /\
  is_ok (validate_complete_target (base_target "1.20.4" "17" ++ [(u "mappings_kind", JStr (u "mojang"));
                                                                  (u "mappings_version", JStr (u "mojang"))])) = true.
Proof. vm_compute. repeat split. Qed.

Example versions :
  map (fun v => minecraft_version_tuple (JStr (u v))) ["1.21"; "1.21.4-rc1"; "26.1.0"; "1"; "1.21."; "24w14a"] =
  [Ok [1; 21]; Ok [1; 21; 4]; Ok [26; 1; 0];
   target_error "TARGET_MINECRAFT_VERSION: unsupported or unparseable Minecraft version";
   target_error "TARGET_MINECRAFT_VERSION: unsupported or unparseable Minecraft version";
   target_error "TARGET_MINECRAFT_VERSION: unsupported or unparseable Minecraft version"].
Proof. vm_compute. reflexivity. Qed.

(** The kind inside [mappings] contradicts [mappings_kind]: the target is complete, but its
    namespace is refused. *)
Definition contradictory_target : target :=
  yarn_target ++ [(u "mappings", JObj [(u "kind", JStr (u "mojang")); (u "version", JStr (u "1.21.4+build.8"))])].

Example contradiction_is_complete :
  is_ok (validate_complete_target contradictory_target) = true /\
  is_ok (target_symbol_namespace contradictory_target) = false.
Proof. vm_compute. split; reflexivity. Qed.

(** * Dependencies of a small script *)

From S2P Require Import JsonStream Sha256 Replace DependencyResolver.

Open Scope Z_scope.
Open Scope py_scope.

Definition small_script : pystr :=
  u "repositories {" ++ [10] ++ u "    mavenCentral()" ++ [10] ++ u "}" ++ [10] ++
  u "dependencies {" ++ [10] ++ u "}" ++ [10].

Definition gecko_receipt : DependencyResolutionReceipt :=
  Resolution (u "GeckoLib-Fabric") (u "fabric@1.21.1") (u "fabric") (u "1.21.1")
    (u "software.bernie.geckolib:geckolib-fabric:4.6.0") (u "https://dl.cloudsmith.io/public/geckolib3/geckolib/maven/")
    (u "4.6.0") (u "modImplementation") []
    (match _resolution_fingerprint (u "https://dl.cloudsmith.io/public/geckolib3/geckolib/maven/")
             (u "software.bernie.geckolib:geckolib-fabric:4.6.0") (u "modImplementation") (u "fabric") (u "1.21.1")
     with Ok f => f | Err _ => [] end)
    (u "exact_matrix_match") true.

Example gecko_resolved :
  resolve_dependency_for_target (u "GeckoLib-Fabric") (u " Fabric ") (u "1.21.1") = Ok gecko_receipt.
Proof. vm_compute. reflexivity. Qed.

Lemma resolve_then_inject_witness :
  is_resolved gecko_receipt = true /\ injected small_script [gecko_receipt] false.
Proof.
  split; [reflexivity|]. apply (resolve_then_inject small_script [gecko_receipt] false).
  repeat constructor. exists (u "GeckoLib-Fabric"), (u " Fabric "), (u "1.21.1"). vm_compute. reflexivity.
Defined.

Example gecko_injected :
  (let* p := inject_resolved_dependencies_into_build_gradle small_script [gecko_receipt] false in Ok p.1) =
  Ok (u "repositories {" ++ [10] ++
      u "    maven { url = uri('https://dl.cloudsmith.io/public/geckolib3/geckolib/maven/') }" ++ [10; 10] ++
      u "    mavenCentral()" ++ [10] ++ u "}" ++ [10] ++
      u "dependencies {" ++ [10] ++ u "    modImplementation 'software.bernie.geckolib:geckolib-fabric:4.6.0'" ++ [10; 10] ++
      u "}" ++ [10]).
Proof. vm_compute. reflexivity. Qed.

Example quilt_is_refused :
  (let* r := resolve_dependency_for_target (u "cardinal-components-api") (u "Quilt") (u "1.21.1") in
   Ok (is_resolved r, resolution_reason r)) =
  Ok (false, u "UNSUPPORTED_LOADER_QUILT").
Proof. vm_compute. reflexivity. Qed.

(** A version that no matrix lists is resolved to the coordinate of its prefix, as an exact match. *)

Example prefix_is_exact :
  (let* r := resolve_dependency_for_target (u "geckolib") (u "fabric") (u "1.21.4") in
   Ok (is_resolved r, selected_version r, resolution_reason r)) =
  Ok (true, u "4.5.0", u "exact_matrix_match").
Proof. vm_compute. reflexivity. Qed.

(** A dependency that is commented out counts as present: nothing is declared, and no error is raised. *)
Example commented_out_is_present :
  let script := small_script ++ u "// software.bernie.geckolib:geckolib-fabric:4.6.0 from" ++ [10] ++
                u "// https://dl.cloudsmith.io/public/geckolib3/geckolib/maven/" ++ [10] in
  inject_resolved_dependencies_into_build_gradle script [gecko_receipt] false = Ok (script, false).
Proof. vm_compute. reflexivity. Qed.
