(* ===== verification/ArtifactPorts.v ===== *)
(** * ArtifactPorts: [artifact_ports.py]

    The typed ports through which artifact jobs hand values to each other, and the registry
    that holds them: a port never changes once it is published, and a registry bound to a
    version context holds ports of that context only. *)

From stdpp Require Import prelude gmap strings list.
From S2P Require Import Prelude Text Json PyJson RLocks ExecutionBudget.

Open Scope Z_scope.
Open Scope py_scope.

Inductive PortKind : Type :=
  | REGISTRY_ID | JAVA_SYMBOL | TEXTURE_REF | MODEL_REF | CLIENT_ITEM_REF | SCREEN_HANDLER_TYPE | PAYLOAD_TYPE
  | TRANSLATION_KEY | GENERIC.

#[export] Instance PortKind_eq_dec : EqDecision PortKind.
Proof. solve_decision. Defined.

Definition all_kinds : list PortKind :=
  [REGISTRY_ID; JAVA_SYMBOL; TEXTURE_REF; MODEL_REF; CLIENT_ITEM_REF; SCREEN_HANDLER_TYPE; PAYLOAD_TYPE;
   TRANSLATION_KEY; GENERIC].

(** [kind.value] *)
Definition kind_value (k : PortKind) : pystr :=
  match k with
  | REGISTRY_ID => u "REGISTRY_ID"
  | JAVA_SYMBOL => u "JAVA_SYMBOL"
  | TEXTURE_REF => u "TEXTURE_REF"
  | MODEL_REF => u "MODEL_REF"
  | CLIENT_ITEM_REF => u "CLIENT_ITEM_REF"
  | SCREEN_HANDLER_TYPE => u "SCREEN_HANDLER_TYPE"
  | PAYLOAD_TYPE => u "PAYLOAD_TYPE"
  | TRANSLATION_KEY => u "TRANSLATION_KEY"
  | GENERIC => u "GENERIC"
  end.

(** [PortKind(s)] *)
Definition kind_of (s : pystr) : res PortKind :=
  match List.find (fun k => bool_decide (kind_value k = s)) all_kinds with
  | Some k => Ok k
  | None => Err ValueError
  end.

Record TypedPort : Type := Port {
  port_name : pystr; port_kind : PortKind; port_target_type : pystr; port_value : pystr; port_context_id : pystr
}.

#[export] Instance TypedPort_eq_dec : EqDecision TypedPort.
Proof. solve_decision. Defined.

Definition port_error {A} (why : string) : res A := Err (PortConnectionError why).

(** [d[key]] *)
Definition getitem {V} (key : pystr) (d : list (pystr * V)) : res V :=
  match dict_get key d with Some v => Ok v | None => Err KeyError end.

Section ports.
Context `{PyFloat, !PyRepr, PyCasefold}.

(** ** Serialisation *)

Definition port_to_dict (p : TypedPort) : list (pystr * json) :=
  [(u "name", JStr (port_name p)); (u "port_kind", JStr (kind_value (port_kind p)));
   (u "target_type", JStr (port_target_type p)); (u "value", JStr (port_value p));
   (u "context_id", JStr (port_context_id p))].

Definition port_from_dict (data : list (pystr * json)) : res TypedPort :=
  let text key := let* v := getitem key data in py_str v in
  let* name := text (u "name") in
  let* raw := getitem (u "port_kind") data in
  let* kind := match raw with JStr s => kind_of s | _ => Err ValueError end in
  let* target_type := text (u "target_type") in
  let* value := text (u "value") in
  let* context_id := match dict_get (u "context_id") data with Some v => py_str v | None => Ok [] end in
  Ok (Port name kind target_type value context_id).

(** ** Compatibility *)

(** The expected kind is given by its text, as [PortKind] is a [str]. *)
Definition matches (p : TypedPort) (expected_kind expected_target_type : pystr) : res bool :=
  let* kind := kind_of expected_kind in
  Ok (bool_decide (port_kind p = kind) &&
      bool_decide (casefold (port_target_type p) = casefold expected_target_type)).

Definition validate_port_compatibility (p : TypedPort) (expected_kind expected_target_type : pystr) : res unit :=
  let* expected := kind_of expected_kind in
  if decide (port_kind p <> expected) then port_error "PORT_KIND_MISMATCH"
  else if decide (casefold (port_target_type p) <> casefold expected_target_type)
  then port_error "PORT_TARGET_TYPE_MISMATCH"
  else Ok tt.

(** ** The registry *)

Record PortRegistry : Type := Registry { ports : list (pystr * TypedPort); registry_context : pystr }.

Definition new_registry : PortRegistry := Registry [] [].

Definition bind_context (context_id : pystr) (r : PortRegistry) : res PortRegistry :=
  if decide (context_id = [] \/ (registry_context r <> [] /\ registry_context r <> context_id))
  then port_error "VERSION_CONTEXT_MISMATCH"
  else if decide (Exists (fun np => port_context_id np.2 <> context_id) (ports r))
  then port_error "VERSION_CONTEXT_MISMATCH: existing port belongs to another context"
  else Ok (Registry (ports r) context_id).

(** [bs] are the budgets when the call starts, [bs'] when the publication locks are held. *)
Definition publish (bs bs' : list ModelExecutionBudget) (current : option nat) (p : TypedPort) (r : PortRegistry)
    : res PortRegistry :=
  let* _ := raise_if_model_execution_cancelled bs current in
  if decide (port_name p = [] \/ port_value p = [])
  then port_error "PORT_EMPTY: published ports need non-empty name and value"
  else
    let* _ := raise_if_model_execution_cancelled bs' current in
    if decide (registry_context r <> [] /\ port_context_id p <> registry_context r)
    then port_error "VERSION_CONTEXT_MISMATCH: cannot publish a foreign port"
    else
      let store := Ok (Registry (dict_set (port_name p) p (ports r)) (registry_context r)) in
      match dict_get (port_name p) (ports r) with
      | Some existing => if decide (existing = p) then store else port_error "PORT_DUPLICATE"
      | None => store
      end.

(** The port carries no context. *)
Definition register (bs bs' : list ModelExecutionBudget) (current : option nat) (name value kind target_type : pystr)
    (r : PortRegistry) : res (TypedPort * PortRegistry) :=
  let* port_kind := kind_of kind in
  let port := Port name port_kind target_type value [] in
  let* r := publish bs bs' current port r in
  Ok (port, r).

Definition registry_get (name : pystr) (r : PortRegistry) : option TypedPort := dict_get name (ports r).

Definition has (name : pystr) (r : PortRegistry) : bool := bool_decide (name ∈ (ports r).*1).

Definition resolve (name expected_kind expected_target_type : pystr) (r : PortRegistry) : res TypedPort :=
  match registry_get name r with
  | None => port_error "PORT_MISSING"
  | Some p =>
      let* _ := validate_port_compatibility p expected_kind expected_target_type in
      Ok p
  end.

(** ** The calls on a registry *)

Inductive port_call : Type :=
  | BindContext (context_id : pystr)
  | Publish (bs bs' : list ModelExecutionBudget) (current : option nat) (p : TypedPort).

Definition call (c : port_call) (r : PortRegistry) : res PortRegistry :=
  match c with
  | BindContext context_id => bind_context context_id r
  | Publish bs bs' current p => publish bs bs' current p r
  end.

(** A call that raises changes nothing. *)
Definition after_call (r : PortRegistry) (c : port_call) : PortRegistry :=
  match call c r with Ok r' => r' | Err _ => r end.

Definition after_calls (calls : list port_call) (r : PortRegistry) : PortRegistry := fold_left after_call calls r.

End ports.

(** * What is published stays, and can be resolved *)


Open Scope Z_scope.
Open Scope py_scope.

Section ports.
Context `{PyFloat, !PyRepr, PyCasefold}.

Implicit Types (r : PortRegistry) (p : TypedPort) (calls : list port_call).

Lemma kind_of_value k : kind_of (kind_value k) = Ok k.
Proof. destruct k; reflexivity. Qed.

Lemma port_kind_ok s k : kind_of s = Ok k <-> s = kind_value k.
Proof.
  split; [|intros ->; apply kind_of_value]. unfold kind_of.
  destruct (List.find _ all_kinds) as [k'|] eqn:Ef; [|done]. intros [= <-].
  apply find_some in Ef as [_ Hk]. by apply bool_decide_eq_true in Hk.
Qed.

Lemma port_roundtrip p : port_from_dict (port_to_dict p) = Ok p.
Proof. destruct p as [n k t v c]. destruct k; reflexivity. Qed.

(** ** The invariant *)

Record registry_ok r : Prop := RegistryOk {
  ports_distinct : NoDup (ports r).*1;
  ports_named : forall name p, (name, p) ∈ ports r -> port_name p = name;
  ports_full : forall name p, (name, p) ∈ ports r -> name <> [] /\ port_value p <> [];
  ports_bound : registry_context r <> [] -> forall name p, (name, p) ∈ ports r -> port_context_id p = registry_context r
}.

(** [r'] has all of [r]. *)
Definition later r r' : Prop :=
  (forall name p, registry_get name r = Some p -> registry_get name r' = Some p) /\
  (registry_context r <> [] -> registry_context r' = registry_context r).

#[export] Instance later_preorder : PreOrder later.
Proof.
  split; [by intros r|]. intros r1 r2 r3 [P1 C1] [P2 C2]. split; [by auto|].
  intros Hc. rewrite <- (C1 Hc). apply C2. by rewrite (C1 Hc).
Qed.

Lemma new_registry_ok : registry_ok new_registry.
Proof. split; cbn; [constructor|by intros ?? ?%elem_of_nil..|]. done. Qed.

Lemma dict_set_in {V} k (v : V) l k' v' : NoDup l.*1 -> (k', v') ∈ dict_set k v l ->
  (k' = k /\ v' = v) \/ (k' <> k /\ (k', v') ∈ l).
Proof.
  intros Hn Hin. pose proof (dict_get_nodup _ _ _ (dict_set_nodup k v l Hn) Hin) as Hg.
  destruct (decide (k' = k)) as [->|Hne].
  - rewrite dict_get_set_eq in Hg. left. by injection Hg as <-.
  - right. split; [done|]. rewrite dict_get_set_ne in Hg by done. by apply dict_get_in.
Qed.

Lemma bind_context_ok ctx r r' : registry_ok r -> bind_context ctx r = Ok r' ->
  registry_ok r' /\ later r r' /\ registry_context r' = ctx /\ ctx <> [].
Proof.
  intros [Hd Hn Hf Hb]. unfold bind_context. case_decide as Hctx; [done|]. case_decide as Hforeign; [done|].
  intros [= <-]. split_and!; [|split|done|tauto].
  - split; cbn [ports registry_context]; try done. intros _ name p Hp. apply dec_stable. intros Hne.
    apply Hforeign, Exists_exists. by exists (name, p).
  - done.
  - cbn. intros Hc. apply dec_stable. intros Hne. apply Hctx. right. split; [done|]. by intros Hx.
Qed.

(** What [publish] checks. *)
Lemma publish_ok bs bs' current p r r' : publish bs bs' current p r = Ok r' <->
  raise_if_model_execution_cancelled bs current = Ok tt /\ raise_if_model_execution_cancelled bs' current = Ok tt /\
  port_name p <> [] /\ port_value p <> [] /\
  (registry_context r = [] \/ port_context_id p = registry_context r) /\
  (forall q, registry_get (port_name p) r = Some q -> q = p) /\
  r' = Registry (dict_set (port_name p) p (ports r)) (registry_context r).
Proof.
  unfold publish, registry_get, port_error.
  destruct (raise_if_model_execution_cancelled bs current) as [[]|e]; cbn [res_bind]; [|naive_solver].
  case_decide as Hfull; [naive_solver|].
  destruct (raise_if_model_execution_cancelled bs' current) as [[]|e]; cbn [res_bind]; [|naive_solver].
  case_decide as Hc; [naive_solver|].
  assert (Hctx : registry_context r = [] \/ port_context_id p = registry_context r).
  { destruct (decide (registry_context r = [])); [by left|right]. apply dec_stable. tauto. }
  destruct (dict_get (port_name p) (ports r)) as [q|]; [case_decide as Hq|]; naive_solver.
Qed.

Lemma publish_ok_registry bs bs' current p r r' : registry_ok r -> publish bs bs' current p r = Ok r' ->
  registry_ok r' /\ later r r' /\ registry_get (port_name p) r' = Some p.
Proof.
  intros [Hd Hn Hf Hb] (_ & _ & Hname & Hvalue & Hctx & Hold & ->)%publish_ok. split_and!; [|split|].
  - split; cbn [ports registry_context]; [by apply dict_set_nodup|..].
    + intros name q [[-> ->]|[_ Hq]]%dict_set_in; [done|by apply Hn|done].
    + intros name q [[-> ->]|[_ Hq]]%dict_set_in; [done|by apply Hf|done].
    + intros Hc name q [[-> ->]|[_ Hq]]%dict_set_in; [by destruct Hctx|by eapply Hb|done].
  - unfold registry_get in *. cbn [ports]. intros name q Hq. destruct (decide (name = port_name p)) as [->|Hne].
    + rewrite dict_get_set_eq. by rewrite (Hold q Hq).
    + by rewrite dict_get_set_ne.
  - done.
  - apply dict_get_set_eq.
Qed.

Lemma call_ok c r r' : registry_ok r -> call c r = Ok r' -> registry_ok r' /\ later r r'.
Proof.
  intros Hr. destruct c as [ctx|bs bs' current p]; cbn [call]; intros Hc.
  - by destruct (bind_context_ok ctx r r' Hr Hc) as (? & ? & _).
  - by destruct (publish_ok_registry bs bs' current p r r' Hr Hc) as (? & ? & _).
Qed.

Lemma after_calls_ok calls r : registry_ok r -> registry_ok (after_calls calls r) /\ later r (after_calls calls r).
Proof.
  revert r. induction calls as [|c calls IH]; intros r Hr; [by split|].
  unfold after_calls. cbn [fold_left]. fold (after_calls calls (after_call r c)).
  assert (Hs : registry_ok (after_call r c) /\ later r (after_call r c)).
  { unfold after_call. destruct (call c r) eqn:Hc; [by eapply call_ok|done]. }
  destruct Hs as [Hr' Hl]. destruct (IH _ Hr') as [? ?]. split; [done|]. by etrans.
Qed.

(** [register] makes a port without a context: no registry that is bound takes it. *)
Lemma register_bound_fails bs bs' current name value kind target r :
  registry_context r <> [] -> is_ok (register bs bs' current name value kind target r) = false.
Proof.
  intros Hc. unfold register. destruct (kind_of kind) as [k|]; [|done]. cbn [res_bind].
  destruct (publish bs bs' current (Port name k target value []) r) as [r'|] eqn:Hp; [|done].
  apply publish_ok in Hp as (_ & _ & _ & _ & [Hn|Hn] & _); [done|]. by rewrite <- Hn in Hc.
Qed.

Lemma resolve_port_ok name kind target r q : resolve name kind target r = Ok q <->
  registry_get name r = Some q /\ kind = kind_value (port_kind q) /\ casefold target = casefold (port_target_type q).
Proof.
  unfold resolve, validate_port_compatibility, port_error. destruct (registry_get name r) as [p|]; [|naive_solver].
  destruct (kind_of kind) as [k|e] eqn:Hk; cbn [res_bind].
  - apply port_kind_ok in Hk as ->. destruct (decide (port_kind p <> k)) as [Hne|Hne]; cbn [res_bind].
    + split; [done|]. intros ([= <-] & Hv & _). apply (f_equal kind_of) in Hv. rewrite !kind_of_value in Hv. naive_solver.
    + apply dec_stable in Hne as <-. destruct (decide (casefold (port_target_type p) <> casefold target)) as [Ht|Ht]; cbn [res_bind].
      * naive_solver.
      * apply dec_stable in Ht. naive_solver.
  - split; [done|]. intros ([= ->] & -> & _). by rewrite kind_of_value in Hk.
Qed.

(** C15: Once a port is published, whoever asks for its name gets it if they expect its kind and
    its target type, and an error otherwise, whatever is bound and published by anybody else
    afterwards; the lease it was published under was alive when the call started and when it
    took effect, and if the registry belongs to a version context, so does the port. *)
Theorem published_port_resolves calls calls' bs bs' current p r :
  publish bs bs' current p (after_calls calls new_registry) = Ok r ->
  let r' := after_calls calls' r in
  (forall kind target q, resolve (port_name p) kind target r' = Ok q <->
     q = p /\ kind = kind_value (port_kind p) /\ casefold target = casefold (port_target_type p)) /\
  (registry_context r' <> [] -> port_context_id p = registry_context r') /\
  (forall b, b ∈ owners_of bs current -> is_cancelled bs b = false) /\
  (forall b, b ∈ owners_of bs' current -> is_cancelled bs' b = false).
Proof.
  intros Hp. cbn zeta. destruct (after_calls_ok calls new_registry new_registry_ok) as [Hr _].
  destruct (publish_ok_registry _ _ _ _ _ _ Hr Hp) as (Hr1 & _ & Hg).
  destruct (after_calls_ok calls' r Hr1) as [Hr2 [Hkeep _]]. specialize (Hkeep _ _ Hg).
  apply publish_ok in Hp as (Hb & Hb' & _). split_and!.
  - intros kind target q. rewrite resolve_port_ok, Hkeep. naive_solver.
  - intros Hc. apply (ports_bound _ Hr2 Hc (port_name p)). by apply dict_get_in.
  - apply raise_ok. by rewrite Hb.
  - apply raise_ok. by rewrite Hb'.
Qed.
End ports.
