(* ===== verification/ArtifactJob.v ===== *)
(** * ArtifactJob: [artifact_job.py]

    The jobs of an artifact graph: their serialised form, the entrypoints that they declare
    and the validation of a graph of jobs.  The catalogue of templates, which is read from
    files, is the function [load_template]. *)

From stdpp Require Import prelude gmap sets fin_sets fin_map_dom strings list sorting relations.
From S2P Require Import Prelude Text Json PyJson Kahn WorkPlan ArtifactPorts.

Open Scope Z_scope.
Open Scope py_scope.

Inductive ExecutorType : Type := TEMPLATE | PYTHON_GENERATOR | MODEL | DETERMINISTIC.

#[export] Instance ExecutorType_eq_dec : EqDecision ExecutorType.
Proof. solve_decision. Defined.

Definition executor_value (e : ExecutorType) : pystr :=
  match e with
  | TEMPLATE => u "template"
  | PYTHON_GENERATOR => u "python_generator"
  | MODEL => u "model"
  | DETERMINISTIC => u "deterministic"
  end.

(** [ExecutorType(s)] *)
Definition executor_of (s : pystr) : res ExecutorType :=
  match List.find (fun e => bool_decide (executor_value e = s)) [TEMPLATE; PYTHON_GENERATOR; MODEL; DETERMINISTIC] with
  | Some e => Ok e
  | None => Err ValueError
  end.

Section jobs.
Context `{PyFloat}.

Definition dict : Type := list (pystr * json).

Record ArtifactJob : Type := Job {
  job_id : pystr; template_id : pystr; owner_module : pystr; executor_type : ExecutorType; target_path : pystr;
  anchor : pystr; operation : pystr; expected_sha256 : option pystr; requires : list pystr; produces : list pystr;
  required_ports : list dict; ai_slots : list dict; deterministic_inputs : dict; job_status : pystr;
  validation_receipts : list dict; rendered_output : pystr; job_context_id : pystr; canonical_leaf : pystr;
  implementation_id : pystr
}.

(** ** Serialisation *)

Definition strs (l : list pystr) : json := JArr (map JStr l).
Definition objs (l : list dict) : json := JArr (map JObj l).

Definition job_to_dict (j : ArtifactJob) : dict :=
  [(u "job_id", JStr (job_id j)); (u "template_id", JStr (template_id j)); (u "owner_module", JStr (owner_module j));
   (u "executor_type", JStr (executor_value (executor_type j))); (u "target_path", JStr (target_path j));
   (u "anchor", JStr (anchor j)); (u "operation", JStr (operation j));
   (u "expected_sha256", match expected_sha256 j with Some s => JStr s | None => JNull end);
   (u "requires", strs (requires j)); (u "produces", strs (produces j)); (u "required_ports", objs (required_ports j));
   (u "ai_slots", objs (ai_slots j)); (u "deterministic_inputs", JObj (deterministic_inputs j));
   (u "status", JStr (job_status j)); (u "validation_receipts", objs (validation_receipts j));
   (u "rendered_output", JStr (rendered_output j)); (u "context_id", JStr (job_context_id j));
   (u "canonical_leaf", JStr (canonical_leaf j)); (u "implementation_id", JStr (implementation_id j))].

Definition expected_fields : list pystr :=
  map u ["job_id"; "template_id"; "owner_module"; "executor_type"; "target_path"; "anchor"; "operation";
         "expected_sha256"; "requires"; "produces"; "required_ports"; "ai_slots"; "deterministic_inputs"; "status";
         "validation_receipts"; "rendered_output"; "context_id"; "canonical_leaf"; "implementation_id"].

Definition _string (value : json) : res pystr := match value with JStr s => Ok s | _ => Err ValueError end.

Definition as_list (value : json) : res (list json) := match value with JArr l => Ok l | _ => Err ValueError end.
Definition as_dict (value : json) : res dict := match value with JObj d => Ok d | _ => Err ValueError end.

Definition _string_list (value : json) : res (list pystr) :=
  let* l := as_list value in res_map_list _string l.

Definition dict_list (value : json) : res (list dict) :=
  let* l := as_list value in res_map_list as_dict l.

Definition optional_string (value : json) : res (option pystr) :=
  match value with JNull => Ok None | JStr s => Ok (Some s) | _ => Err ValueError end.

Definition job_from_dict (raw : json) : res ArtifactJob :=
  let* data := as_dict raw in
  let field key := get data (u key) in
  if decide ((list_to_set data.*1 : gset pystr) <> list_to_set expected_fields) then Err ValueError
  else
    let* _ := as_list (field "requires") in
    let* _ := as_list (field "produces") in
    let* _ := as_list (field "required_ports") in
    let* _ := as_list (field "ai_slots") in
    let* inputs := as_dict (field "deterministic_inputs") in
    let* _ := as_list (field "validation_receipts") in
    let* sha := optional_string (field "expected_sha256") in
    let* ports := dict_list (field "required_ports") in
    let* slots := dict_list (field "ai_slots") in
    let* receipts := dict_list (field "validation_receipts") in
    let* id := _string (field "job_id") in
    let* template := _string (field "template_id") in
    let* owner := _string (field "owner_module") in
    let* executor := match field "executor_type" with JStr s => executor_of s | _ => Err ValueError end in
    let* path := _string (field "target_path") in
    let* anchor := _string (field "anchor") in
    let* operation := _string (field "operation") in
    let* requires := _string_list (field "requires") in
    let* produces := _string_list (field "produces") in
    let* status := _string (field "status") in
    let* output := _string (field "rendered_output") in
    let* context := _string (field "context_id") in
    let* leaf := _string (field "canonical_leaf") in
    let* implementation := _string (field "implementation_id") in
    Ok (Job id template owner executor path anchor operation sha requires produces ports slots inputs status
          receipts output context leaf implementation).

Definition parse_artifact_jobs (raw_jobs : list json) : res (list ArtifactJob) := res_map_list job_from_dict raw_jobs.

(** ** Owners and entrypoints *)

Definition artifact_owner_module_ids (jobs : list ArtifactJob) : gset pystr :=
  list_to_set (filter (fun owner => owner <> []) (map (fun j => strip (owner_module j)) jobs)).

(** What a template declares: its name, the names and types of its inputs, the types of its outputs. *)
Record manifest : Type := Manifest {
  manifest_id : pystr; manifest_inputs : list (pystr * pystr); manifest_outputs : list pystr
}.

Definition canonical_specification_input (load_template : pystr -> res manifest) (identifier : pystr) (inputs : json)
    : res dict :=
  let* m := load_template identifier in
  match map fst (filter (fun p => p.2 = u "specification") (manifest_inputs m)) with
  | [port] =>
      let* inputs := as_dict inputs in
      let* specification := as_dict (get inputs port) in
      if is_text (get specification (u "leaf_id")) (manifest_id m) then Ok specification else Err ValueError
  | _ => Err ValueError
  end.

(** [d.get(key, default)] *)
Definition get_or (d : dict) (key : pystr) (default : json) : json :=
  match dict_get key d with Some v => v | None => default end.

Definition dotted (a b : pystr) : pystr := a ++ 46 :: b.

Section entrypoints.
Context `{!PyRepr, PyUnicode} (load_template : pystr -> res manifest).

(** One job of the loop: the class it adds, if any. *)
Definition main_entrypoint (job : ArtifactJob) : res (option json) :=
  if decide (executor_type job <> PYTHON_GENERATOR \/ canonical_leaf job <> u "minecraft/event/callback") then Ok None
  else
    let* spec := canonical_specification_input load_template (canonical_leaf job)
                   (get_or (deterministic_inputs job) (u "_canonical_inputs") (JObj [])) in
    match get_or spec (u "bindings") (JObj []) with
    | JObj bindings =>
        let fqcn := get bindings (u "request_feature_entrypoint") in
        if negb (truthy fqcn) then Ok None
        else
          let* package := py_str (get_or bindings (u "package_name") (JStr [])) in
          let* class := py_str (get_or bindings (u "class_name") (JStr [])) in
          if is_text fqcn (dotted package class) && is_text (get spec (u "side")) (u "COMMON") then Ok (Some fqcn)
          else Err ValueError
    | _ => Err (OtherException "AttributeError")
    end.

Definition canonical_main_entrypoints (jobs : list ArtifactJob) : res (list pystr) :=
  let* found := res_map_list main_entrypoint jobs in
  Ok (sorted_set (list_to_set (omap (fun o => match o with Some (JStr s) => Some s | _ => None end) found))).

Definition client_entrypoint (job : ArtifactJob) : res (option pystr) :=
  if decide (executor_type job <> PYTHON_GENERATOR) then Ok None
  else
    match get (deterministic_inputs job) (u "_canonical_inputs") with
    | JObj canonical_inputs =>
        let* spec := canonical_specification_input load_template (canonical_leaf job) (JObj canonical_inputs) in
        let* side := str_or_empty (get spec (u "side")) in
        if decide (upper (strip side) <> u "CLIENT") then Ok None
        else
          let* bindings := as_dict (get spec (u "bindings")) in
          let* package := str_or_empty (get bindings (u "package_name")) in
          let* class := str_or_empty (get bindings (u "class_name")) in
          if decide (strip package = [] \/ strip class = []) then Err ValueError
          else Ok (Some (dotted (strip package) (strip class)))
    | _ => Ok None
    end.

Definition canonical_client_entrypoints (jobs : list ArtifactJob) : res (list pystr) :=
  let* found := res_map_list client_entrypoint jobs in
  Ok (sorted_set (list_to_set (omap id found))).
End entrypoints.

(** ** Validation of a graph *)

Definition starts_generator (s : pystr) : bool := starts_with (u "python_generator:") s.

(** The checks of one job on its own fields. *)
Definition check_fields (allowed_owners : list pystr) (job : ArtifactJob) : res unit :=
  let id := strip (job_id job) in
  let owner := strip (owner_module job) in
  if decide (id = [] \/ owner = [] \/ strip (job_context_id job) = [] \/ strip (canonical_leaf job) = [] \/
             strip (implementation_id job) = [])
  then Err ValueError
  else
    let* _ := match executor_type job with
              | TEMPLATE =>
                  if decide (strip (template_id job) = [] \/ strip (target_path job) = [] \/ strip (operation job) = [])
                  then Err ValueError else Ok tt
              | PYTHON_GENERATOR =>
                  if decide (strip (template_id job) <> [] \/ starts_generator (implementation_id job) = false)
                  then Err ValueError else Ok tt
              | _ => Ok tt
              end in
    if decide (allowed_owners <> [] /\ owner ∉ allowed_owners) then Err ValueError else Ok tt.

Definition check_ports (job : ArtifactJob) : res unit :=
  let requires := map strip (requires job) in
  let produces := map strip (produces job) in
  if decide ([] ∈ requires ++ produces) then Err ValueError
  else if decide (~ NoDup requires \/ ~ NoDup produces) then Err ValueError
  else if decide (Exists (fun port => port ∈ produces) requires) then Err ValueError
  else Ok tt.

(** One port of [required_ports], [seen] having come before it. *)
Definition check_required_port `{!PyRepr} (requires : list pystr) (seen : list pystr) (port : dict) : res (list pystr) :=
  if decide ((list_to_set port.*1 : gset pystr) <> list_to_set (map u ["name"; "kind"; "target_type"])) then Err ValueError
  else
    let* name := str_or_empty (get port (u "name")) in
    let* kind := str_or_empty (get port (u "kind")) in
    let* target_type := str_or_empty (get port (u "target_type")) in
    if decide (strip name = [] \/ strip kind = [] \/ strip target_type = []) then Err ValueError
    else
      let* _ := kind_of (strip kind) in
      if decide (strip name ∉ requires \/ strip name ∈ seen) then Err ValueError else Ok (strip name :: seen).

(** [acc = f(acc, x)] for every [x] *)
Fixpoint res_fold {A B} (f : A -> B -> res A) (acc : A) (l : list B) : res A :=
  match l with
  | [] => Ok acc
  | x :: l => let* acc := f acc x in res_fold f acc l
  end.

(** [producers[port] = job_id], a port having one producer. *)
Definition add_producer (id : pystr) (producers : gmap pystr pystr) (port : pystr) : res (gmap pystr pystr) :=
  match producers !! port with
  | Some prior => if decide (prior <> id) then Err ValueError else Ok (<[port := id]> producers)
  | None => Ok (<[port := id]> producers)
  end.

(** One turn of the first loop: the stripped names seen, and the producers. *)
Definition check_job `{!PyRepr} (allowed_owners : list pystr) (acc : gset pystr * gmap pystr pystr) (job : ArtifactJob)
    : res (gset pystr * gmap pystr pystr) :=
  let '(seen_jobs, producers) := acc in
  let* _ := check_fields allowed_owners job in
  let id := strip (job_id job) in
  if decide (id ∈ seen_jobs) then Err ValueError
  else
    let* _ := check_ports job in
    let* _ := res_fold (check_required_port (map strip (requires job))) [] (required_ports job) in
    let* producers := res_fold (add_producer id) producers (map strip (produces job)) in
    Ok ({[id]} ∪ seen_jobs, producers).

(** [{producers[port] for port in job.requires}]: the producer is named without white space,
    the jobs of the table with it. *)
Definition dependency_table (producers : gmap pystr pystr) (jobs : list ArtifactJob) : list (pystr * list pystr) :=
  map (fun j => (job_id j, from_keys (omap (fun port => producers !! port) (requires j)))) jobs.

(** [while ready: ..]: the least job first, its dependents in order. *)
Definition emitted_jobs (table : list (pystr * list pystr)) : res (list pystr * gmap pystr Z) :=
  let indegree : gmap pystr Z := dict_of (map (fun p => (p.1, Z.of_nat (length p.2))) table) in
  topo_loop (length table) (fun id => sort_strs (outgoing_table table id)) (zero_keys indegree) indegree [].

Definition validate_artifact_job_graph `{!PyRepr} (module_ids : list pystr) (jobs : list ArtifactJob)
    : res (list ArtifactJob) :=
  let allowed_owners := filter (fun owner => owner <> []) (map strip module_ids) in
  let* acc := res_fold (check_job allowed_owners) (∅, ∅) jobs in
  let producers := acc.2 in
  if decide (Exists (fun port => producers !! port = None) (concat (map requires jobs))) then Err ValueError
  else
    let table := dependency_table producers jobs in
    if decide (Exists (fun id => id ∉ table.*1) (concat table.*2)) then Err KeyError
    else
      let* emitted := emitted_jobs table in
      if decide (length emitted.1 <> length jobs) then Err ValueError else Ok jobs.
End jobs.

(** * Serialised jobs, and which graphs are accepted *)

From S2P Require Import Tables Ledger Backend Topological.
From S2P Require Import RLocks ExecutionBudget.

Open Scope Z_scope.
Open Scope py_scope.

(** ** Cycles *)

Section cycles.
Context {A : Type} {A_eq : EqDecision A} (R : relation A).

Inductive chain : list A -> Prop :=
  | chain_one x : chain [x]
  | chain_cons x y l : R x y -> chain (y :: l) -> chain (x :: y :: l).

Lemma chain_reaches l : forall x y, chain (x :: l) -> y ∈ l -> tc R x y.
Proof.
  induction l as [|z l IH]; intros x y Hc Hy; [by apply elem_of_nil in Hy|].
  inversion Hc as [|? ? ? Hr Hl]; subst. apply elem_of_cons in Hy as [->|Hy]; [by apply tc_once|].
  eapply tc_l; [exact Hr|]. by apply IH.
Qed.

Lemma chain_tail l1 l2 : chain (l1 ++ l2) -> l2 <> [] -> chain l2.
Proof.
  induction l1 as [|x l1 IH]; intros Hc Hne; [done|]. apply IH; [|done]. cbn [app] in Hc.
  inversion Hc as [y Heq|y z l Hr Hl Heq]; subst; [|done]. by destruct l1.
Qed.

(** If each element of a finite set is followed by another, some element follows itself. *)
Lemma stuck_cycle (C : list A) a : a ∈ C -> (forall x, x ∈ C -> exists y, y ∈ C /\ R x y) -> exists x, x ∈ C /\ tc R x x.
Proof.
  intros Ha Hs.
  assert (Hl : forall n x, x ∈ C -> exists l, length l = n /\ chain (x :: l) /\ forall y, y ∈ x :: l -> y ∈ C).
  { induction n as [|n IH]; intros x Hx.
    - exists []. split_and!; [done|constructor|]. by intros y ->%list_elem_of_singleton.
    - destruct (Hs x Hx) as (y & Hy & Hr). destruct (IH y Hy) as (l & Hl & Hc & Hin). exists (y :: l).
      split_and!; [cbn; lia|by constructor|]. intros z [->|Hz]%elem_of_cons; [done|by apply Hin]. }
  destruct (Hl (length C) a Ha) as (l & Hlen & Hc & Hin).
  assert (Hdup : ~ NoDup (a :: l)).
  { intros Hnd. pose proof (submseteq_length _ _ (NoDup_submseteq (a :: l) C Hnd Hin)) as Hle. cbn in Hle. lia. }
  assert (Hrep : exists pre x post, a :: l = pre ++ x :: post /\ x ∈ post).
  { clear -Hdup A_eq. induction (a :: l) as [|x k IH]; [by destruct Hdup; constructor|].
    destruct (decide (x ∈ k)) as [Hx|Hx]; [by exists [], x, k|].
    destruct IH as (pre & y & post & -> & Hy); [by intros Hk; apply Hdup; constructor|]. by exists (x :: pre), y, post. }
  destruct Hrep as (pre & x & post & Heq & Hx). exists x. split.
  - apply Hin. rewrite Heq. apply elem_of_app. right. left.
  - rewrite Heq in Hc. apply chain_tail in Hc; [|done]. by eapply chain_reaches.
Qed.

(** An order in which every element comes after those it is related to. *)
Definition respects (order : list A) : Prop := forall pre x post, order = pre ++ x :: post -> forall y, R x y -> y ∈ pre.

Lemma respects_stays order pre post x y : respects order -> order = pre ++ post -> x ∈ pre -> R x y -> y ∈ pre.
Proof.
  intros Hr -> Hx Hxy. apply list_elem_of_split in Hx as (p & q & ->). apply elem_of_app. left.
  apply (Hr p x (q ++ post)); [by rewrite <- app_assoc|done].
Qed.

Lemma respects_acyclic order x : respects order -> x ∈ order -> ~ tc R x x.
Proof.
  intros Hr. assert (Hp : forall pre post, order = pre ++ post -> x ∈ pre -> ~ tc R x x).
  { induction pre as [|z pre IH] using rev_ind; intros post Heq Hx; [by apply elem_of_nil in Hx|].
    destruct (decide (x ∈ pre)) as [Hin|Hout]; [by apply (IH ([z] ++ post)); [rewrite app_assoc|]|].
    apply elem_of_app in Hx as [Hx| ->%list_elem_of_singleton]; [done|]. rewrite <- app_assoc in Heq.
    assert (Hin : forall a b, tc R a b -> a ∈ pre -> b ∈ pre).
    { intros a b Ht. induction Ht as [a b Hab|a b c Hab _ IHt]; intros Ha; [|apply IHt];
        by eapply (respects_stays order pre). }
    intros Ht. inversion Ht as [? ? H1|? y ? H1 H2]; subst.
    - apply Hout. by apply (Hr pre z post).
    - apply Hout. eapply Hin; [exact H2|]. by apply (Hr pre z post). }
  intros Hx. apply (Hp order []); [by rewrite app_nil_r|done].
Qed.
End cycles.

(** ** Serialisation *)

Section serialisation.
Context `{PyFloat}.

Lemma _string_ok v s : _string v = Ok s <-> v = JStr s.
Proof. destruct v; simpl; naive_solver. Qed.

Lemma as_dict_ok v d : as_dict v = Ok d <-> v = JObj d.
Proof. destruct v; simpl; naive_solver. Qed.

Lemma as_list_ok v l : as_list v = Ok l <-> v = JArr l.
Proof. destruct v; simpl; naive_solver. Qed.

Lemma map_constructor_ok {A} (f : json -> res A) (g : A -> json) :
  (forall v a, f v = Ok a <-> v = g a) -> forall l l', res_map_list f l = Ok l' <-> l = map g l'.
Proof.
  intros Hf l l'. rewrite res_map_list_ok. split.
  - induction 1 as [|v a l l' Hv _ IH]; [done|]. cbn [map]. by apply Hf in Hv as ->; rewrite IH.
  - intros ->. induction l' as [|a l' IH]; constructor; [by apply Hf|done].
Qed.

Lemma _string_list_ok v l : _string_list v = Ok l <-> v = strs l.
Proof.
  unfold _string_list, strs. rewrite res_bind_ok. setoid_rewrite as_list_ok.
  setoid_rewrite (map_constructor_ok _ JStr _string_ok). naive_solver.
Qed.

Lemma dict_list_ok v l : dict_list v = Ok l <-> v = objs l.
Proof.
  unfold dict_list, objs. rewrite res_bind_ok. setoid_rewrite as_list_ok.
  setoid_rewrite (map_constructor_ok _ JObj as_dict_ok). naive_solver.
Qed.

Lemma optional_string_ok v o : optional_string v = Ok o <-> v = match o with Some s => JStr s | None => JNull end.
Proof. destruct v; destruct o; simpl; naive_solver. Qed.

Lemma executor_of_value e : executor_of (executor_value e) = Ok e.
Proof. destruct e; reflexivity. Qed.

Lemma executor_of_ok s e : executor_of s = Ok e <-> s = executor_value e.
Proof.
  split; [|intros ->; apply executor_of_value]. unfold executor_of.
  destruct (List.find _ _) as [e'|] eqn:Ef; [|done]. intros [= <-].
  apply find_some in Ef as [_ Hk]. by apply bool_decide_eq_true in Hk.
Qed.

(** A dictionary with given keys has a value for each of them, and nothing else. *)
Lemma dict_fields (d : dict) fields : NoDup d.*1 -> NoDup fields ->
  (list_to_set d.*1 : gset pystr) = list_to_set fields -> d ≡ₚ map (fun k => (k, get d k)) fields.
Proof.
  intros Hd Hf Hk. apply NoDup_Permutation.
  - by eapply NoDup_fmap_1.
  - apply (NoDup_fmap_1 fst). change (fst <$> map (fun k => (k, get d k)) fields) with
      (map fst (map (fun k => (k, get d k)) fields)). rewrite map_map. by rewrite map_id.
  - intros [k v]. rewrite list_elem_of_fmap. assert (Hin : k ∈ d.*1 <-> k ∈ fields).
    { by rewrite <- !(elem_of_list_to_set (C := gset pystr)), Hk. }
    unfold get. split.
    + intros Hkv. exists k. rewrite (dict_get_nodup k v d Hd Hkv). split; [done|]. apply Hin.
      by apply (list_elem_of_fmap_2 fst d (k, v)).
    + intros (k' & [= <- ->] & Hk'). apply Hin, dict_get_keys in Hk' as [v Hv]. rewrite Hv. by apply dict_get_in.
Qed.

Lemma job_to_dict_keys j : (job_to_dict j).*1 = expected_fields.
Proof. reflexivity. Qed.

Lemma dict_rows (l : dict) (f : pystr -> json) : map f l.*1 = map snd l -> map (fun k => (k, f k)) l.*1 = l.
Proof.
  induction l as [|[k v] l IH]; [done|]. cbn [fmap list_fmap map fst snd]. intros Heq.
  injection Heq as Hv Hl. rewrite Hv. f_equal. by apply IH.
Qed.

Lemma expected_fields_NoDup : NoDup expected_fields.
Proof. apply (bool_decide_unpack _). vm_compute. exact I. Qed.

Lemma job_from_dict_fields (d : dict) j : (list_to_set d.*1 : gset pystr) = list_to_set expected_fields ->
  job_from_dict (JObj d) = Ok j <-> map (get d) expected_fields = map snd (job_to_dict j).
Proof.
  intros Hk. unfold job_from_dict. cbn [as_dict res_bind]. cbv zeta. rewrite decide_False by tauto. split.
  - intros Hok. repeat (apply res_bind_ok in Hok as (? & ? & Hok)). injection Hok as <-.
    unfold expected_fields. cbn [map job_to_dict snd job_id template_id owner_module executor_type target_path anchor
      operation expected_sha256 requires produces required_ports ai_slots deterministic_inputs job_status
      validation_receipts rendered_output job_context_id canonical_leaf implementation_id].
    repeat match goal with
    | Hs : _string _ = Ok _ |- _ => apply _string_ok in Hs
    | Hs : as_dict _ = Ok _ |- _ => apply as_dict_ok in Hs
    | Hs : _string_list _ = Ok _ |- _ => apply _string_list_ok in Hs
    | Hs : dict_list _ = Ok _ |- _ => apply dict_list_ok in Hs
    | Hs : optional_string _ = Ok _ |- _ => apply optional_string_ok in Hs
    end.
    destruct (get d (u "executor_type")) as [| | | |s| |] eqn:Ex; try done.
    match goal with Hs : executor_of s = Ok _ |- _ => apply executor_of_ok in Hs as -> end.
    repeat (apply f_equal2; [first [assumption|reflexivity]|]). reflexivity.
  - unfold expected_fields. cbn [map job_to_dict snd].
    intros [= E1 E2 E3 E4 E5 E6 E7 E8 E9 E10 E11 E12 E13 E14 E15 E16 E17 E18 E19].
    rewrite E4, executor_of_value.
    repeat (apply res_bind_ok; eexists; split;
      [first [apply _string_ok|apply as_dict_ok|apply _string_list_ok|apply dict_list_ok|apply optional_string_ok
             |apply as_list_ok|reflexivity]; eassumption|]). by destruct j.
Qed.

(** A dictionary is read as a job exactly when it has the fields that the job is written
    with, in whatever order, and none besides: reading is the inverse of writing. *)
Theorem artifact_job_roundtrip (d : dict) j : NoDup d.*1 -> job_from_dict (JObj d) = Ok j <-> d ≡ₚ job_to_dict j.
Proof.
  intros Hd. split.
  - intros Hj. assert (Hk : (list_to_set d.*1 : gset pystr) = list_to_set expected_fields).
    { unfold job_from_dict in Hj. cbn [as_dict res_bind] in Hj. cbv zeta in Hj.
      destruct (decide (list_to_set d.*1 <> list_to_set expected_fields)) as [Hne|Hk]; [done|by apply dec_stable]. }
    apply (job_from_dict_fields d j Hk) in Hj.
    rewrite (dict_fields d expected_fields Hd expected_fields_NoDup Hk) at 1.
    rewrite <- (job_to_dict_keys j) in Hj |- *. by rewrite dict_rows.
  - intros Hp. apply job_from_dict_fields.
    + rewrite <- (job_to_dict_keys j). by rewrite Hp.
    + etrans; [|by instantiate (1 := map (get (job_to_dict j)) expected_fields); reflexivity].
      apply map_ext. intros k. unfold get. by rewrite (dict_get_perm k d (job_to_dict j) Hd Hp).
Qed.
End serialisation.
