(* ===== verification/JobGraph.v ===== *)
(** * JobGraph: which artifact job graphs [validate_artifact_job_graph] accepts *)

From stdpp Require Import prelude gmap sets fin_sets fin_map_dom strings list sorting relations.
From S2P Require Import Prelude Text Json PyJson Kahn Tables Ledger Backend WorkPlan Topological.
From S2P Require Import RLocks ExecutionBudget ArtifactPorts ArtifactJob.

Open Scope Z_scope.
Open Scope py_scope.

(** ** The order of the dependents does not matter *)

Lemma release_step_swap {K} `{Countable K} (p : gmap K Z * list K) x y :
  (release_step (release_step p x) y).1 = (release_step (release_step p y) x).1 /\
  (release_step (release_step p x) y).2 ≡ₚ (release_step (release_step p y) x).2.
Proof.
  destruct (decide (x = y)) as [->|Hne]; [done|]. destruct p as [deg new]. unfold release_step. cbn [fst snd].
  rewrite !lookup_insert_ne by done. split; [by apply insert_insert_ne|].
  repeat destruct (_ =? 0); rewrite <- ?app_assoc; try done. apply Permutation_app_head, Permutation_app_comm.
Qed.

Lemma release_step_cong {K} `{Countable K} (p q : gmap K Z * list K) x :
  p.1 = q.1 -> p.2 ≡ₚ q.2 -> (release_step p x).1 = (release_step q x).1 /\ (release_step p x).2 ≡ₚ (release_step q x).2.
Proof.
  intros H1 H2. unfold release_step. cbn [fst snd]. rewrite H1. split; [done|].
  destruct (_ =? 0); [by rewrite H2|done].
Qed.

Lemma release_perm {K} `{Countable K} (l l' : list K) deg : l ≡ₚ l' ->
  (release deg l).1 = (release deg l').1 /\ (release deg l).2 ≡ₚ (release deg l').2.
Proof.
  rewrite !release_steps. intros Hl.
  enough (Hg : forall p q : gmap K Z * list K, p.1 = q.1 -> p.2 ≡ₚ q.2 ->
    (fold_left release_step l p).1 = (fold_left release_step l' q).1 /\
    (fold_left release_step l p).2 ≡ₚ (fold_left release_step l' q).2) by by apply Hg.
  induction Hl as [|x l l' Hl IH|x y l|l1 l2 l3 _ IH1 _ IH2]; intros p q H1 H2; cbn [fold_left]; [done| | |].
  - apply IH; by apply release_step_cong.
  - assert (Hid : forall k (p q : gmap K Z * list K), p.1 = q.1 -> p.2 ≡ₚ q.2 ->
      (fold_left release_step k p).1 = (fold_left release_step k q).1 /\
      (fold_left release_step k p).2 ≡ₚ (fold_left release_step k q).2).
    { induction k as [|z k IHk]; intros p' q' ? ?; [done|]. cbn [fold_left]. apply IHk; by apply release_step_cong. }
    destruct (release_step_swap p y x) as [Hs1 Hs2].
    destruct (release_step_cong p q x H1 H2) as [Hc1 Hc2].
    destruct (release_step_cong _ _ y Hc1 Hc2) as [Hd1 Hd2]. apply Hid; [by rewrite Hs1|by rewrite Hs2].
  - destruct (IH1 p p eq_refl (reflexivity _)) as [Ha1 Ha2]. destruct (IH2 p q H1 H2) as [Hb1 Hb2].
    split; [by rewrite Ha1|by rewrite Ha2].
Qed.

Lemma topo_loop_perm fuel out out' : (forall k, out k ≡ₚ out' k) -> forall ready ready' deg ordered,
  ready ≡ₚ ready' -> topo_loop fuel out ready deg ordered = topo_loop fuel out' ready' deg ordered.
Proof.
  intros Ho. induction fuel as [|fuel IH]; intros ready ready' deg ordered Hr; cbn [topo_loop];
    unfold sort_strs; rewrite (sorted_perm_unique str_le ready ready' Hr); destruct (merge_sort str_le ready') as [|id rest]; try done.
  destruct (release_perm (out id) (out' id) deg (Ho id)) as [H1 H2].
  destruct (release deg (out id)) as [deg1 new1], (release deg (out' id)) as [deg2 new2]. cbn [fst snd] in *. subst deg2.
  apply IH. by rewrite H2.
Qed.

Lemma emitted_jobs_kahn table : emitted_jobs table = run_kahn table.
Proof. unfold emitted_jobs, run_kahn. apply topo_loop_perm; [|done]. intros k. apply merge_sort_Permutation. Qed.

(** ** The checks of one job *)

Section graph.
Context `{PyFloat, !PyRepr}.

Implicit Types (j : ArtifactJob).

Definition stripped_id j : pystr := strip (job_id j).
Definition requires_port j (p : pystr) : Prop := p ∈ map strip (requires j).
Definition produces_port j (p : pystr) : Prop := p ∈ map strip (produces j).

(** The executor decides which of the template and the implementation a job names. *)
Definition implemented j : Prop :=
  match executor_type j with
  | TEMPLATE => strip (template_id j) <> [] /\ strip (target_path j) <> [] /\ strip (operation j) <> []
  | PYTHON_GENERATOR => strip (template_id j) = [] /\ exists name, implementation_id j = u "python_generator:" ++ name
  | MODEL | DETERMINISTIC => True
  end.

(** [required_ports] describes the port [name]. *)
Definition declares j (port : dict) (name : pystr) : Prop :=
  (list_to_set port.*1 : gset pystr) = list_to_set (map u ["name"; "kind"; "target_type"]) /\
  exists raw_name raw_kind raw_type,
    str_or_empty (get port (u "name")) = Ok raw_name /\ str_or_empty (get port (u "kind")) = Ok raw_kind /\
    str_or_empty (get port (u "target_type")) = Ok raw_type /\
    name = strip raw_name /\ name <> [] /\ (exists kind, strip raw_kind = kind_value kind) /\ strip raw_type <> [] /\
    requires_port j name.

Record admissible (allowed_owners : list pystr) j : Prop := Admissible {
  adm_named : stripped_id j <> [] /\ strip (owner_module j) <> [] /\ strip (job_context_id j) <> [] /\
    strip (canonical_leaf j) <> [] /\ strip (implementation_id j) <> [];
  adm_implemented : implemented j;
  adm_owner : allowed_owners = [] \/ strip (owner_module j) ∈ allowed_owners;
  adm_ports : ~ requires_port j [] /\ ~ produces_port j [];
  adm_distinct : NoDup (map strip (requires j)) /\ NoDup (map strip (produces j));
  adm_no_loop : forall p, requires_port j p -> ~ produces_port j p;
  adm_declared : exists names, Forall2 (declares j) (required_ports j) names /\ NoDup names
}.

Lemma check_fields_ok allowed j :
  match check_fields allowed j with
  | Ok _ => (stripped_id j <> [] /\ strip (owner_module j) <> [] /\ strip (job_context_id j) <> [] /\
             strip (canonical_leaf j) <> [] /\ strip (implementation_id j) <> []) /\
            implemented j /\ (allowed = [] \/ strip (owner_module j) ∈ allowed)
  | Err e => e = ValueError /\ ~ admissible allowed j
  end.
Proof.
  unfold check_fields. destruct (decide (_ \/ _)) as [Hn|Hn].
  { split; [done|]. intros [Ha _ _ _ _ _ _]. unfold stripped_id in Ha. tauto. }
  assert (Himp : match match executor_type j with
    | TEMPLATE => if decide (strip (template_id j) = [] \/ strip (target_path j) = [] \/ strip (operation j) = [])
                  then Err ValueError else Ok tt
    | PYTHON_GENERATOR => if decide (strip (template_id j) <> [] \/ starts_generator (implementation_id j) = false)
                          then Err ValueError else Ok tt
    | _ => Ok tt end with Ok _ => implemented j | Err e => e = ValueError /\ ~ implemented j end).
  { unfold implemented, starts_generator. destruct (executor_type j); [case_decide; tauto| |done..].
    destruct (decide (_ \/ _)) as [Hd|Hd].
    - split; [done|]. intros [Ht Hs%starts_with_iff]. destruct Hd; [done|congruence].
    - split; [apply dec_stable; tauto|]. apply starts_with_iff, not_false_iff_true. tauto. }
  destruct (match executor_type j with TEMPLATE => _ | _ => _ end) as [[]|e]; cbn [res_bind].
  - destruct (decide (_ /\ _)) as [Ho|Ho].
    + split; [done|]. intros [_ _ Ha _ _ _ _]. tauto.
    + unfold stripped_id. split_and!; try tauto.
      destruct (decide (allowed = [])); [by left|right]. apply dec_stable. tauto.
  - split; [apply Himp|]. intros [_ Ha _ _ _ _ _]. tauto.
Qed.

Lemma check_ports_ok allowed j :
  match check_ports j with
  | Ok _ => (~ requires_port j [] /\ ~ produces_port j []) /\
            (NoDup (map strip (requires j)) /\ NoDup (map strip (produces j))) /\
            (forall p, requires_port j p -> ~ produces_port j p)
  | Err e => e = ValueError /\ ~ admissible allowed j
  end.
Proof.
  unfold check_ports. destruct (decide ([] ∈ _)) as [He|He].
  { split; [done|]. intros [_ _ _ Ha _ _ _]. unfold requires_port, produces_port in Ha. rewrite elem_of_app in He. tauto. }
  destruct (decide (~ NoDup _ \/ _)) as [Hd|Hd].
  { split; [done|]. intros [_ _ _ _ Ha _ _]. tauto. }
  destruct (decide (Exists _ _)) as [Hx|Hx].
  { split; [done|]. intros [_ _ _ _ _ Ha _]. apply Exists_exists in Hx as (p & Hp & Hq). by apply (Ha p). }
  unfold requires_port, produces_port in *. rewrite elem_of_app in He. split_and!; try tauto.
  - apply dec_stable. tauto.
  - apply dec_stable. tauto.
  - intros p Hp Hq. apply Hx, Exists_exists. eauto.
Qed.

Lemma str_or_empty_error v e : str_or_empty v = Err e -> e = ValueError.
Proof.
  unfold str_or_empty. destruct (truthy v); [|done]. unfold py_str, str_int.
  destruct v as [|[]| | | | |]; try done. case_match; naive_solver.
Qed.

Lemma kind_value_not_empty k : kind_value k <> [].
Proof. destruct k; done. Qed.

Lemma declares_unique j port n n' : declares j port n -> declares j port n' -> n = n'.
Proof. intros (_ & r & k & t & Hr & _ & _ & -> & _) (_ & r' & k' & t' & Hr' & _ & _ & -> & _). congruence. Qed.

Lemma check_required_port_ok j seen port :
  match check_required_port (map strip (requires j)) seen port with
  | Ok seen' => exists name, declares j port name /\ name ∉ seen /\ seen' = name :: seen
  | Err e => e = ValueError /\ forall name, declares j port name -> name ∈ seen
  end.
Proof.
  unfold check_required_port. destruct (decide (_ <> _)) as [Hk|Hk]; [split; [done|]; by intros n [? _]|].
  apply dec_stable in Hk.
  destruct (str_or_empty (get port (u "name"))) as [n|e] eqn:En; cbn [res_bind].
  2: { apply str_or_empty_error in En as Hv. split; [done|]. intros ? (_ & ? & ? & ? & ? & _). congruence. }
  destruct (str_or_empty (get port (u "kind"))) as [k|e] eqn:Ek; cbn [res_bind].
  2: { apply str_or_empty_error in Ek as Hv. split; [done|]. intros ? (_ & ? & ? & ? & ? & ? & _). congruence. }
  destruct (str_or_empty (get port (u "target_type"))) as [t|e] eqn:Et; cbn [res_bind].
  2: { apply str_or_empty_error in Et as Hv. split; [done|]. intros ? (_ & ? & ? & ? & ? & ? & ? & _). congruence. }
  assert (Hd : forall name, declares j port name ->
    name = strip n /\ strip n <> [] /\ (exists kind, strip k = kind_value kind) /\ strip t <> [] /\ requires_port j (strip n)).
  { intros name (_ & n' & k' & t' & H1 & H2 & H3 & -> & Hx). rewrite En in H1. rewrite Ek in H2. rewrite Et in H3.
    injection H1 as <-. injection H2 as <-. injection H3 as <-. tauto. }
  destruct (decide (_ \/ _)) as [Hempty|Hempty].
  { split; [done|]. intros name (_ & Hn & (kind & Hkind) & Ht & _)%Hd. exfalso. pose proof (kind_value_not_empty kind).
    rewrite Hkind in Hempty. tauto. }
  destruct (kind_of (strip k)) as [kind|e] eqn:Ekind; cbn [res_bind].
  2: { split; [unfold kind_of in Ekind; case_match; by res_inv|].
       intros name (_ & _ & (kind & Hkind) & _)%Hd. exfalso. rewrite Hkind, kind_of_value in Ekind. done. }
  apply port_kind_ok in Ekind. destruct (decide (_ \/ _)) as [Hs|Hs].
  - split; [done|]. intros name (-> & _ & _ & _ & Hr)%Hd. unfold requires_port in Hr. tauto.
  - exists (strip n). split_and!; [|tauto|done]. split; [done|]. exists n, k, t. split_and!; try done; try tauto; [by eexists|].
    unfold requires_port. apply dec_stable. tauto.
Qed.

Lemma check_required_ports_ok j ports : forall seen,
  match res_fold (check_required_port (map strip (requires j))) seen ports with
  | Ok _ => exists names, Forall2 (declares j) ports names /\ NoDup names /\ forall n, n ∈ names -> n ∉ seen
  | Err e => e = ValueError /\
      ~ exists names, Forall2 (declares j) ports names /\ NoDup names /\ forall n, n ∈ names -> n ∉ seen
  end.
Proof.
  induction ports as [|port ports IH]; intros seen; cbn [res_fold].
  { exists []. split_and!; [constructor|constructor|]. by intros n ?%elem_of_nil. }
  pose proof (check_required_port_ok j seen port) as Hp.
  destruct (check_required_port _ seen port) as [seen'|e]; cbn [res_bind].
  - destruct Hp as (name & Hd & Hn & ->). specialize (IH (name :: seen)).
    assert (Hiff : (exists names, Forall2 (declares j) ports names /\ NoDup names /\ forall n, n ∈ names -> n ∉ name :: seen) <->
      exists names, Forall2 (declares j) (port :: ports) names /\ NoDup names /\ forall n, n ∈ names -> n ∉ seen).
    { split.
      - intros (names & Hf & Hnd & Hs). exists (name :: names). split_and!; [by constructor| |].
        + constructor; [|done]. intros Hin. by apply (Hs name Hin); left.
        + intros n [->|Hin]%elem_of_cons; [done|]. intros Hx. by apply (Hs n Hin); right.
      - intros (names & Hf & Hnd & Hs). inversion Hf as [|? name' ? names' Hd' Hf']; subst.
        pose proof (declares_unique _ _ _ _ Hd Hd') as <-. apply NoDup_cons in Hnd as [Hni Hnd].
        exists names'. split_and!; [done|done|]. intros n Hin [->|Hx]%elem_of_cons; [done|]. by apply (Hs n); [right|]. }
    by destruct (res_fold _ _ ports); rewrite <- Hiff.
  - destruct Hp as [-> Hall]. split; [done|]. intros (names & Hf & _ & Hs).
    inversion Hf as [|? name ? names' Hd _]; subst. apply (Hs name); [left|by apply Hall].
Qed.

(** ** The first loop *)

Lemma add_producers_ok id ports : forall producers : gmap pystr pystr,
  match res_fold (add_producer id) producers ports with
  | Ok producers' => (forall p i, p ∈ ports -> producers !! p = Some i -> i = id) /\
      forall p, producers' !! p = if decide (p ∈ ports) then Some id else producers !! p
  | Err e => e = ValueError /\ exists p i, p ∈ ports /\ producers !! p = Some i /\ i <> id
  end.
Proof.
  induction ports as [|p ports IH]; intros producers; cbn [res_fold].
  { split; [by intros p i ?%elem_of_nil|]. intros p. by rewrite decide_False by apply not_elem_of_nil. }
  assert (Hnext : (forall i, producers !! p = Some i -> i = id) ->
    match res_fold (add_producer id) (<[p := id]> producers) ports with
    | Ok producers' => (forall q i, q ∈ p :: ports -> producers !! q = Some i -> i = id) /\
        forall q, producers' !! q = if decide (q ∈ p :: ports) then Some id else producers !! q
    | Err e => e = ValueError /\ exists q i, q ∈ p :: ports /\ producers !! q = Some i /\ i <> id
    end).
  { intros Hp. specialize (IH (<[p := id]> producers)). destruct (res_fold _ _ ports) as [producers'|e].
    - destruct IH as [Hold Hnew]. split.
      + intros q i [->|Hq]%elem_of_cons Hi; [by apply Hp|]. destruct (decide (q = p)) as [->|Hne]; [by apply Hp|].
        apply (Hold q); [done|]. by rewrite lookup_insert_ne.
      + intros q. rewrite Hnew. destruct (decide (q = p)) as [->|Hne].
        * rewrite lookup_insert_eq, (decide_True (P := p ∈ p :: ports)) by left. by case_decide.
        * rewrite lookup_insert_ne by done. do 2 case_decide; try done; rewrite elem_of_cons in *; tauto.
    - destruct IH as (-> & q & i & Hq & Hi & Hne). split; [done|]. exists q, i.
      destruct (decide (q = p)) as [->|Hqp]; [rewrite lookup_insert_eq in Hi; naive_solver|].
      rewrite lookup_insert_ne in Hi by done. split_and!; [by right|done|done]. }
  unfold add_producer at 1. destruct (producers !! p) as [prior|] eqn:Ep; [destruct (decide (prior <> id)) as [Hne|Heq]|]; cbn [res_bind].
  - split; [done|]. exists p, prior. split_and!; [left|done|done].
  - apply dec_stable in Heq as ->. apply Hnext. naive_solver.
  - apply Hnext. done.
Qed.

(** What the first loop has accepted. *)
Definition well_formed (allowed : list pystr) (jobs : list ArtifactJob) : Prop :=
  Forall (admissible allowed) jobs /\ NoDup (map stripped_id jobs) /\
  forall j1 j2 p, j1 ∈ jobs -> j2 ∈ jobs -> produces_port j1 p -> produces_port j2 p -> stripped_id j1 = stripped_id j2.

Definition indexes (jobs : list ArtifactJob) (acc : gset pystr * gmap pystr pystr) : Prop :=
  acc.1 = list_to_set (map stripped_id jobs) /\
  forall p i, acc.2 !! p = Some i <-> exists j, j ∈ jobs /\ stripped_id j = i /\ produces_port j p.

Lemma well_formed_snoc allowed jobs j : well_formed allowed (jobs ++ [j]) <->
  well_formed allowed jobs /\ admissible allowed j /\ stripped_id j ∉ map stripped_id jobs /\
  forall j1 p, j1 ∈ jobs -> produces_port j1 p -> produces_port j p -> stripped_id j1 = stripped_id j.
Proof.
  unfold well_formed. rewrite Forall_app, Forall_singleton, map_app, NoDup_app. cbn [map].
  setoid_rewrite elem_of_app. setoid_rewrite list_elem_of_singleton. split.
  - intros ((Hf & Ha) & (Hn & Hd & _) & Hu). split_and!; try done.
    + intros j1 j2 p H1 H2. apply Hu; by left.
    + intros Hin. by apply (Hd _ Hin).
    + intros j1 p Hj. apply Hu; [by left|by right].
  - intros ((Hf & Hn & Hu) & Ha & Hd & Hx). split_and!; try done.
    + intros x Hx1 ->. done.
    + apply NoDup_singleton.
    + intros j1 j2 p [H1| ->] [H2| ->] Hp1 Hp2; [by eapply Hu|by eapply Hx|by symmetry; eapply Hx|done].
Qed.

Lemma well_formed_prefix allowed l1 l2 : well_formed allowed (l1 ++ l2) -> well_formed allowed l1.
Proof.
  induction l2 as [|j l2 IH] using rev_ind; [by rewrite app_nil_r|].
  rewrite app_assoc. intros [Hw _]%well_formed_snoc. by apply IH.
Qed.

Lemma check_job_ok allowed jobs acc j : well_formed allowed jobs -> indexes jobs acc ->
  match check_job allowed acc j with
  | Ok acc' => well_formed allowed (jobs ++ [j]) /\ indexes (jobs ++ [j]) acc'
  | Err e => e = ValueError /\ ~ well_formed allowed (jobs ++ [j])
  end.
Proof.
  intros Hw [Hseen Hprod]. destruct acc as [seen producers]. cbn [fst snd] in *. unfold check_job.
  pose proof (check_fields_ok allowed j) as Hf. destruct (check_fields allowed j) as [[]|e]; cbn [res_bind].
  2: { split; [apply Hf|]. rewrite well_formed_snoc. tauto. }
  fold (stripped_id j). destruct (decide (stripped_id j ∈ seen)) as [Hs|Hs].
  { split; [done|]. rewrite well_formed_snoc. intros (_ & _ & Hn & _). apply Hn. by rewrite Hseen, elem_of_list_to_set in Hs. }
  pose proof (check_ports_ok allowed j) as Hp. destruct (check_ports j) as [[]|e]; cbn [res_bind].
  2: { split; [apply Hp|]. rewrite well_formed_snoc. tauto. }
  pose proof (check_required_ports_ok j (required_ports j) []) as Hr.
  destruct (res_fold (check_required_port _) [] _) as [names|e]; cbn [res_bind].
  2: { destruct Hr as [-> Hr]. split; [done|]. rewrite well_formed_snoc. intros (_ & [_ _ _ _ _ _ (names & Hd & Hn)] & _).
       apply Hr. exists names. split_and!; [done|done|]. intros n _. apply not_elem_of_nil. }
  pose proof (add_producers_ok (stripped_id j) (map strip (produces j)) producers) as Ha.
  destruct (res_fold (add_producer _) _ _) as [producers'|e]; cbn [res_bind].
  - destruct Ha as [Hold Hnew]. destruct Hr as (names' & Hd & Hn & _). split.
    + apply well_formed_snoc. split_and!; [done| | |].
      * destruct Hf as (? & ? & ?), Hp as (? & ? & ?). split; try done. by exists names'.
      * by rewrite Hseen, elem_of_list_to_set in Hs.
      * intros j1 p Hj1 Hp1 Hpj. apply (Hold p); [done|]. apply Hprod. eauto.
    + split; cbn [fst snd]; [rewrite map_app, list_to_set_app_L, Hseen; cbn; set_solver|].
      intros p i. rewrite Hnew. setoid_rewrite elem_of_app. setoid_rewrite list_elem_of_singleton.
      destruct (decide (p ∈ map strip (produces j))) as [Hpj|Hpj].
      * split; [intros [= <-]; eauto|]. intros (j1 & [Hj1| ->] & <- & Hp1); [|done]. f_equal. symmetry.
        apply (Hold p); [done|]. apply Hprod. eauto.
      * rewrite Hprod. split; [intros (j1 & ? & ? & ?); eauto|]. intros (j1 & [Hj1| ->] & Hi & Hp1); [eauto|done].
  - destruct Ha as (-> & p & i & Hpj & Hi & Hne). split; [done|]. rewrite well_formed_snoc. intros (_ & _ & _ & Hu).
    apply Hprod in Hi as (j1 & Hj1 & <- & Hp1). apply Hne. by eapply Hu.
Qed.

Lemma check_jobs_ok allowed rest : forall jobs acc, well_formed allowed jobs -> indexes jobs acc ->
  match res_fold (check_job allowed) acc rest with
  | Ok acc' => well_formed allowed (jobs ++ rest) /\ indexes (jobs ++ rest) acc'
  | Err e => e = ValueError /\ ~ well_formed allowed (jobs ++ rest)
  end.
Proof.
  induction rest as [|j rest IH]; intros jobs acc Hw Hi; cbn [res_fold]; [by rewrite app_nil_r|].
  pose proof (check_job_ok allowed jobs acc j Hw Hi) as Hj. destruct (check_job allowed acc j) as [acc'|e]; cbn [res_bind].
  - destruct Hj as [Hw' Hi']. specialize (IH _ _ Hw' Hi'). by rewrite <- app_assoc in IH.
  - destruct Hj as [-> Hn]. split; [done|]. intros Hall. apply Hn.
    apply (well_formed_prefix allowed _ rest). by rewrite <- app_assoc.
Qed.

(** ** The dependencies *)

(** Job [a] waits for job [b]. *)
Definition waits_for (jobs : list ArtifactJob) (a b : pystr) : Prop :=
  exists ja jb port, ja ∈ jobs /\ jb ∈ jobs /\ job_id ja = a /\ job_id jb = b /\
    port ∈ requires ja /\ produces_port jb port.

Definition supplied (jobs : list ArtifactJob) : Prop :=
  forall j port, j ∈ jobs -> port ∈ requires j ->
    exists j', j' ∈ jobs /\ produces_port j' port /\ strip (job_id j') = job_id j'.

Record acceptable (module_ids : list pystr) (jobs : list ArtifactJob) : Prop := Acceptable {
  acc_jobs : well_formed (filter (fun owner => owner <> []) (map strip module_ids)) jobs;
  acc_supplied : supplied jobs;
  acc_acyclic : forall id, ~ tc (waits_for jobs) id id
}.

Section accepted.
Variables (allowed : list pystr) (jobs : list ArtifactJob) (acc : gset pystr * gmap pystr pystr).
Hypotheses (jobs_ok : well_formed allowed jobs) (acc_ok : indexes jobs acc).

Let table := dependency_table acc.2 jobs.

Lemma stripped_inj j j' : j ∈ jobs -> j' ∈ jobs -> stripped_id j = stripped_id j' -> j = j'.
Proof.
  intros Hj Hj' He. destruct jobs_ok as (_ & Hn & _). revert Hn Hj Hj'. clear -He.
  induction jobs as [|x l IH]; [by intros _ ?%elem_of_nil|]. cbn [map]. intros [Hx Hn]%NoDup_cons.
  intros [->|Hj]%elem_of_cons [->|Hj']%elem_of_cons; [done| | |by apply IH];
    exfalso; apply Hx; [rewrite He|rewrite <- He]; by apply list_elem_of_fmap_2.
Qed.

Lemma ids_NoDup : NoDup (map job_id jobs).
Proof. destruct jobs_ok as (_ & Hn & _). apply (NoDup_fmap_1 strip). by rewrite <- list_fmap_compose. Qed.

Lemma table_ids : map fst table = map job_id jobs.
Proof. unfold table, dependency_table. by rewrite map_map. Qed.

Lemma table_row j d : j ∈ jobs ->
  d ∈ deps_of table (job_id j) <-> exists j' port, j' ∈ jobs /\ port ∈ requires j /\ produces_port j' port /\ stripped_id j' = d.
Proof.
  intros Hj. assert (Hrow : (job_id j, from_keys (omap (fun port => acc.2 !! port) (requires j))) ∈ table).
  { apply list_elem_of_fmap. by exists j. }
  pose proof (deps_of_in table ltac:(rewrite table_ids; apply ids_NoDup) _ Hrow) as Hd. cbn [fst snd] in Hd. rewrite Hd.
  rewrite elem_of_from_keys, list_elem_of_omap. destruct acc_ok as [_ Hprod]. setoid_rewrite Hprod. naive_solver.
Qed.

Lemma producer_named j j' port : j ∈ jobs -> j' ∈ jobs -> produces_port j' port ->
  (exists k, k ∈ jobs /\ produces_port k port /\ strip (job_id k) = job_id k) -> job_id j' = stripped_id j'.
Proof.
  intros _ Hj' Hp (k & Hk & Hpk & Hs). destruct jobs_ok as (_ & _ & Hu).
  assert (j' = k) as -> by (apply stripped_inj; [done|done|by apply (Hu j' k port)]). by symmetry.
Qed.

Lemma table_waits j d : supplied jobs -> j ∈ jobs -> d ∈ deps_of table (job_id j) <-> waits_for jobs (job_id j) d.
Proof.
  intros Hsup Hj. rewrite (table_row j d Hj). split.
  - intros (j' & port & Hj' & Hr & Hp & <-). exists j, j', port. split_and!; try done.
    apply (producer_named j j' port Hj Hj' Hp). by apply (Hsup j port).
  - intros (ja & jb & port & Ha & Hb & Hida & <- & Hr & Hp).
    assert (ja = j) as -> by (apply stripped_inj; [done|done|]; unfold stripped_id; by rewrite Hida).
    exists jb, port. split_and!; try done. symmetry. apply (producer_named j jb port Hj Hb Hp). by apply (Hsup j port).
Qed.

Lemma supplied_iff : supplied jobs <->
  ~ Exists (fun port => acc.2 !! port = None) (concat (map requires jobs)) /\
  ~ Exists (fun id => id ∉ table.*1) (concat table.*2).
Proof.
  change (table.*1) with (map fst table). rewrite table_ids. rewrite !Exists_exists.
  assert (Hrows : forall d, d ∈ concat table.*2 <-> exists j, j ∈ jobs /\ d ∈ deps_of table (job_id j)).
  { intros d. rewrite elem_of_concat. split.
    - intros (l & (row & -> & Hrow)%list_elem_of_fmap & Hd). pose proof Hrow as (j & Hj & Hin)%list_elem_of_fmap.
      exists j. split; [done|]. pose proof (deps_of_in table ltac:(rewrite table_ids; apply ids_NoDup) _ Hrow) as Hdeps.
      rewrite Hj in Hdeps at 1. cbn [fst] in Hdeps. by rewrite Hdeps.
    - intros (j & Hj & Hd). set (row := (job_id j, from_keys (omap (fun port => acc.2 !! port) (requires j)))).
      assert (Hrow : row ∈ table) by (apply list_elem_of_fmap; by exists j).
      exists row.2. split; [by apply list_elem_of_fmap_2|].
      pose proof (deps_of_in table ltac:(rewrite table_ids; apply ids_NoDup) _ Hrow) as <-. done. }
  destruct acc_ok as [_ Hprod]. split.
  - intros Hsup. split.
    + intros (port & (l & (j & -> & Hj)%list_elem_of_fmap & Hp)%elem_of_concat & Hnone).
      destruct (Hsup j port Hj Hp) as (j' & Hj' & Hpj' & _).
      rewrite (proj2 (Hprod port (stripped_id j'))) in Hnone by eauto. done.
    + intros (d & (j & Hj & Hd)%Hrows & Hn). apply (table_waits j d Hsup Hj) in Hd as (_ & jb & _ & _ & Hb & _ & <- & _).
      apply Hn. by apply list_elem_of_fmap_2.
  - intros [Hmiss Hkey] j port Hj Hp. destruct (acc.2 !! port) as [i|] eqn:Ei.
    + apply Hprod in Ei as (j' & Hj' & <- & Hpj'). exists j'. split_and!; [done|done|].
      apply dec_stable. intros Hne. apply Hkey. exists (stripped_id j'). split.
      * apply Hrows. exists j. split; [done|]. apply (table_row j _ Hj). by exists j', port.
      * intros (k & Hk & Hink)%list_elem_of_fmap. assert (j' = k) as ->.
        { apply stripped_inj; [done|done|]. unfold stripped_id in *. by rewrite <- Hk, strip_idem. }
        by unfold stripped_id in Hk.
    + exfalso. apply Hmiss. exists port. split; [|done]. apply elem_of_concat. exists (requires j).
      split; [by apply list_elem_of_fmap_2|done].
Qed.

Lemma emitted_iff : supplied jobs -> exists result deg, emitted_jobs table = Ok (result, deg) /\
  (length result = length jobs <-> forall id, ~ tc (waits_for jobs) id id).
Proof.
  intros Hsup. assert (Hnd : NoDup (map fst table)) by (rewrite table_ids; apply ids_NoDup).
  destruct (run_kahn_spec table Hnd) as (result & deg & Hrun & Hl & Hc). exists result, deg.
  rewrite emitted_jobs_kahn. split; [done|]. destruct (least_first_NoDup _ _ _ Hl) as [Hrnd Hrin].
  rewrite table_ids in Hl, Hc, Hrin. split.
  - intros Hlen. assert (Hall : forall j, j ∈ jobs -> job_id j ∈ result).
    { assert (Hp : result ⊆+ map job_id jobs) by by apply NoDup_submseteq.
      apply submseteq_length_Permutation in Hp; [|rewrite length_map; lia].
      intros j Hj. rewrite Hp. by apply list_elem_of_fmap_2. }
    assert (Hresp : respects (waits_for jobs) result).
    { intros pre id post Heq d Hw. destruct (Hl pre id post Heq) as [(_ & _ & Hd) _]. apply Hd.
      pose proof Hw as (ja & _ & _ & Ha & _ & <- & _). by apply table_waits. }
    intros id Ht. assert (Hid : id ∈ result).
    { inversion Ht as [? ? Hw|? ? ? Hw _]; subst; destruct Hw as (ja & _ & _ & Ha & _ & <- & _); by apply Hall. }
    by apply (respects_acyclic (waits_for jobs) result id).
  - intros Hac. apply dec_stable. intros Hne.
    destruct (run_kahn_stuck table Hnd result) as (C & HC & Hstuck); try done.
    + intros d Hd. rewrite table_ids. apply supplied_iff in Hsup as [_ Hkey]. apply dec_stable. intros Hn. apply Hkey.
      apply Exists_exists. exists d. split; [done|]. change (table.*1) with (map fst table). by rewrite table_ids.
    + by rewrite table_ids.
    + by rewrite table_ids.
    + unfold table, dependency_table. by rewrite length_map.
    + apply set_choose_L in HC as [a Ha]. destruct (stuck_cycle (waits_for jobs) (elements C) a) as (x & _ & Hx).
      * by apply elem_of_elements.
      * intros x Hx%elem_of_elements. destruct (Hstuck x Hx) as (Hin & d & Hd & HdC). exists d.
        split; [by apply elem_of_elements|]. rewrite table_ids in Hin. apply list_elem_of_fmap in Hin as (j & -> & Hj).
        by apply table_waits.
      * by apply (Hac x).
Qed.
End accepted.

Lemma validate_cases module_ids jobs :
  match validate_artifact_job_graph module_ids jobs with
  | Ok jobs' => jobs' = jobs /\ acceptable module_ids jobs
  | Err e => (e = ValueError \/ e = KeyError) /\ ~ acceptable module_ids jobs
  end.
Proof.
  unfold validate_artifact_job_graph. set (allowed := filter _ _).
  pose proof (check_jobs_ok allowed jobs [] (∅, ∅)) as Hc. cbn [app] in Hc.
  destruct (res_fold (check_job allowed) (∅, ∅) jobs) as [acc|e]; cbn [res_bind].
  2: { destruct Hc as [-> Hn]; [split_and!; [constructor|constructor|by intros ??? ?%elem_of_nil]|split; [done|]|].
       - intros p i. cbn. rewrite lookup_empty. split; [done|]. by intros (? & ?%elem_of_nil & _).
       - split; [by left|]. by intros [Hw _ _]. }
  destruct Hc as [Hw Hi]; [split_and!; [constructor|constructor|by intros ??? ?%elem_of_nil]|split; [done|]|].
  { intros p i. cbn. rewrite lookup_empty. split; [done|]. by intros (? & ?%elem_of_nil & _). }
  pose proof (supplied_iff allowed jobs acc Hw Hi) as Hsup.
  destruct (decide (Exists _ (concat (map requires jobs)))) as [Hm|Hm]; [split; [by left|]; intros [_ Hs _]; tauto|].
  destruct (decide (Exists _ _)) as [Hk|Hk]; [split; [by right|]; intros [_ Hs _]; tauto|].
  destruct (emitted_iff allowed jobs acc Hw Hi) as (result & deg & -> & Hlen); [tauto|]. cbn [res_bind fst].
  destruct (decide (length result <> length jobs)) as [Hl|Hl].
  - split; [by left|]. intros [_ _ Ha]. tauto.
  - apply dec_stable in Hl. split; [done|]. split; [done|tauto|tauto].
Qed.
Lemma artifact_graph_accepted_iff module_ids jobs jobs' :
  validate_artifact_job_graph module_ids jobs = Ok jobs' -> acceptable module_ids jobs.
Proof. intros Hv. pose proof (validate_cases module_ids jobs) as Hc. rewrite Hv in Hc. apply Hc. Qed.

(** C12: A graph of artifact jobs is accepted, and then unchanged, exactly when each job is well
    formed (its names, its implementation, its owner, its ports and their kinds), the jobs have
    different names, no port has two producers, every required port has a producer among the
    jobs, whose name has no white space around it, and no job waits for itself, directly or
    through others.  It is refused with a [ValueError] or a [KeyError], never otherwise. *)
Theorem artifact_graph_accepted module_ids jobs :
  match validate_artifact_job_graph module_ids jobs with
  | Ok jobs' => jobs' = jobs /\ acceptable module_ids jobs
  | Err e => (e = ValueError \/ e = KeyError) /\ ~ acceptable module_ids jobs
  end.
Proof. apply validate_cases. Qed.
End graph.
