(* ===== verification/GraphExecutor.v ===== *)
(** * GraphExecutor: [artifact_graph_executor.py]

    The pipeline that generates the artifact jobs of a graph and validates what they return.
    A job is generated when the jobs it waits for are validated; the jobs that are ready wait
    in a heap, least position first, for one of the generation workers.  A future is named by
    its number; what its worker comes to, the clock, and what each [wait] returns are given by
    the environment.  What the workers do meanwhile (leases, ports) happens in between. *)

From stdpp Require Import prelude gmap sets fin_sets fin_map_dom strings list sorting.
From S2P Require Import Prelude Text Json PyJson Kahn WorkPlan RLocks ExecutionBudget ArtifactPorts ArtifactJob.

Open Scope Z_scope.
Open Scope py_scope.

Definition graph_error {A} (why : string) : res A := Err (ArtifactGraphError why).
Definition version_error {A} (why : string) : res A := Err (VersionContextError why).

(** ** Limits *)

Section limits.
Context `{PyUnicode}.

Definition _configured_positive_int (env : pystr -> option pystr) (name : pystr) (default : Z) : res Z :=
  match strip (from_option id [] (env name)) with
  | [] => Ok default
  | raw =>
      match int_of_str raw with
      | Ok value => if value <? 1 then graph_error "must be a positive integer" else Ok value
      | Err _ => graph_error "must be a positive integer"
      end
  end.

Definition active_llama_parallelism (env : pystr -> option pystr) : Z :=
  match int_of_str (strip (from_option id (u "1") (env (u "MMM_LLAMA_ACTIVE_PARALLEL")))) with
  | Ok slots => Z.max 1 slots
  | Err _ => 1
  end.

(** [cpus] is [os.cpu_count() or 2]. *)
Definition _parallelism (env : pystr -> option pystr) (cpus job_count : Z) : res Z :=
  let* configured := _configured_positive_int env (u "MMM_ARTIFACT_MAX_WORKERS") (Z.min 8 (Z.max 2 cpus)) in
  Ok (Z.min job_count configured).

(** [native] says that the router owns the local model. *)
Definition _generation_parallelism (env : pystr -> option pystr) (cpus : Z) (native : bool) (job_count : Z) : res Z :=
  let* workers := _parallelism env cpus job_count in
  Ok (Z.max 1 (if native then Z.min workers (active_llama_parallelism env) else workers)).

Definition _validation_parallelism (env : pystr -> option pystr) (job_count generation_workers : Z) : res Z :=
  let* configured := _configured_positive_int env (u "MMM_ARTIFACT_VALIDATION_WORKERS")
                       (Z.min 4 (Z.max 1 generation_workers)) in
  Ok (Z.min job_count configured).
End limits.

Section executor.
Context `{PyFloat, !PyRepr}.

(** ** The version context *)

(** A [ResolvedVersionContext], as far as it is used here. *)
Record ResolvedVersionContext : Type := Resolved { context_id : pystr; minecraft : pystr }.

(** [context["resolved_version_context"]]: nothing, [{}], an object, or what a dictionary is
    read as. *)
Inductive version_source : Type :=
  | NoContext | EmptyContext | Instance_ (c : ResolvedVersionContext) | Snapshot (read : res ResolvedVersionContext).

Definition assert_context (resolved : ResolvedVersionContext) (given : json) : res unit :=
  if is_text given (context_id resolved) then Ok tt else version_error "VERSION_CONTEXT_MISMATCH".

Definition execution_context (raw : version_source) (job : ArtifactJob) : res ResolvedVersionContext :=
  let* resolved := match raw with
                   | NoContext => version_error "VERSION_CONTEXT_REQUIRED"
                   | EmptyContext => version_error "INVALID_VERSION_CONTEXT"
                   | Instance_ c => Ok c
                   | Snapshot read => read
                   end in
  let* _ := assert_context resolved (JStr (job_context_id job)) in
  match get (deterministic_inputs job) (u "minecraft_version") with
  | JNull => Ok resolved
  | actual => if is_text actual (minecraft resolved) then Ok resolved else version_error "HOST_FACT_OVERRIDE"
  end.

(** [registry.bind_context(ResolvedVersionContext.from_dict(..).context_id)], if there is one;
    [from_dict] refuses an object. *)
Definition bind_registry (raw : version_source) (r : PortRegistry) : res PortRegistry :=
  match raw with
  | NoContext | EmptyContext => Ok r
  | Instance_ _ => version_error "INVALID_VERSION_CONTEXT"
  | Snapshot read => let* c := read in bind_context (context_id c) r
  end.

(** ** Producers *)

Definition index_port (id : pystr) (producers : gmap pystr pystr) (port : pystr) : res (gmap pystr pystr) :=
  match producers !! port with
  | Some prior => if decide (prior <> id) then graph_error "ARTIFACT_DUPLICATE_PRODUCER" else Ok (<[port := id]> producers)
  | None => Ok (<[port := id]> producers)
  end.

Definition _producer_index (jobs : list ArtifactJob) : res (gmap pystr pystr) :=
  res_fold (fun producers job => res_fold (index_port (job_id job)) producers (produces job)) ∅ jobs.

(** One output of a generator, with its port. *)
Definition java_port (spec : dict) (paths : list (pystr * pystr)) (port_output : pystr * pystr) : res (list (pystr * pystr)) :=
  if decide (port_output.2 = u "code_fragment") then
    match get spec (u "target_path") with
    | JStr path => if ends_with (u ".java") path then Ok (dict_set port_output.1 path paths)
                   else graph_error "ARTIFACT_JAVA_SOURCE_PATH_MISSING"
    | _ => graph_error "ARTIFACT_JAVA_SOURCE_PATH_MISSING"
    end
  else Ok paths.

Definition java_ports_of (load_template : pystr -> res manifest) (paths : list (pystr * pystr)) (job : ArtifactJob)
    : res (list (pystr * pystr)) :=
  if decide (executor_type job <> PYTHON_GENERATOR \/ canonical_leaf job = [] \/ produces job = []) then Ok paths
  else
    match get (deterministic_inputs job) (u "_canonical_inputs") with
    | JObj inputs =>
        let* m := load_template (canonical_leaf job) in
        if decide (length (produces job) <> length (manifest_outputs m))
        then graph_error "ARTIFACT_GENERATOR_OUTPUT_PORT_ARITY"
        else
          match List.find (fun p => bool_decide (p.2 = u "specification")) (manifest_inputs m) with
          | None => Ok paths
          | Some port =>
              match dict_get port.1 inputs with
              | Some (JObj spec) =>
                  if is_text (get spec (u "language")) (u "java")
                  then res_fold (java_port spec) paths (zip (produces job) (manifest_outputs m))
                  else Ok paths
              | _ => Ok paths
              end
          end
    | _ => Ok paths
    end.

Definition _declared_java_source_ports (load_template : pystr -> res manifest) (jobs : list ArtifactJob)
    : res (list (pystr * pystr)) := res_fold (java_ports_of load_template) [] jobs.

(** ** Validation of one job *)

Record validation_context : Type := ValidationContext {
  version : version_source; base_dir : option pystr; artifact_validator : option (ArtifactJob -> dict -> res json)
}.

(** The test of [_validate_completed_job] on the path of the file. *)
Definition output_exists (base : option pystr) (file_exists : pystr -> bool) (path : pystr) : bool :=
  if starts_with [47] path then file_exists path
  else
    match base with
    | None => file_exists path
    | Some b =>
        let candidate := b ++ 47 :: path in
        if file_exists candidate || negb (file_exists path) then file_exists candidate else file_exists path
    end.

Definition check_materialization (c : validation_context) (file_exists : pystr -> bool) (receipt : dict) : res unit :=
  match get receipt (u "materialization") with
  | JObj m =>
      let raw_path := get m (u "path") in
      if truthy raw_path then
        let* path := py_str raw_path in
        if output_exists (base_dir c) file_exists path then Ok tt else graph_error "ARTIFACT_OUTPUT_MISSING"
      else Ok tt
  | _ => Ok tt
  end.

Definition check_validator (c : validation_context) (job : ArtifactJob) (receipt : dict) : res unit :=
  match artifact_validator c with
  | None => Ok tt
  | Some validator =>
      let* validation := validator job receipt in
      match validation with
      | JBool false => graph_error "ARTIFACT_VALIDATION_FAILED"
      | JObj d =>
          match get d (u "status") with
          | JNull => Ok tt
          | JStr s => if decide (s = u "PASS") then Ok tt else graph_error "ARTIFACT_VALIDATION_FAILED"
          | JArr _ | JObj _ => Err TypeError
          | _ => graph_error "ARTIFACT_VALIDATION_FAILED"
          end
      | _ => Ok tt
      end
  end.

Definition _validate_completed_job (c : validation_context) (registry : PortRegistry) (file_exists : pystr -> bool)
    (job : ArtifactJob) (receipt : dict) : res unit :=
  let* resolved := execution_context (version c) job in
  let* _ := assert_context resolved (get receipt (u "context_id")) in
  if negb (is_text (get receipt (u "status")) (u "PASS")) then graph_error "ARTIFACT_JOB_FAILED"
  else if decide (Exists (fun name => has name registry = false) (produces job))
  then graph_error "ARTIFACT_OUTPUT_PORT_MISSING"
  else
    let* _ := check_materialization c file_exists receipt in
    check_validator c job receipt.

(** ** The pipeline *)

Record generation : Type := Generating { gen_future : nat; gen_job : ArtifactJob; gen_lease : nat }.
Record validation : Type := Validating { val_future : nat; val_job : ArtifactJob; val_receipt : dict; val_lease : nat }.

(** What the pipeline has done, in order. *)
Inductive pipeline_event : Type :=
  | Starts_ (id : pystr) (future running : nat)   (* submitted for generation, that many being generated then *)
  | Accepts (id : pystr).                         (* validated *)

Record pipeline : Type := Pipeline {
  ready_heap : list (nat * pystr); pending_ids : gset pystr; indegree : gmap pystr Z;
  generation_futures : list generation; validation_futures : list validation;
  results : gmap pystr dict; validated_jobs : gset pystr;
  next_future : nat; leases : list ModelExecutionBudget;
  generated : gmap nat (res dict); checked : gmap nat (res unit);   (* the results of the futures *)
  registry : PortRegistry; log : list pipeline_event
}.

(** What a worker does. *)
Inductive worker_event : Type :=
  | LeaseStarts (lease : nat)                        (* [bind_model_execution_deadline] *)
  | LeaseRenews (lease : nat) (now window : Z)       (* [refresh_model_execution_deadline] *)
  | PortPublished (lease : nat) (p : TypedPort)
  | Generates (future : nat) (outcome : res dict)    (* [_execute_one] comes to an end *)
  | Validates (future : nat) (file_exists : pystr -> bool).

(** One [wait]: what happens meanwhile, the futures it returns, in the order in which the set is
    read, and the time. *)
Record awaited : Type := Awaited { happens : list worker_event; returned : list nat; woke_at : Z }.

Record graph : Type := GraphOf {
  ordered_jobs : list ArtifactJob; producers : gmap pystr pystr; limits : nat; timeout : Z; clock : nat -> Z;
  lease : option nat; validation_of : validation_context
}.

Variable g : graph.

Definition order (id : pystr) : nat := from_option fst 0%nat (list_find (fun j => job_id j = id) (ordered_jobs g)).
Definition by_id (id : pystr) : option ArtifactJob := snd <$> list_find (fun j => job_id j = id) (ordered_jobs g).

Definition dependencies : list (pystr * list pystr) := dependency_table (producers g) (ordered_jobs g).

Definition before (a b : pystr) : Prop := (order a <= order b)%nat.

#[export] Instance before_dec : RelDecision before.
Proof. intros a b. unfold before. apply _. Defined.

Definition dependents (id : pystr) : list pystr := merge_sort before (outgoing_table dependencies id).

Definition new_pipeline (bs : list ModelExecutionBudget) (r : PortRegistry) : pipeline :=
  let indegree : gmap pystr Z := dict_of (map (fun row => (row.1, Z.of_nat (length row.2))) dependencies) in
  Pipeline
    (map (fun id => (order id, id)) (filter (fun id => indegree !! id = Some 0) (map job_id (ordered_jobs g))))
    (list_to_set (map job_id (ordered_jobs g))) indegree [] [] ∅ ∅ 0 bs ∅ ∅ r [].

(** *** Submission *)

Definition heap_le (a b : nat * pystr) : Prop := (a.1 <= b.1)%nat.

#[export] Instance heap_le_dec : RelDecision heap_le.
Proof. intros a b. unfold heap_le. apply _. Defined.

(** A lease for a unit of work that starts now. *)
Definition new_lease (s : pipeline) : list ModelExecutionBudget :=
  leases s ++ [Budget (clock g (next_future s) + timeout g) (lease g) false].

Definition start_generation (job : ArtifactJob) (heap : list (nat * pystr)) (s : pipeline) : pipeline :=
  Pipeline heap (pending_ids s ∖ {[job_id job]}) (indegree s)
    (generation_futures s ++ [Generating (next_future s) job (length (leases s))]) (validation_futures s)
    (results s) (validated_jobs s) (S (next_future s)) (new_lease s) (generated s) (checked s) (registry s)
    (log s ++ [Starts_ (job_id job) (next_future s) (length (generation_futures s))]).

Definition set_heap (heap : list (nat * pystr)) (s : pipeline) : pipeline :=
  Pipeline heap (pending_ids s) (indegree s) (generation_futures s) (validation_futures s) (results s)
    (validated_jobs s) (next_future s) (leases s) (generated s) (checked s) (registry s) (log s).

(** [while slots > 0 and ready_heap: ..] *)
Fixpoint fill_slots (fuel slots : nat) (s : pipeline) : pipeline :=
  match fuel, slots, merge_sort heap_le (ready_heap s) with
  | S fuel, S slots', (_, id) :: heap =>
      match by_id id with
      | Some job =>
          if decide (id ∈ pending_ids s) then fill_slots fuel slots' (start_generation job heap s)
          else fill_slots fuel slots (set_heap heap s)
      | None => fill_slots fuel slots (set_heap heap s)
      end
  | _, _, _ => s
  end.

Definition submit_ready (s : pipeline) : pipeline :=
  fill_slots (length (ready_heap s)) (limits g - length (generation_futures s)) s.

(** *** Workers *)

Definition set_leases (bs : list ModelExecutionBudget) (s : pipeline) : pipeline :=
  Pipeline (ready_heap s) (pending_ids s) (indegree s) (generation_futures s) (validation_futures s) (results s)
    (validated_jobs s) (next_future s) bs (generated s) (checked s) (registry s) (log s).

Definition set_answers (gs : gmap nat (res dict)) (cs : gmap nat (res unit)) (s : pipeline) : pipeline :=
  Pipeline (ready_heap s) (pending_ids s) (indegree s) (generation_futures s) (validation_futures s) (results s)
    (validated_jobs s) (next_future s) (leases s) gs cs (registry s) (log s).

Definition set_registry (r : PortRegistry) (s : pipeline) : pipeline :=
  Pipeline (ready_heap s) (pending_ids s) (indegree s) (generation_futures s) (validation_futures s) (results s)
    (validated_jobs s) (next_future s) (leases s) (generated s) (checked s) r (log s).

(** A worker's thread starts in an empty context, so its lease is bound under no other: the lease
    of the caller limits it only as its parent ([new_lease]). *)
Definition worker_step (s : pipeline) (e : worker_event) : pipeline :=
  match e with
  | LeaseStarts b => set_leases (bind_deadline (leases s) None b) s
  | LeaseRenews b now window =>
      match refresh_model_execution_deadline now window (leases s) (Some b) with
      | Ok (_, bs) => set_leases bs s
      | Err _ => s
      end
  | PortPublished b p =>
      match publish (leases s) (leases s) (Some b) p (registry s) with
      | Ok r => set_registry r s
      | Err _ => s
      end
  | Generates f outcome =>
      if decide (f ∈ map gen_future (generation_futures s) /\ generated s !! f = None)
      then set_answers (<[f := outcome]> (generated s)) (checked s) s else s
  | Validates f file_exists =>
      match List.find (fun t => bool_decide (val_future t = f)) (validation_futures s), checked s !! f with
      | Some t, None =>
          let verdict :=
            let* _ := raise_if_model_execution_cancelled (leases s) (Some (val_lease t)) in
            _validate_completed_job (validation_of g) (registry s) file_exists (val_job t) (val_receipt t) in
          set_answers (generated s) (<[f := verdict]> (checked s)) s
      | _, _ => s
      end
  end.

(** *** Completions *)

Definition is_done (s : pipeline) (f : nat) : Prop :=
  (f ∈ map gen_future (generation_futures s) /\ is_Some (generated s !! f)) \/
  (f ∈ map val_future (validation_futures s) /\ is_Some (checked s !! f)).

#[export] Instance is_done_dec s f : Decision (is_done s f).
Proof. unfold is_done. apply _. Defined.

Definition find_generation (f : nat) (s : pipeline) : option generation :=
  List.find (fun t => bool_decide (gen_future t = f)) (generation_futures s).

Definition find_validation (f : nat) (s : pipeline) : option validation :=
  List.find (fun t => bool_decide (val_future t = f)) (validation_futures s).

Definition pop_generation (f : nat) (s : pipeline) : pipeline :=
  Pipeline (ready_heap s) (pending_ids s) (indegree s) (filter (fun t => gen_future t <> f) (generation_futures s))
    (validation_futures s) (results s) (validated_jobs s) (next_future s) (leases s) (generated s) (checked s)
    (registry s) (log s).

Definition pop_validation (f : nat) (s : pipeline) : pipeline :=
  Pipeline (ready_heap s) (pending_ids s) (indegree s) (generation_futures s)
    (filter (fun t => val_future t <> f) (validation_futures s)) (results s) (validated_jobs s) (next_future s)
    (leases s) (generated s) (checked s) (registry s) (log s).

Definition start_validation (job : ArtifactJob) (receipt : dict) (s : pipeline) : pipeline :=
  Pipeline (ready_heap s) (pending_ids s) (indegree s) (generation_futures s)
    (validation_futures s ++ [Validating (next_future s) job receipt (length (leases s))]) (results s)
    (validated_jobs s) (S (next_future s)) (new_lease s) (generated s) (checked s) (registry s) (log s).

Definition accept (job : ArtifactJob) (receipt : dict) (s : pipeline) : pipeline :=
  Pipeline (ready_heap s) (pending_ids s) (indegree s) (generation_futures s) (validation_futures s)
    (<[job_id job := receipt]> (results s)) ({[job_id job]} ∪ validated_jobs s) (next_future s) (leases s)
    (generated s) (checked s) (registry s) (log s ++ [Accepts (job_id job)]).

(** [for future in done: ..], with the jobs that were validated. *)
Fixpoint take_results (done : list nat) (newly_validated : list pystr) (s : pipeline)
    : res (list pystr) * pipeline :=
  match done with
  | [] => (Ok newly_validated, s)
  | f :: done =>
      match find_generation f s with
      | Some t =>
          let s := pop_generation f s in
          match generated s !! f with
          | Some (Ok receipt) => take_results done newly_validated (start_validation (gen_job t) receipt s)
          | Some (Err e) => (Err e, s)
          | None => (Err TimeoutError, s)
          end
      | None =>
          match find_validation f s with
          | Some t =>
              let s := pop_validation f s in
              match checked s !! f with
              | Some (Ok _) =>
                  take_results done (newly_validated ++ [job_id (val_job t)]) (accept (val_job t) (val_receipt t) s)
              | Some (Err e) => (Err e, s)
              | None => (Err TimeoutError, s)
              end
          | None => (Err KeyError, s)
          end
      end
  end.

(** [for dependent_id in dependents[producer_id]: ..] *)
Definition release_one (acc : gmap pystr Z * list (nat * pystr)) (d : pystr)
    : res (gmap pystr Z * list (nat * pystr)) :=
  let '(indegree, heap) := acc in
  let v := default 0 (indegree !! d) - 1 in
  if v <? 0 then graph_error "ARTIFACT_GRAPH_INDEGREE_CORRUPT"
  else Ok (<[d := v]> indegree, if v =? 0 then heap ++ [(order d, d)] else heap).

Definition release_dependents (newly_validated : list pystr) (acc : gmap pystr Z * list (nat * pystr))
    : res (gmap pystr Z * list (nat * pystr)) :=
  res_fold (fun acc id => res_fold release_one acc (dependents id)) acc (merge_sort before newly_validated).

Definition set_ready (indegree : gmap pystr Z) (heap : list (nat * pystr)) (s : pipeline) : pipeline :=
  Pipeline heap (pending_ids s) indegree (generation_futures s) (validation_futures s) (results s)
    (validated_jobs s) (next_future s) (leases s) (generated s) (checked s) (registry s) (log s).

(** *** The loop *)

Definition active_leases (s : pipeline) : list nat :=
  map gen_lease (generation_futures s) ++ map val_lease (validation_futures s).

Definition past_deadline (now : Z) (s : pipeline) (b : nat) : bool :=
  match leases s !! b with Some x => deadline x <=? now | None => false end.

Definition expired (now : Z) (s : pipeline) : list nat := List.filter (past_deadline now s) (active_leases s).

(** The futures that [wait] returns: those that are done, in some order. *)
Definition done_of (w : awaited) (s : pipeline) : list nat := filter (is_done s) (from_keys (returned w)).

Inductive ending : Type :=
  | Finished
  | Deadlocked             (* [ARTIFACT_GRAPH_DEADLOCK] *)
  | TimedOut               (* [ARTIFACT_GRAPH_WORK_TIMEOUT] *)
  | Corrupt                (* [ARTIFACT_GRAPH_INDEGREE_CORRUPT] *)
  | JobFailed (e : exn)    (* [future.result] raises *)
  | Waiting.               (* in [wait] *)

Definition cancel_leases (bs : list nat) (s : pipeline) : pipeline :=
  set_leases (fold_left (fun ls b => set_cancelled b ls) bs (leases s)) s.

(** One turn of the loop after [wait]; [None] is an iteration that ends normally. *)
Definition after_wait (w : awaited) (s : pipeline) : option ending * pipeline :=
  match done_of w s with
  | [] =>
      match expired (woke_at w) s with
      | [] => (None, s)
      | late => (Some TimedOut, cancel_leases late s)
      end
  | done =>
      match take_results done [] s with
      | (Err e, s) => (Some (JobFailed e), s)
      | (Ok newly_validated, s) =>
          match release_dependents newly_validated (indegree s, ready_heap s) with
          | Err _ => (Some Corrupt, s)
          | Ok (indegree, heap) => (None, submit_ready (set_ready indegree heap s))
          end
      end
  end.

Fixpoint run_pipeline (waits : list awaited) (s : pipeline) : ending * pipeline :=
  match generation_futures s, validation_futures s with
  | [], [] =>
      if decide (pending_ids s = ∅) then (Finished, s)
      else (Deadlocked, s)
  | _, _ =>
      match waits with
      | [] => (Waiting, s)
      | w :: waits =>
          match after_wait w (fold_left worker_step (happens w) s) with
          | (Some e, s) => (e, s)
          | (None, s) => run_pipeline waits s
          end
      end
  end.

(** [finally: ..] *)
Definition teardown (s : pipeline) : pipeline :=
  let s := cancel_leases (active_leases s) s in
  Pipeline (ready_heap s) (pending_ids s) (indegree s) [] [] (results s) (validated_jobs s) (next_future s) (leases s)
    (generated s) (checked s) (registry s) (log s).

End executor.

(** ** The whole call *)

Section call.
Context `{PyFloat, !PyRepr, PyUnicode}.

Record graph_result : Type := GraphResult {
  completed_jobs : list pystr; receipts : list dict; result_ports : list (pystr * dict)
}.

Inductive graph_outcome : Type := Returns (r : graph_result) | Raises (e : exn) | StillWaiting.

(** What the call is given besides the jobs: the context, the directory, the templates, the
    environment variables and the machine, the time, and the wiring of the Java entrypoints. *)
Record surroundings : Type := Surroundings {
  context : validation_context; load_template : pystr -> res manifest; environ : pystr -> option pystr; cpus : Z;
  owns_native_model : bool; work_timeout : Z; now_at : nat -> Z; caller_lease : option nat;
  wire_java_startup : list ArtifactJob -> list dict -> res unit
}.

(** The single job of a graph: what it publishes and returns, and the files when it is validated. *)
Record single_run : Type := SingleRun { published : list port_call; single_outcome : res dict; files : pystr -> bool }.

Definition ports_of (r : PortRegistry) : list (pystr * dict) := map (fun np => (np.1, port_to_dict np.2)) (ports r).

Definition finish (s : surroundings) (jobs : list ArtifactJob) (rs : list dict) (r : PortRegistry) : graph_outcome :=
  match wire_java_startup s jobs rs with
  | Err e => Raises e
  | Ok _ => Returns (GraphResult (map job_id jobs) rs (ports_of r))
  end.

Definition missing_ports (producers : gmap pystr pystr) (r : PortRegistry) (job : ArtifactJob) : list pystr :=
  filter (fun name => producers !! name = None /\ has name r = false) (requires job).

(** What is checked before anything runs: the registry and the producers. *)
Definition admit_graph (s : surroundings) (jobs : list ArtifactJob) (r : PortRegistry)
    : res (PortRegistry * gmap pystr pystr) :=
  let* _ := res_map_list (execution_context (version (context s))) jobs in
  if decide (~ NoDup (map job_id jobs)) then graph_error "ARTIFACT_DUPLICATE_JOB_ID"
  else
    let* r := bind_registry (version (context s)) r in
    match jobs with
    | [] => Ok (r, ∅)
    | _ =>
        let* producers := _producer_index jobs in
        let* _ := _declared_java_source_ports (load_template s) jobs in
        if decide (Exists (fun job => missing_ports producers r job <> []) jobs)
        then graph_error "ARTIFACT_GRAPH_MISSING_PRODUCER"
        else Ok (r, producers)
    end.

Definition run_single (s : surroundings) (job : ArtifactJob) (run : single_run) (r : PortRegistry) : graph_outcome :=
  let r := after_calls (published run) r in
  match single_outcome run with
  | Err e => Raises e
  | Ok receipt =>
      match _validate_completed_job (context s) r (files run) job receipt with
      | Err e => Raises e
      | Ok _ => finish s [job] [receipt] r
      end
  end.

(** [receipts = [results[job.job_id] for job in ordered_jobs]] *)
Definition collect (jobs : list ArtifactJob) (results : gmap pystr dict) : res (list dict) :=
  res_map_list (fun job => match results !! job_id job with Some r => Ok r | None => Err KeyError end) jobs.

Definition run_graph (s : surroundings) (jobs : list ArtifactJob) (producers : gmap pystr pystr) (workers : nat)
    (bs : list ModelExecutionBudget) (r : PortRegistry) (waits : list awaited) : graph_outcome * pipeline :=
  let g := GraphOf jobs producers workers (work_timeout s) (now_at s) (caller_lease s) (context s) in
  let '(e, p) := run_pipeline g waits (submit_ready g (new_pipeline g bs r)) in
  match e with
  | Waiting => (StillWaiting, p)
  | Deadlocked => (Raises (ArtifactGraphError "ARTIFACT_GRAPH_DEADLOCK"), teardown p)
  | TimedOut => (Raises (ArtifactGraphError "ARTIFACT_GRAPH_WORK_TIMEOUT"), teardown p)
  | Corrupt => (Raises (ArtifactGraphError "ARTIFACT_GRAPH_INDEGREE_CORRUPT"), teardown p)
  | JobFailed e => (Raises e, teardown p)
  | Finished =>
      match collect jobs (results p) with
      | Ok rs => (finish s jobs rs (registry p), teardown p)
      | Err e => (Raises e, teardown p)
      end
  end.

Definition no_pipeline (bs : list ModelExecutionBudget) (r : PortRegistry) : pipeline :=
  Pipeline [] ∅ ∅ [] [] ∅ ∅ 0 bs ∅ ∅ r [].

Definition execute_artifact_graph (s : surroundings) (jobs : list ArtifactJob) (bs : list ModelExecutionBudget)
    (r : PortRegistry) (single : single_run) (waits : list awaited) : graph_outcome * pipeline :=
  match admit_graph s jobs r with
  | Err e => (Raises e, no_pipeline bs r)
  | Ok (r, producers) =>
      match jobs with
      | [] => (Returns (GraphResult [] [] (ports_of r)), no_pipeline bs r)
      | [job] => (run_single s job single r, no_pipeline bs r)
      | _ =>
          let n := Z.of_nat (length jobs) in
          match _generation_parallelism (environ s) (cpus s) (owns_native_model s) n with
          | Err e => (Raises e, no_pipeline bs r)
          | Ok workers =>
              match _validation_parallelism (environ s) n workers with
              | Err e => (Raises e, no_pipeline bs r)
              | Ok _ => run_graph s jobs producers (Z.to_nat workers) bs r waits
              end
          end
      end
  end.
End call.
