(* ===== verification/GraphPipeline.v ===== *)
(** * GraphPipeline: the invariant of the pipeline of artifact jobs

    Whatever the workers and the waits do, the jobs are divided between the heap, the two
    kinds of futures and those that are validated, the counts are those of the dependencies
    that are left, and the log is in order; the loop is only left in the ways of [loop_ends]. *)

From stdpp Require Import prelude gmap sets fin_sets fin_map_dom strings list sorting relations.
From S2P Require Import Prelude Text Json PyJson Kahn Tables Ledger Backend WorkPlan Topological.
From S2P Require Import RLocks ExecutionBudget ArtifactPorts.
From S2P Require Import ArtifactJob JobGraph GraphExecutor.

Open Scope Z_scope.
Open Scope py_scope.

Section pipeline.
Context `{PyFloat, !PyRepr}.
Variable g : graph.

Definition nodes : list pystr := map job_id (ordered_jobs g).
Definition deps : pystr -> list pystr := deps_of (dependencies g).

(** What [execute_artifact_graph] has checked. *)
Hypothesis nodes_NoDup : NoDup nodes.
Hypothesis producers_known : forall port id, producers g !! port = Some id -> id ∈ nodes.

Implicit Types (s : pipeline) (D : gset pystr).

Definition gen_ids s : list pystr := map (fun t => job_id (gen_job t)) (generation_futures s).
Definition val_ids s : list pystr := map (fun t => job_id (val_job t)) (validation_futures s).
Definition heap_ids s : list pystr := map snd (ready_heap s).

(** ** The log *)

Definition started (l : list pipeline_event) : list pystr :=
  omap (fun e => match e with Starts_ id _ _ => Some id | Accepts _ => None end) l.

Definition accepted (l : list pipeline_event) : list pystr :=
  omap (fun e => match e with Starts_ _ _ _ => None | Accepts id => Some id end) l.

Definition event_ok (past : list pipeline_event) (e : pipeline_event) : Prop :=
  match e with
  | Starts_ id _ running =>
      id ∈ nodes /\ id ∉ started past /\ (forall d, d ∈ deps id -> d ∈ accepted past) /\ (running < limits g)%nat
  | Accepts id => id ∈ started past /\ id ∉ accepted past
  end.

Definition orderly (l : list pipeline_event) : Prop := forall past e future, l = past ++ e :: future -> event_ok past e.

Lemma orderly_snoc l e : orderly l -> event_ok l e -> orderly (l ++ [e]).
Proof.
  intros Hl He past x future Hx. destruct future as [|y future] using rev_ind.
  - apply app_inj_tail in Hx as [<- <-]. done.
  - rewrite app_comm_cons, app_assoc in Hx. apply app_inj_tail in Hx as [-> _]. by eapply Hl.
Qed.

Lemma started_app l1 l2 : started (l1 ++ l2) = started l1 ++ started l2.
Proof. apply omap_app. Qed.

Lemma accepted_app l1 l2 : accepted (l1 ++ l2) = accepted l1 ++ accepted l2.
Proof. apply omap_app. Qed.

(** ** The invariant *)

(** [D] are the jobs whose dependents have been counted down, [newly] those validated since. *)
Record ordering D (newly : list pystr) s : Prop := Ordering {
  ord_counts : counts nodes deps D (indegree s);
  ord_queue : queue nodes deps D (heap_ids s ++ gen_ids s ++ val_ids s ++ newly);
  ord_validated : validated_jobs s = D ∪ list_to_set newly;
  ord_pending : forall id, id ∈ pending_ids s <-> id ∈ nodes /\ id ∉ gen_ids s ++ val_ids s /\ id ∉ validated_jobs s
}.

Definition approved (job : ArtifactJob) (receipt : dict) : Prop :=
  exists r file_exists, _validate_completed_job (validation_of g) r file_exists job receipt = Ok tt.

(** The job was generated, by a worker that returned the receipt. *)
Definition originates s (id : pystr) (receipt : dict) : Prop :=
  exists f running, Starts_ id f running ∈ log s /\ generated s !! f = Some (Ok receipt).

Record tasks s : Prop := Tasks {
  task_gens : forall t, t ∈ generation_futures s ->
    gen_job t ∈ ordered_jobs g /\ exists running, Starts_ (job_id (gen_job t)) (gen_future t) running ∈ log s;
  task_vals : forall t, t ∈ validation_futures s ->
    val_job t ∈ ordered_jobs g /\ originates s (job_id (val_job t)) (val_receipt t) /\
    (checked s !! val_future t = Some (Ok tt) -> approved (val_job t) (val_receipt t));
  task_results : forall id, id ∈ validated_jobs s -> exists job receipt,
    job ∈ ordered_jobs g /\ job_id job = id /\ results s !! id = Some receipt /\ approved job receipt /\
    originates s id receipt;
  task_futures : NoDup (map gen_future (generation_futures s) ++ map val_future (validation_futures s)) /\
    forall f, f ∈ map gen_future (generation_futures s) ++ map val_future (validation_futures s) \/
              is_Some (generated s !! f) \/ is_Some (checked s !! f) -> (f < next_future s)%nat;
  task_size : (length (generation_futures s) <= limits g)%nat
}.

(** What also holds when the loop is left. *)
Record settled s : Prop := Settled {
  set_log : orderly (log s);
  set_leases_ : forall b, b ∈ active_leases s -> (b < length (leases s))%nat
}.

Record chronicle s : Prop := Chronicle {
  chr_started : forall id, id ∈ started (log s) <-> id ∈ gen_ids s ++ val_ids s \/ id ∈ validated_jobs s;
  chr_accepted : forall id, id ∈ accepted (log s) <-> id ∈ validated_jobs s
}.

Record flow D newly s : Prop := Flow {
  flow_ordering : ordering D newly s; flow_tasks : tasks s; flow_settled : settled s; flow_chronicle : chronicle s
}.

(** What is left to do: a job is generated, then validated. *)
Definition work_left s : nat :=
  2 * size (pending_ids s) + 2 * length (generation_futures s) + length (validation_futures s).

(** ** Generic lemmas *)

Lemma ready_perm D r r' : r ≡ₚ r' -> queue nodes deps D r -> queue nodes deps D r'.
Proof. intros Hp (Hn & Hq & HD). split_and!; [by rewrite <- Hp| |done]. intros n. by rewrite <- Hp. Qed.

Lemma find_by_id id : id ∈ nodes -> exists job, by_id g id = Some job /\ job ∈ ordered_jobs g /\ job_id job = id.
Proof.
  intros (job & -> & Hj)%list_elem_of_fmap. unfold by_id.
  destruct (list_find_elem_of (fun j => job_id j = job_id job) (ordered_jobs g) job Hj eq_refl) as [[i x] Hf].
  rewrite Hf. apply list_find_Some in Hf as (Hx & Heq & _). exists x. split_and!; [done|by eapply list_elem_of_lookup_2|done].
Qed.

Lemma dependencies_ids : map fst (dependencies g) = nodes.
Proof. unfold dependencies, dependency_table, nodes. by rewrite map_map. Qed.

Lemma deps_row job : job ∈ ordered_jobs g ->
  deps (job_id job) = from_keys (omap (fun port => producers g !! port) (requires job)).
Proof.
  intros Hj. assert (Hrow : (job_id job, from_keys (omap (fun port => producers g !! port) (requires job))) ∈ dependencies g).
  { apply list_elem_of_fmap. by exists job. }
  pose proof (deps_of_in (dependencies g) ltac:(rewrite dependencies_ids; apply nodes_NoDup) _ Hrow) as Hd.
  by cbn [fst snd] in Hd.
Qed.

Lemma deps_are_nodes id d : id ∈ nodes -> d ∈ deps id -> d ∈ nodes.
Proof.
  intros (job & -> & Hj)%list_elem_of_fmap. rewrite (deps_row job Hj), elem_of_from_keys, list_elem_of_omap.
  intros (port & _ & Hp). by eapply producers_known.
Qed.

Lemma dependents_perm id : dependents g id ≡ₚ outgoing_of nodes deps id.
Proof.
  unfold dependents. rewrite merge_sort_Permutation, outgoing_table_spec, dependencies_ids; [done|].
  rewrite dependencies_ids. apply nodes_NoDup.
Qed.

Lemma heap_head s o id heap : merge_sort heap_le (ready_heap s) = (o, id) :: heap -> heap_ids s ≡ₚ id :: map snd heap.
Proof.
  intros Hm. unfold heap_ids. rewrite <- (merge_sort_Permutation heap_le (ready_heap s)) at 1. by rewrite Hm.
Qed.

(** ** Submission *)

Lemma heap_pending D s id : ordering D [] s -> id ∈ heap_ids s -> id ∈ nodes /\ id ∈ pending_ids s /\ forall d, d ∈ deps id -> d ∈ D.
Proof.
  intros [_ (Hn & Hq & _) Hv Hp] Hid. assert (Hin : id ∈ heap_ids s ++ gen_ids s ++ val_ids s ++ []) by (apply elem_of_app; by left).
  apply Hq in Hin as (Hnode & HD & Hr). pose proof (proj1 (remaining_zero deps D id) Hr) as Hd. split_and!; [done| |done].
  apply Hp. split_and!; [done| |].
  - rewrite app_nil_r in Hn. apply NoDup_app in Hn as (_ & Hn & _). by apply Hn.
  - rewrite Hv. cbn. set_solver.
Qed.

Lemma start_ordering D s job o heap :
  ordering D [] s -> merge_sort heap_le (ready_heap s) = (o, job_id job) :: heap ->
  ordering D [] (start_generation g job heap s).
Proof.
  intros Ho Hm. pose proof (heap_head s _ _ _ Hm) as Hh.
  assert (Hid : job_id job ∈ heap_ids s) by (rewrite Hh; left).
  destruct (heap_pending D s _ Ho Hid) as (Hnode & Hpend & _). destruct Ho as [Hc Hq Hv Hp]. split; cbn [indegree pending_ids validated_jobs].
  - done.
  - eapply ready_perm; [|exact Hq]. unfold heap_ids, gen_ids, val_ids, start_generation. cbn [ready_heap generation_futures validation_futures].
    fold (heap_ids s). rewrite Hh, map_app. cbn [map gen_job]. rewrite <- !app_assoc. cbn [app]. solve_Permutation.
  - done.
  - intros id. unfold gen_ids, val_ids, start_generation. cbn [generation_futures validation_futures pending_ids validated_jobs].
    rewrite elem_of_difference, Hp, map_app, elem_of_singleton. unfold gen_ids, val_ids.
    cbn [map gen_job]. rewrite !elem_of_app, list_elem_of_singleton. tauto.
Qed.

Lemma originates_mono s s' id receipt :
  (forall e, e ∈ log s -> e ∈ log s') -> (forall f r, generated s !! f = Some r -> generated s' !! f = Some r) ->
  originates s id receipt -> originates s' id receipt.
Proof. intros Hl Hg (f & k & Hs & Hr). exists f, k. split; [by apply Hl|by apply Hg]. Qed.

Lemma new_lease_bound s b : (b < length (leases s))%nat -> (b < length (new_lease g s))%nat.
Proof. unfold new_lease. rewrite length_app. lia. Qed.

Lemma start_tasks s job heap :
  job ∈ ordered_jobs g -> (length (generation_futures s) < limits g)%nat -> tasks s ->
  tasks (start_generation g job heap s).
Proof.
  intros Hj Hlt [Hg Hv Hr [Hn Hf] _].
  assert (Hlog : forall e, e ∈ log s -> e ∈ log (start_generation g job heap s)).
  { intros e He. apply elem_of_app. by left. }
  split; cbn [start_generation generation_futures validation_futures validated_jobs results generated checked next_future log].
  - intros t [Ht| ->%list_elem_of_singleton]%elem_of_app; cbn [gen_job gen_future].
    + destruct (Hg t Ht) as [? [k Hk]]. split; [done|]. exists k. by apply Hlog.
    + split; [done|]. eexists. apply elem_of_app. right. left.
  - intros t Ht. destruct (Hv t Ht) as (? & Ho & ?). split_and!; [done|by eapply originates_mono|done].
  - intros id Hid. destruct (Hr id Hid) as (x & r & ? & ? & ? & ? & Ho). exists x, r.
    split_and!; [done..|by eapply originates_mono].
  - rewrite map_app. cbn [map gen_future]. split.
    + assert (Hp : forall l k, (l ++ [next_future s]) ++ k ≡ₚ next_future s :: l ++ k) by (intros l k; solve_Permutation).
      rewrite Hp. constructor; [|done]. intros Hin. specialize (Hf _ (or_introl Hin)). lia.
    + intros f. rewrite !elem_of_app, list_elem_of_singleton. intros Hx.
      assert (f = next_future s \/ (f < next_future s)%nat) as [->|]; [|lia|lia].
      destruct Hx as [[[?|?]|?]|?]; [right|by left|right|right]; apply Hf; rewrite ?elem_of_app; tauto.
  - rewrite length_app. cbn [length]. lia.
Qed.

Lemma start_settled s job heap :
  settled s -> event_ok (log s) (Starts_ (job_id job) (next_future s) (length (generation_futures s))) ->
  settled (start_generation g job heap s).
Proof.
  intros [Hl Hb] He. split; cbn [start_generation log leases].
  - by apply orderly_snoc.
  - intros b. unfold active_leases, start_generation. cbn [generation_futures validation_futures]. rewrite map_app. cbn [map gen_lease].
    rewrite !elem_of_app, list_elem_of_singleton. intros [[Hin| ->]|Hin].
    + apply new_lease_bound, Hb. apply elem_of_app. by left.
    + unfold start_generation, new_lease. cbn. rewrite length_app. cbn. lia.
    + apply new_lease_bound, Hb. apply elem_of_app. by right.
Qed.

Lemma start_chronicle s job heap : chronicle s -> chronicle (start_generation g job heap s).
Proof.
  intros [Hs Ha]. split; intros id; cbn [start_generation log validated_jobs].
  - rewrite started_app, elem_of_app, Hs. unfold gen_ids, val_ids, start_generation. cbn [generation_futures validation_futures].
    rewrite map_app. cbn. rewrite !elem_of_app, !list_elem_of_singleton. tauto.
  - rewrite accepted_app. cbn. by rewrite app_nil_r.
Qed.

(** The free slots are filled: one job more, or no free slot, or no job that is ready. *)
Lemma fill_flow D fuel : forall slots s,
  flow D [] s -> (length (ready_heap s) <= fuel)%nat -> (slots + length (generation_futures s) = limits g)%nat ->
  let s' := fill_slots g fuel slots s in
  flow D [] s' /\ (ready_heap s' = [] \/ length (generation_futures s') = limits g) /\
  work_left s' = work_left s.
Proof.
  induction fuel as [|fuel IH]; intros slots s Hf Hlen Hslots; cbn zeta.
  { cbn [fill_slots]. destruct (ready_heap s) as [|x l] eqn:Eh; [|cbn in Hlen; lia]. split_and!; [done|by left|done]. }
  cbn [fill_slots]. destruct slots as [|slots]; [split_and!; [done|right; lia|done]|].
  destruct (merge_sort heap_le (ready_heap s)) as [|[o id] heap] eqn:Em.
  { split_and!; [done| |done]. left. apply Permutation_nil. rewrite <- Em. apply merge_sort_Permutation. }
  destruct Hf as [Ho Ht Hse Hch]. assert (Hh : id ∈ heap_ids s) by (rewrite (heap_head s _ _ _ Em); left).
  destruct (heap_pending D s id Ho Hh) as (Hnode & Hpend & Hdeps).
  destruct (find_by_id id Hnode) as (job & -> & Hj & <-). rewrite decide_True by done.
  assert (Hev : event_ok (log s) (Starts_ (job_id job) (next_future s) (length (generation_futures s)))).
  { pose proof (ord_validated _ _ _ Ho) as Hv. apply (ord_pending _ _ _ Ho) in Hpend as (_ & Hn & Hnv). split_and!.
    - done.
    - rewrite (chr_started _ Hch). tauto.
    - intros d Hd. rewrite (chr_accepted _ Hch), Hv. apply elem_of_union. left. by apply Hdeps.
    - lia. }
  destruct (IH slots (start_generation g job heap s)) as (Hf' & Hfull & Hw).
  - split; [by eapply start_ordering|apply start_tasks; [done|lia|done]|by apply start_settled|by apply start_chronicle].
  - cbn [ready_heap]. assert (Hl : length (ready_heap s) = S (length heap)) by (rewrite <- (merge_sort_Permutation heap_le (ready_heap s)); by rewrite Em).
    cbn [start_generation ready_heap]. lia.
  - cbn [generation_futures start_generation]. rewrite length_app. cbn. lia.
  - split_and!; [done|done|]. rewrite Hw. unfold work_left, start_generation. cbn [pending_ids generation_futures validation_futures].
    rewrite length_app. cbn [length]. rewrite size_difference, size_singleton by set_solver.
    assert (size (pending_ids s) <> 0%nat) by (apply size_non_empty_iff; set_solver). lia.
Qed.

Lemma submit_flow D s : flow D [] s ->
  let s' := submit_ready g s in
  flow D [] s' /\ (ready_heap s' = [] \/ length (generation_futures s') = limits g) /\ work_left s' = work_left s.
Proof.
  intros Hf. apply fill_flow; [done|done|]. pose proof (task_size _ (flow_tasks _ _ _ Hf)). lia.
Qed.

(** ** Workers *)

Lemma worker_unchanged s e : let s' := worker_step g s e in
  ready_heap s' = ready_heap s /\ pending_ids s' = pending_ids s /\ indegree s' = indegree s /\
  generation_futures s' = generation_futures s /\ validation_futures s' = validation_futures s /\
  results s' = results s /\ validated_jobs s' = validated_jobs s /\ next_future s' = next_future s /\
  log s' = log s /\ length (leases s') = length (leases s).
Proof.
  destruct e as [b|b now window|b p|f outcome|f exists_]; cbn [worker_step].
  - done.
  - destruct (refresh_model_execution_deadline now window (leases s) (Some b)) as [[d bs]|e] eqn:Er; split_and!; try done.
    by destruct (refresh_shape _ _ _ _ _ _ Er) as [(_ & Hl & _) _].
  - by destruct (publish _ _ _ _ _).
  - by case_decide.
  - destruct (List.find _ _); [|done]. by destruct (checked s !! f).
Qed.

(** The answers of futures are only added, each of them once. *)
Lemma worker_answers s e : tasks s -> let s' := worker_step g s e in
  (forall f r, generated s !! f = Some r -> generated s' !! f = Some r) /\
  (forall f, is_Some (generated s' !! f) \/ is_Some (checked s' !! f) ->
     is_Some (generated s !! f) \/ is_Some (checked s !! f) \/
     f ∈ map gen_future (generation_futures s) ++ map val_future (validation_futures s)) /\
  (forall t, t ∈ validation_futures s -> checked s' !! val_future t = Some (Ok tt) ->
     approved (val_job t) (val_receipt t)).
Proof.
  intros Ht. cbn zeta.
  assert (Hold : forall t, t ∈ validation_futures s -> checked s !! val_future t = Some (Ok tt) -> approved (val_job t) (val_receipt t)).
  { intros t Hin. by apply (task_vals s Ht t Hin). }
  destruct e as [b|b now window|b p|f outcome|f exists_]; cbn [worker_step].
  - split_and!; [done|cbn; tauto|done].
  - destruct (refresh_model_execution_deadline now window (leases s) (Some b)) as [[d bs]|e]; split_and!; try done; cbn; tauto.
  - destruct (publish _ _ _ _ _); split_and!; try done; cbn; tauto.
  - case_decide as Hd; [|split_and!; [done|tauto|done]]. destruct Hd as [Hin Hnone]. cbn [generated checked set_answers].
    split_and!; [|intros k Hk|done].
    + intros k r Hk. rewrite lookup_insert_ne; [done|]. intros ->. congruence.
    + destruct (decide (k = f)) as [->|Hne]; [right; right; apply elem_of_app; by left|].
      rewrite lookup_insert_ne in Hk by done. tauto.
  - destruct (List.find _ _) as [t|] eqn:Ef; [|split_and!; [done|tauto|done]].
    apply find_some in Ef as [Hin%list_elem_of_In Heq%bool_decide_eq_true].
    destruct (checked s !! f) as [c|] eqn:Ec; [split_and!; [done|tauto|done]|]. cbn [generated checked set_answers].
    split_and!; [done|intros k Hk|intros t' Hin' Hc].
    + destruct (decide (k = f)) as [->|Hne]; [right; right; apply elem_of_app; right; apply list_elem_of_fmap; by exists t|].
      rewrite lookup_insert_ne in Hk by done. tauto.
    + destruct (decide (val_future t' = f)) as [Hf'|Hne]; [|by rewrite lookup_insert_ne in Hc by done; auto].
      assert (t' = t) as ->.
      { destruct (task_futures s Ht) as [Hn _]. apply NoDup_app in Hn as (_ & _ & Hn).
        apply list_elem_of_lookup in Hin as [i Hi], Hin' as [i' Hi'].
        assert (i' = i) as ->; [|congruence].
        apply (NoDup_lookup _ _ _ f Hn); rewrite list_lookup_fmap; [by rewrite Hi'; cbn; rewrite Hf'|by rewrite Hi; cbn; rewrite Heq]. }
      rewrite Hf', lookup_insert_eq in Hc. injection Hc as Hc. apply res_bind_ok in Hc as (_ & _ & Hc). by exists (registry s), exists_.
Qed.

Lemma worker_flow D s e : flow D [] s -> flow D [] (worker_step g s e) /\ work_left (worker_step g s e) = work_left s.
Proof.
  intros [Ho Ht [Hl Hb] Hch]. pose proof (worker_unchanged s e) as (E1 & E2 & E3 & E4 & E5 & E6 & E7 & E8 & E9 & E10).
  pose proof (worker_answers s e Ht) as (A1 & A2 & A3). cbn zeta in *. split; [|unfold work_left; by rewrite E2, E4, E5].
  assert (Horig : forall id r, originates s id r -> originates (worker_step g s e) id r).
  { intros id r. apply originates_mono; [by rewrite E9|done]. }
  split.
  - destruct Ho as [O1 O2 O3 O4]. split; unfold heap_ids, gen_ids, val_ids in *; rewrite ?E1, ?E2, ?E3, ?E4, ?E5, ?E7; done.
  - destruct Ht as [T1 T2 T3 [T4 T5] T6]. split; rewrite ?E4, ?E5, ?E6, ?E7, ?E8, ?E9; try done.
    + intros t Hin. destruct (T2 t Hin) as (? & ? & ?). split_and!; [done|by apply Horig|by apply A3].
    + intros id Hid. destruct (T3 id Hid) as (x & r & ? & ? & ? & ? & ?). exists x, r. split_and!; try done. by apply Horig.
    + split; [done|]. intros f Hf. apply T5. destruct Hf as [Hf|Hf]; [by left|]. destruct (A2 f Hf) as [?|[?|?]]; tauto.
  - split; [by rewrite E9|]. unfold active_leases. by rewrite E4, E5, E10.
  - destruct Hch as [C1 C2]. split; unfold gen_ids, val_ids in *; rewrite ?E4, ?E5, ?E7, E9; done.
Qed.

Lemma workers_flow D es s : flow D [] s ->
  flow D [] (fold_left (worker_step g) es s) /\ work_left (fold_left (worker_step g) es s) = work_left s.
Proof.
  revert s. induction es as [|e es IH]; intros s Hf; [done|]. cbn [fold_left].
  destruct (worker_flow D s e Hf) as [Hf' Hw]. destruct (IH _ Hf') as [? Hw']. split; [done|]. by rewrite Hw', Hw.
Qed.

(** ** Results *)

Lemma pop_perm {A} (key : A -> nat) (l : list A) t : NoDup (map key l) -> t ∈ l ->
  l ≡ₚ t :: filter (fun a => key a <> key t) l.
Proof.
  induction l as [|a l IH]; [by intros _ ?%elem_of_nil|]. cbn [map]. intros [Ha Hn]%NoDup_cons [->|Ht]%elem_of_cons.
  - rewrite filter_cons_False by tauto. f_equiv. clear IH Hn. induction l as [|b l IH]; [done|].
    cbn [map] in Ha. apply not_elem_of_cons in Ha as [Hb Ha]. rewrite filter_cons_True by done. f_equiv. by apply IH.
  - rewrite filter_cons_True by (intros He; apply Ha; rewrite He; by apply list_elem_of_fmap_2).
    rewrite Permutation_swap. f_equiv. by apply IH.
Qed.

Lemma find_generation_some s f : f ∈ map gen_future (generation_futures s) ->
  exists t, find_generation f s = Some t /\ t ∈ generation_futures s /\ gen_future t = f.
Proof.
  intros (t & -> & Ht)%list_elem_of_fmap. unfold find_generation.
  destruct (List.find _ _) as [t'|] eqn:Ef.
  - apply find_some in Ef as [Hin%list_elem_of_In Heq%bool_decide_eq_true]. by exists t'.
  - apply list_elem_of_In in Ht. pose proof (find_none _ _ Ef t Ht) as Hn. by apply bool_decide_eq_false in Hn.
Qed.

Lemma find_generation_none s f : f ∉ map gen_future (generation_futures s) -> find_generation f s = None.
Proof.
  intros Hn. unfold find_generation. destruct (List.find _ _) as [t|] eqn:Ef; [|done].
  apply find_some in Ef as [Hin%list_elem_of_In Heq%bool_decide_eq_true]. destruct Hn. apply list_elem_of_fmap. by exists t.
Qed.

Lemma find_validation_some s f : f ∈ map val_future (validation_futures s) ->
  exists t, find_validation f s = Some t /\ t ∈ validation_futures s /\ val_future t = f.
Proof.
  intros (t & -> & Ht)%list_elem_of_fmap. unfold find_validation.
  destruct (List.find _ _) as [t'|] eqn:Ef.
  - apply find_some in Ef as [Hin%list_elem_of_In Heq%bool_decide_eq_true]. by exists t'.
  - apply list_elem_of_In in Ht. pose proof (find_none _ _ Ef t Ht) as Hn. by apply bool_decide_eq_false in Hn.
Qed.

Lemma popped_settled_gen s f : settled s -> settled (pop_generation f s).
Proof.
  intros [Hl Hb]. split; [done|]. intros b Hin. apply Hb. revert Hin. unfold active_leases, pop_generation.
  cbn [generation_futures validation_futures]. rewrite !elem_of_app, !list_elem_of_fmap.
  setoid_rewrite list_elem_of_filter. naive_solver.
Qed.

Lemma popped_settled_val s f : settled s -> settled (pop_validation f s).
Proof.
  intros [Hl Hb]. split; [done|]. intros b Hin. apply Hb. revert Hin. unfold active_leases, pop_validation.
  cbn [generation_futures validation_futures]. rewrite !elem_of_app, !list_elem_of_fmap.
  setoid_rewrite list_elem_of_filter. naive_solver.
Qed.

Section completion.
Variables (D : gset pystr) (newly : list pystr) (s : pipeline).
Hypothesis s_flow : flow D newly s.

(** *** A generation that returned *)

Section generated_one.
Variables (t : generation) (receipt : dict).
Hypotheses (t_active : t ∈ generation_futures s) (t_returned : generated s !! gen_future t = Some (Ok receipt)).

Let s' := start_validation g (gen_job t) receipt (pop_generation (gen_future t) s).

Lemma gens_split : generation_futures s ≡ₚ t :: generation_futures s'.
Proof.
  apply (pop_perm gen_future); [|done]. destruct (task_futures _ (flow_tasks _ _ _ s_flow)) as [Hn _].
  by apply NoDup_app in Hn as (Hn & _ & _).
Qed.

Lemma vals_added :
  validation_futures s' = validation_futures s ++ [Validating (next_future s) (gen_job t) receipt (length (leases s))].
Proof. done. Qed.

Lemma validated_later_ids : gen_ids s ++ val_ids s ≡ₚ gen_ids s' ++ val_ids s'.
Proof.
  unfold gen_ids, val_ids. rewrite (Permutation_map _ gens_split), vals_added, map_app. cbn [map val_job]. solve_Permutation.
Qed.

Lemma validate_tasks : tasks s'.
Proof.
  destruct (flow_tasks _ _ _ s_flow) as [T1 T2 T3 [T4 T5] T6].
  assert (Hp : map gen_future (generation_futures s) ++ map val_future (validation_futures s) ≡ₚ
               gen_future t :: map gen_future (generation_futures s') ++ map val_future (validation_futures s)).
  { by rewrite (Permutation_map gen_future gens_split). }
  split.
  - intros x Hx. apply T1. rewrite gens_split. by right.
  - rewrite vals_added. intros x [Hx| ->%list_elem_of_singleton]%elem_of_app; [by apply T2|].
    cbn [val_job val_receipt val_future checked]. destruct (T1 t t_active) as [Hj [k Hk]]. split_and!; [done| |].
    + by exists (gen_future t), k.
    + intros Hc. exfalso. specialize (T5 (next_future s) (or_intror (or_intror (mk_is_Some _ _ Hc)))). lia.
  - done.
  - rewrite vals_added, map_app. cbn [map val_future]. change (next_future s') with (S (next_future s)).
    change (generated s') with (generated s). change (checked s') with (checked s). split.
    + rewrite app_assoc, (Permutation_app_comm _ [next_future s]). cbn [app]. constructor.
      * intros Hx. assert (Hlt : (next_future s < next_future s)%nat); [|lia]. apply T5. left. rewrite Hp. by right.
      * rewrite Hp in T4. by apply NoDup_cons in T4 as [_ ?].
    + intros f Hf. assert (f = next_future s \/ (f < next_future s)%nat) as [->|]; [|lia|lia].
      rewrite app_assoc in Hf. destruct Hf as [[Hf| ->%list_elem_of_singleton]%elem_of_app|Hf]; [right|by left|right].
      * apply T5. left. rewrite Hp. by right.
      * apply T5. by right.
  - etrans; [|exact T6]. rewrite (Permutation_length gens_split). cbn. lia.
Qed.

Lemma validate_settled : settled s'.
Proof.
  destruct (flow_settled _ _ _ s_flow) as [S1 S2]. split; [done|]. intros b. unfold active_leases.
  rewrite vals_added, map_app. cbn [map val_lease]. intros Hb.
  change (leases s') with (new_lease g s). unfold new_lease. rewrite length_app. cbn [length].
  assert ((b < length (leases s))%nat \/ b = length (leases s)) as [|]; [|lia|lia].
  apply elem_of_app in Hb as [Hb|[Hb| ->%list_elem_of_singleton]%elem_of_app]; [left|left|by right];
    apply S2; unfold active_leases; apply elem_of_app; [left|by right].
  rewrite (Permutation_map gen_lease gens_split). by right.
Qed.

Lemma validate_flow : flow D newly s' /\ S (work_left s') = work_left s.
Proof.
  destruct (flow_ordering _ _ _ s_flow) as [O1 O2 O3 O4], (flow_chronicle _ _ _ s_flow) as [C1 C2].
  split; [split; [split; [done| |done|]|apply validate_tasks|apply validate_settled|split; [|done]]|].
  - eapply ready_perm; [|exact O2]. change (heap_ids s') with (heap_ids s). apply Permutation_app_head.
    rewrite !app_assoc. apply Permutation_app_tail, validated_later_ids.
  - intros id. rewrite <- validated_later_ids. apply O4.
  - intros id. by rewrite <- validated_later_ids.
  - unfold work_left. rewrite (Permutation_length gens_split), vals_added. change (pending_ids s') with (pending_ids s).
    rewrite length_app. cbn [length]. lia.
Qed.
End generated_one.

(** *** A validation that accepted *)

Section accepted_one.
Variables (t : validation).
Hypotheses (t_active : t ∈ validation_futures s) (t_accepted : checked s !! val_future t = Some (Ok tt)).

Let s' := accept (val_job t) (val_receipt t) (pop_validation (val_future t) s).

Lemma vals_split : validation_futures s ≡ₚ t :: validation_futures s'.
Proof.
  apply (pop_perm val_future); [|done]. destruct (task_futures _ (flow_tasks _ _ _ s_flow)) as [Hn _].
  by apply NoDup_app in Hn as (_ & _ & Hn).
Qed.

Lemma val_ids_split : val_ids s ≡ₚ job_id (val_job t) :: val_ids s'.
Proof. unfold val_ids. by rewrite (Permutation_map _ vals_split). Qed.

Lemma accept_ordering : ordering D (newly ++ [job_id (val_job t)]) s'.
Proof.
  destruct (flow_ordering _ _ _ s_flow) as [O1 O2 O3 O4]. split.
  - done.
  - eapply ready_perm; [|exact O2]. change (heap_ids s') with (heap_ids s). change (gen_ids s') with (gen_ids s).
    rewrite val_ids_split. solve_Permutation.
  - change (validated_jobs s') with ({[job_id (val_job t)]} ∪ validated_jobs s). rewrite O3, list_to_set_app_L. cbn. set_solver.
  - intros id. change (pending_ids s') with (pending_ids s). change (gen_ids s') with (gen_ids s).
    change (validated_jobs s') with ({[job_id (val_job t)]} ∪ validated_jobs s).
    rewrite O4, val_ids_split, !elem_of_app, elem_of_cons, elem_of_union, elem_of_singleton. tauto.
Qed.

Lemma accept_tasks : tasks s'.
Proof.
  destruct (flow_tasks _ _ _ s_flow) as [T1 T2 T3 [T4 T5] T6].
  assert (Hlog : forall e, e ∈ log s -> e ∈ log s') by (intros e He; apply elem_of_app; by left).
  assert (Horig : forall id r, originates s id r -> originates s' id r) by (intros id r; by apply originates_mono).
  assert (Hin : forall x, x ∈ validation_futures s' -> x ∈ validation_futures s) by (intros x Hx; rewrite vals_split; by right).
  split.
  - intros x Hx. destruct (T1 x Hx) as (? & k & ?). split; [done|]. exists k. by apply Hlog.
  - intros x Hx%Hin. destruct (T2 x Hx) as (? & ? & ?). split_and!; [done|by apply Horig|done].
  - intros id. change (validated_jobs s') with ({[job_id (val_job t)]} ∪ validated_jobs s).
    change (results s') with (<[job_id (val_job t) := val_receipt t]> (results s)).
    destruct (decide (id = job_id (val_job t))) as [->|Hne].
    + intros _. destruct (T2 t t_active) as (? & ? & ?). exists (val_job t), (val_receipt t). rewrite lookup_insert_eq.
      split_and!; try done; [by auto|by apply Horig].
    + intros Hid. destruct (T3 id) as (x & r & ? & ? & ? & ? & ?); [set_solver|]. exists x, r.
      rewrite lookup_insert_ne by done. split_and!; try done. by apply Horig.
  - assert (Hp : map gen_future (generation_futures s) ++ map val_future (validation_futures s) ≡ₚ
                 val_future t :: map gen_future (generation_futures s') ++ map val_future (validation_futures s')).
    { rewrite (Permutation_map val_future vals_split). change (generation_futures s') with (generation_futures s).
      cbn [map]. solve_Permutation. }
    split; [rewrite Hp in T4; by apply NoDup_cons in T4 as [_ ?]|].
    intros f [Hf|Hf]; apply T5; [left; rewrite Hp; by right|by right].
  - done.
Qed.

Lemma accept_flow : flow D (newly ++ [job_id (val_job t)]) s' /\ S (work_left s') = work_left s.
Proof.
  destruct (flow_settled _ _ _ s_flow) as [S1 S2], (flow_chronicle _ _ _ s_flow) as [C1 C2].
  split; [split; [apply accept_ordering|apply accept_tasks|split|split]|].
  - apply orderly_snoc; [done|]. cbn. rewrite C1, C2. split.
    + left. apply elem_of_app. right. rewrite val_ids_split. left.
    + intros Hv. pose proof (flow_ordering _ _ _ s_flow) as [_ Hqueue O3 _]. rewrite O3 in Hv.
      apply (ready_perm _ _ (heap_ids s ++ gen_ids s ++ (job_id (val_job t) :: val_ids s') ++ newly)) in Hqueue;
        [|by rewrite val_ids_split]. destruct Hqueue as (Hn & Hq & _). apply elem_of_union in Hv as [Hv|Hv].
      * assert (Hr : job_id (val_job t) ∈ heap_ids s ++ gen_ids s ++ (job_id (val_job t) :: val_ids s') ++ newly).
        { rewrite !elem_of_app, elem_of_cons. tauto. }
        apply Hq in Hr as (_ & Hr & _). done.
      * apply elem_of_list_to_set in Hv.
        assert (Hp : heap_ids s ++ gen_ids s ++ (job_id (val_job t) :: val_ids s') ++ newly ≡ₚ
                     job_id (val_job t) :: heap_ids s ++ gen_ids s ++ val_ids s' ++ newly) by solve_Permutation.
        rewrite Hp in Hn. apply NoDup_cons in Hn as [Hn _]. apply Hn. rewrite !elem_of_app. tauto.
  - intros b Hb. apply S2. revert Hb. unfold active_leases. change (generation_futures s') with (generation_futures s).
    rewrite (Permutation_map val_lease vals_split). cbn [map]. rewrite !elem_of_app, elem_of_cons. tauto.
  - intros id. change (log s') with (log s ++ [Accepts (job_id (val_job t))]). rewrite started_app, app_nil_r, C1, val_ids_split.
    change (validated_jobs s') with ({[job_id (val_job t)]} ∪ validated_jobs s). change (gen_ids s') with (gen_ids s).
    rewrite elem_of_union, elem_of_singleton, !elem_of_app, elem_of_cons. tauto.
  - intros id. change (log s') with (log s ++ [Accepts (job_id (val_job t))]). rewrite accepted_app, elem_of_app, C2.
    change (validated_jobs s') with ({[job_id (val_job t)]} ∪ validated_jobs s). cbn.
    rewrite elem_of_union, elem_of_singleton, list_elem_of_singleton. tauto.
  - unfold work_left. rewrite (Permutation_length vals_split). change (pending_ids s') with (pending_ids s).
    change (generation_futures s') with (generation_futures s). cbn [length]. lia.
Qed.
End accepted_one.
End completion.

(** *** A batch *)

Definition failing s (e : exn) : Prop := exists f, generated s !! f = Some (Err e) \/ checked s !! f = Some (Err e).

Lemma take_results_flow D done : forall newly s,
  flow D newly s -> NoDup done -> (forall f, f ∈ done -> is_done s f) ->
  match take_results g done newly s with
  | (Ok newly', s') => flow D newly' s' /\ (work_left s' + length done)%nat = work_left s
  | (Err e, s') => settled s' /\ failing s' e
  end.
Proof.
  induction done as [|f done IH]; intros newly s Hf Hn Hd; cbn [take_results]; [split; [done|cbn; lia]|].
  apply NoDup_cons in Hn as [Hfn Hn]. pose proof (flow_tasks _ _ _ Hf) as Ht. pose proof (flow_settled _ _ _ Hf) as Hs.
  assert (Hrest : forall k, k ∈ done -> is_done s k /\ k <> f).
  { intros k Hk. split; [apply Hd; by right|]. by intros ->. }
  destruct (Hd f) as [[Hg [r Hr]]|[Hv [r Hr]]]; [left|..].
  - destruct (find_generation_some s f Hg) as (t & -> & Htin & <-).
    change (generated (pop_generation (gen_future t) s)) with (generated s). rewrite Hr.
    destruct r as [receipt|e]; [|split; [by apply popped_settled_gen|by exists (gen_future t); left]].
    destruct (validate_flow D newly s Hf t receipt Htin Hr) as [Hf' Hw].
    set (s1 := start_validation _ _ _ _) in *. cbn [length].
    assert (Hd1 : forall k, k ∈ done -> is_done s1 k).
    { intros k Hk. destruct (Hrest k Hk) as [[[Hkg Hka]|[Hkv Hka]] Hne]; [left|right]; (split; [|done]).
      - apply list_elem_of_fmap in Hkg as (x & -> & Hx). apply list_elem_of_fmap_2, list_elem_of_filter. by split.
      - change (validation_futures s1) with (validation_futures s ++ [Validating (next_future s) (gen_job t) receipt (length (leases s))]).
        rewrite map_app. apply elem_of_app. by left. }
    specialize (IH newly s1 Hf' Hn Hd1). destruct (take_results g done newly s1) as [[newly'|e] s']; [|done].
    destruct IH as [? ?]. split; [done|lia].
  - assert (Hng : f ∉ map gen_future (generation_futures s)).
    { destruct (task_futures _ Ht) as [Hnd _]. apply NoDup_app in Hnd as (_ & Hnd & _). intros Hx. by apply (Hnd f Hx). }
    rewrite (find_generation_none s f Hng). destruct (find_validation_some s f Hv) as (t & -> & Htin & <-).
    change (checked (pop_validation (val_future t) s)) with (checked s). rewrite Hr.
    destruct r as [[]|e]; [|split; [by apply popped_settled_val|by exists (val_future t); right]].
    destruct (accept_flow D newly s Hf t Htin Hr) as [Hf' Hw].
    set (s1 := accept _ _ _) in *. cbn [length].
    assert (Hd1 : forall k, k ∈ done -> is_done s1 k).
    { intros k Hk. destruct (Hrest k Hk) as [[[Hkg Hka]|[Hkv Hka]] Hne]; [by left|right]; (split; [|done]).
      apply list_elem_of_fmap in Hkv as (x & -> & Hx). apply list_elem_of_fmap_2, list_elem_of_filter. by split. }
    specialize (IH _ s1 Hf' Hn Hd1). destruct (take_results g done _ s1) as [[newly'|e] s']; [|done].
    destruct IH as [? ?]. split; [done|lia].
Qed.

(** ** Release *)

Definition entry (id : pystr) : nat * pystr := (order g id, id).

Lemma release_one_ok deg heap d v : deg !! d = Some v -> 0 < v ->
  release_one g (deg, heap) d = Ok (<[d := v - 1]> deg, if v - 1 =? 0 then heap ++ [entry d] else heap).
Proof. intros Hd Hv. unfold release_one. rewrite Hd. cbn [from_option id]. replace (v - 1 <? 0) with false by lia. reflexivity. Qed.

Lemma release_ones l : forall deg new heap,
  (forall n, n ∈ l -> exists v, deg !! n = Some v /\ Z.of_nat (count n l) <= v) ->
  res_fold (release_one g) (deg, heap ++ map entry new) l =
  let p := fold_left release_step l (deg, new) in Ok (p.1, heap ++ map entry p.2).
Proof.
  induction l as [|d l IH]; intros deg new heap Hl; [done|]. cbn [res_fold fold_left].
  destruct (Hl d) as (v & Hv & Hc); [left|]. rewrite count_cons, decide_True in Hc by done.
  rewrite (release_one_ok _ _ _ v Hv) by lia. cbn [res_bind].
  assert (Hstep : release_step (deg, new) d = (<[d := v - 1]> deg, if v - 1 =? 0 then new ++ [d] else new)).
  { unfold release_step. cbn [fst snd]. by rewrite Hv. }
  rewrite Hstep.
  assert (Hrest : forall n, n ∈ l -> exists w, (<[d := v - 1]> deg) !! n = Some w /\ Z.of_nat (count n l) <= w).
  { intros n Hn. destruct (decide (n = d)) as [->|Hne].
    - exists (v - 1). rewrite lookup_insert_eq. split; [done|lia].
    - destruct (Hl n) as (w & Hw & Hcw); [by right|]. exists w. rewrite lookup_insert_ne by done. split; [done|].
      rewrite count_cons, decide_False in Hcw by done. done. }
  destruct (v - 1 =? 0); [|by rewrite (IH _ _ _ Hrest)].
  pose proof (IH _ (new ++ [d]) heap Hrest) as IHd. cbn zeta in *. rewrite <- IHd. by rewrite map_app, app_assoc.
Qed.

Lemma count_perm (l l' : list pystr) n : l ≡ₚ l' -> count n l = count n l'.
Proof. intros Hp. unfold count. by rewrite Hp. Qed.

Lemma release_producer D deg heap others k rest :
  counts nodes deps D deg -> queue nodes deps D (map snd heap ++ others ++ k :: rest) ->
  exists deg' heap', res_fold (release_one g) (deg, heap) (dependents g k) = Ok (deg', heap') /\
    counts nodes deps ({[k]} ∪ D) deg' /\ queue nodes deps ({[k]} ∪ D) (map snd heap' ++ others ++ rest).
Proof.
  intros Hc Hq. set (ready := map snd heap ++ others ++ k :: rest) in *.
  assert (Hp : ready ≡ₚ k :: map snd heap ++ others ++ rest) by (unfold ready; solve_Permutation).
  assert (Hk : k ∉ D) by (destruct Hq as (_ & Hq & _); apply (Hq k); rewrite Hp; left).
  destruct (release deg (outgoing_of nodes deps k)) as [deg1 new1] eqn:Er.
  destruct (emit_step nodes deps nodes_NoDup _ _ _ _ _ _ _ Hc Hq Hp Er) as [Hc' Hq'].
  destruct (release_perm (dependents g k) (outgoing_of nodes deps k) deg (dependents_perm k)) as [H1 H2].
  rewrite Er in H1, H2. cbn [fst snd] in H1, H2.
  pose proof (release_ones (dependents g k) deg [] heap) as Hr. cbn [map] in Hr. rewrite app_nil_r in Hr.
  cbn zeta in Hr. rewrite <- release_steps in Hr. exists deg1, (heap ++ map entry (release deg (dependents g k)).2).
  split_and!; [|done|].
  - rewrite Hr, H1; [done|]. intros n Hn. rewrite (count_perm _ _ n (dependents_perm k)).
    rewrite dependents_perm in Hn. apply count_pos in Hn. rewrite count_outgoing in * by apply nodes_NoDup.
    destruct (decide (n ∈ nodes)) as [Hnode|]; [|lia]. exists (Z.of_nat (remaining deps D n)). split; [by apply Hc|].
    rewrite (remaining_emit nodes deps nodes_NoDup D k n Hk). lia.
  - eapply ready_perm; [|exact Hq']. rewrite map_app, map_map. cbn [snd entry]. rewrite map_id, H2. solve_Permutation.
Qed.

Lemma release_all newly : forall D deg heap others,
  counts nodes deps D deg -> queue nodes deps D (map snd heap ++ others ++ newly) ->
  exists deg' heap',
    res_fold (fun acc id => res_fold (release_one g) acc (dependents g id)) (deg, heap) newly = Ok (deg', heap') /\
    counts nodes deps (D ∪ list_to_set newly) deg' /\ queue nodes deps (D ∪ list_to_set newly) (map snd heap' ++ others).
Proof.
  induction newly as [|k newly IH]; intros D deg heap others Hc Hq; cbn [res_fold].
  { exists deg, heap. cbn [list_to_set]. rewrite union_empty_r_L. rewrite app_nil_r in Hq. done. }
  destruct (release_producer D deg heap others k newly Hc Hq) as (deg1 & heap1 & -> & Hc1 & Hq1). cbn [res_bind].
  destruct (IH _ deg1 heap1 others Hc1 Hq1) as (deg2 & heap2 & -> & Hc2 & Hq2). exists deg2, heap2.
  assert (Hset : {[k]} ∪ D ∪ list_to_set newly = D ∪ list_to_set (k :: newly)) by (cbn; set_solver).
  by rewrite <- Hset.
Qed.

Lemma release_flow D newly s : flow D newly s ->
  exists deg heap, release_dependents g newly (indegree s, ready_heap s) = Ok (deg, heap) /\
    flow (D ∪ list_to_set newly) [] (set_ready deg heap s).
Proof.
  intros [[O1 O2 O3 O4] Ht Hs Hch]. unfold release_dependents.
  assert (Hp : merge_sort (before g) newly ≡ₚ newly) by apply merge_sort_Permutation.
  destruct (release_all (merge_sort (before g) newly) D (indegree s) (ready_heap s) (gen_ids s ++ val_ids s) O1)
    as (deg & heap & -> & Hc & Hq).
  { eapply ready_perm; [|exact O2]. rewrite Hp. unfold heap_ids. solve_Permutation. }
  assert (Hset : list_to_set (merge_sort (before g) newly) = (list_to_set newly : gset pystr)) by by rewrite Hp.
  rewrite Hset in Hc, Hq. exists deg, heap. split; [done|]. split.
  - split; [done| | |done].
    + change (gen_ids (set_ready deg heap s)) with (gen_ids s). change (val_ids (set_ready deg heap s)) with (val_ids s).
      by rewrite app_nil_r.
    + change (validated_jobs (set_ready deg heap s)) with (validated_jobs s). rewrite O3. cbn. by rewrite union_empty_r_L.
  - destruct Ht. by split.
  - destruct Hs. by split.
  - destruct Hch. by split.
Qed.

(** ** The start *)

Lemma remaining_none id : remaining deps (∅ : gset pystr) id = length (deps id).
Proof.
  unfold remaining. induction (deps id) as [|d l IH]; [done|]. rewrite filter_cons, decide_True by set_solver. cbn. by rewrite IH.
Qed.

Lemma start_degree id v :
  (dict_of (map (fun row => (row.1, Z.of_nat (length row.2))) (dependencies g)) : gmap pystr Z) !! id = Some v <->
  id ∈ nodes /\ v = Z.of_nat (length (deps id)).
Proof.
  assert (Hnd : NoDup (map fst (dependencies g))) by (rewrite dependencies_ids; apply nodes_NoDup).
  rewrite dict_of_lookup by by rewrite map_map. rewrite <- dependencies_ids. split.
  - intros (row & [= -> ->] & Hrow)%list_elem_of_fmap. split; [by apply list_elem_of_fmap_2|].
    unfold deps. by rewrite (deps_of_in _ Hnd _ Hrow).
  - intros [(row & -> & Hrow)%list_elem_of_fmap ->]. apply list_elem_of_fmap. exists row.
    unfold deps. by rewrite (deps_of_in _ Hnd _ Hrow).
Qed.

Lemma new_pipeline_flow bs r :
  flow ∅ [] (new_pipeline g bs r) /\ work_left (new_pipeline g bs r) = (2 * length (ordered_jobs g))%nat.
Proof.
  split; [split|].
  - split.
    + intros n Hn. rewrite remaining_none. by apply start_degree.
    + unfold heap_ids, new_pipeline. cbn [ready_heap gen_ids val_ids generation_futures validation_futures map app].
      rewrite app_nil_r, map_map. cbn [snd]. rewrite map_id. split_and!.
      * apply NoDup_filter, nodes_NoDup.
      * intros n. rewrite list_elem_of_filter, remaining_none. rewrite start_degree. split.
        -- intros [[_ Hz] Hn]. split_and!; [done|set_solver|lia].
        -- intros (Hn & _ & Hz). split; [|done]. split; [done|lia].
      * intros n Hn. set_solver.
    + done.
    + intros id. cbn. rewrite elem_of_list_to_set. fold nodes. split; [|tauto]. intros Hn. split_and!; [done|apply not_elem_of_nil|set_solver].
  - split; cbn [new_pipeline generation_futures validation_futures validated_jobs generated checked map app length].
    + by intros t ?%elem_of_nil.
    + by intros t ?%elem_of_nil.
    + intros id Hid. set_solver.
    + split; [constructor|]. intros f [Hf|[Hf|Hf]]; [by apply elem_of_nil in Hf|by destruct Hf|by destruct Hf].
    + lia.
  - split; [intros past e future Hx; by destruct past|]. by intros b ?%elem_of_nil.
  - split; intros id; cbn; [|set_solver]. split; [by intros ?%elem_of_nil|]. intros [?%elem_of_nil|?]; [done|set_solver].
  - unfold work_left, new_pipeline. cbn [pending_ids generation_futures validation_futures length].
    rewrite size_list_to_set by apply nodes_NoDup. rewrite length_map. lia.
Qed.

(** ** The loop *)

Definition full s : Prop := ready_heap s = [] \/ length (generation_futures s) = limits g.

Definition active s : Prop := generation_futures s <> [] \/ validation_futures s <> [].

(** [id] comes, directly or not, after [id]. *)
Definition cyclic : Prop := exists id, tc (fun a b => b ∈ deps a) id id.

Hypothesis limits_pos : (1 <= limits g)%nat.

Lemma stuck_deadlock D s : flow D [] s -> full s -> ~ active s -> pending_ids s <> ∅ -> cyclic.
Proof.
  intros [[_ (_ & Hq & _) Hv Hp] _ _ _] Hfull Hact Hne. unfold active in Hact.
  destruct (generation_futures s) as [|] eqn:Eg; [|exfalso; apply Hact; by left].
  destruct (validation_futures s) as [|] eqn:Ev; [|exfalso; apply Hact; by right].
  assert (Hheap : ready_heap s = []) by (destruct Hfull as [|Hl]; [done|rewrite Eg in Hl; cbn in Hl; lia]).
  unfold heap_ids, gen_ids, val_ids in *. rewrite Hheap, Eg, Ev in *. cbn [map app] in *.
  assert (Hwait : forall x, x ∈ elements (pending_ids s) -> exists y, y ∈ elements (pending_ids s) /\ y ∈ deps x).
  { intros x [Hx (_ & Hxv)]%elem_of_elements%Hp. rewrite Hv in Hxv.
    destruct (decide (Exists (fun d => d ∉ D) (deps x))) as [He|He].
    - apply Exists_exists in He as (d & Hd & HdD). exists d. split; [|done]. apply elem_of_elements, Hp.
      split_and!; [by eapply deps_are_nodes|apply not_elem_of_nil|]. rewrite Hv. set_solver.
    - exfalso. apply (not_elem_of_nil x), Hq. split_and!; [done|set_solver|]. apply remaining_zero.
      intros d Hd. apply dec_stable. intros HdD. apply He, Exists_exists. eauto. }
  apply set_choose_L in Hne as [a Ha].
  destruct (stuck_cycle (fun a b => b ∈ deps a) (elements (pending_ids s)) a) as (x & _ & Hx); [by apply elem_of_elements|done|].
  by exists x.
Qed.

Lemma done_of_ok w s : NoDup (done_of w s) /\ forall f, f ∈ done_of w s -> is_done s f.
Proof.
  unfold done_of. split.
  - apply NoDup_filter. induction (returned w) as [|f l IH]; cbn [from_keys]; constructor.
    + rewrite list_elem_of_filter. tauto.
    + by apply NoDup_filter.
  - intros f Hf. by apply list_elem_of_filter in Hf as [? _].
Qed.

Lemma cancel_settled bs s : settled s -> settled (cancel_leases bs s).
Proof.
  intros [Hl Hb]. split; [done|]. intros b Hin%Hb. unfold cancel_leases. cbn [leases GraphExecutor.set_leases].
  clear Hb Hl. revert Hin. generalize (leases s). induction bs as [|c bs IH]; intros ls Hin; [done|]. cbn [fold_left].
  apply IH. unfold set_cancelled. by rewrite length_alter.
Qed.

Definition timed_out (now : Z) s : Prop :=
  exists b, b ∈ active_leases s /\ forall x, leases s !! b = Some x -> deadline x <= now.

Lemma after_wait_flow D w s : flow D [] s -> full s ->
  match after_wait g w s with
  | (None, s') => exists D', flow D' [] s' /\ full s' /\
      (work_left s' + length (done_of w s))%nat = work_left s
  | (Some e, s') => settled s' /\
      match e with
      | JobFailed e => failing s' e
      | TimedOut => timed_out (woke_at w) s /\ done_of w s = []
      | _ => False
      end
  end.
Proof.
  intros Hf Hfull. unfold after_wait. destruct (done_of_ok w s) as [Hn Hd].
  destruct (done_of w s) as [|f done] eqn:Edone.
  - destruct (expired (woke_at w) s) as [|b late] eqn:El; [exists D; split_and!; [done|done|cbn; lia]|].
    split; [apply cancel_settled, (flow_settled _ _ _ Hf)|]. split; [|done].
    assert (Hb : b ∈ expired (woke_at w) s) by (rewrite El; left).
    apply list_elem_of_In, filter_In in Hb as [Hb Hp]. exists b. split; [by apply list_elem_of_In|].
    intros x Hx. unfold past_deadline in Hp. rewrite Hx in Hp. lia.
  - pose proof (take_results_flow D (f :: done) [] s Hf Hn Hd) as Ht.
    destruct (take_results g (f :: done) [] s) as [[newly|e] s1]; [|done]. destruct Ht as [Hf1 Hw].
    destruct (release_flow D newly s1 Hf1) as (deg & heap & -> & Hf2).
    destruct (submit_flow _ _ Hf2) as (Hf3 & Hfull3 & Hw3). eexists. split_and!; [exact Hf3|done|]. by rewrite Hw3.
Qed.

(** What holds when the loop is left. *)
Definition loop_ends (waits : list awaited) (e : ending) s : Prop :=
  settled s /\
  match e with
  | Finished => (exists D, flow D [] s) /\ pending_ids s = ∅ /\ ~ active s
  | Deadlocked => cyclic
  | TimedOut => exists w s0, w ∈ waits /\ timed_out (woke_at w) s0 /\ done_of w s0 = []
  | Corrupt => False
  | JobFailed e => failing s e
  | Waiting => active s
  end.

Lemma run_pipeline_ends waits : forall D s, flow D [] s -> full s ->
  let '(e, s') := run_pipeline g waits s in loop_ends waits e s'.
Proof.
  assert (Hidle : forall waits D s, flow D [] s -> full s -> ~ active s ->
    let '(e, s') := (if decide (pending_ids s = ∅) then (Finished, s) else (Deadlocked, s)) in loop_ends waits e s').
  { intros waits' D s Hf Hfull Hact. destruct (decide (pending_ids s = ∅)) as [Hp|Hp].
    - split; [by eapply flow_settled|]. split_and!; [by exists D|done|done].
    - split; [by eapply flow_settled|]. by eapply stuck_deadlock. }
  assert (Hdec : forall s, active s \/ generation_futures s = [] /\ validation_futures s = []).
  { intros s. unfold active. destruct (generation_futures s); [|by left; left]. destruct (validation_futures s); [by right|by left; right]. }
  induction waits as [|w waits IH]; intros D s Hf Hfull;
    (destruct (Hdec s) as [Hact|[Eg Ev]];
      [|cbn [run_pipeline]; rewrite Eg, Ev; apply (Hidle _ D s Hf Hfull); unfold active; rewrite Eg, Ev; tauto]).
  - assert (Hr : run_pipeline g [] s = (Waiting, s)).
    { cbn [run_pipeline]. unfold active in Hact. by destruct (generation_futures s), (validation_futures s); try tauto. }
    rewrite Hr. split; [by eapply flow_settled|done].
  - destruct (workers_flow D (happens w) s Hf) as [Hf1 _]. set (s1 := fold_left (worker_step g) (happens w) s) in *.
    assert (Hfull1 : full s1).
    { assert (Hsame : forall es s0, full s0 -> full (fold_left (worker_step g) es s0)); [|by apply Hsame].
      induction es as [|e es IHes]; intros s0 Hfull0; [done|]. cbn [fold_left]. apply IHes.
      destruct (worker_unchanged s0 e) as (E1 & _ & _ & E4 & _). unfold full. by rewrite E1, E4. }
    pose proof (after_wait_flow D w s1 Hf1 Hfull1) as Ha.
    assert (Hr : run_pipeline g (w :: waits) s =
      match after_wait g w s1 with (Some e, s2) => (e, s2) | (None, s2) => run_pipeline g waits s2 end).
    { cbn [run_pipeline]. fold s1. unfold active in Hact. by destruct (generation_futures s), (validation_futures s); try tauto. }
    rewrite Hr. destruct (after_wait g w s1) as [[e|] s2].
    + destruct Ha as [Hs He]. split; [done|]. destruct e; try done. destruct He as [Ht Hd].
      exists w, s1. split_and!; [left|done|done].
    + destruct Ha as (D' & Hf2 & Hfull2 & _). specialize (IH D' s2 Hf2 Hfull2).
      destruct (run_pipeline g waits s2) as [e s3]. destruct IH as [Hs He]. split; [done|]. destruct e; try done.
      destruct He as (w' & s0 & Hw & ?). exists w', s0. split; [by right|done].
Qed.
End pipeline.
