(* ===== verification/GraphExecutorProps.v ===== *)
(** * GraphExecutorProps: artifact graphs are executed in order, and to the end *)

From stdpp Require Import prelude gmap sets fin_sets fin_map_dom strings list sorting relations.
From S2P Require Import Prelude Text Json PyJson Kahn Tables Ledger Backend WorkPlan Topological.
From S2P Require Import RLocks ExecutionBudget ArtifactPorts.
From S2P Require Import ArtifactJob JobGraph GraphExecutor GraphPipeline.

Open Scope Z_scope.
Open Scope py_scope.

Section execution.
Context `{PyFloat, !PyRepr}.

(** Job [a] requires a port that job [b] produces. *)
Definition waits_on (jobs : list ArtifactJob) (a b : pystr) : Prop :=
  exists ja jb port, ja ∈ jobs /\ jb ∈ jobs /\ job_id ja = a /\ job_id jb = b /\ port ∈ requires ja /\ port ∈ produces jb.

Lemma job_by_id (jobs : list ArtifactJob) a b :
  NoDup (map job_id jobs) -> a ∈ jobs -> b ∈ jobs -> job_id a = job_id b -> a = b.
Proof.
  intros Hn [i Hi]%list_elem_of_lookup [k Hk]%list_elem_of_lookup Hid. assert (i = k) as ->; [|congruence].
  apply (NoDup_lookup _ _ _ (job_id a) Hn); rewrite list_lookup_fmap; [by rewrite Hi|by rewrite Hk, Hid].
Qed.

(** ** Producers *)

Definition produced_by (jobs : list ArtifactJob) (producers : gmap pystr pystr) : Prop :=
  forall port id, producers !! port = Some id <-> exists j, j ∈ jobs /\ job_id j = id /\ port ∈ produces j.

Lemma index_ports_ok id ports : forall producers : gmap pystr pystr,
  match res_fold (index_port id) producers ports with
  | Ok producers' => (forall p i, p ∈ ports -> producers !! p = Some i -> i = id) /\
      forall p, producers' !! p = if decide (p ∈ ports) then Some id else producers !! p
  | Err e => exists p i, p ∈ ports /\ producers !! p = Some i /\ i <> id
  end.
Proof.
  intros producers. pose proof (add_producers_ok id ports producers) as Ha.
  assert (Hsame : match res_fold (index_port id) producers ports, res_fold (add_producer id) producers ports with
    | Ok a, Ok b => a = b | Err _, Err _ => True | _, _ => False end).
  { clear Ha. revert producers. induction ports as [|p ports IH]; intros producers; [done|]. cbn [res_fold].
    assert (Hone : match index_port id producers p, add_producer id producers p with
      | Ok a, Ok b => a = b | Err _, Err _ => True | _, _ => False end).
    { unfold index_port, add_producer. destruct (producers !! p) as [prior|]; [|done]. by destruct (decide (prior <> id)). }
    destruct (index_port id producers p) as [a|], (add_producer id producers p) as [b|]; try done.
    cbn [res_bind]. subst b. apply IH. }
  destruct (res_fold (index_port id) producers ports) as [a|e], (res_fold (add_producer id) producers ports) as [b|e'];
    try done; [by subst b|by destruct Ha].
Qed.

Lemma producer_index_loop rest : forall jobs (producers : gmap pystr pystr), NoDup (map job_id (jobs ++ rest)) ->
  produced_by jobs producers ->
  match res_fold (fun producers job => res_fold (index_port (job_id job)) producers (produces job)) producers rest with
  | Ok producers' => produced_by (jobs ++ rest) producers'
  | Err _ => exists j1 j2 port, j1 ∈ jobs ++ rest /\ j2 ∈ jobs ++ rest /\ j1 <> j2 /\ port ∈ produces j1 /\ port ∈ produces j2
  end.
Proof.
  induction rest as [|job rest IH]; intros jobs producers Hn Hp; cbn [res_fold]; [by rewrite app_nil_r|].
  pose proof (index_ports_ok (job_id job) (produces job) producers) as Hi.
  destruct (res_fold (index_port _) producers (produces job)) as [producers'|e]; cbn [res_bind].
  - destruct Hi as [Hold Hnew]. specialize (IH (jobs ++ [job]) producers'). rewrite <- app_assoc in IH. apply IH; [done|].
    intros port id. rewrite Hnew. setoid_rewrite elem_of_app. setoid_rewrite list_elem_of_singleton.
    destruct (decide (port ∈ produces job)) as [Hin|Hin].
    + split; [intros [= <-]; eauto|]. intros (j & [Hj| ->] & <- & Hpj); [|done]. f_equal. symmetry.
      apply (Hold port); [done|]. apply Hp. eauto.
    + rewrite (Hp port id). split; [intros (j & ? & ? & ?); eauto|]. intros (j & [Hj| ->] & Hid & Hpj); [eauto|done].
  - destruct Hi as (port & i & Hin & Hi & Hne). apply Hp in Hi as (j & Hj & <- & Hpj).
    exists j, job, port. rewrite !elem_of_app. split_and!; [by left|right; left|by intros ->|done|done].
Qed.

Lemma producer_index_ok jobs : NoDup (map job_id jobs) ->
  match _producer_index jobs with
  | Ok producers => produced_by jobs producers
  | Err _ => exists j1 j2 port, j1 ∈ jobs /\ j2 ∈ jobs /\ j1 <> j2 /\ port ∈ produces j1 /\ port ∈ produces j2
  end.
Proof.
  intros Hn. apply (producer_index_loop jobs [] ∅); [done|].
  intros port id. rewrite lookup_empty. split; [done|]. by intros (? & ?%elem_of_nil & _).
Qed.

(** ** The graph that is run *)

Section run.
Variables (g : graph).
Hypotheses (ids_distinct : NoDup (nodes g)) (index : produced_by (ordered_jobs g) (producers g)) (workers : (1 <= limits g)%nat).

Lemma index_known port id : producers g !! port = Some id -> id ∈ nodes g.
Proof. intros (j & Hj & <- & _)%index. by apply list_elem_of_fmap_2. Qed.

Lemma deps_waits a b : a ∈ nodes g -> b ∈ deps g a <-> waits_on (ordered_jobs g) a b.
Proof.
  intros (ja & -> & Ha)%list_elem_of_fmap. rewrite (deps_row g ids_distinct ja Ha), elem_of_from_keys, list_elem_of_omap.
  split.
  - intros (port & Hr & (jb & Hb & <- & Hp)%index). by exists ja, jb, port.
  - intros (ja' & jb & port & Ha' & Hb & Hid & <- & Hr & Hp).
    assert (ja' = ja) as -> by exact (job_by_id _ _ _ ids_distinct Ha' Ha Hid).
    exists port. split; [done|]. apply index. eauto.
Qed.

Lemma tc_waits a b : tc (fun a b => b ∈ deps g a) a b -> a ∈ nodes g -> tc (waits_on (ordered_jobs g)) a b.
Proof.
  induction 1 as [a b Hab|a b c Hab _ IH]; intros Ha.
  - apply tc_once. by apply deps_waits.
  - eapply tc_l; [by apply deps_waits|]. apply IH. by apply (deps_are_nodes g ids_distinct index_known a).
Qed.

Lemma tc_deps_node a b : tc (fun a b => b ∈ deps g a) a b -> a ∈ nodes g.
Proof.
  assert (Hd : forall x y, y ∈ deps g x -> x ∈ nodes g).
  { intros x y Hy. apply dec_stable. intros Hn. revert Hy. unfold deps, deps_of.
    destruct (_ !! x) as [l|] eqn:El; [|by intros ?%elem_of_nil]. intros _. apply Hn.
    apply (dict_of_lookup (dependencies g)) in El; [|rewrite dependencies_ids; apply ids_distinct].
    rewrite <- dependencies_ids. by apply (list_elem_of_fmap_2 fst _ (x, l)). }
  intros Ht. inversion Ht; subst; by eapply Hd.
Qed.

Lemma cyclic_waits : cyclic g -> exists id, tc (waits_on (ordered_jobs g)) id id.
Proof. intros (id & Ht). exists id. apply tc_waits; [done|]. by eapply tc_deps_node. Qed.

Definition start (bs : list ModelExecutionBudget) (r : PortRegistry) : pipeline := submit_ready g (new_pipeline g bs r).

Lemma start_flow bs r :
  flow g ∅ [] (start bs r) /\ full g (start bs r) /\ work_left (start bs r) = (2 * length (ordered_jobs g))%nat.
Proof.
  destruct (new_pipeline_flow g ids_distinct index_known bs r) as [Hf Hw].
  destruct (submit_flow g ids_distinct index_known ∅ _ Hf) as (Hf' & Hfull & Hw'). split_and!; [done|done|]. unfold start. by rewrite Hw', Hw.
Qed.

Lemma graph_run_ends waits bs r :
  let '(e, p) := run_pipeline g waits (start bs r) in loop_ends g waits e p.
Proof.
  destruct (start_flow bs r) as (Hf & Hfull & _).
  exact (run_pipeline_ends g ids_distinct index_known workers waits ∅ _ Hf Hfull).
Qed.

(** Every [wait] of the run returns a future. *)
Fixpoint productive (waits : list awaited) (p : pipeline) : Prop :=
  match waits with
  | [] => True
  | w :: waits =>
      let p1 := fold_left (worker_step g) (happens w) p in
      match generation_futures p, validation_futures p with
      | [], [] => True
      | _, _ =>
          done_of w p1 <> [] /\
          match after_wait g w p1 with (None, p2) => productive waits p2 | _ => True end
      end
  end.

Lemma full_workers es p : full g p -> full g (fold_left (worker_step g) es p).
Proof.
  revert p. induction es as [|e es IH]; intros p Hp; [done|]. cbn [fold_left]. apply IH.
  destruct (worker_unchanged g p e) as (E1 & _ & _ & E4 & _). unfold full. by rewrite E1, E4.
Qed.

(** Each wait takes one step at least of those that are left. *)
Lemma productive_ends waits : forall D p, flow g D [] p -> full g p -> productive waits p ->
  (work_left p <= length waits)%nat -> (run_pipeline g waits p).1 <> Waiting /\ (run_pipeline g waits p).1 <> TimedOut.
Proof.
  assert (Hidle : forall p, (if decide (pending_ids p = ∅) then (Finished, p) else (Deadlocked, p)).1 <> Waiting /\
    (if decide (pending_ids p = ∅) then (Finished, p) else (Deadlocked, p)).1 <> TimedOut).
  { intros p. by case_decide. }
  induction waits as [|w waits IH]; intros D p Hf Hfull Hprod Hleft; cbn [run_pipeline productive length] in *.
  - unfold work_left in Hleft. destruct (generation_futures p); [|cbn in Hleft; lia].
    destruct (validation_futures p); [apply Hidle|cbn in Hleft; lia].
  - destruct (workers_flow g D (happens w) p Hf) as [Hf1 Hw1]. pose proof (full_workers (happens w) p Hfull) as Hfull1.
    set (p1 := fold_left (worker_step g) (happens w) p) in *.
    pose proof (after_wait_flow g ids_distinct index_known workers D w p1 Hf1 Hfull1) as Ha.
    assert (Hstep : done_of w p1 <> [] /\ match after_wait g w p1 with (None, p2) => productive waits p2 | _ => True end ->
      (match after_wait g w p1 with (Some e, p2) => (e, p2) | (None, p2) => run_pipeline g waits p2 end).1 <> Waiting /\
      (match after_wait g w p1 with (Some e, p2) => (e, p2) | (None, p2) => run_pipeline g waits p2 end).1 <> TimedOut).
    { intros [Hdone Hnext]. destruct (after_wait g w p1) as [[e|] p2].
      - destruct Ha as [_ He]. destruct e; try done. by destruct He.
      - destruct Ha as (D' & Hf2 & Hfull2 & Hw2). apply (IH D'); [done..|].
        destruct (done_of w p1) as [|f fs]; [done|]. cbn [length] in Hw2. lia. }
    destruct (generation_futures p); [destruct (validation_futures p); [apply Hidle|]|]; by apply Hstep.
Qed.
End run.

(** ** The call *)

Context `{PyUnicode}.

Implicit Types (jobs : list ArtifactJob) (bs : list ModelExecutionBudget) (r : PortRegistry).

Definition graph_of (s : surroundings) jobs (producers : gmap pystr pystr) (workers : Z) : graph :=
  GraphOf jobs producers (Z.to_nat workers) (work_timeout s) (now_at s) (caller_lease s) (context s).

Lemma admit_ok s jobs r r' producers : admit_graph s jobs r = Ok (r', producers) ->
  NoDup (map job_id jobs) /\ produced_by jobs producers.
Proof.
  unfold admit_graph. intros Ha. apply res_bind_ok in Ha as (_ & _ & Ha).
  destruct (decide (~ NoDup (map job_id jobs))) as [Hn|Hn]; [done|]. apply dec_stable in Hn.
  apply res_bind_ok in Ha as (r1 & _ & Ha). destruct jobs as [|j jobs].
  { injection Ha as <- <-. split; [done|]. intros port id. rewrite lookup_empty. split; [done|]. by intros (? & ?%elem_of_nil & _). }
  apply res_bind_ok in Ha as (ps & Hp & Ha). apply res_bind_ok in Ha as (_ & _ & Ha).
  destruct (decide (Exists _ _)); [done|]. injection Ha as <- <-. split; [done|].
  pose proof (producer_index_ok (j :: jobs) Hn) as Hi. by rewrite Hp in Hi.
Qed.

(** [execution_context] takes a [ResolvedVersionContext] as it is, the registry does not. *)
Lemma instance_refused s jobs r c : version (context s) = Instance_ c -> is_ok (admit_graph s jobs r) = false.
Proof.
  intros Hv. unfold admit_graph. destruct (res_map_list _ jobs); [|done]. cbn [res_bind].
  destruct (decide (~ NoDup (map job_id jobs))); [done|]. by rewrite Hv.
Qed.

Lemma generation_parallelism_pos env cpus native n workers :
  _generation_parallelism env cpus native n = Ok workers -> 1 <= workers.
Proof. unfold _generation_parallelism. intros (w & _ & [= <-])%res_bind_ok. lia. Qed.

(** How a call with several jobs goes. *)
Lemma execute_cases s jobs bs r single waits out p :
  execute_artifact_graph s jobs bs r single waits = (out, p) -> (2 <= length jobs)%nat ->
  (log p = [] /\ exists e, out = Raises e) \/
  exists r' producers workers e p',
    admit_graph s jobs r = Ok (r', producers) /\
    _generation_parallelism (environ s) (cpus s) (owns_native_model s) (Z.of_nat (length jobs)) = Ok workers /\
    run_pipeline (graph_of s jobs producers workers) waits (start (graph_of s jobs producers workers) bs r') = (e, p') /\
    log p = log p' /\ (e <> Waiting -> p = teardown p') /\
    (forall res, out = Returns res -> e = Finished /\ exists rs, collect jobs (results p') = Ok rs /\
       completed_jobs res = map job_id jobs /\ receipts res = rs).
Proof.
  intros Hx Hlen. unfold execute_artifact_graph in Hx.
  destruct (admit_graph s jobs r) as [[r' producers]|e]; [|left; injection Hx as <- <-; eauto].
  destruct jobs as [|j1 [|j2 jobs]]; [cbn in Hlen; lia..|]. set (all := j1 :: j2 :: jobs) in *.
  destruct (_generation_parallelism _ _ _ _) as [workers|e]; [|left; injection Hx as <- <-; eauto].
  destruct (_validation_parallelism _ _ _) as [v|e]; [|left; injection Hx as <- <-; eauto]. right.
  unfold run_graph in Hx. fold (graph_of s all producers workers) in Hx.
  fold (start (graph_of s all producers workers) bs r') in Hx.
  exists r', producers, workers. destruct (run_pipeline _ waits _) as [e p'] eqn:Er. exists e, p'.
  split; [done|]. split; [done|]. split; [done|].
  destruct e; try (injection Hx as <- <-; split_and!; done).
  destruct (collect all (results p')) as [rs|e] eqn:Ec; injection Hx as <- <-; [|split_and!; done].
  split_and!; [done|done|]. intros res. unfold finish. destruct (wire_java_startup s all rs); [|done].
  intros [= <-]. split; [done|]. exists rs. split_and!; reflexivity.
Qed.

(** C10: Whatever the workers do and whenever the waits return, a graph of several jobs is worked
    on in order: a job is generated at most once, only after every job that produces a port it
    requires has been validated, and only while less jobs than there are workers are being
    generated; it is validated at most once, after it was generated. *)
Theorem graph_runs_in_order s jobs bs r single waits :
  (2 <= length jobs)%nat ->
  let '(out, p) := execute_artifact_graph s jobs bs r single waits in
  forall past event future, log p = past ++ event :: future ->
    match event with
    | Starts_ id _ running =>
        id ∈ map job_id jobs /\ id ∉ started past /\ (forall d, waits_on jobs id d -> d ∈ accepted past) /\
        exists workers, _generation_parallelism (environ s) (cpus s) (owns_native_model s) (Z.of_nat (length jobs)) = Ok workers /\
          Z.of_nat running < workers
    | Accepts id => id ∈ started past /\ id ∉ accepted past
    end.
Proof.
  intros Hlen. destruct (execute_artifact_graph s jobs bs r single waits) as [out p] eqn:Hx.
  destruct (execute_cases _ _ _ _ _ _ _ _ Hx Hlen) as [[Hl _]|(r' & ps & workers & e & p' & Ha & Hw & Hr & Hl & _)].
  { intros past event future. rewrite Hl. by destruct past. }
  destruct (admit_ok _ _ _ _ _ Ha) as [Hn Hp]. pose proof (generation_parallelism_pos _ _ _ _ _ Hw) as Hpos.
  set (g := graph_of s jobs ps workers) in *.
  pose proof (graph_run_ends g Hn Hp ltac:(cbn; lia) waits bs r') as He. rewrite Hr in He. destruct He as [[Ho _] _].
  intros past event future Hlog. rewrite Hl in Hlog. specialize (Ho past event future Hlog).
  destruct event as [id f running|id]; [|done]. destruct Ho as (Hid & Hs & Hd & Hrun). split_and!; [done|done| |].
  - intros d Hwait. apply Hd. by apply (deps_waits g Hn Hp).
  - exists workers. split; [done|]. cbn in Hrun. lia.
Qed.

(** C13: When the execution of a graph of several jobs succeeds, its result names every job, in
    the order in which they were given, with one receipt for each: the one that the job's own
    worker returned, and that the validation accepted; every job was validated. *)
Theorem graph_result_complete s jobs bs r single waits res p :
  (2 <= length jobs)%nat -> execute_artifact_graph s jobs bs r single waits = (Returns res, p) ->
  completed_jobs res = map job_id jobs /\
  Forall2 (fun job receipt =>
    (exists r file_exists, _validate_completed_job (context s) r file_exists job receipt = Ok tt) /\
    exists f running, Starts_ (job_id job) f running ∈ log p /\ generated p !! f = Some (Ok receipt))
    jobs (receipts res) /\
  forall id, id ∈ accepted (log p) <-> id ∈ map job_id jobs.
Proof.
  intros Hlen Hx.
  destruct (execute_cases _ _ _ _ _ _ _ _ Hx Hlen) as [[_ [e He]]|(r' & ps & workers & e & p' & Ha & Hw & Hr & Hl & Ht & Hres)]; [done|].
  destruct (admit_ok _ _ _ _ _ Ha) as [Hn Hp]. pose proof (generation_parallelism_pos _ _ _ _ _ Hw) as Hpos.
  destruct (Hres res eq_refl) as (-> & rs & Hc & Hids & <-). set (g := graph_of s jobs ps workers) in *.
  pose proof (graph_run_ends g Hn Hp ltac:(cbn; lia) waits bs r') as He. rewrite Hr in He.
  destruct He as (_ & (D & [Ho Htasks _ Hch]) & Hpend & Hidle). unfold active in Hidle.
  destruct (generation_futures p') as [|x l] eqn:Eg; [|exfalso; apply Hidle; by left].
  destruct (validation_futures p') as [|x l] eqn:Ev; [|exfalso; apply Hidle; by right].
  assert (Hall : forall id, id ∈ validated_jobs p' <-> id ∈ map job_id jobs).
  { intros id. pose proof (ord_pending _ _ _ _ Ho id) as Hpe. unfold gen_ids, val_ids in Hpe. rewrite Eg, Ev, Hpend in Hpe. cbn [map app] in Hpe.
    pose proof (not_elem_of_nil id). change (nodes g) with (map job_id jobs) in Hpe. split.
    - intros Hid. destruct (task_results _ _ Htasks id Hid) as (job & _ & Hj & <- & _). by apply list_elem_of_fmap_2.
    - intros Hid. apply dec_stable. intros Hv. assert (Hin : id ∈ (∅ : gset pystr)); [|set_solver]. by apply Hpe. }
  split; [done|]. split; [|intros id; by rewrite Hl, (chr_accepted _ Hch), Hall].
  unfold collect in Hc. apply res_map_list_ok in Hc. rewrite (Ht ltac:(done)). cbn [log teardown generated cancel_leases GraphExecutor.set_leases].
  rewrite Forall2_lookup in Hc |- *. intros i. specialize (Hc i).
  destruct (jobs !! i) as [job|] eqn:Ej; inversion Hc as [? receipt Hrec|]; subst; constructor.
  assert (Hj : job ∈ jobs) by by eapply list_elem_of_lookup_2.
  destruct (results p' !! job_id job) as [r0|] eqn:Er; [|done]. injection Hrec as ->.
  destruct (task_results _ _ Htasks (job_id job)) as (job' & receipt' & Hj' & Hid & Hr' & Happ & Horig).
  { apply Hall. by apply list_elem_of_fmap_2. }
  rewrite (job_by_id jobs job' job Hn Hj' Hj Hid) in Happ. rewrite Er in Hr'. injection Hr' as <-. by split.
Qed.

(** The ports of an accepted graph are connected as its validation has seen. *)
Lemma accepted_waits module_ids jobs a b : acceptable module_ids jobs -> waits_on jobs a b -> waits_for jobs a b.
Proof.
  intros [_ Hsup _] (ja & jb & port & Ha & Hb & Hida & Hidb & Hr & Hp). exists ja, jb, port. split_and!; try done.
  destruct (Hsup ja port Ha Hr) as (j' & _ & Hp' & _). unfold produces_port in *.
  apply list_elem_of_fmap in Hp' as (raw & -> & _). rewrite <- strip_idem. by apply list_elem_of_fmap_2.
Qed.

Lemma deadlock_is_cycle s jobs bs r r' producers workers waits :
  admit_graph s jobs r = Ok (r', producers) -> 1 <= workers ->
  let g := graph_of s jobs producers workers in
  (run_pipeline g waits (start g bs r')).1 = Deadlocked -> exists id, tc (waits_on jobs) id id.
Proof.
  intros Ha Hw g Hd. destruct (admit_ok _ _ _ _ _ Ha) as [Hn Hp].
  pose proof (graph_run_ends g Hn Hp ltac:(cbn; lia) waits bs r') as He.
  destruct (run_pipeline g waits _) as [e p]. cbn [fst] in Hd. subst e. destruct He as [_ Hc].
  by apply (cyclic_waits g Hn Hp).
Qed.

(** C11: A graph of artifact jobs that [validate_artifact_job_graph] has accepted, and that the
    executor admits, is never found in a deadlock nor its counts corrupt; and once two waits for
    each job have each returned some future, the pipeline has finished, unless a worker or a
    validation has failed. *)
Theorem validated_graph_finishes module_ids s jobs jobs' bs r r' producers workers waits :
  validate_artifact_job_graph module_ids jobs = Ok jobs' ->
  admit_graph s jobs r = Ok (r', producers) ->
  _generation_parallelism (environ s) (cpus s) (owns_native_model s) (Z.of_nat (length jobs)) = Ok workers ->
  let g := graph_of s jobs producers workers in
  let '(e, p) := run_pipeline g waits (start g bs r') in
  e <> Deadlocked /\ e <> Corrupt /\
  (productive g waits (start g bs r') -> (2 * length jobs <= length waits)%nat ->
     e = Finished \/ exists cause f, e = JobFailed cause /\
       (generated p !! f = Some (Err cause) \/ checked p !! f = Some (Err cause))).
Proof.
  intros Hv Ha Hw g. apply generation_parallelism_pos in Hw. destruct (admit_ok _ _ _ _ _ Ha) as [Hn Hp].
  pose proof (artifact_graph_accepted_iff module_ids jobs jobs' Hv) as Hacc.
  assert (Hdead : (run_pipeline g waits (start g bs r')).1 <> Deadlocked).
  { intros Hd. destruct (deadlock_is_cycle s jobs bs r r' producers workers waits Ha Hw Hd) as [id Ht].
    apply (acc_acyclic _ _ Hacc id). revert Ht. generalize id at 2 4. intros id'. induction 1 as [x y Hxy|x y z Hxy _ IH].
    - apply tc_once. by eapply accepted_waits.
    - eapply tc_l; [by eapply accepted_waits|done]. }
  destruct (start_flow g Hn Hp bs r') as (Hf & Hfull & Hleft).
  pose proof (productive_ends g Hn Hp ltac:(cbn; lia) waits ∅ _ Hf Hfull) as Hend.
  pose proof (graph_run_ends g Hn Hp ltac:(cbn; lia) waits bs r') as He.
  destruct (run_pipeline g waits (start g bs r')) as [e p]. cbn [fst] in *. destruct He as [_ He].
  split; [done|]. split; [by intros ->|]. intros Hprod Hlen.
  destruct (Hend Hprod ltac:(rewrite Hleft; exact Hlen)) as [H1' H2']. destruct e as [| | | |cause|]; try done; [by left|right].
  destruct He as [f Hx]. by exists cause, f.
Qed.

(** C14: When the execution of a graph ends, in whatever way, no job that is still being generated
    or validated can publish a port any more, however its lease is bound or extended later. *)
Theorem ended_graph_is_fenced s jobs bs r r' producers workers waits e p b bs' bs'' port registry :
  admit_graph s jobs r = Ok (r', producers) ->
  _generation_parallelism (environ s) (cpus s) (owns_native_model s) (Z.of_nat (length jobs)) = Ok workers ->
  run_pipeline (graph_of s jobs producers workers) waits (start (graph_of s jobs producers workers) bs r') = (e, p) ->
  b ∈ map gen_lease (generation_futures p) ++ map val_lease (validation_futures p) ->
  same_shape (leases (teardown p)) bs' ->
  publish bs' bs'' (Some b) port registry = Err ModelExecutionCancelled.
Proof.
  intros Ha Hw Hr Hb (_ & Hlen & Hsame). apply generation_parallelism_pos in Hw. destruct (admit_ok _ _ _ _ _ Ha) as [Hn Hp].
  set (g := graph_of s jobs producers workers) in *.
  pose proof (graph_run_ends g Hn Hp ltac:(cbn; lia) waits bs r') as He. rewrite Hr in He. destruct He as [[_ Hbound] _].
  specialize (Hbound b Hb). fold (active_leases p) in Hb.
  assert (Hcancel : forall l ls, (b < length ls)%nat -> is_cancelled ls b = true \/ b ∈ l ->
    is_cancelled (fold_left (fun ls b => set_cancelled b ls) l ls) b = true /\
    length (fold_left (fun ls b => set_cancelled b ls) l ls) = length ls).
  { induction l as [|x l IH]; intros ls Hlt Hc; cbn [fold_left].
    - destruct Hc as [Hc|Hc]; [done|by apply elem_of_nil in Hc].
    - destruct (IH (set_cancelled x ls)) as [H1' H2'].
      + unfold set_cancelled. by rewrite length_alter.
      + destruct (decide (x = b)) as [->|Hne].
        * left. unfold is_cancelled, set_cancelled. rewrite list_lookup_alter_eq. by destruct (lookup_lt_is_Some_2 ls b Hlt) as [y ->].
        * destruct Hc as [Hc|[->|Hc]%elem_of_cons]; [left|done|by right].
          unfold is_cancelled, set_cancelled in *. by rewrite list_lookup_alter_ne.
      + split; [done|]. rewrite H2'. unfold set_cancelled. apply length_alter. }
  destruct (Hcancel (active_leases p) (leases p) Hbound (or_intror Hb)) as [Hc Hl].
  change (fold_left _ (active_leases p) (leases p)) with (leases (teardown p)) in Hc, Hl.
  unfold publish, raise_if_model_execution_cancelled at 1, owners_of. rewrite Hlen, Hl.
  destruct (length (leases p)) as [|n]; [lia|]. cbn [owners existsb]. by rewrite Hsame, Hc.
Qed.
End execution.
