(* ===== verification/GraphExamples.v ===== *)
(** * GraphExamples: three jobs, two of them connected by a port *)

From stdpp Require Import prelude gmap sets strings list sorting relations.
From S2P Require Import JsonExamples LedgerExamples PatchExamples.
From S2P Require Import Prelude Text Json PyJson RLocks ExecutionBudget ArtifactPorts.
From S2P Require Import ArtifactJob JobGraph GraphExecutor GraphPipeline GraphExecutorProps.

Open Scope Z_scope.
Open Scope py_scope.

Definition example_job (id : string) (reqs prods : list string) : ArtifactJob :=
  Job (u id) [] (u "lunite") MODEL [] [] [] None (map u reqs) (map u prods) [] [] [] (u "PENDING") [] []
    (u "ctx") (u "item/basic") (u "model:item").

Definition item_job : ArtifactJob := example_job "item" [] ["lunite.id"].
Definition texture_job : ArtifactJob := example_job "texture" ["lunite.id"] [].
Definition sound_job : ArtifactJob := example_job "sound" [] [].
Definition three_jobs : list ArtifactJob := [texture_job; item_job; sound_job].

Definition id_port : TypedPort := Port (u "lunite.id") REGISTRY_ID (u "Item") (u "space:lunite") (u "ctx").
Definition pass_receipt : dict := [(u "status", JStr (u "PASS")); (u "context_id", JStr (u "ctx"))].

(** ** Ports *)

Definition bound_registry : PortRegistry := Registry [] (u "ctx").
Definition live_lease : list ModelExecutionBudget := [Budget 100 None false].

Lemma published_port_resolves_witness :
  publish live_lease live_lease (Some 0%nat) id_port bound_registry =
    Ok (Registry [(u "lunite.id", id_port)] (u "ctx")) /\
  resolve (u "lunite.id") (u "REGISTRY_ID") (u "ITEM")
    (after_calls [BindContext (u "other"); Publish [] [] None (Port (u "lunite.id") GENERIC [] (u "x") (u "ctx"))]
       (Registry [(u "lunite.id", id_port)] (u "ctx"))) = Ok id_port.
Proof.
  assert (Hp : publish live_lease live_lease (Some 0%nat) id_port
    (after_calls [BindContext (u "ctx")] new_registry) = Ok (Registry [(u "lunite.id", id_port)] (u "ctx"))).
  { vm_compute. reflexivity. }
  split; [exact Hp|].
  destruct (published_port_resolves [BindContext (u "ctx")]
    [BindContext (u "other"); Publish [] [] None (Port (u "lunite.id") GENERIC [] (u "x") (u "ctx"))]
    live_lease live_lease (Some 0%nat) id_port _ Hp) as [Hr _].
  apply (proj2 (Hr (u "REGISTRY_ID") (u "ITEM") id_port)). split; [reflexivity|]. split; vm_compute; reflexivity.
Defined.

(** ** Jobs *)

Lemma artifact_job_roundtrip_witness :
  NoDup (reverse (job_to_dict texture_job)).*1 /\
  job_from_dict (JObj (reverse (job_to_dict texture_job))) = Ok texture_job.
Proof.
  assert (Hn : NoDup (reverse (job_to_dict texture_job)).*1) by (apply (bool_decide_unpack _); vm_compute; exact I).
  split; [exact Hn|]. apply (proj2 (artifact_job_roundtrip (reverse (job_to_dict texture_job)) texture_job Hn)).
  apply reverse_Permutation.
Defined.

Example unknown_field : job_from_dict (JObj ((u "note", JNull) :: job_to_dict texture_job)) = Err ValueError.
Proof. vm_compute. reflexivity. Qed.

Example three_jobs_accepted : validate_artifact_job_graph [u " lunite "; u ""] three_jobs = Ok three_jobs.
Proof. vm_compute. reflexivity. Qed.

Example cycle_refused :
  validate_artifact_job_graph [] [example_job "a" ["p"] ["q"]; example_job "b" ["q"] ["p"]] = Err ValueError.
Proof. vm_compute. reflexivity. Qed.

Example foreign_owner_refused : validate_artifact_job_graph [u "copper"] three_jobs = Err ValueError.
Proof. vm_compute. reflexivity. Qed.

(** The jobs have names with white space around them: only a producer is refused, with a [KeyError]. *)
Example padded_names :
  validate_artifact_job_graph [] [example_job " a" [] []] = Ok [example_job " a" [] []] /\
  validate_artifact_job_graph [] [example_job " a" [] ["p"]; example_job "b" ["p"] []] = Err KeyError.
Proof. vm_compute. split; reflexivity. Qed.

(** ** An execution *)

Definition example_context : validation_context :=
  ValidationContext (Snapshot (Ok (Resolved (u "ctx") (u "1.21.4")))) None None.

Definition example_surroundings : surroundings :=
  Surroundings example_context (fun _ => Err ValueError) (fun _ => None) 4 false 1000 (fun n => Z.of_nat n) None
    (fun _ _ => Ok tt).

Definition example_graph : graph :=
  graph_of example_surroundings three_jobs (<[u "lunite.id" := u "item"]> ∅) 3.

(** The item (future 0) and the sound (1) are generated at once; the item is validated (2) before
    the texture (4) is generated. *)
Definition example_waits : list awaited :=
  [Awaited [LeaseStarts 0; PortPublished 0 id_port; Generates 0 (Ok pass_receipt)] [0%nat] 10;
   Awaited [LeaseRenews 1 15 50; Generates 1 (Ok pass_receipt); Validates 2 (fun _ => true)] [2%nat; 1%nat] 20;
   Awaited [Generates 4 (Ok pass_receipt); Validates 3 (fun _ => true)] [4%nat; 3%nat] 30;
   Awaited [Validates 5 (fun _ => true)] [5%nat] 40; Awaited [] [] 50; Awaited [] [] 60].

Definition no_single : single_run := SingleRun [] (Err ValueError) (fun _ => false).

Definition example_run : graph_outcome * pipeline :=
  execute_artifact_graph example_surroundings three_jobs [] new_registry no_single example_waits.

Example example_log : log example_run.2 =
  [Starts_ (u "item") 0 0; Starts_ (u "sound") 1 1; Accepts (u "item"); Starts_ (u "texture") 4 0;
   Accepts (u "sound"); Accepts (u "texture")].
Proof. vm_compute. reflexivity. Qed.

Definition example_result : graph_result :=
  GraphResult (map u ["texture"; "item"; "sound"]) [pass_receipt; pass_receipt; pass_receipt]
    [(u "lunite.id", port_to_dict id_port)].

Lemma graph_runs_in_order_witness :
  (2 <= length three_jobs)%nat /\ forall d, waits_on three_jobs (u "texture") d -> d ∈ [u "item"].
Proof.
  split; [cbn; lia|].
  pose proof (graph_runs_in_order example_surroundings three_jobs [] new_registry no_single example_waits ltac:(cbn; lia)) as Ho.
  fold example_run in Ho. destruct example_run as [out p] eqn:Er.
  assert (Hl : log p = [Starts_ (u "item") 0 0; Starts_ (u "sound") 1 1; Accepts (u "item")] ++ Starts_ (u "texture") 4 0 ::
    [Accepts (u "sound"); Accepts (u "texture")]).
  { change p with (out, p).2. rewrite <- Er. vm_compute. reflexivity. }
  destruct (Ho _ _ _ Hl) as (_ & _ & Hd & _). intros d Hw. exact (Hd d Hw).
Defined.

Lemma graph_result_complete_witness :
  example_run.1 = Returns example_result /\
  forall id, id ∈ accepted (log example_run.2) <-> id ∈ map job_id three_jobs.
Proof.
  assert (Ho : example_run.1 = Returns example_result) by (vm_compute; reflexivity).
  assert (Hr : example_run = (Returns example_result, example_run.2)) by (rewrite <- Ho; apply surjective_pairing).
  split; [exact Ho|].
  apply (graph_result_complete example_surroundings three_jobs [] new_registry no_single example_waits
    example_result example_run.2 ltac:(cbn; lia) Hr).
Defined.

Lemma validated_graph_finishes_witness :
  (run_pipeline example_graph example_waits (start example_graph [] bound_registry)).1 <> Deadlocked /\
  (run_pipeline example_graph example_waits (start example_graph [] bound_registry)).1 = Finished.
Proof.
  assert (Hp : productive example_graph example_waits (start example_graph [] bound_registry)).
  { vm_compute. repeat split; discriminate. }
  pose proof (validated_graph_finishes [] example_surroundings three_jobs three_jobs [] new_registry bound_registry
    (<[u "lunite.id" := u "item"]> ∅) 3 example_waits ltac:(vm_compute; reflexivity) ltac:(vm_compute; reflexivity)
    ltac:(vm_compute; reflexivity)) as Hf. cbv zeta in Hf. fold example_graph in Hf.
  assert (He : (run_pipeline example_graph example_waits (start example_graph [] bound_registry)).1 = Finished) by (vm_compute; reflexivity).
  destruct (run_pipeline example_graph example_waits (start example_graph [] bound_registry)) as [e p].
  split; [apply Hf|]. destruct Hf as (_ & _ & Hf). destruct (Hf Hp ltac:(cbn; lia)) as [->|(x & f & -> & _)]; [reflexivity|exact He].
Defined.

(** The texture fails while the sound is still being generated. *)
Definition failing_waits : list awaited :=
  [Awaited [Generates 0 (Err (OtherException "model"))] [0%nat] 10].

Definition failed_run : pipeline := (run_pipeline example_graph failing_waits (start example_graph [] bound_registry)).2.

Lemma ended_graph_is_fenced_witness :
  publish (leases (teardown failed_run)) (leases (teardown failed_run)) (Some 1%nat) id_port bound_registry =
    Err ModelExecutionCancelled.
Proof.
  unfold failed_run.
  apply (ended_graph_is_fenced example_surroundings three_jobs [] new_registry bound_registry
    (<[u "lunite.id" := u "item"]> ∅) 3 failing_waits (JobFailed (OtherException "model"))
    (run_pipeline example_graph failing_waits (start example_graph [] bound_registry)).2 1%nat
    (leases (teardown (run_pipeline example_graph failing_waits (start example_graph [] bound_registry)).2))
    (leases (teardown (run_pipeline example_graph failing_waits (start example_graph [] bound_registry)).2)) id_port bound_registry).
  - vm_compute. reflexivity.
  - vm_compute. reflexivity.
  - vm_compute. reflexivity.
  - apply (bool_decide_unpack _). vm_compute. exact I.
  - apply same_shape_refl.
Defined.

(** Two jobs that wait for each other: the executor, unlike the validation, finds out at the end. *)
Example cycle_deadlocks :
  (execute_artifact_graph example_surroundings [example_job "a" ["p"] ["q"]; example_job "b" ["q"] ["p"]] [] new_registry
     no_single []).1 = Raises (ArtifactGraphError "ARTIFACT_GRAPH_DEADLOCK").
Proof. vm_compute. reflexivity. Qed.

(** A single job that requires its own port is run all the same. *)
Example single_self_loop :
  (execute_artifact_graph example_surroundings [example_job "a" ["lunite.id"] ["lunite.id"]] [] new_registry
     (SingleRun [Publish [] [] None id_port] (Ok pass_receipt) (fun _ => false)) []).1 =
  Returns (GraphResult [u "a"] [pass_receipt] [(u "lunite.id", port_to_dict id_port)]).
Proof. vm_compute. reflexivity. Qed.

(** A limit that is no number stops the graph. *)
Example bad_limit :
  _generation_parallelism (fun name => if decide (name = u "MMM_ARTIFACT_MAX_WORKERS") then Some (u "many") else None) 4
    false 3 = graph_error "must be a positive integer" /\
  _generation_parallelism (fun name => if decide (name = u "MMM_ARTIFACT_MAX_WORKERS") then Some (u " 2 ") else None) 16
    false 9 = Ok 2 /\
  _generation_parallelism (fun _ => None) 16 true 9 = Ok 1.
Proof. vm_compute. repeat split. Qed.
