(* ===== verification/SpecIdentity.v ===== *)
(** * SpecIdentity: [spec_identity.py]

    The identifiers of a proposal, and the one that any text is given: letters, digits and
    single underscores, at most 64 characters. *)

From stdpp Require Import prelude strings list.
From S2P Require Import Prelude Text Json JsonStream JsonReader Sha256.

Open Scope Z_scope.
Open Scope py_scope.

Definition SPEC_ID_MAX_LENGTH : nat := 64.

Definition is_lower (c : Z) : bool := (97 <=? c) && (c <=? 122).
Definition id_char (c : Z) : bool := is_lower c || is_digit c || (c =? 95).

(** [SPEC_ID_RE.fullmatch] *)
Definition spec_id (s : pystr) : bool :=
  match s with
  | c :: s => is_lower c && forallb id_char s && (1 <=? length s)%nat && (length s <=? 63)%nat
  | [] => false
  end.

(** [re.sub("[..]+", "_", s)]: every run of such characters becomes one underscore. *)
Fixpoint sub_runs (run : Z -> bool) (inside : bool) (s : pystr) : pystr :=
  match s with
  | [] => []
  | c :: s => if run c then (if inside then [] else [95]) ++ sub_runs run true s else c :: sub_runs run false s
  end.

(** [s.lstrip("_")] and [s.rstrip("_")] *)
Fixpoint lstrip_underscores (s : pystr) : pystr :=
  match s with c :: s' => if c =? 95 then lstrip_underscores s' else s | [] => [] end.

Fixpoint rstrip_underscores (s : pystr) : pystr :=
  match s with
  | [] => []
  | c :: s => match rstrip_underscores s with [] => if c =? 95 then [] else [c] | t => c :: t end
  end.

Definition normalized_name (s : pystr) : pystr :=
  let s := sub_runs (fun c => negb (id_char c)) false s in
  let s := sub_runs (fun c => c =? 95) false s in
  rstrip_underscores (lstrip_underscores s).

(** [s[0].isalpha()], the characters of [s] being those of identifiers. *)
Definition starts_alpha (s : pystr) : bool := match s with c :: _ => is_lower c | [] => false end.

(** [s or default] *)
Definition or_else (s default : pystr) : pystr := match s with [] => default | _ => s end.

Definition with_letter (s : pystr) : pystr := if starts_alpha s then s else u "id_" ++ s.

(** ** Digests *)

Definition hex_char (c : Z) : bool := is_digit c || ((97 <=? c) && (c <=? 102)).

Lemma compress_length h block : length h = 8%nat -> length (compress h block) = 8%nat.
Proof.
  intros Hh. unfold compress. rewrite length_zip_with, Hh.
  assert (Hf : forall l s, length s = 8%nat -> length (fold_left compress_round l s) = 8%nat); [|by rewrite Hf].
  induction l as [|kw l IH]; intros s Hs; [done|]. cbn [fold_left]. apply IH.
  do 9 (destruct s as [|? s]; try done).
Qed.

Lemma compress_blocks_length n h words : length h = 8%nat -> length (compress_blocks n h words) = 8%nat.
Proof. revert h words. induction n as [|n IH]; intros h words Hh; [done|]. cbn. by apply IH, compress_length. Qed.

Lemma hex_digit_char d : 0 <= d < 16 -> hex_char (hex_digit d) = true.
Proof.
  intros Hd. unfold hex_char, hex_digit, is_digit. destruct (d <? 10) eqn:E; [apply Z.ltb_lt in E|apply Z.ltb_ge in E];
    rewrite orb_true_iff, !andb_true_iff, !Z.leb_le; lia.
Qed.

Lemma hex_of_word_shape w : length (hex_of_word w) = 8%nat /\ forallb hex_char (hex_of_word w) = true.
Proof.
  unfold hex_of_word. cbn [bytes_of_word app map concat length]. split; [done|]. cbn [forallb].
  assert (Hm : forall x, 0 <= x mod 256 < 256) by (intros x; apply Z.mod_pos_bound; lia).
  rewrite !hex_digit_char; [done|..]; try (apply Z.mod_pos_bound; lia);
    (split; [apply Z.div_pos; [apply Hm|lia]|apply Z.div_lt_upper_bound; [lia|apply Hm]]).
Qed.

Lemma hexdigest_shape bytes : length (hexdigest bytes) = 64%nat /\ forallb hex_char (hexdigest bytes) = true.
Proof.
  assert (Hw : forall l, length (concat (map hex_of_word l)) = (8 * length l)%nat /\ forallb hex_char (concat (map hex_of_word l)) = true).
  { induction l as [|w l [IHl IHc]]; [done|]. destruct (hex_of_word_shape w) as [Hl Hc]. cbn [map concat length].
    rewrite length_app, forallb_app, Hl, Hc, IHl. split; [lia|done]. }
  unfold hexdigest. destruct (Hw (sha256 bytes)) as [Hl Hc]. split; [|done].
  rewrite Hl. unfold sha256. by rewrite compress_blocks_length.
Qed.

Section identity.
Context `{PyCasefold}.

Definition canonical_spec_id (value fallback : pystr) : res pystr :=
  let fallback_value := with_letter (or_else (normalized_name (casefold (or_else fallback (u "id")))) (u "id")) in
  let normalized := with_letter (or_else (normalized_name (casefold (strip value))) fallback_value) in
  if (length normalized <=? SPEC_ID_MAX_LENGTH)%nat && spec_id normalized then Ok normalized
  else
    let* bytes := utf8_encode normalized in
    let digest := take 12 (hexdigest bytes) in
    let budget := (SPEC_ID_MAX_LENGTH - length digest - 1)%nat in
    let prefix := or_else (rstrip_underscores (take budget normalized)) (take budget fallback_value) in
    let prefix := if starts_alpha prefix then prefix else rstrip_underscores (take budget (u "id_" ++ prefix)) in
    let result := prefix ++ 95 :: digest in
    if spec_id result then Ok result else Err ValueError.

(** ** Names without doubled, leading or trailing underscores *)

(** [tame b s]: so is [s] after an underscore, if [b], or after another character. *)
Fixpoint tame (b : bool) (s : pystr) : bool :=
  match s with
  | [] => negb b
  | c :: s => if c =? 95 then negb b && tame true s else id_char c && tame false s
  end.

(** Without the condition at the end. *)
Fixpoint squeezed (b : bool) (s : pystr) : bool :=
  match s with
  | [] => true
  | c :: s => if c =? 95 then negb b && squeezed true s else id_char c && squeezed false s
  end.

Lemma tame_squeezed b s : tame b s = true -> squeezed b s = true.
Proof.
  revert b. induction s as [|c s IH]; intros b; [done|]. cbn [tame squeezed].
  case_match; rewrite !andb_true_iff; naive_solver.
Qed.

Lemma tame_chars b s : tame b s = true -> forallb id_char s = true.
Proof.
  revert b. induction s as [|c s IH]; intros b; [done|]. cbn [tame forallb].
  destruct (c =? 95) eqn:E; rewrite !andb_true_iff; intros [Hc Hs]; split; [|by eauto|done|by eauto].
  unfold id_char. by rewrite E, !orb_true_r.
Qed.

Lemma squeezed_take b n s : squeezed b s = true -> squeezed b (take n s) = true.
Proof.
  revert b n. induction s as [|c s IH]; intros b [|n]; [done..|]. cbn [squeezed take].
  case_match; rewrite !andb_true_iff; naive_solver.
Qed.

Lemma sub_runs_bad b b' s : squeezed b s = true -> sub_runs (fun c => negb (id_char c)) b' s = s.
Proof.
  revert b b'. induction s as [|c s IH]; intros b b'; [done|]. cbn [squeezed sub_runs].
  destruct (c =? 95) eqn:E; rewrite andb_true_iff; intros [Hc Hs].
  - apply Z.eqb_eq in E as ->. cbn. f_equal. by eauto.
  - rewrite Hc. cbn [negb]. f_equal. by eauto.
Qed.

Lemma sub_runs_underscores b s : squeezed b s = true -> sub_runs (fun c => c =? 95) b s = s.
Proof.
  revert b. induction s as [|c s IH]; intros b; [done|]. cbn [squeezed sub_runs].
  destruct (c =? 95) eqn:E; rewrite andb_true_iff; intros [Hc Hs].
  - apply Z.eqb_eq in E as ->. destruct b; [done|]. cbn [app]. f_equal. by apply IH.
  - f_equal. by apply IH.
Qed.

Lemma sub_runs_squeezed b s : squeezed b (sub_runs (fun c => c =? 95) b (sub_runs (fun c => negb (id_char c)) false s)) = true /\
  squeezed b (sub_runs (fun c => c =? 95) b (sub_runs (fun c => negb (id_char c)) true s)) = true.
Proof.
  revert b. induction s as [|c s IH]; intros b; [by destruct b|]. cbn [sub_runs].
  destruct (id_char c) eqn:Ec; cbn [negb].
  - cbn [sub_runs]. destruct (c =? 95) eqn:E.
    + destruct b; cbn; split; apply IH.
    + cbn [squeezed]. rewrite E, Ec. cbn [andb]. split; apply IH.
  - cbn [app]. split; [|apply IH]. destruct b; cbn; apply IH.
Qed.

Lemma lstrip_squeezed s : squeezed false s = true -> squeezed true (lstrip_underscores s) = true.
Proof.
  assert (Hg : forall b s, squeezed b s = true -> squeezed true (lstrip_underscores s) = true); [|apply Hg].
  intros b s'. revert b. induction s' as [|c s' IH]; intros b; [done|]. cbn [squeezed lstrip_underscores].
  destruct (c =? 95) eqn:E; rewrite andb_true_iff; intros [Hc Hs]; [by eauto|]. cbn [squeezed]. by rewrite E, Hc.
Qed.

Lemma rstrip_tame b s : squeezed b s = true -> rstrip_underscores s = [] \/ tame b (rstrip_underscores s) = true.
Proof.
  revert b. induction s as [|c s IH]; intros b; [by left|]. cbn [squeezed rstrip_underscores].
  destruct (c =? 95) eqn:E; rewrite andb_true_iff; intros [Hc Hs]; destruct (IH _ Hs) as [Hr|Hr].
  - rewrite Hr. by left.
  - right. destruct (rstrip_underscores s) eqn:Er; [done|]. cbn [tame]. rewrite E, Hc. exact Hr.
  - rewrite Hr. right. cbn [tame]. by rewrite E, Hc.
  - right. destruct (rstrip_underscores s) eqn:Er; cbn [tame]; rewrite E, Hc; [done|]. exact Hr.
Qed.

Lemma lstrip_tame s : tame true s = true -> lstrip_underscores s = s.
Proof. destruct s as [|c s]; [done|]. cbn [tame lstrip_underscores]. by destruct (c =? 95). Qed.

Lemma rstrip_tame_id b s : tame b s = true -> rstrip_underscores s = s.
Proof.
  revert b. induction s as [|c s IH]; intros b; [done|]. cbn [tame rstrip_underscores].
  destruct (c =? 95) eqn:E; rewrite andb_true_iff; intros [Hc Hs]; rewrite (IH _ Hs); destruct s; try done.
Qed.

Lemma rstrip_head c s : (c =? 95) = false -> exists t, rstrip_underscores (c :: s) = c :: t.
Proof.
  intros Hc. cbn [rstrip_underscores]. rewrite Hc. destruct (rstrip_underscores s) as [|x t]; [by exists []|by exists (x :: t)].
Qed.

Lemma normalized_name_tame s : normalized_name s = [] \/ tame true (normalized_name s) = true.
Proof. unfold normalized_name. apply rstrip_tame, lstrip_squeezed, sub_runs_squeezed. Qed.

Lemma normalized_name_id s : tame true s = true -> normalized_name s = s.
Proof.
  intros Hs. unfold normalized_name. pose proof (tame_squeezed _ _ Hs) as Hq.
  rewrite (sub_runs_bad true) by done. rewrite sub_runs_underscores.
  - rewrite lstrip_tame by done. by eapply rstrip_tame_id.
  - destruct s as [|c s]; [done|]. cbn [squeezed] in *. by destruct (c =? 95).
Qed.

(** A name: it begins with a letter, too. *)
Definition proper (s : pystr) : Prop := tame true s = true /\ starts_alpha s = true.

Lemma with_letter_proper s : tame true s = true -> proper (with_letter s).
Proof.
  intros Hs. unfold with_letter. destruct (starts_alpha s) eqn:E; [by split|]. split; [|done]. by cbn.
Qed.

Lemma or_else_tame s d : s = [] \/ tame true s = true -> tame true d = true -> tame true (or_else s d) = true.
Proof. intros [->|Hs] Hd; [done|]. destruct s; [done|]. exact Hs. Qed.

Lemma proper_no_space s : forallb id_char s = true -> strip s = s.
Proof.
  intros Hs. assert (Hl : forall t, forallb id_char t = true -> lstrip t = t).
  { intros t Ht. apply lstrip_fix. intros c t' ->. cbn [forallb] in Ht. apply andb_true_iff in Ht as [Hc _].
    assert (Hr : 33 <= c <= 127).
    { unfold id_char, is_lower, is_digit in Hc. rewrite !orb_true_iff, !andb_true_iff, !Z.leb_le, Z.eqb_eq in Hc. lia. }
    unfold is_space. rewrite bool_decide_eq_false_2 by (rewrite !elem_of_cons, elem_of_nil; lia).
    destruct (c <=? 13) eqn:E1, (c <=? 32) eqn:E2, (0x2000 <=? c) eqn:E3; rewrite ?Z.leb_le in *; try lia; by rewrite ?andb_false_r. }
  unfold strip. rewrite (Hl s Hs), Hl, reverse_involutive; [done|].
  rewrite forallb_forall in *. intros x Hx%list_elem_of_In. apply Hs, list_elem_of_In. by rewrite elem_of_reverse in Hx.
Qed.

Lemma casefold_id s : forallb id_char s = true -> casefold s = s.
Proof.
  unfold casefold. induction s as [|c s IH]; [done|]. cbn [forallb map concat]. rewrite andb_true_iff. intros [Hc Hs].
  rewrite IH by done. assert (Hr : ((65 <=? c) && (c <=? 90)) = false /\ (c <? 128) = true).
  { unfold id_char, is_lower, is_digit in Hc. rewrite !orb_true_iff, !andb_true_iff, !Z.leb_le, Z.eqb_eq in Hc.
    rewrite andb_false_iff, !Z.leb_gt, Z.ltb_lt. lia. }
  destruct Hr as [-> ->]. done.
Qed.

Lemma spec_id_chars s : spec_id s = true -> forallb id_char s = true.
Proof.
  destruct s as [|c s]; [done|]. cbn [spec_id forallb]. rewrite !andb_true_iff. intros [[[Hc Hs] _] _].
  split; [|done]. unfold id_char. by rewrite Hc.
Qed.

Lemma spec_id_length s : spec_id s = true -> (length s <= 64)%nat.
Proof. destruct s as [|c s]; [done|]. cbn [spec_id]. rewrite !andb_true_iff, !Nat.leb_le. cbn [length]. lia. Qed.

(** Such an identifier is kept as it is. *)
Lemma canonical_spec_id_keeps s fallback : tame true s = true -> spec_id s = true -> canonical_spec_id s fallback = Ok s.
Proof.
  intros Ht Hs. pose proof (spec_id_chars s Hs) as Hc. unfold canonical_spec_id.
  rewrite proper_no_space, casefold_id, normalized_name_id by done.
  assert (Hn : forall d, with_letter (or_else s d) = s).
  { intros d. destruct s as [|c t]; [done|]. unfold with_letter. cbn [or_else starts_alpha].
    cbn [spec_id] in Hs. rewrite !andb_true_iff in Hs. by destruct Hs as [[[-> _] _] _]. }
  rewrite Hn. pose proof (spec_id_length s Hs). unfold SPEC_ID_MAX_LENGTH.
  rewrite (proj2 (Nat.leb_le _ _)) by done. by rewrite Hs.
Qed.

(** ** What the function returns *)

Lemma tame_digest b p d : tame b p = true -> d <> [] -> forallb hex_char d = true -> tame b (p ++ 95 :: d) = true.
Proof.
  intros Hp Hd Hc. assert (Ht : forall d b, d <> [] -> forallb hex_char d = true -> tame b d = true).
  { clear. induction d as [|c d IH]; [done|]. intros b _. cbn [forallb tame]. rewrite andb_true_iff. intros [Hc Hd].
    unfold hex_char, is_digit in Hc. rewrite orb_true_iff, !andb_true_iff, !Z.leb_le in Hc.
    destruct (c =? 95) eqn:E; [apply Z.eqb_eq in E; lia|]. unfold id_char, is_lower, is_digit. rewrite E, orb_false_r.
    rewrite andb_true_iff, orb_true_iff, !andb_true_iff, !Z.leb_le. split; [lia|].
    destruct d as [|c' d]; [done|]. by apply IH. }
  revert b Hp. induction p as [|c p IH]; intros b Hp.
  - cbn [app tame] in *. rewrite Hp. cbn. by apply Ht.
  - cbn [app tame] in *. destruct (c =? 95); rewrite andb_true_iff in *; destruct Hp; split; auto.
Qed.

Lemma proper_spec_id s : proper s -> (2 <= length s <= 64)%nat -> spec_id s = true.
Proof.
  intros [Ht Ha] Hl. pose proof (tame_chars _ _ Ht) as Hc. destruct s as [|c s]; [done|].
  cbn [starts_alpha] in Ha. cbn [spec_id forallb length] in *. rewrite andb_true_iff in Hc.
  rewrite !andb_true_iff, !Nat.leb_le. naive_solver lia.
Qed.

Lemma utf8_encode_ascii s : forallb id_char s = true -> exists b, utf8_encode s = Ok b.
Proof.
  intros Hs. unfold utf8_encode. assert (Hc : forallb scalar_value s = true); [|rewrite Hc; by eexists].
  rewrite forallb_forall in *. intros c Hin. specialize (Hs c Hin). unfold id_char, is_lower, is_digit in Hs.
  rewrite !orb_true_iff, !andb_true_iff, !Z.leb_le, Z.eqb_eq in Hs. unfold scalar_value, high_surrogate, low_surrogate.
  assert (Hr : 0 <= c < 128) by lia. rewrite !andb_true_iff, !negb_true_iff, !andb_false_iff, !Z.leb_le, Z.ltb_lt, !Z.leb_gt. lia.
Qed.

Lemma canonical_spec_id_proper value fallback :
  exists id, canonical_spec_id value fallback = Ok id /\ proper id /\ spec_id id = true.
Proof.
  unfold canonical_spec_id.
  set (fb := with_letter (or_else (normalized_name (casefold (or_else fallback (u "id")))) (u "id"))).
  assert (Hfb : proper fb) by (by apply with_letter_proper, or_else_tame; [apply normalized_name_tame|]).
  set (name := with_letter (or_else (normalized_name (casefold (strip value))) fb)).
  assert (Hname : proper name) by (apply with_letter_proper, or_else_tame; [apply normalized_name_tame|apply Hfb]).
  clearbody name. clear Hfb. destruct ((length name <=? SPEC_ID_MAX_LENGTH)%nat && spec_id name) eqn:E.
  { apply andb_true_iff in E as [_ E]. by exists name. }
  destruct Hname as [Ht Ha]. destruct (utf8_encode_ascii name) as [bytes ->]; [by eapply tame_chars|]. cbn [res_bind].
  destruct (hexdigest_shape bytes) as [Hl Hc].
  assert (Hd : length (take 12 (hexdigest bytes)) = 12%nat) by (rewrite length_take; lia).
  assert (Hdc : forallb hex_char (take 12 (hexdigest bytes)) = true).
  { rewrite forallb_forall in *. intros x Hx%list_elem_of_In. apply Hc, list_elem_of_In. by apply (subseteq_take 12 (hexdigest bytes)). }
  set (digest := take 12 (hexdigest bytes)) in *. clearbody digest. rewrite Hd. cbn [SPEC_ID_MAX_LENGTH Nat.sub].
  destruct name as [|c name]; [done|]. cbn [starts_alpha] in Ha. cbn [take].
  assert (Hc95 : (c =? 95) = false). { apply Z.eqb_neq. intros ->. done. }
  destruct (rstrip_head c (take 50 name) Hc95) as [t Hr]. pose proof (squeezed_take _ 51 _ (tame_squeezed _ _ Ht)) as Hq.
  destruct (rstrip_tame _ _ Hq) as [He|Hp]; cbn [take] in *; [by rewrite Hr in He|]. rewrite Hr in *. cbn [or_else starts_alpha].
  rewrite Ha. assert (Hlt : (length (c :: t) <= 51)%nat).
  { rewrite <- Hr. assert (Hshort : forall s, (length (rstrip_underscores s) <= length s)%nat).
    { induction s as [|x s IH]; [done|]. cbn [rstrip_underscores length]. destruct (rstrip_underscores s); cbn [length] in *; [case_match; cbn [length]|]; lia. }
    etrans; [apply Hshort|]. cbn [length]. rewrite length_take. lia. }
  assert (Hproper : proper ((c :: t) ++ 95 :: digest)).
  { split; [|done]. apply tame_digest; [done| |done]. by destruct digest. }
  assert (Hid : spec_id ((c :: t) ++ 95 :: digest) = true).
  { apply proper_spec_id; [done|]. rewrite length_app. cbn [length] in *. lia. }
  rewrite Hid. eexists. split; [done|]. by split.
Qed.

(** C23: Any text is given an identifier: letters, digits and underscores, 2 to 64 characters,
    the first a letter, no two underscores together and none at the end.  An identifier
    of this form is kept, so naming again changes nothing. *)
Theorem canonical_spec_id_valid value fallback :
  exists id, canonical_spec_id value fallback = Ok id /\ spec_id id = true /\ tame true id = true /\
    (forall fallback', canonical_spec_id id fallback' = Ok id) /\
    (spec_id value = true -> tame true value = true -> id = value).
Proof.
  destruct (canonical_spec_id_proper value fallback) as (id & Hv & [Ht _] & Hs). exists id. split_and!; try done.
  - intros fallback'. by apply canonical_spec_id_keeps.
  - intros Hs' Ht'. rewrite canonical_spec_id_keeps in Hv by done. by injection Hv as ->.
Qed.
End identity.
