(* ===== verification/Specification.v ===== *)
(** * Specification: [spec.py], with the evidence of [knowledge.py]

    The mod that is proposed, the platform that it is locked to, the catalogue of trusted
    evidence, and the proposal with its hash. *)

From stdpp Require Import prelude gmap sets fin_sets strings list sorting.
From S2P Require Import Prelude Text Json StdJson PyJson Sha256 Backend TargetContract SpecIdentity.

Open Scope Z_scope.
Open Scope py_scope.

Definition spec_error {A} (why : string) : res A := Err (SpecValidationError why).

(** [ValueError] and the exceptions of the source that are subclasses of it. *)
Definition is_value_error (e : exn) : bool :=
  match e with
  | ValueError | SpecValidationError _ | ScalePolicyError _ | ProductionRoutingError _ | MappingError _
  | ModOutputScopeError _ | TargetContractError _ | PortConnectionError _ | VersionContextError _
  | CanonicalJsonError | StreamingJsonDecodeError | UnicodeDecodeError | JSONDecodeError => true
  | _ => false
  end.

(** [try: .. except caught as exc: raise SpecValidationError(why) from exc] *)
Definition spec_error_from {A} (caught : exn -> bool) (why : string) (m : res A) : res A :=
  match m with Err e => if caught e then spec_error why else m | _ => m end.

(** [if not condition: raise ..] *)
Definition require (condition : bool) (why : string) : res unit := if condition then Ok tt else spec_error why.

(** [for x in l: check(x)] *)
Definition check_each {A} (check : A -> res unit) (l : list A) : res unit :=
  let* _ := res_map_list check l in Ok tt.

(** ** Patterns *)

Definition is_alnum (c : Z) : bool := ((65 <=? c) && (c <=? 90)) || is_lower c || is_digit c.

(** [_PLATFORM_TOKEN_PATTERN] *)
Definition platform_token (s : pystr) : bool :=
  match s with
  | c :: s => is_alnum c && forallb (fun c => is_alnum c || bool_decide (c ∈ u "._+:-")) s
  | [] => false
  end.

(** [PACKAGE_PATTERN] *)
Definition package_component (s : pystr) : bool :=
  match s with c :: s => is_lower c && forallb id_char s | [] => false end.

Definition is_package (s : pystr) : bool :=
  (2 <=? length (split_on 46 s))%nat && forallb package_component (split_on 46 s).

(** [HEX_COLOR_PATTERN] *)
Definition hex_color (s : pystr) : bool :=
  match s with
  | c :: s => (c =? 35) && (length s =? 6)%nat && forallb (fun c => hex_char c || ((65 <=? c) && (c <=? 70))) s
  | [] => false
  end.

(** [SHA256_PATTERN] *)
Definition sha256_digest (s : pystr) : bool := starts_with (u "sha256:") s && is_sha256 (drop 7 s).

(** ** URLs: [urlparse] *)

(** The host of a network location with brackets or characters outside ASCII. *)
Class PyUrl := { odd_host : pystr -> res pystr }.

(** [\d+(?:\.\d+){1,2}] at the beginning of [s], and what follows. *)
Section patterns.
Context `{PyUnicode}.

Fixpoint digit_run (s : pystr) : pystr * pystr :=
  match s with
  | c :: s' => match digit_of c with Some _ => let '(d, r) := digit_run s' in (c :: d, r) | None => ([], s) end
  | [] => ([], [])
  end.

Definition dotted_run (s : pystr) : option (pystr * pystr) :=
  match s with
  | c :: s =>
      if c =? 46 then match digit_run s with ([], _) => None | (d, r) => Some (46 :: d, r) end else None
  | [] => None
  end.

Definition version_prefix (s : pystr) : option (pystr * pystr) :=
  match digit_run s with
  | ([], _) => None
  | (a, s) =>
      match dotted_run s with
      | None => None
      | Some (b, s) => match dotted_run s with Some (c, s) => Some (a ++ b ++ c, s) | None => Some (a ++ b, s) end
      end
  end.

(** [re.match(r"^(\d+(?:\.\d+){1,2})\+", s)], and [re.search(r"\+(\d+(?:\.\d+){1,2})$", s)] for a
    token, which has no line ends: the group. *)
Definition mappings_version_of (s : pystr) : option pystr :=
  match version_prefix s with Some (v, c :: _) => if c =? 43 then Some v else None | _ => None end.

Definition api_version_of (s : pystr) : option pystr :=
  if contains 43 s then match version_prefix (after_last 43 s) with Some (v, []) => Some v | _ => None end else None.

(** [\d+\.\d+\.\d+(?:[-+][A-Za-z0-9._-]+)?] *)
Definition semantic_version (s : pystr) : bool :=
  match version_groups s with Some [_; _; _] => true | _ => false end.

(** [urlparse(url).scheme] and what follows it. *)
Definition clean_url (url : pystr) : pystr :=
  filter (fun c => c ∉ [9; 10; 13])
    ((fix go s := match s with c :: s' => if (0 <=? c) && (c <=? 32) then go s' else s | [] => [] end) url).

Definition scheme_char (c : Z) : bool := is_alnum c || bool_decide (c ∈ u "+-.").

Definition url_scheme (url : pystr) : pystr * pystr :=
  let url := clean_url url in
  let scheme := before_first 58 url in
  match scheme with
  | c :: _ =>
      if contains 58 url && (is_lower c || ((65 <=? c) && (c <=? 90))) && forallb scheme_char scheme
      then (ascii_lower scheme, drop (S (length scheme)) url) else ([], url)
  | [] => ([], url)
  end.

Fixpoint until_any (stops s : pystr) : pystr :=
  match s with c :: s => if bool_decide (c ∈ stops) then [] else c :: until_any stops s | [] => [] end.

(** [urlparse(url).scheme] and [urlparse(url).hostname], [[]] for none. *)
Definition urlparse `{!PyUrl} (url : pystr) : res (pystr * pystr) :=
  let '(scheme, rest) := url_scheme url in
  if starts_with (u "//") rest then
    let netloc := until_any (u "/?#") (drop 2 rest) in
    if forallb (fun c => (c <? 128) && negb (bool_decide (c ∈ u "[]"))) netloc
    then
      let host := before_first 58 (after_last 64 netloc) in
      Ok (scheme, ascii_lower (before_first 37 host) ++ drop (length (before_first 37 host)) host)
    else let* host := odd_host netloc in Ok (scheme, host)
  else Ok (scheme, []).
End patterns.

(** [parsed.scheme == "https" and parsed.hostname in hosts] *)
Definition https_host `{PyUnicode, !PyUrl} (hosts : list pystr) (url : pystr) : res bool :=
  let* (scheme, host) := urlparse url in
  Ok (bool_decide (scheme = u "https") && bool_decide (host ∈ hosts)).

(** ** The data *)

Section data.
Context `{PyFloat}.

Record PlatformLock : Type := Platform {
  pl_edition : pystr; pl_loader : pystr; pl_minecraft_version : pystr; pl_java_version : pystr;
  pl_yarn_mappings : pystr; pl_fabric_loader : pystr; pl_fabric_api : pystr; pl_fabric_loom : pystr;
  pl_gradle : pystr; pl_adapter_id : pystr; pl_mappings_kind : pystr; pl_mappings_version : pystr;
  pl_gradle_sha256 : pystr; pl_gradle_distribution_url : pystr; pl_data_pack_version : pystr;
  pl_resource_pack_version : pystr; pl_resource_pack_format : Z; pl_release_metadata_url : pystr;
  pl_source_api_family : pystr; pl_deterministic_module_kinds : list pystr; pl_receipt_sha256 : pystr;
  pl_host_facts_json : pystr
}.

Inductive ContentKind : Type := ITEM | BLOCK.

Definition content_kind_value (k : ContentKind) : pystr := match k with ITEM => u "item" | BLOCK => u "block" end.

Record ContentSpec : Type := Content {
  content_id : pystr; content_kind : ContentKind; content_name_en : pystr; content_name_ko : pystr;
  content_color : pystr; content_recipe : bool
}.

(** The numbers are those of the JSON text. *)
Record BossSpec : Type := Boss {
  entity_id : pystr; boss_name_en : pystr; boss_name_ko : pystr; max_health : json; attack_damage : json;
  movement_speed : json; boss_scale : json; primary_color : pystr; secondary_color : pystr; model_kind : pystr
}.

Record ModSpec : Type := Mod {
  mod_id : pystr; mod_name : pystr; package_name : pystr; mod_version : pystr; mod_summary : pystr;
  contents : list ContentSpec; boss : option BossSpec; platform : PlatformLock
}.

Record EvidenceSource : Type := Evidence {
  source_id : pystr; title : pystr; url : pystr; authority : pystr; version_scope : pystr; verified_on : pystr;
  trust_tier : pystr; retrieval_policy : pystr; record_sha256 : pystr
}.

#[export] Instance EvidenceSource_eq_dec : EqDecision EvidenceSource.
Proof. solve_decision. Defined.

Record DeferredRequest : Type := Deferred { capability : pystr; reason : pystr; suggested_phase : pystr }.

Inductive ProposalStatus : Type := AWAITING_APPROVAL | APPROVED.

#[export] Instance ProposalStatus_eq_dec : EqDecision ProposalStatus.
Proof. solve_decision. Defined.

Definition status_value (s : ProposalStatus) : pystr :=
  match s with AWAITING_APPROVAL => u "awaiting_user_approval" | APPROVED => u "approved" end.

Record Proposal : Type := Propose {
  pr_schema_version : pystr; pr_proposal_version : Z; pr_status : ProposalStatus; pr_requested_prompt : pystr;
  pr_spec : ModSpec; pr_assumptions : list pystr; pr_exclusions : list pystr;
  pr_deferred_requests : list DeferredRequest; pr_acceptance_tests : list pystr;
  pr_evidence_sources : list EvidenceSource; pr_evidence_snapshot_hash : pystr; pr_capability_manifest_hash : pystr;
  pr_imported_source_snapshot_hash : pystr; pr_risk_approvals : list pystr; pr_approval_hash : pystr
}.

(** ** The JSON values of the data, as the canonical text has them *)

Definition str_fields (rows : list (string * pystr)) : list (pystr * json) := map (fun r => (u r.1, JStr r.2)) rows.
Definition texts (l : list pystr) : json := JArr (map JStr l).

Definition platform_json (p : PlatformLock) : json :=
  JObj (str_fields
    [("edition", pl_edition p); ("loader", pl_loader p); ("minecraft_version", pl_minecraft_version p);
     ("java_version", pl_java_version p); ("yarn_mappings", pl_yarn_mappings p); ("fabric_loader", pl_fabric_loader p);
     ("fabric_api", pl_fabric_api p); ("fabric_loom", pl_fabric_loom p); ("gradle", pl_gradle p);
     ("adapter_id", pl_adapter_id p); ("mappings_kind", pl_mappings_kind p);
     ("mappings_version", pl_mappings_version p); ("gradle_sha256", pl_gradle_sha256 p);
     ("gradle_distribution_url", pl_gradle_distribution_url p); ("data_pack_version", pl_data_pack_version p);
     ("resource_pack_version", pl_resource_pack_version p); ("release_metadata_url", pl_release_metadata_url p);
     ("source_api_family", pl_source_api_family p); ("receipt_sha256", pl_receipt_sha256 p);
     ("host_facts_json", pl_host_facts_json p)]%string ++
    [(u "resource_pack_format", JInt (pl_resource_pack_format p));
     (u "deterministic_module_kinds", texts (pl_deterministic_module_kinds p))]).

Definition content_json (c : ContentSpec) : json :=
  JObj (str_fields [("content_id", content_id c); ("kind", content_kind_value (content_kind c));
                    ("display_name_en", content_name_en c); ("display_name_ko", content_name_ko c);
                    ("color", content_color c)]%string ++ [(u "recipe", JBool (content_recipe c))]).

Definition boss_json (b : BossSpec) : json :=
  JObj (str_fields [("entity_id", entity_id b); ("display_name_en", boss_name_en b);
                    ("display_name_ko", boss_name_ko b); ("primary_color", primary_color b);
                    ("secondary_color", secondary_color b); ("model_kind", model_kind b)]%string ++
        [(u "max_health", max_health b); (u "attack_damage", attack_damage b);
         (u "movement_speed", movement_speed b); (u "scale", boss_scale b)]).

Definition spec_json (m : ModSpec) : json :=
  JObj (str_fields [("mod_id", mod_id m); ("mod_name", mod_name m); ("package_name", package_name m);
                    ("version", mod_version m); ("summary", mod_summary m)]%string ++
        [(u "contents", JArr (map content_json (contents m)));
         (u "boss", match boss m with Some b => boss_json b | None => JNull end);
         (u "platform", platform_json (platform m))]).

Definition evidence_json (e : EvidenceSource) : json :=
  JObj (str_fields [("source_id", source_id e); ("title", title e); ("url", url e); ("authority", authority e);
                    ("version_scope", version_scope e); ("verified_on", verified_on e); ("trust_tier", trust_tier e);
                    ("retrieval_policy", retrieval_policy e); ("record_sha256", record_sha256 e)]%string).

Definition deferred_json (d : DeferredRequest) : json :=
  JObj (str_fields [("capability", capability d); ("reason", reason d); ("suggested_phase", suggested_phase d)]%string).

(** A proposal with a status and a hash: the value of the dataclass, and, with the status that
    awaits approval and no hash, [_hash_payload]. *)
Definition proposal_rows (p : Proposal) (status : ProposalStatus) (hash : pystr) : list (pystr * json) :=
  str_fields [("schema_version", pr_schema_version p); ("status", status_value status);
              ("requested_prompt", pr_requested_prompt p); ("evidence_snapshot_hash", pr_evidence_snapshot_hash p);
              ("capability_manifest_hash", pr_capability_manifest_hash p);
              ("imported_source_snapshot_hash", pr_imported_source_snapshot_hash p); ("approval_hash", hash)]%string ++
  [(u "proposal_version", JInt (pr_proposal_version p)); (u "spec", spec_json (pr_spec p));
   (u "assumptions", texts (pr_assumptions p)); (u "exclusions", texts (pr_exclusions p));
   (u "deferred_requests", JArr (map deferred_json (pr_deferred_requests p)));
   (u "acceptance_tests", texts (pr_acceptance_tests p));
   (u "evidence_sources", JArr (map evidence_json (pr_evidence_sources p)));
   (u "risk_approvals", texts (pr_risk_approvals p))].

Definition _hash_payload (p : Proposal) : json := JObj (proposal_rows p AWAITING_APPROVAL []).
Definition proposal_json (p : Proposal) : json := JObj (proposal_rows p (pr_status p) (pr_approval_hash p)).

(** [canonical_json_sha256] of a value. *)
Definition digest_of (j : json) : res pystr := let* text := json_canonical j in sha256_text text.

Definition proposal_hash (p : Proposal) : res pystr := digest_of (_hash_payload p).
End data.

(** ** Validation *)

Section validation.
Context `{PyFloat, PyUnicode, !PyRepr, PyCasefold, PyIsDigit, !PyUrl}.

Definition is_unresolved (p : PlatformLock) : bool :=
  forallb (fun s => bool_decide (s = []))
    [pl_edition p; pl_loader p; pl_minecraft_version p; pl_java_version p; pl_yarn_mappings p; pl_fabric_loader p;
     pl_fabric_api p; pl_fabric_loom p; pl_gradle p].

Definition nonempty (s : pystr) : bool := negb (bool_decide (s = [])).
Definition nonblank (s : pystr) : bool := nonempty (strip s).

(** The extended fields but those of the mappings, as [value not in (None, "", 0)]. *)
Definition extended_fields (p : PlatformLock) : list bool :=
  map nonempty [pl_adapter_id p; pl_gradle_sha256 p; pl_gradle_distribution_url p; pl_data_pack_version p;
                pl_resource_pack_version p; pl_release_metadata_url p; pl_source_api_family p; pl_receipt_sha256 p] ++
  [negb (pl_resource_pack_format p =? 0)].

Definition mapping_fields (p : PlatformLock) : list pystr := [pl_mappings_kind p; pl_mappings_version p].

Definition has_full_execution_receipt (p : PlatformLock) : res bool :=
  if negb (forallb id (extended_fields p)) || negb (nonblank (pl_minecraft_version p)) then Ok false
  else
    let* native := uses_native_names (JStr (pl_minecraft_version p)) in
    Ok (if native then negb (existsb nonblank (mapping_fields p ++ [pl_yarn_mappings p]))
        else forallb nonempty (mapping_fields p) && nonblank (pl_yarn_mappings p)).

(** [platform_receipt_payload] *)
Definition platform_receipt_payload (p : PlatformLock) : json :=
  JObj (str_fields
    [("adapter_id", pl_adapter_id p); ("edition", pl_edition p); ("loader", pl_loader p);
     ("minecraft_version", pl_minecraft_version p); ("java_version", pl_java_version p);
     ("yarn_mappings", pl_yarn_mappings p); ("mappings_kind", pl_mappings_kind p);
     ("mappings_version", pl_mappings_version p); ("fabric_loader", pl_fabric_loader p);
     ("fabric_api", pl_fabric_api p); ("fabric_loom", pl_fabric_loom p); ("gradle", pl_gradle p);
     ("gradle_sha256", pl_gradle_sha256 p); ("gradle_distribution_url", pl_gradle_distribution_url p);
     ("data_pack_version", pl_data_pack_version p); ("resource_pack_version", pl_resource_pack_version p);
     ("release_metadata_url", pl_release_metadata_url p); ("source_api_family", pl_source_api_family p)]%string ++
    [(u "resource_pack_format", JInt (pl_resource_pack_format p));
     (u "deterministic_module_kinds", texts (sort_strs (pl_deterministic_module_kinds p)))] ++
    (if nonempty (pl_host_facts_json p) then [(u "host_facts_json", JStr (pl_host_facts_json p))] else [])).

Definition platform_receipt_sha256 (p : PlatformLock) : res pystr := digest_of (platform_receipt_payload p).

Definition _MOJANG_NAMESPACE_MARKERS : list pystr :=
  map u ["net.minecraft.core."; "net.minecraft.resources."; "net.minecraft.world.item."; "net.minecraft.world.entity.";
         "net.minecraft.world.level."]%string.

Definition _YARN_NAMESPACE_MARKERS : list pystr :=
  map u ["net.minecraft.registry."; "net.minecraft.item."; "net.minecraft.entity."; "net.minecraft.block.";
         "net.minecraft.util.Identifier"]%string.

(** [symbols in (None, {}, [])] *)
Definition no_symbols (symbols : json) : bool :=
  match symbols with JNull | JObj [] | JArr [] => true | _ => false end.

(** The symbols of the host facts are of one namespace, that of the target. *)
Definition check_symbols (mappings_kind : pystr) (native : bool) (symbols : json) : res unit :=
  if no_symbols symbols then Ok tt
  else
    let* rendered := canonical_json symbols in
    let has markers := existsb (fun m => occurs m rendered) markers in
    let has_mojang := has _MOJANG_NAMESPACE_MARKERS in
    let has_yarn := has _YARN_NAMESPACE_MARKERS in
    if has_mojang && has_yarn then spec_error "Platform host facts mix Mojang and Yarn API namespaces in one target receipt."
    else if native then Ok tt
    else if bool_decide (mappings_kind = u "mojang") && has_yarn
    then spec_error "Platform host facts use Yarn API namespaces for a Mojang-mapped target."
    else if bool_decide (mappings_kind = u "yarn") && has_mojang
    then spec_error "Platform host facts use Mojang API namespaces for a Yarn-mapped target."
    else Ok tt.

Definition _validate_host_facts_namespace (host_facts_json mappings_kind : pystr) (native : bool) : res unit :=
  match strip host_facts_json with
  | [] => Ok tt
  | raw =>
      match json_loads raw with
      | Err JSONDecodeError => spec_error "Platform host_facts_json must be valid JSON."
      | Err e => Err e
      | Ok (JObj payload) =>
          let* declared := str_or_empty (get payload (u "api_namespace")) in
          let declared := casefold (strip declared) in
          if bool_decide (declared = []) then Ok tt
          else if negb (bool_decide (declared ∈ [u "mojang"; u "yarn"; u "native"]))
          then spec_error "Platform host facts api_namespace must be mojang, yarn, or native."
          else if (if native then negb (bool_decide (declared ∈ [u "native"; u "mojang"]))
                   else negb (bool_decide (declared = mappings_kind)))
          then spec_error "Platform host facts namespace disagrees with the target."
          else check_symbols mappings_kind native (get payload (u "api_symbols"))
      | Ok _ => spec_error "Platform host_facts_json must be a JSON object."
      end
  end.

Definition release_hosts : list pystr :=
  map u ["www.minecraft.net"; "feedback.minecraft.net"; "piston-meta.mojang.com"; "launcher.mojang.com"]%string.

Definition gradle_url (version : pystr) : pystr :=
  u "https://services.gradle.org/distributions/gradle-" ++ version ++ u "-bin.zip".

Definition agrees (found : option pystr) (version : pystr) : bool :=
  match found with Some v => bool_decide (v = version) | None => true end.

(** The coordinates every lock has: what is checked before the receipt. *)
Definition check_coordinates (p : PlatformLock) (native : bool) : res unit :=
  let coordinates := [pl_edition p; pl_loader p; pl_minecraft_version p; pl_java_version p; pl_fabric_loader p;
                      pl_fabric_api p; pl_fabric_loom p; pl_gradle p] ++ (if native then [] else [pl_yarn_mappings p]) in
  let* _ := require (forallb nonblank coordinates) "Platform target is partial." in
  let* _ := require (forallb platform_token coordinates) "Platform lock is not a canonical provider coordinate." in
  let* _ := require (bool_decide (pl_edition p = casefold (pl_edition p))) "Platform lock edition must be canonical lowercase." in
  let* _ := require (bool_decide (pl_loader p = casefold (pl_loader p))) "Platform lock loader must be canonical lowercase." in
  let* _ := require (isdigit (pl_java_version p)) "Platform lock java_version must be a positive Java major version." in
  let* java := int_of_str (pl_java_version p) in
  let* _ := require (0 <? java) "Platform lock java_version must be a positive Java major version." in
  let* minimum := minimum_java_major (JStr (pl_minecraft_version p)) in
  let* _ := require (match minimum with Some m => m <=? java | None => true end) "Minecraft requires a later Java." in
  let* _ := require (native || bool_decide (casefold (pl_yarn_mappings p) ∈ [u "mojang"; u "official"; u "official_mojang"]) ||
                     agrees (mappings_version_of (pl_yarn_mappings p)) (pl_minecraft_version p))
              "Platform lock mappings coordinate disagrees with minecraft_version." in
  require (agrees (api_version_of (pl_fabric_api p)) (pl_minecraft_version p))
    "Platform lock Fabric API coordinate disagrees with minecraft_version.".

(** The receipt of a lock that can be executed.  The Java and the API version, which the source
    checks here again, have been checked with the coordinates. *)
Definition check_receipt (p : PlatformLock) (native : bool) : res unit :=
  let* full := has_full_execution_receipt p in
  let* _ := require full "Execution platform receipt is partial or incompatible with the target naming regime." in
  let* _ := require (is_sha256 (casefold (pl_gradle_sha256 p))) "Platform lock gradle_sha256 must be a full SHA-256." in
  let* _ := require (sha256_digest (casefold (pl_receipt_sha256 p))) "Platform lock receipt_sha256 must be a SHA-256 receipt." in
  let* digest := platform_receipt_sha256 p in
  let* _ := require (bool_decide (casefold (pl_receipt_sha256 p) = digest))
              "Platform lock receipt SHA-256 does not match its immutable provider coordinates." in
  let* _ := require (bool_decide (pl_gradle_distribution_url p = gradle_url (pl_gradle p)))
              "Platform lock Gradle distribution URL disagrees with the pinned version." in
  let* https := https_host [u "services.gradle.org"] (pl_gradle_distribution_url p) in
  let* _ := require https "Platform lock Gradle distribution URL must use the official HTTPS host." in
  let* _ := if native
            then require (negb (existsb nonempty (pl_yarn_mappings p :: mapping_fields p)))
                   "Native targets must not carry legacy mapping coordinates."
            else
              let* _ := require (bool_decide (pl_mappings_kind p ∈ [u "mojang"; u "yarn"]))
                          "Platform lock mappings_kind must be mojang or yarn." in
              require (bool_decide (pl_mappings_version p = pl_yarn_mappings p))
                "Platform lock mappings_version must equal the executable mappings coordinate." in
  let* _ := _validate_host_facts_namespace (pl_host_facts_json p) (pl_mappings_kind p) native in
  let* _ := require (forallb nonblank (pl_deterministic_module_kinds p))
              "Platform lock deterministic_module_kinds contains an empty capability." in
  let* _ := require (bool_decide (NoDup (pl_deterministic_module_kinds p)))
              "Platform lock deterministic_module_kinds must not contain duplicates." in
  let* _ := require (0 <? pl_resource_pack_format p) "Platform lock resource_pack_format must be a positive integer." in
  let* major := spec_error_from is_value_error "Platform lock resource_pack_version must start with a numeric major."
                  (int_of_str (before_first 46 (pl_resource_pack_version p))) in
  let* _ := require (major =? pl_resource_pack_format p)
              "Platform lock resource pack format disagrees with resource_pack_version." in
  let* official := https_host release_hosts (pl_release_metadata_url p) in
  let* _ := require official "Platform lock release metadata must be an official Minecraft/Mojang HTTPS URL." in
  require (negb (bool_decide (pl_mappings_kind p = u "yarn")) ||
           agrees (mappings_version_of (pl_yarn_mappings p)) (pl_minecraft_version p))
    "Platform lock mappings coordinate disagrees with minecraft_version.".

Definition validate_platform (p : PlatformLock) : res unit :=
  let* _ := require (negb (is_unresolved p)) "Platform target is unresolved." in
  let* native := spec_error_from is_value_error "Unsupported Minecraft version." (uses_native_names (JStr (pl_minecraft_version p))) in
  let* _ := check_coordinates p native in
  if existsb id (extended_fields p) || existsb nonempty (mapping_fields p) ||
     negb (bool_decide (pl_deterministic_module_kinds p = []))
  then check_receipt p native else Ok tt.

(** [ContentSpec.validate] *)
Definition validate_content (c : ContentSpec) : res unit :=
  let* _ := require (spec_id (content_id c)) "Invalid content_id; use lowercase snake_case." in
  let* _ := require (2 <=? length (strip (content_name_en c)))%nat "English display name is missing." in
  let* _ := require (1 <=? length (strip (content_name_ko c)))%nat "Korean display name is missing." in
  require (hex_color (content_color c)) "Invalid RGB color.".

(** A positive finite number; [float] refuses an integer that is too large. *)
Definition positive_number (v : json) : res bool :=
  match v with
  | JInt z => if 2 ^ 1024 - 2 ^ 970 <=? Z.abs z then Err (OtherException "OverflowError") else Ok (0 <? z)
  | JFloat f => Ok (float_finite f && negb (float_zero f) && negb (starts_with [45] (float_repr f)))
  | _ => Ok false
  end.

Definition BOSS_MODEL_KINDS : list pystr :=
  map u ["biped_blockbench"; "quadruped_blockbench"; "flying_blockbench"; "serpentine_blockbench";
         "construct_blockbench"; "custom_geckolib"]%string.

Definition validate_boss (b : BossSpec) : res unit :=
  let* _ := check_each (fun v => let* ok := positive_number v in
                                 require ok "Boss field must be a positive finite JSON number.")
              [max_health b; attack_damage b; movement_speed b; boss_scale b] in
  let* _ := require (spec_id (entity_id b)) "Invalid boss entity_id." in
  let* _ := require (bool_decide (model_kind b ∈ BOSS_MODEL_KINDS)) "Unsupported boss model_kind." in
  require (hex_color (primary_color b) && hex_color (secondary_color b)) "Invalid boss color.".

Definition JAVA_RESERVED_WORDS : list pystr :=
  map u ["abstract"; "assert"; "boolean"; "break"; "byte"; "case"; "catch"; "char"; "class"; "const"; "continue";
         "default"; "do"; "double"; "else"; "enum"; "exports"; "extends"; "final"; "finally"; "float"; "for"; "goto";
         "if"; "implements"; "import"; "instanceof"; "int"; "interface"; "long"; "module"; "native"; "new";
         "non-sealed"; "open"; "opens"; "package"; "permits"; "private"; "protected"; "provides"; "public"; "record";
         "requires"; "return"; "sealed"; "short"; "static"; "strictfp"; "super"; "switch"; "synchronized"; "this";
         "throw"; "throws"; "to"; "transient"; "transitive"; "true"; "try"; "uses"; "var"; "void"; "volatile";
         "while"; "with"; "yield"; "false"; "null"]%string.

Definition RESERVED_MOD_IDS : list pystr := map u ["minecraft"; "fabric"; "fabricloader"; "java"]%string.
Definition RESERVED_GENERATED_FIELDS : list pystr := [u "MOD_ID"; u "LOGGER"].

Definition RESERVED_PACKAGE_PREFIXES : list pystr :=
  map u ["java."; "javax."; "jdk."; "sun."; "net.minecraft."; "com.mojang."; "net.fabricmc."]%string.

Fixpoint check_contents (seen : list pystr) (l : list ContentSpec) : res (list pystr) :=
  match l with
  | [] => Ok seen
  | c :: l =>
      let* _ := validate_content c in
      let* _ := require (negb (bool_decide (content_id c ∈ seen))) "Duplicate content_id." in
      let* _ := require (negb (bool_decide (upper (content_id c) ∈ RESERVED_GENERATED_FIELDS)))
                  "Content ID collides with a generated Java field." in
      check_contents (content_id c :: seen) l
  end.

Definition spawn_egg (id : pystr) : pystr := id ++ u "_spawn_egg".

Definition check_boss (seen : list pystr) (b : BossSpec) : res unit :=
  let* _ := validate_boss b in
  let* _ := require (negb (bool_decide (entity_id b ∈ seen))) "Boss ID collides with content ID." in
  let* _ := require (negb (bool_decide (upper (entity_id b) ∈ RESERVED_GENERATED_FIELDS)))
              "Boss ID collides with a generated Java field." in
  require (negb (bool_decide (spawn_egg (entity_id b) ∈ seen))) "Boss spawn egg ID collides with content ID.".

Definition bootstrap_boss_capabilities : gset pystr := list_to_set [u "boss"; u "item"; u "loot"].

(** What the generators of the contents and of the boss need from the target. *)
Definition required_capabilities (m : ModSpec) : gset pystr :=
  ⋃ map (fun c => bootstrap_content_capabilities (content_kind_value (content_kind c)) (content_recipe c)) (contents m) ∪
  match boss m with Some _ => bootstrap_boss_capabilities | None => ∅ end.

Definition validate_spec (m : ModSpec) : res unit :=
  let* _ := validate_platform (platform m) in
  let* _ := require (spec_id (mod_id m)) "Invalid mod_id; use lowercase snake_case." in
  let* _ := require (negb (bool_decide (mod_id m ∈ RESERVED_MOD_IDS))) "Reserved mod_id is not allowed." in
  let* _ := require (is_package (package_name m)) "Invalid package_name; use a lowercase dotted Java package." in
  let* _ := require (negb (starts_with_any RESERVED_PACKAGE_PREFIXES (package_name m)))
              "Reserved platform package prefix is not allowed." in
  let* _ := require (forallb (fun part => negb (bool_decide (part ∈ JAVA_RESERVED_WORDS))) (split_on 46 (package_name m)))
              "Java reserved package component is not allowed." in
  let* _ := require (semantic_version (mod_version m)) "Invalid semantic version." in
  let* seen := check_contents [] (contents m) in
  let* _ := match boss m with Some b => check_boss seen b | None => Ok tt end in
  require (bool_decide (required_capabilities m ⊆ normalize_capabilities (pl_deterministic_module_kinds (platform m))))
    "Platform target does not declare deterministic bootstrap capabilities required by ModSpec.".

(** ** Evidence *)

(** The catalogue of trusted sources. *)
Record CatalogRecord : Type := CatalogRow {
  cr_source_id : pystr; cr_title : pystr; cr_url : pystr; cr_authority : pystr; cr_version_scope : pystr;
  cr_verified_on : pystr; cr_minecraft_versions : list pystr; cr_topics : list pystr
}.

Definition Catalog (id title url authority scope verified : string) (versions : list pystr) (topics : list string)
    : CatalogRecord :=
  CatalogRow (u id) (u title) (u url) (u authority) (u scope) (u verified) versions (map u topics).

Definition _ALL : list pystr := [u "*"].

Definition _CATALOG_RECORDS : list CatalogRecord :=
  ([Catalog "fabric-project-creation" "Fabric Documentation - Creating a Project"
     "https://docs.fabricmc.net/develop/getting-started/creating-a-project"
     "Fabric official documentation" "Version-selected Fabric documentation; exact coordinates are frozen by the live platform receipt" "2026-08-12" _ALL ["project"; "structure"; "version"; "fabric"; "loom"; "gradle"];
   Catalog "fabric-building" "Fabric Documentation - Building a Mod"
     "https://docs.fabricmc.net/develop/getting-started/building-a-mod"
     "Fabric official documentation" "Version-selected Gradle/JAR guidance" "2026-08-12" _ALL ["build"; "gradle"; "jar"; "artifact"; "fabric"];
   Catalog "fabric-data-generation" "Fabric Documentation - Data Generation Setup"
     "https://docs.fabricmc.net/develop/data-generation/setup"
     "Fabric official documentation" "Version-selected data-generation guidance" "2026-08-12" _ALL ["data"; "generation"; "recipe"; "model"; "loot"; "tag"; "resource"];
   Catalog "fabric-automatic-testing" "Fabric Documentation - Automated Testing"
     "https://docs.fabricmc.net/develop/automatic-testing"
     "Fabric official documentation" "Version-selected GameTest guidance" "2026-08-12" _ALL ["test"; "gametest"; "entity"; "runtime"; "server"];
   Catalog "fabric-mod-json" "Fabric Documentation - fabric.mod.json"
     "https://docs.fabricmc.net/develop/loader/fabric-mod-json"
     "Fabric official documentation" "Fabric Loader metadata contract for the selected documentation version" "2026-08-12" _ALL ["metadata"; "fabric.mod.json"; "loader"; "entrypoint"; "dependency"];
   Catalog "fabric-develop-live" "Fabric Develop - Latest Versions"
     "https://fabricmc.net/develop/"
     "Fabric official website" "Live recommended Loader, Loom and Fabric API coordinates" "2026-08-12" _ALL ["version"; "loader"; "loom"; "fabric"; "api"; "latest"];
   Catalog "fabric-meta" "Fabric Meta API"
     "https://meta.fabricmc.net/"
     "Fabric official API" "Live game, loader and mapping metadata" "2026-08-12" _ALL ["version"; "loader"; "mapping"; "metadata"; "api"];
   Catalog "fabric-api-maven" "Fabric API Maven repository"
     "https://maven.fabricmc.net/net/fabricmc/fabric-api/fabric-api/"
     "Fabric official Maven repository" "Live Fabric API artifacts for the selected Minecraft target" "2026-08-12" _ALL ["dependency"; "maven"; "fabric"; "api"; "artifact"; "version"]])%string.

Definition _applies (r : CatalogRecord) (version : option pystr) : bool :=
  bool_decide (u "*" ∈ cr_minecraft_versions r) ||
  match version with Some v => bool_decide (v ∈ cr_minecraft_versions r) | None => false end.

Definition _record_payload (r : CatalogRecord) : json :=
  JObj (str_fields [("source_id", cr_source_id r); ("title", cr_title r); ("url", cr_url r);
                    ("authority", cr_authority r); ("version_scope", cr_version_scope r);
                    ("verified_on", cr_verified_on r); ("trust_tier", u "official_primary");
                    ("retrieval_policy", u "data_only")]%string ++
        [(u "minecraft_versions", texts (cr_minecraft_versions r)); (u "topics", texts (cr_topics r))]).

Definition _record_sha256 (r : CatalogRecord) : res pystr :=
  let* text := canonical_json (_record_payload r) in sha256_text text.

Definition _as_evidence (r : CatalogRecord) : res EvidenceSource :=
  let* digest := _record_sha256 r in
  Ok (Evidence (cr_source_id r) (cr_title r) (cr_url r) (cr_authority r) (cr_version_scope r) (cr_verified_on r)
        (u "official_primary") (u "data_only") digest).

(** [_TRUSTED_BY_ID.get] *)
Definition trusted_by_id (id : pystr) : option CatalogRecord :=
  head (filter (fun r => cr_source_id r = id) _CATALOG_RECORDS).

Definition OFFICIAL_EVIDENCE_HOSTS : list pystr :=
  map u ["docs.fabricmc.net"; "fabricmc.net"; "maven.fabricmc.net"; "meta.fabricmc.net"]%string.

Definition check_source (version : option pystr) (seen : list pystr) (e : EvidenceSource)
    : res unit :=
  let* _ := require (negb (bool_decide (source_id e ∈ seen))) "Duplicate evidence source." in
  let* official := https_host OFFICIAL_EVIDENCE_HOSTS (url e) in
  let* _ := require official "Evidence source host is not on the official allowlist." in
  let* _ := require (bool_decide (retrieval_policy e = u "data_only")) "Retrieved evidence must use the data_only policy." in
  let* _ := require (bool_decide (trust_tier e = u "official_primary")) "Evidence is not in the official_primary trust tier." in
  match trusted_by_id (source_id e) with
  | None => spec_error "Evidence source is not an exact code-owned official record."
  | Some record =>
      let* official := _as_evidence record in
      let* _ := require (bool_decide (e = official)) "Evidence source is not an exact code-owned official record." in
      require (match version with Some _ => _applies record version | None => true end)
        "Evidence does not apply to the Minecraft version."
  end.

Fixpoint check_sources (version : option pystr) (seen : list pystr) (l : list EvidenceSource)
    : res unit :=
  match l with
  | [] => Ok tt
  | e :: l => let* _ := check_source version seen e in check_sources version (source_id e :: seen) l
  end.

Definition validate_trusted_evidence (version : option pystr) (l : list EvidenceSource) : res unit :=
  let* _ := require (negb (bool_decide (l = []))) "At least one authoritative evidence source is required." in
  check_sources version [] l.

Definition by_source (a b : EvidenceSource) : Prop := str_le (source_id a) (source_id b).

#[export] Instance by_source_dec : RelDecision by_source.
Proof. intros a b. unfold by_source. apply _. Defined.

Definition evidence_snapshot_hash (l : list EvidenceSource) : res pystr :=
  let* _ := validate_trusted_evidence None l in
  let* text := canonical_json (JArr (map evidence_json (merge_sort by_source l))) in
  sha256_text text.

(** ** The proposal *)

Definition is_approved (s : ProposalStatus) : bool := bool_decide (s = APPROVED).

Definition validate_proposal (p : Proposal) : res unit :=
  let* _ := require (bool_decide (pr_schema_version p = u "minecraft-mod-ai/proposal-v1")) "Unsupported schema_version." in
  let* _ := require (1 <=? pr_proposal_version p) "proposal_version must be a positive JSON integer." in
  let* _ := require (nonblank (pr_requested_prompt p)) "requested_prompt must not be empty." in
  let* _ := require (negb (is_approved (pr_status p) && bool_decide (pr_approval_hash p = [])))
              "Proposal approved state requires its approval_hash integrity receipt." in
  let* _ := validate_spec (pr_spec p) in
  let* _ := require (negb (bool_decide (pr_acceptance_tests p = []))) "At least one acceptance test is required." in
  let* _ := require (negb (bool_decide (pr_evidence_sources p = []))) "At least one authoritative evidence source is required." in
  let* _ := validate_trusted_evidence (Some (pl_minecraft_version (platform (pr_spec p)))) (pr_evidence_sources p) in
  let* _ := require (sha256_digest (pr_evidence_snapshot_hash p)) "evidence_snapshot_hash must be a lowercase sha256 digest." in
  let* snapshot := evidence_snapshot_hash (pr_evidence_sources p) in
  let* _ := require (bool_decide (pr_evidence_snapshot_hash p = snapshot))
              "evidence_snapshot_hash does not match the trusted evidence records." in
  let* _ := require (sha256_digest (pr_capability_manifest_hash p)) "capability_manifest_hash must be a lowercase sha256 digest." in
  let* _ := require (bool_decide (pr_imported_source_snapshot_hash p = []) || sha256_digest (pr_imported_source_snapshot_hash p))
              "imported_source_snapshot_hash must be empty or a lowercase sha256 digest." in
  if bool_decide (pr_approval_hash p = []) then Ok tt
  else
    let* _ := require (sha256_digest (pr_approval_hash p)) "approval_hash must be a lowercase sha256 digest." in
    let* hash := proposal_hash p in
    require (bool_decide (pr_approval_hash p = hash)) "approval_hash does not match the immutable proposal payload.".

Definition set_approval (p : Proposal) (status : ProposalStatus) (hash : pystr) : Proposal :=
  Propose (pr_schema_version p) (pr_proposal_version p) status (pr_requested_prompt p) (pr_spec p) (pr_assumptions p)
    (pr_exclusions p) (pr_deferred_requests p) (pr_acceptance_tests p) (pr_evidence_sources p)
    (pr_evidence_snapshot_hash p) (pr_capability_manifest_hash p) (pr_imported_source_snapshot_hash p)
    (pr_risk_approvals p) hash.

Definition set_provenance (p : Proposal) (snapshot capabilities : pystr) : Proposal :=
  Propose (pr_schema_version p) (pr_proposal_version p) (pr_status p) (pr_requested_prompt p) (pr_spec p)
    (pr_assumptions p) (pr_exclusions p) (pr_deferred_requests p) (pr_acceptance_tests p) (pr_evidence_sources p)
    snapshot capabilities (pr_imported_source_snapshot_hash p) (pr_risk_approvals p) (pr_approval_hash p).

(** [with_hash]: [capabilities] is the digest of the manifest of capabilities. *)
Definition proposal_with_hash (capabilities : pystr) (p : Proposal) : res Proposal :=
  let* snapshot := if bool_decide (pr_evidence_snapshot_hash p = [])
                   then evidence_snapshot_hash (pr_evidence_sources p) else Ok (pr_evidence_snapshot_hash p) in
  let p := set_provenance p snapshot (or_else (pr_capability_manifest_hash p) capabilities) in
  let* hash := proposal_hash p in
  Ok (set_approval p AWAITING_APPROVAL hash).

Definition approve_proposal (p : Proposal) (supplied_hash : pystr) : res Proposal :=
  let* _ := validate_proposal p in
  let* expected := proposal_hash p in
  if bool_decide (supplied_hash = expected) then Ok (set_approval p APPROVED expected)
  else spec_error "Approval hash mismatch.".
End validation.
