(* ===== verification/Knowledge.v ===== *)
(** * Knowledge: [knowledge.py]

    The choice of evidence from the catalogue of [Specification]: by the target, ranked by the
    words of the request.  Whatever is asked for, what is chosen passes the validation of a
    proposal. *)

From stdpp Require Import prelude gmap sets fin_sets strings list sorting.
From S2P Require Import Prelude Text Json StdJson PyJson JsonRoundtrip Sha256 TargetContract SpecIdentity Specification LedgerProps.

Open Scope Z_scope.
Open Scope py_scope.

(** The records that are selected, by their identifiers. *)
Notation selection := (gmap pystr EvidenceSource).

Section choice.
Context `{PyFloat}.

(** [str.lower] *)
Variable lower : pystr -> pystr.

(** ** The catalogue of a target *)

Definition _evidence_of (records : list CatalogRecord) : res (list EvidenceSource) := res_map_list _as_evidence records.

Definition records_for (version : option pystr) : list CatalogRecord :=
  filter (fun r => _applies r version = true) _CATALOG_RECORDS.

Definition not_empty {A} (why : string) (l : list A) : res (list A) :=
  match l with [] => spec_error why | _ => Ok l end.

Definition evidence_catalog_for_version (version : pystr) : res (list EvidenceSource) :=
  let version := strip version in
  let* _ := require (negb (bool_decide (version = []))) "Minecraft version is required for target-bound evidence selection." in
  let* result := _evidence_of (records_for (Some version)) in
  not_empty "No official evidence applies to Minecraft." result.

Definition target_neutral_evidence_catalog : res (list EvidenceSource) :=
  let* result := _evidence_of (records_for None) in
  not_empty "No target-neutral official evidence is configured." result.

(** ** The search *)

Definition word_char (c : Z) : bool := is_lower c || is_digit c || bool_decide (c ∈ u "_.-").

(** [re.findall(r"[a-z0-9_.-]+", s)]: the longest runs. *)
Fixpoint find_words (run : pystr) (s : pystr) : list pystr :=
  let done := match run with [] => [] | _ => [reverse run] end in
  match s with
  | [] => done
  | c :: s => if word_char c then find_words (c :: run) s else done ++ find_words [] s
  end.

Definition words (s : pystr) : gset pystr := list_to_set (find_words [] (lower s)).

Definition searchable (r : CatalogRecord) : gset pystr := list_to_set (cr_topics r) ∪ words (cr_title r).

Definition score (query : pystr) (r : CatalogRecord) : nat := size (words query ∩ searchable r).

(** [(-score, source_id, ..)], compared without the record. *)
Definition rank_le (a b : nat * EvidenceSource) : Prop :=
  (b.1 < a.1)%nat \/ a.1 = b.1 /\ str_le (source_id a.2) (source_id b.2).

#[export] Instance rank_le_dec : RelDecision rank_le.
Proof. intros a b. unfold rank_le. apply _. Defined.

Definition ranked_record (query : pystr) (r : CatalogRecord) : res (nat * EvidenceSource) :=
  let* e := _as_evidence r in Ok (score query r, e).

(** [AuthoritativeEvidenceRetriever.search] *)
Definition search (query : pystr) (version : option pystr) (limit : Z) : res (list EvidenceSource) :=
  let available := records_for version in
  let* _ := require (1 <=? limit) "Evidence search limit must be a positive integer." in
  let* ranked := res_map_list (ranked_record query) available in
  Ok (take (Z.to_nat (Z.min limit (Z.of_nat (length available)))) (map snd (merge_sort rank_le ranked))).

(** ** The choice *)

(** [selected.setdefault(..)] until there are [target_size]. *)
Fixpoint add_ranked (target_size : nat) (ranked : list EvidenceSource) (selected : selection) : selection :=
  match ranked with
  | [] => selected
  | e :: ranked =>
      let selected := match selected !! source_id e with Some _ => selected | None => <[source_id e := e]> selected end in
      if (target_size <=? size selected)%nat then selected else add_ranked target_size ranked selected
  end.

Definition core_of (core_ids : list pystr) (catalog : list EvidenceSource) : selection :=
  list_to_map (map (fun e => (source_id e, e)) (filter (fun e => source_id e ∈ core_ids) catalog)).

Definition sorted_selection (selected : selection) : list EvidenceSource :=
  omap (fun id => selected !! id) (sorted_set (dom selected)).

Definition _ranked_core_plus_topical (query : pystr) (catalog : list EvidenceSource) (version : option pystr)
    (core_ids : list pystr) (max_sources : nat) : res (list EvidenceSource) :=
  let* ranked := search query version (Z.of_nat (length catalog)) in
  let target_size := (max_sources `min` length catalog)%nat in
  Ok (sorted_selection (add_ranked target_size ranked (core_of core_ids catalog))).

Definition core_ids : list pystr :=
  map u ["fabric-project-creation"; "fabric-building"; "fabric-mod-json"; "fabric-meta"; "fabric-api-maven"]%string.

Section target.
Context `{PyUnicode, !PyUrl}.

Definition evidence_for_target (query : option pystr) (version : pystr) : res (list EvidenceSource) :=
  let* catalog := evidence_catalog_for_version version in
  match query with
  | None => Ok catalog
  | Some query =>
      let* result := _ranked_core_plus_topical query catalog (Some version) core_ids 6 in
      let* _ := validate_trusted_evidence (Some version) result in
      Ok result
  end.
End target.

Definition evidence_for_mvp (query : option pystr) : res (list EvidenceSource) :=
  let* catalog := target_neutral_evidence_catalog in
  match query with
  | None => Ok catalog
  | Some query => search query None (Z.min (Z.of_nat (length catalog)) 4)
  end.
End choice.

(** ** The catalogue *)

Section catalogue.
Context `{PyFloatLaws, PyUnicode, !PyUrl}.

Lemma records_NoDup : NoDup (map cr_source_id _CATALOG_RECORDS).
Proof. apply (bool_decide_unpack _). vm_compute. exact I. Qed.

Lemma records_known : Forall (fun r => trusted_by_id (cr_source_id r) = Some r) _CATALOG_RECORDS.
Proof. unfold _CATALOG_RECORDS. repeat (constructor; [vm_compute; reflexivity|]). constructor. Qed.

Lemma records_hosted : Forall (fun r => https_host OFFICIAL_EVIDENCE_HOSTS (cr_url r) = Ok true) _CATALOG_RECORDS.
Proof. unfold _CATALOG_RECORDS. repeat (constructor; [vm_compute; reflexivity|]). constructor. Qed.

Lemma records_apply version : Forall (fun r => _applies r version = true) _CATALOG_RECORDS.
Proof. unfold _CATALOG_RECORDS. repeat (constructor; [vm_compute; reflexivity|]). constructor. Qed.

Lemma records_for_all version : records_for version = _CATALOG_RECORDS.
Proof. unfold records_for. induction (records_apply version) as [|r l Hr _ IH]; [done|]. by rewrite filter_cons_True, IH. Qed.

Lemma records_wf : Forall (fun r => wf_json (_record_payload r) = true) _CATALOG_RECORDS.
Proof. unfold _CATALOG_RECORDS. repeat (constructor; [vm_compute; reflexivity|]). constructor. Qed.

Definition official (e : EvidenceSource) : Prop := exists r, r ∈ _CATALOG_RECORDS /\ _as_evidence r = Ok e.

(** Evidence that validation accepts: records of the catalogue, each once. *)
Definition trusted (l : list EvidenceSource) : Prop := Forall official l /\ NoDup (map source_id l).

Lemma as_evidence_id r e : _as_evidence r = Ok e -> source_id e = cr_source_id r.
Proof. unfold _as_evidence. intros (d & _ & [= <-])%res_bind_ok. done. Qed.

Lemma as_evidence_total r : r ∈ _CATALOG_RECORDS -> exists e, _as_evidence r = Ok e.
Proof.
  intros Hr. pose proof (proj1 (Forall_forall _ _) records_wf r Hr) as Hw. unfold _as_evidence, _record_sha256.
  destruct (canonical_json_total _ Hw) as (t & -> & _ & Ht). cbn [res_bind].
  destruct (sha256_text_total t Ht) as [h ->]. by eexists.
Qed.

Lemma evidence_of_catalogue : exists all, _evidence_of _CATALOG_RECORDS = Ok all /\ length all = 8%nat /\
  map source_id all = map cr_source_id _CATALOG_RECORDS /\ trusted all.
Proof.
  assert (Hall : exists all, Forall2 (fun r e => _as_evidence r = Ok e) _CATALOG_RECORDS all).
  { assert (Hf : Forall (fun r => exists e, _as_evidence r = Ok e) _CATALOG_RECORDS)
      by (apply Forall_forall; intros; by apply as_evidence_total).
    induction Hf as [|r l [e He] _ [all IH]]; [by exists []|]. exists (e :: all). by constructor. }
  destruct Hall as [all Hall]. exists all. split; [by apply res_map_list_ok|].
  assert (Hids : map source_id all = map cr_source_id _CATALOG_RECORDS).
  { clear -Hall. induction Hall as [|r e l all He _ IH]; [done|]. cbn [map]. by rewrite IH, (as_evidence_id _ _ He). }
  split_and!; [by rewrite <- (Forall2_length _ _ _ Hall)|done|].
  split; [|rewrite Hids; exact records_NoDup]. apply Forall_forall. intros e He.
  apply list_elem_of_lookup in He as [i Hi]. destruct (Forall2_lookup_r _ _ _ _ _ Hall Hi) as (r & Hr & Hv).
  exists r. split; [by eapply list_elem_of_lookup_2|done].
Qed.

Lemma check_official version seen e :
  official e -> source_id e ∉ seen -> check_source version seen e = Ok tt.
Proof.
  intros (r & Hr & He) Hseen. unfold check_source. rewrite bool_decide_false by done. cbn [negb require res_bind].
  pose proof (proj1 (Forall_forall _ _) records_hosted r Hr) as Hh.
  pose proof (proj1 (Forall_forall _ _) records_known r Hr) as Hk.
  pose proof (proj1 (Forall_forall _ _) (records_apply version) r Hr) as Ha.
  assert (Hf : url e = cr_url r /\ retrieval_policy e = u "data_only" /\ trust_tier e = u "official_primary").
  { unfold _as_evidence in He. apply res_bind_ok in He as (d & _ & [= <-]). done. }
  destruct Hf as (-> & -> & ->). rewrite Hh. cbn [res_bind require]. rewrite !bool_decide_true by done. cbn [require res_bind].
  rewrite (as_evidence_id _ _ He), Hk, He. cbn [res_bind]. rewrite bool_decide_true by done. cbn [require res_bind].
  destruct version; [by rewrite Ha|done].
Qed.

Lemma check_trusted version l seen :
  trusted l -> (forall e, e ∈ l -> source_id e ∉ seen) -> check_sources version seen l = Ok tt.
Proof.
  intros [Hf Hn]. revert seen. induction Hf as [|e l He _ IH]; intros seen Hs; [done|]. cbn [check_sources].
  apply NoDup_cons in Hn as [Hne Hn]. rewrite check_official; [|done|apply Hs; left]. cbn [res_bind]. apply IH; [done|].
  intros e' He'. rewrite not_elem_of_cons. split; [|apply Hs; by right].
  intros Heq. apply Hne. rewrite <- Heq. by apply list_elem_of_fmap_2.
Qed.

Lemma trusted_valid version l : trusted l -> l <> [] -> validate_trusted_evidence version l = Ok tt.
Proof.
  intros Ht Hl. unfold validate_trusted_evidence. rewrite bool_decide_false by done. cbn [negb require res_bind].
  apply check_trusted; [done|]. intros e _. apply not_elem_of_nil.
Qed.

Lemma records_scalar :
  Forall (fun r => forallb scalar_string [cr_source_id r; cr_title r; cr_url r; cr_authority r; cr_version_scope r; cr_verified_on r]
                   = true) _CATALOG_RECORDS.
Proof. unfold _CATALOG_RECORDS. repeat (constructor; [vm_compute; reflexivity|]). constructor. Qed.

Lemma digest_scalar t h : sha256_text t = Ok h -> scalar_string h = true.
Proof.
  unfold sha256_text. intros (bytes & _ & [= <-])%res_bind_ok. destruct (hexdigest_shape bytes) as [_ Hc].
  change (forallb scalar_value (u "sha256:" ++ hexdigest bytes) = true). rewrite forallb_app. apply andb_true_iff. split; [done|].
  rewrite forallb_forall in Hc |- *. intros c Hin. specialize (Hc c Hin). unfold hex_char, is_digit in Hc.
  unfold scalar_value, high_surrogate, low_surrogate.
  rewrite orb_true_iff, !andb_true_iff, !Z.leb_le in Hc.
  rewrite !andb_true_iff, !negb_true_iff, !andb_false_iff, Z.leb_le, Z.ltb_lt, !Z.leb_gt. lia.
Qed.

Lemma official_wf e : official e -> wf_json (evidence_json e) = true.
Proof.
  intros (r & Hr & He). pose proof (proj1 (Forall_forall _ _) records_scalar r Hr) as Hs. unfold _as_evidence, _record_sha256 in He.
  apply res_bind_ok in He as (d & (t & _ & Hd%digest_scalar)%res_bind_ok & [= <-]).
  cbn [forallb] in Hs. rewrite !andb_true_iff in Hs. destruct Hs as (E1 & E2 & E3 & E4 & E5 & E6 & _).
  cbn [evidence_json str_fields map wf_json forallb fmap list_fmap fst snd source_id title url authority version_scope verified_on
       trust_tier retrieval_policy record_sha256].
  rewrite E1, E2, E3, E4, E5, E6, Hd. vm_compute. reflexivity.
Qed.

Lemma snapshot_total l : trusted l -> l <> [] -> exists h, evidence_snapshot_hash l = Ok h.
Proof.
  intros Ht Hl. unfold evidence_snapshot_hash. rewrite trusted_valid by done. cbn [res_bind].
  assert (Hw : wf_json (JArr (map evidence_json (merge_sort by_source l))) = true).
  { cbn [wf_json]. apply forallb_forall. intros j (e & <- & He)%in_map_iff. apply official_wf.
    apply list_elem_of_In in He. rewrite merge_sort_Permutation in He. destruct Ht as [Hf _]. rewrite Forall_forall in Hf. by apply Hf. }
  destruct (canonical_json_total _ Hw) as (t & -> & _ & Ht'). cbn [res_bind].
  destruct (sha256_text_total t Ht') as [h ->]. by eexists.
Qed.

(** ** The choice *)

Variable lower : pystr -> pystr.

Lemma search_trusted query version limit :
  0 < limit -> exists all l, Permutation all l /\ _evidence_of _CATALOG_RECORDS = Ok all /\
    search lower query version limit = Ok (take (Z.to_nat (Z.min limit 8)) l).
Proof.
  intros Hl. destruct evidence_of_catalogue as (all & Hall & _). unfold search. rewrite records_for_all.
  rewrite (proj2 (Z.leb_le 1 limit)) by lia. cbn [require res_bind].
  assert (Hr : forall records es, _evidence_of records = Ok es ->
            exists ranked, res_map_list (ranked_record lower query) records = Ok ranked /\ map snd ranked = es).
  { unfold _evidence_of, ranked_record. induction records as [|r records IH]; intros es; cbn [res_map_list].
    - intros [= <-]. by exists [].
    - intros (e & He & (bs & Hbs & [= <-])%res_bind_ok)%res_bind_ok. destruct (IH _ Hbs) as (ranked & Hk & Hm).
      rewrite He. cbn [res_bind]. rewrite Hk. cbn [res_bind]. eexists. split; [done|]. cbn [map snd]. by rewrite Hm. }
  destruct (Hr _ _ Hall) as (ranked & -> & Hm). cbn [res_bind]. exists all, (map snd (merge_sort rank_le ranked)).
  split_and!; [|done|done]. rewrite <- Hm. apply Permutation_map. symmetry. apply merge_sort_Permutation.
Qed.

Lemma trusted_perm l l' : l ≡ₚ l' -> trusted l -> trusted l'.
Proof. intros Hp [Hf Hn]. split; [by rewrite <- Hp|]. by rewrite <- Hp. Qed.

Lemma trusted_take n l : trusted l -> trusted (take n l).
Proof.
  intros [Hf Hn]. split; [by apply Forall_take|]. rewrite <- (take_drop n l), map_app in Hn. by apply NoDup_app in Hn as [Hn _].
Qed.

(** What is selected is official, under its own identifier. *)
Definition sound (selected : selection) : Prop := map_Forall (fun id e => source_id e = id /\ official e) selected.

Lemma sorted_selection_ids selected :
  sound selected -> map source_id (sorted_selection selected) = sorted_set (dom selected).
Proof.
  intros Hs. unfold sorted_selection. assert (Hd : Forall (fun id => is_Some (selected !! id)) (sorted_set (dom selected))).
  { apply Forall_forall. intros id Hid%sorted_set_elem. by apply elem_of_dom. }
  induction Hd as [|id l [e He] _ IH]; [done|]. cbn [omap list_omap]. rewrite He. cbn [map].
  destruct (Hs _ _ He) as [-> _]. by rewrite IH.
Qed.

Lemma sorted_selection_trusted selected : sound selected -> trusted (sorted_selection selected).
Proof.
  intros Hs. split; [|rewrite sorted_selection_ids by done; apply sorted_set_NoDup].
  apply Forall_forall. intros e (id & _ & He)%list_elem_of_omap. by destruct (Hs _ _ He).
Qed.

Lemma sorted_selection_length selected : sound selected -> length (sorted_selection selected) = size selected.
Proof.
  intros Hs. rewrite <- (length_map source_id), sorted_selection_ids by done.
  unfold sorted_set, sort_strs. rewrite merge_sort_Permutation. exact (size_dom selected).
Qed.

Lemma add_ranked_sound n ranked selected : Forall official ranked -> sound selected -> sound (add_ranked n ranked selected).
Proof.
  intros Hr. revert selected. induction Hr as [|e ranked He _ IH]; intros selected Hs; [done|]. cbn [add_ranked].
  assert (Hs' : sound (match selected !! source_id e with Some _ => selected | None => <[source_id e := e]> selected end)).
  { destruct (selected !! source_id e); [done|]. by apply map_Forall_insert_2. }
  cbv zeta. destruct (n <=? _)%nat; [done|by apply IH].
Qed.

Lemma add_ranked_keeps n ranked selected : dom selected ⊆ dom (add_ranked n ranked selected).
Proof.
  revert selected. induction ranked as [|e ranked IH]; intros selected; [done|]. cbn [add_ranked].
  assert (Hs : dom selected ⊆ dom (match selected !! source_id e with Some _ => selected | None => <[source_id e := e]> selected end)).
  { destruct (selected !! source_id e); [done|]. rewrite dom_insert. set_solver. }
  cbv zeta. destruct (n <=? _)%nat; [done|]. etrans; [exact Hs|apply IH].
Qed.

Lemma add_ranked_size n ranked selected :
  (size selected < n <= size (dom selected ∪ list_to_set (map source_id ranked)))%nat ->
  size (add_ranked n ranked selected) = n.
Proof.
  revert selected. induction ranked as [|e ranked IH]; intros selected [Hlt Hle]; cbn [add_ranked map list_to_set] in *.
  { rewrite union_empty_r_L, size_dom in Hle. lia. }
  destruct (selected !! source_id e) as [e'|] eqn:E.
  - rewrite (proj2 (Nat.leb_gt _ _)) by done. apply IH. split; [done|].
    apply elem_of_dom_2 in E. replace (dom selected ∪ list_to_set (map source_id ranked))
      with (dom selected ∪ ({[source_id e]} ∪ list_to_set (map source_id ranked))) by set_solver. done.
  - rewrite map_size_insert_None by done. destruct (n <=? S (size selected))%nat eqn:En.
    + apply Nat.leb_le in En. rewrite map_size_insert_None by done. lia.
    + apply Nat.leb_gt in En. apply IH. rewrite map_size_insert_None, dom_insert_L by done. split; [done|].
      by replace ({[source_id e]} ∪ dom selected ∪ list_to_set (map source_id ranked))
        with (dom selected ∪ ({[source_id e]} ∪ list_to_set (map source_id ranked))) by set_solver.
Qed.

Lemma core_selection all :
  trusted all -> map source_id all = map cr_source_id _CATALOG_RECORDS ->
  sound (core_of core_ids all) /\ dom (core_of core_ids all) = list_to_set core_ids.
Proof.
  intros [Hf Hn] Hids. split.
  - apply map_Forall_lookup. intros id e Hl. unfold core_of in Hl. apply elem_of_list_to_map_2 in Hl.
    apply list_elem_of_fmap in Hl as (e' & [= -> ->] & [_ He]%list_elem_of_filter). split; [done|]. rewrite Forall_forall in Hf. by apply Hf.
  - unfold core_of. rewrite dom_list_to_map_L.
    assert (Hm : map source_id (filter (fun e => source_id e ∈ core_ids) all) = filter (fun id => id ∈ core_ids) (map source_id all)).
    { clear. induction all as [|e all IH]; [done|]. cbn [map]. destruct (decide (source_id e ∈ core_ids)).
      - rewrite !filter_cons_True by done. cbn [map]. by rewrite IH.
      - rewrite !filter_cons_False by done. done. }
    replace ((map (fun e => (source_id e, e)) (filter (fun e => source_id e ∈ core_ids) all)).*1)
      with (map source_id (filter (fun e => source_id e ∈ core_ids) all)).
    2: { symmetry. etrans; [apply map_map|]. by apply map_ext. }
    rewrite Hm, Hids. apply (bool_decide_unpack _). vm_compute. exact I.
Qed.

(** C22: The evidence chosen for a target, whatever was asked for, is evidence that the
    validation of a proposal trusts for that target: records of the catalogue, each once, the
    five core records among them, and a snapshot of it can be hashed.  For a request it is six
    records, so one besides the core; without one it is the whole catalogue.  Planning, before there
    is a target, gets up to four trusted records. *)
Theorem chosen_evidence_trusted query version :
  strip version <> [] ->
  (exists l h, evidence_for_target lower query version = Ok l /\
     validate_trusted_evidence (Some version) l = Ok tt /\ evidence_snapshot_hash l = Ok h /\
     (forall id, id ∈ core_ids -> id ∈ map source_id l) /\
     length l = if query then 6%nat else 8%nat) /\
  exists l, evidence_for_mvp lower query = Ok l /\ validate_trusted_evidence None l = Ok tt /\
     length l = if query then 4%nat else 8%nat.
Proof.
  intros Hv. destruct evidence_of_catalogue as (all & Hall & Hlen & Hids & Ht).
  assert (Hne : all <> []) by (by intros ->).
  assert (Hcat : evidence_catalog_for_version version = Ok all).
  { unfold evidence_catalog_for_version. rewrite bool_decide_false by done. cbn [negb require res_bind].
    rewrite records_for_all, Hall. cbn [res_bind]. by destruct all. }
  assert (Hmvp : target_neutral_evidence_catalog = Ok all).
  { unfold target_neutral_evidence_catalog. rewrite records_for_all, Hall. cbn [res_bind]. by destruct all. }
  unfold evidence_for_target, evidence_for_mvp. rewrite Hcat, Hmvp. cbn [res_bind]. destruct query as [query|].
  2: { split; [|exists all; split_and!; [done|by apply trusted_valid|done]].
       destruct (snapshot_total all Ht Hne) as [h Hh]. exists all, h. split_and!; [done|by apply trusted_valid|done| |done].
       intros id Hid. rewrite Hids. revert id Hid. apply Forall_forall. apply (bool_decide_unpack _). vm_compute. exact I. }
  rewrite Hlen. split.
  - unfold _ranked_core_plus_topical. rewrite Hlen.
    destruct (search_trusted query (Some version) 8 eq_refl) as (all' & l & Hp & Hall' & Hs).
    rewrite Hall in Hall'. injection Hall' as <-. change (Z.of_nat 8) with 8. rewrite Hs. cbn [res_bind].
    change (Z.to_nat (Z.min 8 8)) with 8%nat. rewrite take_ge by (by rewrite <- Hp, Hlen).
    destruct (core_selection all Ht Hids) as [Hc Hd]. set (sel := add_ranked _ _ _).
    assert (Hsel : sound sel) by (apply add_ranked_sound; [rewrite <- Hp; by destruct Ht|done]).
    assert (Hsize : size sel = 6%nat).
    { apply add_ranked_size. rewrite <- size_dom, Hd, <- Hp, Hids. vm_compute. lia. }
    assert (Hnil : sorted_selection sel <> []).
    { intros Hz. apply (f_equal length) in Hz. rewrite sorted_selection_length, Hsize in Hz by done. done. }
    pose proof (sorted_selection_trusted sel Hsel) as Htr.
    rewrite trusted_valid by done. cbn [res_bind]. destruct (snapshot_total _ Htr Hnil) as [h Hh]. exists (sorted_selection sel), h.
    split_and!; [done|by apply trusted_valid|done| |by rewrite sorted_selection_length].
    intros id Hid. rewrite sorted_selection_ids by done. apply sorted_set_elem, (add_ranked_keeps _ _ _). rewrite Hd. by apply elem_of_list_to_set.
  - destruct (search_trusted query None (Z.min (Z.of_nat 8) 4) eq_refl) as (all' & l & Hp & Hall' & Hs).
    rewrite Hall in Hall'. injection Hall' as <-. rewrite Hs. eexists. split; [done|].
    assert (Hl : length (take (Z.to_nat (Z.min (Z.min (Z.of_nat 8) 4) 8)) l) = 4%nat).
    { rewrite length_take, <- Hp, Hlen. done. }
    split; [|done]. apply trusted_valid; [|by intros Hz; rewrite Hz in Hl].
    apply trusted_take. by eapply trusted_perm.
Qed.
End catalogue.
