(* ===== verification/CompleteProposal.v ===== *)
(** * CompleteProposal: [complete_spec.py]

    The proposal that is shown, approved by its hash, and built: its validation with that of
    its modules, the hash and the approval.  The version contexts and the production contract
    that it is checked against are arguments. *)

From stdpp Require Import prelude gmap sets fin_sets strings list sorting.
From S2P Require Import Prelude Text Json StdJson PyJson JsonStream JsonReader Sha256 Paths ScalePolicy Backend Kahn WorkPlan.
From S2P Require Import TargetContract ArtifactPorts ArtifactJob GraphExecutor SpecIdentity Specification.

Open Scope Z_scope.
Open Scope py_scope.

Section modules.
Context `{PyFloat, !PyRepr}.

(** ** Values of a module's configuration *)

(** Every number is finite. *)
Fixpoint all_finite (j : json) : bool :=
  match j with
  | JFloat f => float_finite f
  | JArr l => forallb all_finite l
  | JObj l => forallb (fun kv => all_finite kv.2) l
  | _ => true
  end.

(** [json.dumps(value, ensure_ascii=False, allow_nan=False)], the keys in their order. *)
Fixpoint dumps_plain (j : json) : res pystr :=
  match j with
  | JNull => Ok (u "null")
  | JBool b => Ok (if b then u "true" else u "false")
  | JInt z => str_int z
  | JFloat f => if float_finite f then Ok (float_repr f) else Err ValueError
  | JStr s => Ok (dumps_string s)
  | JArr l => let* ts := res_map_list dumps_plain l in Ok ([91] ++ join (u ", ") ts ++ [93])
  | JObj l =>
      let* ts := res_map_list (fun kt : pystr * res pystr => let* t := kt.2 in Ok (dumps_string kt.1 ++ u ": " ++ t))
                   (map (fun kv => (kv.1, dumps_plain kv.2)) l) in
      Ok ([123] ++ join (u ", ") ts ++ [125])
  end.

(** [except (TypeError, ValueError)] and [except (KeyError, TypeError, ValueError)] *)
Definition is_type_or_value_error (e : exn) : bool := match e with TypeError => true | _ => is_value_error e end.
Definition is_graph_error (e : exn) : bool := match e with KeyError => true | _ => is_type_or_value_error e end.

(** ** The local AI sidecar: [normalize_local_ai_sidecar_config] *)

Record LocalAiSidecarPolicy : Type := SidecarPolicy {
  port : Z; timeout_ms : Z; max_request_bytes : Z; max_response_bytes : Z; max_in_flight : Z;
  sidecar_capabilities : list pystr; authentication : pystr
}.

Definition sidecar_error {A} : res A := Err (OtherException "LocalAiSidecarGenerationError").

Definition ALLOWED_CAPABILITIES : list pystr := map u ["agent_tool_use"; "ai_inference"; "translation"]%string.

Definition _ALLOWED_CONFIG_FIELDS : list pystr :=
  map u ["integration_type"; "port"; "timeout_ms"; "max_request_bytes"; "max_response_bytes"; "max_in_flight";
         "capabilities"; "authentication"]%string.

Definition _bounded_int (config : list (pystr * json)) (field : string) (default minimum maximum : Z) : res Z :=
  match dict_get (u field) config with
  | None => if (minimum <=? default) && (default <=? maximum) then Ok default else sidecar_error
  | Some (JInt z) => if (minimum <=? z) && (z <=? maximum) then Ok z else sidecar_error
  | Some _ => sidecar_error
  end.

Definition capability_name (value : json) : res pystr := match value with JStr s => Ok s | _ => sidecar_error end.

Definition normalize_local_ai_sidecar_config (config : list (pystr * json)) : res LocalAiSidecarPolicy :=
  if decide (Exists (fun field => field ∉ _ALLOWED_CONFIG_FIELDS) config.*1) then sidecar_error
  else if negb (is_text (get config (u "integration_type")) (u "mmm_local_ai_sidecar")) then sidecar_error
  else
    let* port := _bounded_int config "port" 8765 1024 65535 in
    let* timeout_ms := _bounded_int config "timeout_ms" 5000 100 30000 in
    let* max_request_bytes := _bounded_int config "max_request_bytes" 262144 256 1048576 in
    let* max_response_bytes := _bounded_int config "max_response_bytes" 262144 256 1048576 in
    let* max_in_flight := _bounded_int config "max_in_flight" 4 1 32 in
    match get config (u "capabilities") with
    | JArr ((_ :: _) as raw) =>
        let* names := res_map_list capability_name raw in
        let capabilities := sorted_set (list_to_set names) in
        if decide (length capabilities <> length raw) then sidecar_error
        else if decide (Exists (fun name => name ∉ ALLOWED_CAPABILITIES) capabilities) then sidecar_error
        else
          match dict_get (u "authentication") config with
          | None => Ok (SidecarPolicy port timeout_ms max_request_bytes max_response_bytes max_in_flight capabilities (u "none"))
          | Some (JStr s) =>
              if decide (s ∈ [u "none"; u "external_token"])
              then Ok (SidecarPolicy port timeout_ms max_request_bytes max_response_bytes max_in_flight capabilities s)
              else sidecar_error
          | Some (JArr _) | Some (JObj _) => Err TypeError
          | Some _ => sidecar_error
          end
    | _ => sidecar_error
    end.

(** ** Research shards: [validate_research_shard_config] *)

Definition ledger_error {A} : res A := Err (OtherException "ResearchLedgerError").

Definition _sha256_json (value : json) : res pystr :=
  if all_finite value then let* text := canonical_json value in sha256_text text else Err ValueError.

(** [value == n] for a length [n]. *)
Definition equals_int (value : json) (n : Z) : bool :=
  match value with
  | JInt z => z =? n
  | JBool b => (if b then 1 else 0) =? n
  | JFloat f => bool_decide (float_repr f = dec_int n ++ u ".0") || ((n =? 0) && float_zero f)
  | _ => false
  end.

Definition _safe_target_path (value : json) : res unit :=
  match value with
  | JStr ((_ :: _) as s) =>
      let path := forward_slashes s in
      let parts := path_parts path in
      if starts_with [47] path || bool_decide (u ".." ∈ parts) then ledger_error
      else if negb (bool_decide (take 2 parts = [u ".minecraft_ai"; u "research"])) then ledger_error
      else if negb (bool_decide (name_suffix (path_name parts) = u ".json")) then ledger_error
      else Ok tt
  | _ => ledger_error
  end.

Definition _validate_body (config : list (pystr * json)) : res unit :=
  match get config (u "shard_index"), get config (u "shard_count") with
  | JInt index, JInt count =>
      if (index <? 0) || (count <? 1) || (count <=? index) then ledger_error
      else
        match get config (u "facts"), get config (u "receipt") with
        | JArr facts, JObj receipt =>
            if negb (equals_int (get receipt (u "shard_fact_count")) (Z.of_nat (length facts))) then ledger_error
            else
              let* digest := _sha256_json (JArr facts) in
              if is_text (get receipt (u "shard_sha256")) digest then Ok tt else ledger_error
        | _, _ => ledger_error
        end
  | _, _ => ledger_error
  end.

Definition validate_research_shard_config (config : list (pystr * json)) : res unit :=
  let* type := str_or_empty (get config (u "integration_type")) in
  if negb (bool_decide (strip type = u "mmm_research_shard")) then ledger_error
  else if negb (is_text (get config (u "schema_version")) (u "mmm/research-shard-v1")) then ledger_error
  else
    match get config (u "artifact") with
    | JObj artifact =>
        if negb (is_text (get artifact (u "write_mode")) (u "exact_json_resource_only")) then ledger_error
        else
          match get artifact (u "generate_java_or_gameplay_feature") with
          | JBool false =>
              let* _ := _safe_target_path (get artifact (u "target_path")) in
              _validate_body config
          | _ => ledger_error
          end
    | _ => ledger_error
    end.

(** ** [ProductionModule.validate] *)

Definition MODULE_KINDS : list pystr :=
  EXTENDED_CONTENT_KINDS ++ map fst SYSTEM_KIND_TO_PACK ++ ENTITY_PIPELINE_KINDS ++ [u "integration"; u "typed_host"].

(** [except LocalAiSidecarGenerationError] and [except ResearchLedgerError] *)
Definition reviewed {A} (m : res A) : res unit :=
  match m with
  | Ok _ => Ok tt
  | Err (OtherException _) => spec_error "Invalid reviewed integration module"
  | Err e => Err e
  end.

Definition is_integration (m : ProductionModule) (type : string) : bool :=
  bool_decide (kind m = u "integration") && is_text (get (config m) (u "integration_type")) (u type).

Definition validate_module (policy : ScalePolicy) (m : ProductionModule) : res unit :=
  let* _ := require (spec_id (module_id m)) "Invalid production module id" in
  let* _ := require (bool_decide (kind m ∈ MODULE_KINDS)) "Unsupported production module kind" in
  let* _ := if bool_decide (kind m = u "typed_host")
            then require (has_typed_plan m) "TYPED_HOST_PLAN_REQUIRED"
            else require (negb (has_typed_plan m)) "TYPED_HOST_KIND_REQUIRED" in
  let* _ := if is_integration m "mmm_local_ai_sidecar" then reviewed (normalize_local_ai_sidecar_config (config m)) else Ok tt in
  let* _ := if is_integration m "mmm_research_shard" then reviewed (validate_research_shard_config (config m)) else Ok tt in
  let* _ := require (match get (config m) (u "implementation") with JNull => true | _ => false end)
              "CUSTOM_JAVA_BACKEND_REMOVED" in
  let* encoded := spec_error_from is_type_or_value_error "Module config is not finite JSON"
                    (let* text := dumps_plain (JObj (config m)) in utf8_encode text) in
  let* _ := require (Z.of_nat (length encoded) <=? max_single_file_bytes policy)
              "Module config exceeds the configured per-file resource policy" in
  let* _ := require (forallb spec_id (depends_on m)) "Invalid dependency in module" in
  let* _ := require (bool_decide (NoDup (depends_on m))) "Duplicate dependency in module" in
  require (forallb nonblank (required_gates m)) "Invalid gate in module".

Fixpoint check_modules (policy : ScalePolicy) (seen : list pystr) (l : list ProductionModule) : res unit :=
  match l with
  | [] => Ok tt
  | m :: l =>
      let* _ := validate_module policy m in
      let* _ := require (negb (bool_decide (module_id m ∈ seen))) "Duplicate production module id" in
      check_modules policy (module_id m :: seen) l
  end.

Definition check_dependencies (ids : list pystr) (m : ProductionModule) : res unit :=
  let* _ := require (forallb (fun d => bool_decide (d ∈ ids)) (depends_on m)) "Module references unknown dependencies" in
  require (negb (bool_decide (module_id m ∈ depends_on m))) "Module may not depend on itself.".

Definition module_json (m : ProductionModule) : json :=
  JObj [(u "module_id", JStr (module_id m)); (u "kind", JStr (kind m)); (u "config", JObj (config m));
        (u "depends_on", texts (depends_on m)); (u "required_gates", texts (required_gates m))].
End modules.

Section proposal.
Context `{PyFloat, PyUnicode, !PyRepr, PyCasefold, PyIsDigit, !PyUrl}.

Record AssetRequest : Type := Asset {
  asset_id : pystr; asset_kind : pystr; visual_description : pystr; render_kind : pystr; subject_id : pystr;
  owner_module_id : pystr; container : pystr; requested_width : option Z; requested_height : option Z;
  variant_count : Z; visual_spec : option (list (pystr * json))
}.

Record CompleteProposal : Type := Complete {
  schema_version : pystr; proposal_version : Z; status : ProposalStatus; requested_prompt : pystr;
  base_proposal : Proposal; game_design : list (pystr * json); modules : list ProductionModule;
  assets : list AssetRequest; acceptance_tests : list pystr; external_runtime_required : bool;
  existing_input_sha256 : pystr; approval_hash : pystr
}.

(** What a proposal is checked against: the version context of a platform and of
    a dictionary, and [validate_production_contract]. *)
Record authorities : Type := Authorities {
  platform_context : PlatformLock -> res ResolvedVersionContext;
  read_context : list (pystr * json) -> res ResolvedVersionContext;
  production_contract : list (pystr * json) -> list ProductionModule -> list pystr -> list AssetRequest ->
                        option (list (pystr * json)) -> res unit
}.

(** ** The hash *)

Definition optional_int (z : option Z) : json := match z with Some z => JInt z | None => JNull end.

Definition asset_json (a : AssetRequest) : json :=
  JObj (str_fields [("asset_id", asset_id a); ("kind", asset_kind a); ("visual_description", visual_description a);
                    ("render_kind", render_kind a); ("subject_id", subject_id a);
                    ("owner_module_id", owner_module_id a); ("container", container a)]%string ++
        [(u "requested_width", optional_int (requested_width a)); (u "requested_height", optional_int (requested_height a));
         (u "variant_count", JInt (variant_count a));
         (u "visual_spec", match visual_spec a with Some d => JObj d | None => JNull end)]).

Definition hash_payload (p : CompleteProposal) : json :=
  JObj [(u "schema_version", JStr (schema_version p)); (u "proposal_version", JInt (proposal_version p));
        (u "status", JStr (status_value AWAITING_APPROVAL)); (u "requested_prompt", JStr (requested_prompt p));
        (u "base_proposal", proposal_json (base_proposal p)); (u "game_design", JObj (game_design p));
        (u "modules", JArr (map module_json (modules p))); (u "assets", JArr (map asset_json (assets p)));
        (u "acceptance_tests", texts (acceptance_tests p));
        (u "external_runtime_required", JBool (external_runtime_required p));
        (u "existing_input_sha256", JStr (existing_input_sha256 p)); (u "approval_hash", JStr [])].

Definition calculate_hash (p : CompleteProposal) : res pystr := digest_of (hash_payload p).

(** ** Validation *)

Definition context_error {A} (why : string) : res A := Err (VersionContextError why).

(** [for raw_job in self.game_design.get("_artifact_jobs", ()): ..] *)
Definition check_job_contexts (resolved : ResolvedVersionContext) (jobs : option json) : res unit :=
  match jobs with
  | None => Ok tt
  | Some (JArr l) =>
      check_each (fun raw => match raw with
                             | JObj job => assert_context resolved (get job (u "context_id"))
                             | _ => context_error "ARTIFACT_CONTEXT_BINDING_MISSING"
                             end) l
  | Some (JObj []) | Some (JStr []) => Ok tt
  | Some (JObj _) | Some (JStr _) => context_error "ARTIFACT_CONTEXT_BINDING_MISSING"
  | Some _ => Err TypeError
  end.

Definition check_contexts (auth : authorities) (p : CompleteProposal) : res unit :=
  let platform := platform (pr_spec (base_proposal p)) in
  if bool_decide (pl_host_facts_json platform = []) then Ok tt
  else
    let* resolved := platform_context auth platform in
    let* _ := match get (game_design p) (u "_resolved_version_context") with
              | JNull => Ok tt
              | JObj ((_ :: _) as stored) =>
                  let* stored := read_context auth stored in assert_context resolved (JStr (context_id stored))
              | _ => context_error "INVALID_VERSION_CONTEXT"
              end in
    let expected := map (fun m => u "module:" ++ module_id m) (modules p) ++ map (fun a => u "asset:" ++ asset_id a) (assets p) in
    let* _ := match get (game_design p) (u "_artifact_version_contexts") with
              | JNull => Ok tt
              | JObj bindings =>
                  if decide ((list_to_set bindings.*1 : gset pystr) <> list_to_set expected)
                  then context_error "ARTIFACT_CONTEXT_BINDING_MISSING"
                  else check_each (assert_context resolved) bindings.*2
              | _ => context_error "ARTIFACT_CONTEXT_BINDING_MISSING"
              end in
    check_job_contexts resolved (dict_get (u "_artifact_jobs") (game_design p)).

Definition host_fixture_only (design : list (pystr * json)) : bool :=
  is_text (get design (u "mode")) (u "debug_fixture") &&
  match get design (u "fixture") with
  | JObj fixture => is_true (get fixture (u "deterministic")) && is_mapping (get fixture (u "source_contract"))
  | _ => false
  end.

(** The identifiers that the base proposal owns. *)
Definition bootstrap_module_ids (m : ModSpec) : list pystr :=
  map content_id (contents m) ++ match boss m with Some b => [entity_id b; spawn_egg (entity_id b)] | None => [] end.

(** [game_design["_artifact_jobs"]], which may be absent or [None]. *)
Definition raw_artifact_jobs (p : CompleteProposal) : res (list json) :=
  match get (game_design p) (u "_artifact_jobs") with
  | JNull => Ok []
  | JArr l => Ok l
  | _ => spec_error "game_design._artifact_jobs must be an array when supplied."
  end.

Definition artifact_jobs (p : CompleteProposal) : res (list ArtifactJob) :=
  let* raw := raw_artifact_jobs p in
  spec_error_from is_graph_error "Invalid canonical artifact job graph"
    (let* jobs := parse_artifact_jobs raw in
     let* _ := validate_artifact_job_graph (map module_id (modules p)) jobs in
     Ok jobs).

(** A module has an artifact owner or a native route that the platform supports. *)
Definition has_route (owners : list pystr) (m : ProductionModule) : res bool :=
  if bool_decide (module_id m ∈ owners) then Ok true
  else let* stage := native_production_stage (kind m) (config m) in Ok (bool_decide (is_Some stage)).

Definition supported (owners available : list pystr) (m : ProductionModule) : bool :=
  bool_decide (module_id m ∈ owners) || bool_decide (missing_production_backend_capabilities available (kind m) = ∅).

Definition check_routes (p : CompleteProposal) (jobs : list ArtifactJob) : res unit :=
  let owners := filter (fun owner => owner <> []) (map owner_module jobs) in
  let* routed := res_map_list (has_route owners) (modules p) in
  let* _ := require (forallb id routed) "DETERMINISTIC_BACKEND_REQUIRED: production module has no route" in
  let available := pl_deterministic_module_kinds (platform (pr_spec (base_proposal p))) in
  require (forallb (supported owners available) (modules p))
    "DETERMINISTIC_BACKEND_REQUIRED: approved target cannot execute native production modules".

Definition check_contract (auth : authorities) (p : CompleteProposal) : res unit :=
  if negb (bool_decide (schema_version p = u "mmm/complete-proposal-v2")) then Ok tt
  else
    match get (game_design p) (u "_production_contract") with
    | JObj contract =>
        let plan := match get (game_design p) (u "_evidence_plan") with JObj plan => Some plan | _ => None end in
        spec_error_from is_value_error "Invalid production contract"
          (production_contract auth contract (modules p) (acceptance_tests p) (assets p) plan)
    | _ => spec_error "Complete proposal v2 requires game_design._production_contract."
    end.

Definition check_approval (p : CompleteProposal) : res unit :=
  let* _ := require (negb (is_approved (status p) && bool_decide (approval_hash p = [])))
              "Complete proposal approved state requires its approval_hash integrity receipt." in
  if bool_decide (approval_hash p = []) then Ok tt
  else
    let* _ := require (sha256_digest (approval_hash p)) "approval_hash must be a lowercase SHA-256 digest." in
    let* hash := calculate_hash p in
    require (bool_decide (approval_hash p = hash)) "Complete proposal approval_hash does not match its payload.".

(** The envelope: all that comes before the modules. *)
Definition check_envelope (auth : authorities) (policy : ScalePolicy) (p : CompleteProposal) : res unit :=
  let* _ := ScalePolicy.validate policy in
  let* _ := require (bool_decide (schema_version p ∈ [u "mmm/complete-proposal-v1"; u "mmm/complete-proposal-v2"]))
              "Unsupported complete proposal schema" in
  let* _ := require (1 <=? proposal_version p) "proposal_version must be a positive integer." in
  let* _ := require (nonblank (requested_prompt p)) "requested_prompt must not be empty." in
  let* _ := validate_proposal (base_proposal p) in
  let* _ := require (negb (bool_decide (game_design p = []))) "game_design must be a non-empty object." in
  let* _ := check_contexts auth p in
  let* _ := match json_canonical (JObj (game_design p)) with
            | Err CanonicalJsonError => spec_error "game_design must contain finite JSON values."
            | m => m
            end in
  require (negb (bool_decide (modules p = [])) || host_fixture_only (game_design p))
    "A complete proposal must contain at least one production module.".

Definition check_all_modules (policy : ScalePolicy) (p : CompleteProposal) : res unit :=
  let owned := bootstrap_module_ids (pr_spec (base_proposal p)) in
  let* _ := require (forallb (fun m => negb (bool_decide (module_id m ∈ owned))) (modules p))
              "Production modules may not duplicate bootstrap-owned content IDs" in
  let* _ := check_modules policy [] (modules p) in
  let* _ := check_each (check_dependencies (map module_id (modules p))) (modules p) in
  _validate_acyclic (modules p).

Definition validate_complete (auth : authorities) (policy : ScalePolicy) (p : CompleteProposal) : res unit :=
  let* _ := check_envelope auth policy p in
  let* _ := check_all_modules policy p in
  let* jobs := artifact_jobs p in
  let* _ := check_routes p jobs in
  let* _ := require (bool_decide (length (assets p) = 0%nat)) "AI_TEXTURE_GENERATION_REMOVED" in
  let* _ := require (negb (bool_decide (acceptance_tests p = []))) "acceptance_tests must contain at least one test." in
  let* _ := require (bool_decide (NoDup (acceptance_tests p))) "acceptance_tests must not contain duplicates." in
  let* _ := require (forallb nonblank (acceptance_tests p)) "acceptance_tests must contain non-empty strings." in
  let* _ := check_contract auth p in
  let* _ := require (bool_decide (existing_input_sha256 p = []) || sha256_digest (existing_input_sha256 p))
              "existing_input_sha256 must be empty or a lowercase SHA-256 digest." in
  check_approval p.

(** ** Approval *)

Definition with_approval (p : CompleteProposal) (s : ProposalStatus) (hash : pystr) : CompleteProposal :=
  Complete (schema_version p) (proposal_version p) s (requested_prompt p) (base_proposal p) (game_design p) (modules p)
    (assets p) (acceptance_tests p) (external_runtime_required p) (existing_input_sha256 p) hash.

Definition with_hash (p : CompleteProposal) : res CompleteProposal :=
  let draft := with_approval p AWAITING_APPROVAL [] in
  let* hash := calculate_hash draft in
  Ok (with_approval draft AWAITING_APPROVAL hash).

Definition approve (auth : authorities) (policy : ScalePolicy) (p : CompleteProposal) (supplied_hash : pystr)
    : res CompleteProposal :=
  let* _ := validate_complete auth policy p in
  let* expected := calculate_hash p in
  if bool_decide (supplied_hash = expected) then Ok (with_approval p APPROVED expected)
  else spec_error "Complete proposal approval hash mismatch.".
End proposal.
