(* ===== verification/Approval.v ===== *)
(** * Approval: what an approval hash stands for

    The hash of a proposal determines the proposal, unless SHA-256 has a collision on two
    canonical texts; approving one and validating it again agree; and what validation
    accepts can be ordered and routed. *)

From stdpp Require Import prelude gmap sets fin_sets strings list sorting relations.
From S2P Require Import Prelude Text Json StdJson PyJson JsonStream JsonReader JsonParser JsonRoundtrip Sha256 Paths.
From S2P Require Import ScalePolicy Backend Kahn WorkPlan Topological TargetContract ArtifactPorts ArtifactJob.
From S2P Require Import GraphExecutor SpecIdentity Specification CompleteProposal.

Open Scope Z_scope.
Open Scope py_scope.

(** ** Validation steps *)

Lemma require_ok b why : require b why = Ok tt <-> b = true.
Proof. unfold require, spec_error. destruct b; naive_solver. Qed.

(** [let* _ := require b why in k] *)
Lemma require_bind {A} b why (k : res A) a : (let* _ := require b why in k) = Ok a <-> b = true /\ k = Ok a.
Proof. unfold require, spec_error. destruct b; cbn; naive_solver. Qed.

Lemma check_bind {A} (m : res unit) (k : res A) a : (let* _ := m in k) = Ok a <-> m = Ok tt /\ k = Ok a.
Proof. destruct m as [[]|]; cbn; naive_solver. Qed.

Lemma res_map_list_forall {A} (check : A -> res unit) l us :
  res_map_list check l = Ok us -> Forall (fun x => check x = Ok tt) l.
Proof. intros Hl%res_map_list_ok. induction Hl as [|x [] l us Hx _ IH]; by constructor. Qed.

Lemma check_each_ok {A} (check : A -> res unit) l : check_each check l = Ok tt -> Forall (fun x => check x = Ok tt) l.
Proof. unfold check_each. rewrite res_bind_ok. intros (us & Hl & _). by eapply res_map_list_forall. Qed.

(** ** Digests *)

Lemma sha256_text_digest t d : sha256_text t = Ok d -> sha256_digest d = true.
Proof.
  unfold sha256_text. rewrite res_bind_ok. intros (b & _ & [= <-]). destruct (hexdigest_shape b) as [Hl Hc].
  unfold sha256_digest. apply andb_true_iff. split; [exact (starts_with_app (u "sha256:") (hexdigest b))|].
  change (is_sha256 (hexdigest b) = true). unfold is_sha256. rewrite Hl. exact Hc.
Qed.

(** Two different texts with one digest. *)
Definition sha256_collision (t t' : pystr) : Prop :=
  exists b b', utf8_encode t = Ok b /\ utf8_encode t' = Ok b' /\ b <> b' /\ hexdigest b = hexdigest b'.

Section digests.
Context `{PyFloatLaws}.

Lemma digest_binds j j' d :
  wf_json j = true -> wf_json j' = true -> digest_of j = Ok d -> digest_of j' = Ok d ->
  json_sorted j = json_sorted j' \/
  exists t t', json_canonical j = Ok t /\ json_canonical j' = Ok t' /\ sha256_collision t t'.
Proof.
  unfold digest_of. rewrite !res_bind_ok. intros Hw Hw' (t & Ht & Hd) (t' & Ht' & Hd').
  unfold sha256_text in Hd, Hd'. rewrite res_bind_ok in Hd, Hd'. destruct Hd as (b & Hb & [= <-]), Hd' as (b' & Hb' & Hd).
  injection Hd as Hd. destruct (decide (b = b')) as [->|Hne].
  - left. assert (t = t') as <-.
    { apply utf8_decode_encode in Hb, Hb'. congruence. }
    apply canonical_text_parses in Ht, Ht'; [|done..]. congruence.
  - right. exists t, t'. split_and!; [done..|]. by exists b, b'.
Qed.
End digests.

(** ** Records in their canonical form *)

Section forms.
Context `{PyFloat}.

Lemma rows_unique {V} (l l' : list (pystr * V)) : l.*1 = l'.*1 -> NoDup l.*1 -> l ≡ₚ l' -> l = l'.
Proof.
  revert l'. induction l as [|[k v] l IH]; intros [|[k' v'] l'] Hk Hn Hp; try done.
  cbn [fmap list_fmap fst] in *. injection Hk as <- Hk. apply NoDup_cons in Hn as [Hnot Hn].
  assert (v = v') as <-.
  { assert (Hin : (k, v) ∈ (k, v') :: l') by (rewrite <- Hp; left).
    apply elem_of_cons in Hin as [[= ->]|Hin]; [done|]. exfalso. apply Hnot. rewrite Hk. by apply (list_elem_of_fmap_2 fst) in Hin. }
  f_equal. apply Permutation_cons_inv in Hp. auto.
Qed.

Lemma sorted_rows (l l' : list (pystr * json)) :
  l.*1 = l'.*1 -> NoDup l.*1 -> json_sorted (JObj l) = json_sorted (JObj l') -> map json_sorted l.*2 = map json_sorted l'.*2.
Proof.
  intros Hk Hn [= Hs]. set (f := fun kv : pystr * json => (kv.1, json_sorted kv.2)) in *.
  assert (Hf : forall r, (map f r).*1 = r.*1 /\ (map f r).*2 = map json_sorted r.*2).
  { induction r as [|[k v] r [IH1 IH2]]; [done|]. cbn [map fmap list_fmap fst snd f] in *. by rewrite IH1, IH2. }
  destruct (Hf l) as [H1 H2], (Hf l') as [H1' H2']. rewrite <- H2, <- H2'. f_equal.
  apply rows_unique; [by rewrite H1, H1'|by rewrite H1|].
  unfold sort_items in Hs. rewrite <- (merge_sort_Permutation by_key (map f l)), Hs. apply merge_sort_Permutation.
Qed.

Lemma sorted_texts l l' : map json_sorted (map JStr l) = map json_sorted (map JStr l') -> l = l'.
Proof.
  revert l'. induction l as [|s l IH]; intros [|s' l'] Hl; try done.
  cbn [map json_sorted] in Hl. injection Hl as <- Hl. f_equal. by apply IH.
Qed.

Lemma sorted_arrays {A} (f : A -> json) (R : A -> A -> Prop) l l' :
  (forall x y, json_sorted (f x) = json_sorted (f y) -> R x y) ->
  map json_sorted (map f l) = map json_sorted (map f l') -> Forall2 R l l'.
Proof.
  intros Hf. revert l'. induction l as [|x l IH]; intros [|y l'] Hl; try done.
  cbn [map] in Hl. injection Hl as Hx Hl. constructor; auto.
Qed.

Lemma cons_eq_inv {A} (x y : A) l l' : x :: l = y :: l' -> x = y /\ l = l'.
Proof. by intros [= -> ->]. Qed.

Lemma Forall2_same {A} (l l' : list A) : Forall2 eq l l' -> l = l'.
Proof. induction 1; congruence. Qed.
End forms.

(** Opens the equation of two records in canonical form into those of their fields. *)
Ltac split_rows H :=
  lazymatch type of H with
  | _ :: _ = _ :: _ =>
      let E := fresh "E" in
      apply cons_eq_inv in H as [E H];
      try lazymatch type of E with
          | JStr _ = JStr _ => injection E as E
          | JInt _ = JInt _ => injection E as E
          | JBool _ = JBool _ => injection E as E
          | JArr _ = JArr _ => injection E as E
          end;
      split_rows H
  | _ => clear H
  end.

Ltac open_rows H :=
  apply sorted_rows in H; [|reflexivity|apply (bool_decide_unpack _); vm_compute; exact I];
  cbn [map fmap list_fmap app fst snd str_fields texts json_sorted] in H; split_rows H.

Ltac open_texts :=
  repeat match goal with E : map json_sorted (map JStr _) = map json_sorted (map JStr _) |- _ => apply sorted_texts in E end.

Section injective.
Context `{PyFloat}.

Lemma platform_json_inj p q : json_sorted (platform_json p) = json_sorted (platform_json q) -> p = q.
Proof. destruct p, q. unfold platform_json. intros Hj. open_rows Hj. open_texts. by subst. Qed.

Lemma content_json_inj c d : json_sorted (content_json c) = json_sorted (content_json d) -> c = d.
Proof. destruct c as [? [] ? ? ? ?], d as [? [] ? ? ? ?]; unfold content_json; intros Hj; open_rows Hj; by subst. Qed.

Lemma evidence_json_inj e f : json_sorted (evidence_json e) = json_sorted (evidence_json f) -> e = f.
Proof. destruct e, f. unfold evidence_json. intros Hj. open_rows Hj. by subst. Qed.

Lemma deferred_json_inj e f : json_sorted (deferred_json e) = json_sorted (deferred_json f) -> e = f.
Proof. destruct e, f. unfold deferred_json. intros Hj. open_rows Hj. by subst. Qed.

(** The numbers of a boss that passed validation are their own canonical form. *)
Definition numeric (b : BossSpec) : Prop :=
  Forall (fun v => json_sorted v = v) [max_health b; attack_damage b; movement_speed b; boss_scale b].

Lemma boss_json_inj b c : numeric b -> numeric c -> json_sorted (boss_json b) = json_sorted (boss_json c) -> b = c.
Proof.
  unfold numeric. rewrite !Forall_cons. destruct b as [b1 b2 b3 b4 b5 b6 b7 b8 b9 b10],
    c as [c1 c2 c3 c4 c5 c6 c7 c8 c9 c10]. unfold boss_json.
  cbn [entity_id boss_name_en boss_name_ko max_health attack_damage movement_speed boss_scale primary_color secondary_color model_kind].
  intros Hb Hc Hj. open_rows Hj. destruct Hb as (? & ? & ? & ? & _), Hc as (? & ? & ? & ? & _).
  f_equal; congruence.
Qed.

Definition numeric_spec (m : ModSpec) : Prop := forall b, boss m = Some b -> numeric b.

Lemma spec_json_inj m n : numeric_spec m -> numeric_spec n -> json_sorted (spec_json m) = json_sorted (spec_json n) -> m = n.
Proof.
  unfold numeric_spec. destruct m as [m1 m2 m3 m4 m5 cs b pl], n as [n1 n2 n3 n4 n5 cs' b' pl']. cbn [boss]. intros Hm Hn. unfold spec_json.
  cbn [mod_id mod_name package_name mod_version mod_summary contents boss platform]. intros Hj. open_rows Hj.
  repeat match goal with E : map json_sorted (map content_json _) = _ |- _ =>
    apply (sorted_arrays _ _ _ _ content_json_inj), Forall2_same in E end.
  assert (b = b') as ->.
  { destruct b as [b|], b' as [b'|]; try done.
    f_equal. apply boss_json_inj; [by apply Hm|by apply Hn|done]. }
  repeat match goal with E : json_sorted (platform_json _) = _ |- _ => apply platform_json_inj in E end. by subst.
Qed.

Lemma proposal_json_inj p q :
  numeric_spec (pr_spec p) -> numeric_spec (pr_spec q) ->
  json_sorted (proposal_json p) = json_sorted (proposal_json q) -> p = q.
Proof.
  destruct p as [p1 p2 s p4 p5 p6 p7 p8 p9 p10 p11 p12 p13 p14 p15], q as [q1 q2 s' q4 q5 q6 q7 q8 q9 q10 q11 q12 q13 q14 q15]. cbn [pr_spec]. intros Hp Hq.
  unfold proposal_json, proposal_rows.
  cbn [pr_schema_version pr_proposal_version pr_status pr_requested_prompt pr_spec pr_assumptions pr_exclusions
       pr_deferred_requests pr_acceptance_tests pr_evidence_sources pr_evidence_snapshot_hash
       pr_capability_manifest_hash pr_imported_source_snapshot_hash pr_risk_approvals pr_approval_hash].
  intros Hj. assert (Hs : status_value s = status_value s' -> s = s') by (destruct s, s'; done).
  open_rows Hj. open_texts.
  repeat match goal with
  | E : map json_sorted (map deferred_json _) = _ |- _ => apply (sorted_arrays _ _ _ _ deferred_json_inj), Forall2_same in E
  | E : map json_sorted (map evidence_json _) = _ |- _ => apply (sorted_arrays _ _ _ _ evidence_json_inj), Forall2_same in E
  | E : json_sorted (spec_json _) = _ |- _ => apply spec_json_inj in E; [|done..]
  end.
  rewrite Hs by done. by subst.
Qed.

(** Two modules are the same but for the order of the keys in their configurations. *)
Definition same_module (m n : ProductionModule) : Prop :=
  module_id m = module_id n /\ kind m = kind n /\ depends_on m = depends_on n /\ required_gates m = required_gates n /\
  json_sorted (JObj (config m)) = json_sorted (JObj (config n)).

Lemma module_json_inj m n : json_sorted (module_json m) = json_sorted (module_json n) -> same_module m n.
Proof.
  unfold same_module. destruct m as [m1 m2 m3 m4 m5], n as [n1 n2 n3 n4 n5]. unfold module_json. cbn [module_id kind config depends_on required_gates].
  intros Hj. open_rows Hj. open_texts. cbn [json_sorted]. split_and!; congruence.
Qed.
End injective.

(** ** Approval and validation *)

Section approval.
Context `{PyFloatLaws, PyUnicode, !PyRepr, PyCasefold, PyIsDigit, !PyUrl}.

Lemma positive_number_sorted v : positive_number v = Ok true -> json_sorted v = v.
Proof. by destruct v. Qed.

Lemma validate_boss_numeric b : validate_boss b = Ok tt -> numeric b.
Proof.
  unfold validate_boss. rewrite check_bind. intros [Hn%check_each_ok _]. unfold numeric.
  eapply Forall_impl; [exact Hn|]. intros v Hv. cbn beta in Hv. apply res_bind_ok in Hv as ([] & Hp & Hr); [|done].
  by apply positive_number_sorted.
Qed.

Lemma validate_spec_numeric m : validate_spec m = Ok tt -> numeric_spec m.
Proof.
  unfold validate_spec. rewrite check_bind, !require_bind. intros (_ & _ & _ & _ & _ & _ & _ & Hm).
  apply res_bind_ok in Hm as (seen & _ & Hm). apply check_bind in Hm as [Hb _]. intros b Hboss. rewrite Hboss in Hb.
  unfold check_boss in Hb. apply check_bind in Hb as [Hb _]. by apply validate_boss_numeric.
Qed.

Lemma validate_proposal_spec p : validate_proposal p = Ok tt -> validate_spec (pr_spec p) = Ok tt.
Proof. unfold validate_proposal. rewrite !require_bind, check_bind. naive_solver. Qed.

(** What a valid proposal satisfies. *)
Record accepted auth policy (p : CompleteProposal) : Prop := Accepted {
  acc_envelope : check_envelope auth policy p = Ok tt;
  acc_modules : check_all_modules policy p = Ok tt;
  acc_routes : exists jobs, artifact_jobs p = Ok jobs /\ check_routes p jobs = Ok tt;
  acc_assets : assets p = [];
  acc_contract : check_contract auth p = Ok tt;
  acc_tests : acceptance_tests p <> [] /\ NoDup (acceptance_tests p) /\ forallb nonblank (acceptance_tests p) = true;
  acc_input : bool_decide (existing_input_sha256 p = []) || sha256_digest (existing_input_sha256 p) = true;
  acc_approval : check_approval p = Ok tt
}.

Lemma validate_complete_ok auth policy p : validate_complete auth policy p = Ok tt <-> accepted auth policy p.
Proof.
  unfold validate_complete. rewrite !check_bind, res_bind_ok. split.
  - intros (He & Hm & jobs & Hj & Hr). rewrite check_bind, !require_bind, check_bind, require_bind in Hr.
    destruct Hr as (Hroutes & Ha & Ht1 & Ht2 & Ht3 & Hc & Hi & Happ).
    rewrite negb_true_iff, bool_decide_eq_false in Ht1. rewrite bool_decide_eq_true in Ha, Ht2.
    constructor; eauto. by apply nil_length_inv.
  - intros [He Hm (jobs & Hj & Hr) Ha Hc (Ht1 & Ht2 & Ht3) Hi Happ]. split_and!; [done..|]. exists jobs. split; [done|].
    rewrite check_bind, !require_bind, check_bind, require_bind. split_and!; try done.
    + by rewrite Ha.
    + by apply negb_true_iff, bool_decide_eq_false.
    + by apply bool_decide_eq_true.
Qed.

(** The status and the hash only count for the last check. *)
Lemma accepted_with_approval auth policy p s h :
  accepted auth policy p -> check_approval (with_approval p s h) = Ok tt -> accepted auth policy (with_approval p s h).
Proof. intros [] Hc. by constructor. Qed.

Lemma check_approval_hash p s h : calculate_hash p = Ok h -> check_approval (with_approval p s h) = Ok tt.
Proof.
  intros Hh. assert (Hd : sha256_digest h = true).
  { unfold calculate_hash, digest_of in Hh. apply res_bind_ok in Hh as (t & _ & Ht). by eapply sha256_text_digest. }
  assert (Hne : bool_decide (h = []) = false) by (apply bool_decide_eq_false; by intros ->).
  unfold check_approval. cbn [with_approval approval_hash status]. rewrite Hne, andb_false_r, Hd.
  change (calculate_hash (with_approval p s h)) with (calculate_hash p). rewrite Hh. cbn. by rewrite bool_decide_true.
Qed.

Lemma approve_ok auth policy p h q :
  approve auth policy p h = Ok q <->
  validate_complete auth policy p = Ok tt /\ calculate_hash p = Ok h /\ q = with_approval p APPROVED h.
Proof.
  unfold approve. rewrite check_bind, res_bind_ok. split.
  - intros (Hv & e & He & Hq). split; [done|]. unfold spec_error in Hq. case_bool_decide; [|done]. subst. by injection Hq as <-.
  - intros (Hv & Hh & ->). split; [done|]. exists h. split; [done|]. by rewrite bool_decide_true.
Qed.

(** C8: A valid proposal that is shown with its hash is approved with that hash and with no
    other.  The approved proposal is valid and is approved again; it differs from the
    proposal in its status and its hash only. *)
Theorem shown_proposal_approved auth policy p shown :
  validate_complete auth policy p = Ok tt -> with_hash p = Ok shown ->
  exists q, approve auth policy shown (approval_hash shown) = Ok q /\ validate_complete auth policy q = Ok tt /\
    status q = APPROVED /\ with_approval q (status p) (approval_hash p) = p /\
    approve auth policy q (approval_hash shown) = Ok q /\
    forall h, h <> approval_hash shown -> is_ok (approve auth policy shown h) = false.
Proof.
  intros Hv%validate_complete_ok Hs. unfold with_hash in Hs. apply res_bind_ok in Hs as (hash & Hh & [= <-]).
  change (calculate_hash p = Ok hash) in Hh. cbn [with_approval approval_hash].
  set (shown := with_approval (with_approval p AWAITING_APPROVAL []) AWAITING_APPROVAL hash).
  assert (Hshown : accepted auth policy shown) by (apply (accepted_with_approval _ _ p), check_approval_hash; done).
  set (q := with_approval p APPROVED hash).
  assert (Hq : validate_complete auth policy q = Ok tt).
  { apply validate_complete_ok. apply (accepted_with_approval _ _ p); [done|]. by apply check_approval_hash. }
  exists q. split_and!; [|done|done|by destruct p| |].
  - apply approve_ok. split; [by apply validate_complete_ok|done].
  - by apply approve_ok.
  - intros h Hne. destruct (approve auth policy shown h) as [q'|e] eqn:E; [|done]. exfalso.
    apply approve_ok in E as (_ & Hh' & _). change (calculate_hash p = Ok h) in Hh'. congruence.
Qed.

(** ** The hash determines the proposal *)

Record same_proposal (p q : CompleteProposal) : Prop := SameProposal {
  same_schema : schema_version p = schema_version q;
  same_version : proposal_version p = proposal_version q;
  same_prompt : requested_prompt p = requested_prompt q;
  same_base : base_proposal p = base_proposal q;
  same_design : json_sorted (JObj (game_design p)) = json_sorted (JObj (game_design q));
  same_modules : Forall2 same_module (modules p) (modules q);
  same_assets : assets p = assets q;
  same_tests : acceptance_tests p = acceptance_tests q;
  same_runtime : external_runtime_required p = external_runtime_required q;
  same_input : existing_input_sha256 p = existing_input_sha256 q
}.

Lemma accepted_base auth policy p : accepted auth policy p -> numeric_spec (pr_spec (base_proposal p)).
Proof.
  intros Hp. apply acc_envelope in Hp. unfold check_envelope in Hp. rewrite check_bind, !require_bind, check_bind in Hp.
  destruct Hp as (_ & _ & _ & _ & Hb & _). by eapply validate_spec_numeric, validate_proposal_spec.
Qed.

Lemma hash_payload_inj p q :
  numeric_spec (pr_spec (base_proposal p)) -> numeric_spec (pr_spec (base_proposal q)) -> assets p = assets q ->
  json_sorted (hash_payload p) = json_sorted (hash_payload q) -> same_proposal p q.
Proof.
  destruct p as [p1 p2 p3 p4 p5 p6 p7 p8 p9 p10 p11 p12], q as [q1 q2 q3 q4 q5 q6 q7 q8 q9 q10 q11 q12].
  unfold hash_payload.
  cbn [schema_version proposal_version status requested_prompt base_proposal game_design modules assets
       acceptance_tests external_runtime_required existing_input_sha256 approval_hash].
  intros Hp Hq Ha Hj. open_rows Hj. open_texts.
  repeat match goal with
  | E : map json_sorted (map module_json _) = _ |- _ => apply (sorted_arrays _ _ _ _ module_json_inj) in E
  | E : json_sorted (proposal_json _) = _ |- _ => apply proposal_json_inj in E; [|done..]
  end.
  by constructor.
Qed.

(** C7: Two valid approved proposals with the same approval hash are the same in everything
    that is built from them (the base proposal with its platform and its evidence, the
    design, the modules with their configurations and dependencies, the tests), up to the
    order of the keys of JSON objects; otherwise their canonical texts are two different
    texts with the same SHA-256. *)
Theorem approval_hash_binds auth auth' policy policy' p q :
  validate_complete auth policy p = Ok tt -> validate_complete auth' policy' q = Ok tt ->
  status p = APPROVED -> status q = APPROVED -> approval_hash p = approval_hash q ->
  wf_json (hash_payload p) = true -> wf_json (hash_payload q) = true ->
  same_proposal p q \/
  exists t t', json_canonical (hash_payload p) = Ok t /\ json_canonical (hash_payload q) = Ok t' /\ sha256_collision t t'.
Proof.
  intros Hp%validate_complete_ok Hq%validate_complete_ok Hsp Hsq Heq Hwp Hwq.
  assert (Hhash : forall auth policy p, accepted auth policy p -> status p = APPROVED -> calculate_hash p = Ok (approval_hash p)).
  { clear. intros auth policy p [_ _ _ _ _ _ _ Hc] Hs. unfold check_approval in Hc. rewrite require_bind, Hs in Hc.
    destruct Hc as [Hne Hc]. rewrite negb_true_iff in Hne. cbn [is_approved] in Hne.
    destruct (bool_decide (approval_hash p = [])) eqn:E; [done|].
    apply require_bind in Hc as [_ Hc]. apply res_bind_ok in Hc as (h & Hh & Hc). apply require_ok, bool_decide_eq_true in Hc.
    by rewrite Hc. }
  pose proof (Hhash _ _ _ Hp Hsp) as Hh1. pose proof (Hhash _ _ _ Hq Hsq) as Hh2. rewrite Heq in Hh1.
  destruct (digest_binds _ _ _ Hwp Hwq Hh1 Hh2) as [Hs|Hc]; [left|by right].
  apply hash_payload_inj; [by eapply accepted_base|by eapply accepted_base| |done].
  by rewrite (acc_assets _ _ _ Hp), (acc_assets _ _ _ Hq).
Qed.

(** ** Routes *)

Record sound_module (m : ProductionModule) : Prop := SoundModule {
  sound_id : spec_id (module_id m) = true;
  sound_kind : kind m ∈ MODULE_KINDS;
  sound_plan : kind m = u "typed_host" <-> has_typed_plan m = true
}.

Lemma validate_module_sound policy m : validate_module policy m = Ok tt -> sound_module m.
Proof.
  unfold validate_module. rewrite !require_bind. intros (Hid & Hk & Hm). apply bool_decide_eq_true in Hk.
  apply check_bind in Hm as [Hp _]. constructor; [done..|].
  destruct (bool_decide (kind m = u "typed_host")) eqn:E.
  - apply bool_decide_eq_true in E. apply require_ok in Hp. by rewrite Hp.
  - apply bool_decide_eq_false in E. apply require_ok, negb_true_iff in Hp. by rewrite Hp.
Qed.

Lemma check_modules_ok policy seen l :
  check_modules policy seen l = Ok tt ->
  NoDup (map module_id l) /\ Forall sound_module l /\ forall id, id ∈ seen -> id ∉ map module_id l.
Proof.
  revert seen. induction l as [|m l IH]; intros seen Hl; cbn [check_modules map] in *.
  { split_and!; [constructor|done|intros ? _; apply not_elem_of_nil]. }
  rewrite check_bind, require_bind in Hl. destruct Hl as (Hm & Hs & Hl). apply negb_true_iff, bool_decide_eq_false in Hs.
  destruct (IH _ Hl) as (Hn & Hf & Hseen). split_and!.
  - apply NoDup_cons. split; [apply Hseen; left|done].
  - constructor; [by eapply validate_module_sound|done].
  - intros id Hid. rewrite not_elem_of_cons. split; [by intros ->|]. apply Hseen. by right.
Qed.

Record sound_modules (ms : list ProductionModule) : Prop := SoundModules {
  sound_ids : NoDup (map module_id ms);
  sound_each : Forall sound_module ms;
  sound_deps : forall m d, m ∈ ms -> d ∈ depends_on m -> d ∈ map module_id ms;
  sound_acyclic : _validate_acyclic ms = Ok tt
}.

Lemma check_all_modules_sound policy p : check_all_modules policy p = Ok tt -> sound_modules (modules p).
Proof.
  unfold check_all_modules. rewrite require_bind, !check_bind. intros (_ & Hm & Hd & Ha).
  apply check_modules_ok in Hm as (Hn & Hf & _). constructor; [done..| |done].
  apply check_each_ok in Hd. rewrite Forall_forall in Hd. intros m d Hm Hdep. specialize (Hd m Hm).
  unfold check_dependencies in Hd. apply require_bind in Hd as [Hd _]. rewrite forallb_forall in Hd.
  eapply bool_decide_eq_true_1, Hd. by apply list_elem_of_In.
Qed.

Lemma check_routes_ok p jobs :
  check_routes p jobs = Ok tt ->
  Forall (fun m => (exists j, j ∈ jobs /\ owner_module j = module_id m) \/
    (exists stage, native_production_stage (kind m) (config m) = Ok (Some stage)) /\
    production_module_backend_capabilities (kind m) ⊆
      normalize_capabilities (pl_deterministic_module_kinds (platform (pr_spec (base_proposal p))))) (modules p).
Proof.
  unfold check_routes. rewrite res_bind_ok. intros (routed & Hr & Hs). rewrite require_bind, require_ok in Hs.
  destruct Hs as [Hall Hs]. rewrite Forall_forall. intros m Hm. apply res_map_list_ok in Hr.
  rewrite forallb_forall in Hs. specialize (Hs m). rewrite <- list_elem_of_In in Hs. specialize (Hs Hm).
  assert (Hroute : has_route (filter (fun owner => owner <> []) (map owner_module jobs)) m = Ok true).
  { apply list_elem_of_lookup in Hm as [i Hi]. destruct (Forall2_lookup_l _ _ _ _ _ Hr Hi) as (b & Hb & Hm').
    rewrite Hm'. f_equal. rewrite forallb_forall in Hall. apply (Hall b), list_elem_of_In. by eapply list_elem_of_lookup_2. }
  unfold has_route, supported in *. case_bool_decide as Hin.
  - left. apply list_elem_of_filter in Hin as [_ Hin]. apply list_elem_of_fmap in Hin as (j & Hj & Hin). by exists j.
  - right. apply res_bind_ok in Hroute as (stage & Hst & [= Hsome]). apply bool_decide_eq_true in Hsome as [st ->].
    split; [by exists st|]. cbn [orb] in Hs. by apply bool_decide_eq_true, missing_empty in Hs.
Qed.

(** *** The text of a routing contract *)

Lemma scalar_id s : spec_id s = true -> scalar_string s = true.
Proof.
  intros Hs%spec_id_chars. destruct (utf8_encode_ascii s Hs) as [b Hb]. unfold utf8_encode in Hb.
  unfold scalar_string. by destruct (forallb scalar_value s).
Qed.

Lemma lstrip_forallb f s : forallb f s = true -> forallb f (lstrip s) = true.
Proof. induction s as [|c s IH]; [done|]. cbn [forallb lstrip]. rewrite andb_true_iff. intros [Hc Hs]. case_match; [auto|]. cbn. by rewrite Hc. Qed.

Lemma reverse_forallb (f : Z -> bool) s : forallb f s = true -> forallb f (reverse s) = true.
Proof.
  rewrite !forallb_forall. intros Hs x Hx. apply Hs, list_elem_of_In. apply list_elem_of_In in Hx. by rewrite elem_of_reverse in Hx.
Qed.

Lemma scalar_strip s : scalar_string s = true -> scalar_string (strip s) = true.
Proof. intros Hs. unfold scalar_string, strip in *. by apply reverse_forallb, lstrip_forallb, reverse_forallb, lstrip_forallb. Qed.

Lemma scalar_each l : forallb scalar_string l = true -> Forall (fun s => scalar_string s = true) l.
Proof. rewrite forallb_forall, Forall_forall. intros Hl x Hx. by apply Hl, list_elem_of_In. Qed.

Lemma wf_strs l : Forall (fun s => scalar_string s = true) l -> wf_json (Backend.strs l) = true.
Proof. unfold Backend.strs. cbn [wf_json]. induction 1 as [|s l Hs _ IH]; [done|]. cbn [map forallb wf_json]. by rewrite Hs. Qed.

Lemma stage_scalar k config stage : native_production_stage k config = Ok (Some stage) -> scalar_string stage = true.
Proof.
  assert (Hv : forall (t : list (pystr * pystr)) key, forallb (fun kv => scalar_string kv.2) t = true ->
    dict_get key t = Some stage -> scalar_string stage = true).
  { intros t key Ht Hg. apply dict_get_in, list_elem_of_In in Hg. rewrite forallb_forall in Ht. by apply (Ht (key, stage)). }
  unfold native_production_stage. destruct (dict_get (strip k) NATIVE_PRODUCTION_STAGE_BY_KIND) as [st|] eqn:E.
  - intros [= ->]. eapply Hv; [|exact E]. by vm_compute.
  - case_decide; [done|]. rewrite res_bind_ok. intros (ty & _ & Hg). apply (inj Ok) in Hg. eapply Hv; [|exact Hg]. by vm_compute.
Qed.

Lemma kind_scalar k : k ∈ MODULE_KINDS ->
  scalar_string k = true /\ Forall (fun s => scalar_string s = true) (sorted_set (production_module_backend_capabilities k)).
Proof.
  intros Hk. assert (Ht : forallb (fun k => scalar_string k && forallb scalar_string (sorted_set (production_module_backend_capabilities k)))
    MODULE_KINDS = true) by (by vm_compute).
  rewrite forallb_forall in Ht. apply list_elem_of_In, Ht, andb_true_iff in Hk as [Hs Hc]. split; [done|].
  rewrite Forall_forall. rewrite forallb_forall in Hc. intros x Hx. by apply Hc, list_elem_of_In.
Qed.

Lemma route_wf owners available m r : sound_module m -> route_of owners available m = Ok r -> wf_json (route_to_dict r) = true.
Proof.
  intros [Hid Hk _] Hr. apply scalar_id in Hid. destruct (kind_scalar _ Hk) as [Hks Hcaps].
  assert (Hwf : forall owner stage caps, scalar_string owner = true -> scalar_string stage = true ->
    Forall (fun s => scalar_string s = true) caps -> wf_json (route_to_dict (Route (module_id m) (kind m) owner stage caps)) = true).
  { intros owner stage caps Ho Hs Hc%wf_strs. unfold route_to_dict.
    cbn [r_module_id r_kind r_owner r_stage r_required_capabilities]. cbn [wf_json forallb fst snd].
    rewrite Hid, Hks, Ho, Hs. change (wf_json (Backend.strs caps)) with (wf_json (Backend.strs caps)) in Hc. rewrite Hc. by vm_compute. }
  unfold route_of in Hr. case_decide; [injection Hr as <-; by apply Hwf|].
  do 2 (case_match; [done|]). apply res_bind_ok in Hr as (stage & Hst & Hr). destruct stage as [stage|]; [|done].
  case_decide; [done|]. injection Hr as <-. apply Hwf; [done|by eapply stage_scalar|done].
Qed.

Lemma available_kinds kinds : normalize_capabilities (sorted_set (normalize_capabilities kinds)) = normalize_capabilities kinds.
Proof.
  apply set_eq. intros x. unfold normalize_capabilities at 1.
  rewrite elem_of_list_to_set, list_elem_of_filter, list_elem_of_fmap. split.
  - intros [Hne (y & -> & Hy)]. apply (proj1 (sorted_set_elem _ _)) in Hy. revert Hy. unfold normalize_capabilities.
    rewrite !elem_of_list_to_set, !list_elem_of_filter, !list_elem_of_fmap. intros [Hy (z & -> & Hz)].
    rewrite strip_idem in *. split; [done|]. by exists z.
  - intros Hx. assert (Hx' := Hx). unfold normalize_capabilities in Hx.
    rewrite elem_of_list_to_set, list_elem_of_filter, list_elem_of_fmap in Hx. destruct Hx as [Hne (z & -> & Hz)].
    split; [done|]. exists (strip z). split; [by rewrite strip_idem|]. by apply sorted_set_elem.
Qed.

Lemma scalar_kinds kinds : forallb scalar_string kinds = true ->
  Forall (fun s => scalar_string s = true) (sorted_set (normalize_capabilities kinds)).
Proof.
  intros Hk. rewrite Forall_forall. intros x Hx%sorted_set_elem. unfold normalize_capabilities in Hx.
  rewrite elem_of_list_to_set, list_elem_of_filter, list_elem_of_fmap in Hx. destruct Hx as [_ (z & -> & Hz)].
  apply scalar_strip. rewrite forallb_forall in Hk. by apply Hk, list_elem_of_In.
Qed.

(** How a module of an accepted proposal is produced: by the artifact jobs that it owns, or by
    a native generator that the platform supports. *)
Definition produced (jobs : list ArtifactJob) (kinds : list pystr) (m : ProductionModule) (r : ModuleProductionRoute) : Prop :=
  r_module_id r = module_id m /\ r_kind r = kind m /\
  if decide (module_id m ∈ artifact_owner_module_ids jobs)
  then r_owner r = u "artifact_graph" /\ r_stage r = u "content"
  else r_owner r = u "native_host" /\ native_production_stage (kind m) (config m) = Ok (Some (r_stage r)) /\
       production_module_backend_capabilities (kind m) ⊆ normalize_capabilities kinds.

Lemma route_of_total jobs kinds ids available m :
  sound_module m -> module_id m ∈ ids ->
  (module_id m ∉ artifact_owner_module_ids jobs -> normalize_capabilities available = normalize_capabilities kinds) ->
  ((exists j, j ∈ jobs /\ owner_module j = module_id m) \/
   (exists stage, native_production_stage (kind m) (config m) = Ok (Some stage)) /\
   production_module_backend_capabilities (kind m) ⊆ normalize_capabilities kinds) ->
  exists r, route_of (artifact_owner_module_ids jobs ∩ list_to_set ids) available m = Ok r /\ produced jobs kinds m r.
Proof.
  intros Hm Hin Hav Hroute. set (owners := artifact_owner_module_ids jobs ∩ list_to_set ids).
  assert (Howner : module_id m ∈ owners <-> module_id m ∈ artifact_owner_module_ids jobs).
  { unfold owners. rewrite elem_of_intersection, elem_of_list_to_set. tauto. }
  assert (Hr : exists r, route_of owners available m = Ok r).
  { unfold route_of. destruct (decide (module_id m ∈ owners)) as [|Hn]; [by eexists|].
    destruct Hroute as [(j & Hj & Ho)|[[stage Hst] Hcaps]].
    - exfalso. apply Hn, Howner. unfold artifact_owner_module_ids.
      rewrite elem_of_list_to_set, list_elem_of_filter, list_elem_of_fmap.
      rewrite <- (proper_no_space (module_id m)) by (apply spec_id_chars, sound_id; done). rewrite <- Ho. split; [|by exists j].
      rewrite Ho, proper_no_space by (apply spec_id_chars, sound_id; done). pose proof (sound_id m Hm). by destruct (module_id m).
    - pose proof (sound_plan m Hm) as Hp.
      destruct (bool_decide (kind m = u "typed_host")) eqn:Ek; [apply bool_decide_eq_true in Ek|apply bool_decide_eq_false in Ek].
      + rewrite (proj1 Hp Ek), (bool_decide_eq_false_2 (kind m <> _)) by tauto. cbn [negb andb]. rewrite Hst. cbn [res_bind].
        rewrite decide_False; [by eexists|]. intros Hne. apply Hne, missing_empty. by rewrite Hav by (rewrite <- Howner; done).
      + assert (has_typed_plan m = false) as -> by (apply not_true_iff_false; tauto).
        cbn [negb andb]. rewrite andb_false_r, Hst. cbn [res_bind].
        rewrite decide_False; [by eexists|]. intros Hne. apply Hne, missing_empty. by rewrite Hav by (rewrite <- Howner; done). }
  destruct Hr as [r Hr]. exists r. split; [done|]. apply route_of_ok in Hr as (Hid & Hkind & Hr). unfold produced.
  split_and!; [done..|]. destruct (decide (module_id m ∈ owners)) as [Hi|Hi].
  - by rewrite decide_True by (by apply Howner).
  - rewrite decide_False by (by rewrite <- Howner). destruct Hr as (? & ? & _ & Hc). split_and!; [done..|].
    by rewrite <- Hav by (rewrite <- Howner; done).
Qed.

Lemma routes_total {A B} (f : A -> res B) (R : A -> B -> Prop) l :
  (forall x, x ∈ l -> exists y, f x = Ok y /\ R x y) -> exists ys, res_map_list f l = Ok ys /\ Forall2 R l ys.
Proof.
  induction l as [|x l IH]; intros Hl; [by exists []|].
  destruct (Hl x ltac:(left)) as (y & Hy & HR). destruct IH as (ys & Hys & Hf); [intros z Hz; apply Hl; by right|].
  exists (y :: ys). cbn [res_map_list]. rewrite Hy. cbn [res_bind]. rewrite Hys. split; [done|by constructor].
Qed.

(** The routing contract of modules that can all be routed. *)
Lemma routing_total jobs kinds entrypoints ms :
  NoDup (map module_id ms) -> Forall sound_module ms ->
  Forall (fun m => (exists j, j ∈ jobs /\ owner_module j = module_id m) \/
    (exists stage, native_production_stage (kind m) (config m) = Ok (Some stage)) /\
    production_module_backend_capabilities (kind m) ⊆ normalize_capabilities kinds) ms ->
  forallb scalar_string entrypoints = true -> forallb scalar_string kinds = true ->
  exists s, compile_production_routing (artifact_owner_module_ids jobs) entrypoints kinds ms = Ok s /\
    Forall2 (produced jobs kinds) ms (rt_routes s).
Proof.
  intros Hn Hs Hr He Hk. unfold compile_production_routing. rewrite decide_False by tauto.
  set (owners := artifact_owner_module_ids jobs ∩ list_to_set (map module_id ms)). cbv zeta.
  set (native := filter (fun m => module_id m ∉ owners) ms).
  set (available := match native with [] => [] | _ => sorted_set (normalize_capabilities kinds) end).
  rewrite Forall_forall in Hs, Hr.
  destruct (routes_total (route_of owners available) (fun m r => produced jobs kinds m r /\ wf_json (route_to_dict r) = true) ms)
    as (routes & Hroutes & Hf).
  { intros m Hm. destruct (route_of_total jobs kinds (map module_id ms) available m) as (r & Hrt & Hp); auto.
    - by apply list_elem_of_fmap_2.
    - intros Hno. assert (Hnat : m ∈ native).
      { apply list_elem_of_filter. split; [|done]. unfold owners. rewrite elem_of_intersection. tauto. }
      unfold available. destruct native as [|x native']; [by apply elem_of_nil in Hnat|]. apply available_kinds.
    - exists r. split; [done|]. split; [done|]. eapply route_wf; [|exact Hrt]. auto. }
  rewrite Hroutes. cbn [res_bind].
  assert (Hwf : wf_json (JObj (routing_body available (sorted_set owners) entrypoints routes)) = true).
  { unfold routing_body. cbn [wf_json]. apply andb_true_iff. split; [by vm_compute|]. cbn [forallb fst snd].
    assert (Hav : Forall (fun s => scalar_string s = true) available).
    { unfold available. destruct native; [constructor|by apply scalar_kinds]. }
    assert (How : Forall (fun s => scalar_string s = true) (sorted_set owners)).
    { rewrite Forall_forall. intros x Hx%sorted_set_elem. apply elem_of_intersection in Hx as [_ Hx].
      rewrite elem_of_list_to_set in Hx. apply list_elem_of_fmap in Hx as (m & -> & Hm). by apply scalar_id, sound_id, Hs. }
    rewrite (wf_strs available), (wf_strs (sorted_set owners)), (wf_strs entrypoints); [|by apply scalar_each|done|done].
    assert (Hrs : forallb wf_json (map route_to_dict routes) = true).
    { clear -Hf. induction Hf as [|m r ms routes [_ Hw] _ IH]; [done|]. cbn [map forallb]. by rewrite Hw. }
    cbn [wf_json]. rewrite Hrs. by vm_compute. }
  rewrite canonical_json_agrees by done. destruct (json_canonical_total _ Hwf) as (t & -> & Ht). cbn [res_bind].
  unfold sha256_text, utf8_encode. unfold scalar_string in Ht. rewrite Ht. cbn [res_bind].
  eexists. split; [done|]. cbn [rt_routes]. eapply Forall2_impl; [exact Hf|]. by intros ? ? [? _].
Qed.

(** C9: The modules of a valid proposal can be ordered and routed: what validation accepts,
    the compilation of the production routes accepts too, and every module is produced by the
    artifact jobs it owns or by a native generator whose capabilities the platform has. *)
Theorem valid_proposal_routes auth policy p :
  validate_complete auth policy p = Ok tt ->
  exists jobs ordered, artifact_jobs p = Ok jobs /\ selected_modules (modules p) = Ok ordered /\ ordered ≡ₚ modules p /\
    let kinds := pl_deterministic_module_kinds (platform (pr_spec (base_proposal p))) in
    forall entrypoints, forallb scalar_string entrypoints = true -> forallb scalar_string kinds = true ->
    exists s, compile_production_routing (artifact_owner_module_ids jobs) entrypoints kinds ordered = Ok s /\
      Forall2 (produced jobs kinds) ordered (rt_routes s).
Proof.
  intros Hv%validate_complete_ok. destruct (check_all_modules_sound _ _ (acc_modules _ _ _ Hv)) as [Hn Hs Hd Ha].
  destruct (acc_routes _ _ _ Hv) as (jobs & Hj & Hr). apply check_routes_ok in Hr.
  destruct (proj2 (validate_acyclic_iff _ Hn) Ha Hd) as [ordered Ho]. exists jobs, ordered.
  pose proof (selected_modules_cases (modules p)) as Hc. rewrite Ho in Hc. destruct Hc as [_ Ht].
  apply topological_ok in Ht as [Hp _]; [|done]. split_and!; [done..|]. intros kinds entrypoints He Hk.
  apply routing_total; [by rewrite Hp|by rewrite Hp| |done|done]. by rewrite Hp.
Qed.
End approval.
