(* ===== verification/ProposalExamples.v ===== *)
(** * ProposalExamples: a proposal of two modules, shown, approved and routed *)

From stdpp Require Import prelude gmap sets strings list sorting.
From S2P Require Import JsonExamples LedgerExamples PatchExamples TargetExamples.
From S2P Require Import Prelude Text Json StdJson PyJson JsonStream Sha256 ScalePolicy Backend WorkPlan TargetContract.
From S2P Require Import ArtifactPorts ArtifactJob GraphExecutor SpecIdentity Specification Knowledge CompleteProposal Approval.

Open Scope Z_scope.
Open Scope py_scope.

#[export] Instance plain_PyUrl : PyUrl := {| odd_host := fun _ => Err ValueError |}.

(** ** Identifiers *)

Example ids : map (fun s => canonical_spec_id (u s) []) ["Lunite Ore!"; ""; "9 lives"; "a__b"; "a_b"]%string =
  map (fun s => Ok (u s)) ["lunite_ore"; "id"; "id_9_lives"; "a_b"; "a_b"]%string.
Proof. vm_compute. reflexivity. Qed.

(** A valid identifier is not always kept, and two of them may become the same one. *)
Example valid_id_changes : spec_id (u "a__b") = true /\ canonical_spec_id (u "a__b") [] = Ok (u "a_b").
Proof. vm_compute. split; reflexivity. Qed.

Lemma canonical_spec_id_valid_witness :
  exists id, canonical_spec_id (u "Lunite Ore!") [] = Ok id /\ spec_id id = true.
Proof. destruct (canonical_spec_id_valid (u "Lunite Ore!") []) as (id & Hv & Hs & _). exists id. split; [exact Hv|exact Hs]. Defined.

(** ** The platform *)

Definition sha_of (r : res pystr) : pystr := match r with Ok s => s | Err _ => [] end.
Definition zeros : pystr := replicate 64 48.

Definition lock_with (receipt : pystr) : PlatformLock :=
  Platform (u "java") (u "fabric") (u "1.21.1") (u "21") (u "1.21.1+build.3") (u "0.16.5") (u "0.105.0+1.21.1")
    (u "1.7.4") (u "8.8") (u "fabric-1.21.1") (u "yarn") (u "1.21.1+build.3") zeros
    (u "https://services.gradle.org/distributions/gradle-8.8-bin.zip") (u "48") (u "34.0") 34
    (u "https://piston-meta.mojang.com/mc/game/version_manifest_v2.json") (u "1.21") [u "item"; u "recipe"] receipt [].

Definition example_lock : PlatformLock := Eval vm_compute in lock_with (sha_of (platform_receipt_sha256 (lock_with []))).

Example lock_valid : validate_platform example_lock = Ok tt.
Proof. vm_compute. reflexivity. Qed.

(** Another Gradle, with the receipt as it was. *)
Example receipt_of_another : validate_platform (lock_with (u "sha256:" ++ zeros)) =
  spec_error "Platform lock receipt SHA-256 does not match its immutable provider coordinates.".
Proof. vm_compute. reflexivity. Qed.

(** ** The evidence *)

Lemma chosen_evidence_trusted_witness :
  exists l, evidence_for_target id (Some (u "gametest for an entity")) (u "1.21.1") = Ok l /\
    validate_trusted_evidence (Some (u "1.21.1")) l = Ok tt /\ length l = 6%nat.
Proof.
  destruct (chosen_evidence_trusted id (Some (u "gametest for an entity")) (u "1.21.1") ltac:(discriminate))
    as [(l & h & Hl & Hv & _ & _ & Hn) _].
  exists l. split; [exact Hl|]. split; [exact Hv|exact Hn].
Defined.

(** ** The proposal *)

Definition fabric_docs : EvidenceSource := Eval vm_compute in
  match _CATALOG_RECORDS with
  | _ :: r :: _ =>
      Evidence (cr_source_id r) (cr_title r) (cr_url r) (cr_authority r) (cr_version_scope r) (cr_verified_on r)
        (u "official_primary") (u "data_only") (sha_of (_record_sha256 r))
  | _ => Evidence [] [] [] [] [] [] [] [] []
  end.

Definition docs_snapshot : pystr := Eval vm_compute in sha_of (evidence_snapshot_hash [fabric_docs]).

(** A lock without a receipt: such a target has no native generators. *)
Definition plain_lock : PlatformLock :=
  Platform (u "java") (u "fabric") (u "1.21.1") (u "21") (u "1.21.1+build.3") (u "0.16.5") (u "0.105.0+1.21.1")
    (u "1.7.4") (u "8.8") [] [] [] [] [] [] [] 0 [] [] [] [] [].

Definition example_base : Proposal :=
  Propose (u "minecraft-mod-ai/proposal-v1") 1 AWAITING_APPROVAL (u "Add a lamp.")
    (Mod (u "lunite") (u "Lunite") (u "dev.lunite.mod") (u "1.0.0") (u "Lamps") [] None plain_lock)
    [] [] [] [u "The game starts."] [fabric_docs] docs_snapshot (u "sha256:" ++ zeros) [] [] [].

Definition no_contexts : authorities :=
  Authorities (fun _ => Err ValueError) (fun _ => Err ValueError) (fun _ _ _ _ _ => Ok tt).

Definition lamp_job : ArtifactJob :=
  Job (u "lamp") [] (u "lamp") MODEL [] [] [] None [] [] [] [] [] (u "PENDING") [] [] (u "ctx") (u "item/basic") (u "model:item").

Definition example_design : list (pystr * json) :=
  [(u "theme", JStr (u "light")); (u "_artifact_jobs", JArr [JObj (job_to_dict lamp_job)])].

Definition host_module : ProductionModule :=
  Module_ (u "host") (u "typed_host") [(u "typed_plan_ir", JObj [])] [u "lamp"] [u "build"].

Definition lamp_module : ProductionModule := Module_ (u "lamp") (u "block") [(u "light", JInt 15)] [] [].

Definition proposal_with (design : list (pystr * json)) (s : ProposalStatus) (hash : pystr) : CompleteProposal :=
  Complete (u "mmm/complete-proposal-v1") 1 s (u "Add a lamp.") example_base design [host_module; lamp_module] []
    [u "The lamp shines."] true [] hash.

Definition draft_proposal : CompleteProposal := proposal_with example_design AWAITING_APPROVAL [].

Lemma draft_valid : validate_complete no_contexts default_policy draft_proposal = Ok tt.
Proof. vm_compute. reflexivity. Qed.

Definition draft_hash : pystr := Eval vm_compute in sha_of (calculate_hash draft_proposal).

Lemma draft_hash_ok : calculate_hash draft_proposal = Ok draft_hash.
Proof. vm_compute. reflexivity. Qed.

Definition shown_proposal : CompleteProposal := with_approval draft_proposal AWAITING_APPROVAL draft_hash.

Lemma shown_is_shown : with_hash draft_proposal = Ok shown_proposal.
Proof.
  unfold with_hash. change (calculate_hash (with_approval draft_proposal AWAITING_APPROVAL [])) with (calculate_hash draft_proposal).
  rewrite draft_hash_ok. reflexivity.
Qed.

Lemma shown_proposal_approved_witness :
  validate_complete no_contexts default_policy draft_proposal = Ok tt /\
  is_ok (approve no_contexts default_policy shown_proposal (u "sha256:")) = false.
Proof.
  split; [exact draft_valid|].
  destruct (shown_proposal_approved no_contexts default_policy draft_proposal shown_proposal draft_valid shown_is_shown)
    as (q & _ & _ & _ & _ & _ & Hno).
  apply Hno. discriminate.
Defined.

(** The approved proposal, and the same with the keys of its design in another order. *)
Definition approved_proposal : CompleteProposal := with_approval draft_proposal APPROVED draft_hash.
Definition reordered_proposal : CompleteProposal := proposal_with (reverse example_design) APPROVED draft_hash.

Lemma approved_valid : validate_complete no_contexts default_policy approved_proposal = Ok tt.
Proof.
  apply validate_complete_ok, accepted_with_approval; [exact (proj1 (validate_complete_ok _ _ _) draft_valid)|].
  exact (check_approval_hash draft_proposal APPROVED draft_hash draft_hash_ok).
Qed.

Lemma reordered_valid : validate_complete no_contexts default_policy reordered_proposal = Ok tt.
Proof. vm_compute. reflexivity. Qed.

Lemma approval_hash_binds_witness :
  validate_complete no_contexts default_policy approved_proposal = Ok tt /\
  (same_proposal approved_proposal reordered_proposal \/
   exists t t', json_canonical (hash_payload approved_proposal) = Ok t /\
     json_canonical (hash_payload reordered_proposal) = Ok t' /\ sha256_collision t t').
Proof.
  split; [exact approved_valid|].
  apply (approval_hash_binds no_contexts no_contexts default_policy default_policy _ _ approved_valid reordered_valid);
    [reflexivity|reflexivity|reflexivity|vm_compute; reflexivity|vm_compute; reflexivity].
Defined.

Lemma valid_proposal_routes_witness :
  exists jobs ordered s, artifact_jobs draft_proposal = Ok jobs /\ selected_modules [host_module; lamp_module] = Ok ordered /\
    compile_production_routing (artifact_owner_module_ids jobs) [u "dev.lunite.mod.Lamp"] [] ordered = Ok s /\
    Forall2 (produced jobs []) ordered (rt_routes s).
Proof.
  destruct (valid_proposal_routes no_contexts default_policy draft_proposal draft_valid) as (jobs & ordered & Hj & Ho & _ & Hr).
  cbv zeta in Hr. destruct (Hr [u "dev.lunite.mod.Lamp"] eq_refl eq_refl) as (s & Hs & Hp).
  exists jobs, ordered, s. split; [exact Hj|]. split; [exact Ho|]. split; [exact Hs|exact Hp].
Defined.

(** ** A finding *)

(** [null] jobs are the same as no jobs, but with host facts they are a [TypeError]. *)
Example null_jobs : raw_artifact_jobs (proposal_with [(u "_artifact_jobs", JNull)] AWAITING_APPROVAL []) = Ok [] /\
  forall context, check_job_contexts context (Some JNull) = Err TypeError.
Proof. vm_compute. split; reflexivity. Qed.
